(* ===== verification/_CoqProject ===== *)
-Q . S2P
Prelude.v
PyFloat.v
PyString.v
OrderedDict.v
Metrics.v
Dns.v
Framing.v
Cache.v
CacheEvict.v
CacheProps.v
CacheTheorems.v
SingleFlight.v
Handler.v
HandlerProps.v
HandlerTheorems.v
Background.v
System.v
SystemProps.v
SystemOutcomes.v
SystemLemmas.v
SystemTheorems.v
Servers.v
ServerProps.v
ServerTheorems.v
Net.v
NetProps.v
NetOrder.v
NetTheorems.v
Warmup.v
Decimal.v
Upstream.v
UpstreamProps.v
UpstreamTheorems.v
UpstreamMatch.v
Base64.v
Relay.v
RelayTheorems.v
Asks.v
Forward.v
Stack.v
StackProps.v
Guarantees.v
StackTheorems.v
StackLive.v
Http.v
HttpTheorems.v
Config.v
Argparse.v
ArgNumbers.v
ArgparseProps.v
Args.v
ArgsTheorems.v
Main.v
Lifecycle.v
LifecycleProps.v
LifecycleTheorems.v
DnsCheck.v
