(* ===== verification/Prelude.v ===== *)
(** * ResilientDNS: a verification library

    ResilientDNS ([src/resilientdns]) is a caching DNS forwarder written with
    asyncio: a UDP and a TCP server hand each request to one handler, which
    answers from the cache when it can (fresh, or stale while a background task
    refreshes the entry), and otherwise resolves it through one of three
    upstream forwarders, at most once per question at a time.  Background
    workers refresh popular entries before they expire.

    ** Parts, files and how they interact

    - [Prelude] (this file): exceptions, the state-and-exception monad, truth
      values, list and integer lemmas, the hint database [rdns] and the tactics
      [runM], [zbool], [solve_preserves].  [PyFloat]: Python's [float], a double, and
      [socket.settimeout].  [PyString]: [str] methods.  [OrderedDict]:
      [collections.OrderedDict].  [Framing]: two-byte length prefixes and
      [StreamReader].  [Base64]: [base64].
    - [Metrics] ([metrics.py]): the registry of counters.  The class
      [HasMetrics] with [HasMetricsLaws] is how every other component reaches
      it.
    - [Dns]: what the program uses of the third-party package dnslib, as the
      class [Dnslib] (parsing, packing, names of types) with the laws
      [DnslibLaws]; the instance [toy_dnslib] is a small concrete encoding on which
      the witnesses run.
    - [Cache], [CacheEvict], [CacheProps], [CacheTheorems]
      ([cache/memory.py]): [MemoryDnsCache].
    - [SingleFlight] ([dns/singleflight.py]): the table of running tasks.
    - [Handler], [HandlerProps], [HandlerTheorems] ([dns/handler.py]):
      [DnsHandler], on the cache and the task table.
    - [System], [SystemProps], [SystemOutcomes], [SystemLemmas],
      [SystemTheorems]: the event loop that runs the handler: requests, task
      steps, cancellations, cleanups, refresh scans and worker jobs in any
      order ([event], [run_events]).
    - [Servers], [ServerProps], [ServerTheorems] ([dns/server.py]):
      [UdpDnsServer] and [TcpDnsServer].
    - [Net], [NetProps], [NetOrder], [NetTheorems]: the event loop that runs
      both servers with the handler: datagrams, connections, request tasks,
      cancellations and the handler's own events in any order ([net_event],
      [run_nets]).
    - [Warmup] ([refresh_warmup.py]): the warmup list.
    - [Upstream], [UpstreamProps], [UpstreamTheorems], [UpstreamMatch]
      ([upstream/udp_forwarder.py], [upstream/tcp_forwarder.py]): the UDP and
      TCP forwarders, the former with its sockets and threads, the latter with
      its pool of connections; [UpstreamMatch] adds what arrives on each
      connection.
    - [Relay], [RelayTheorems] ([relay_types.py], [relay_forwarder.py],
      [relay_startup_check.py]): the HTTPS relay and its startup check.
    - [Forward]: the class [Forwarder] with [ForwarderLaws], which is all the
      handler knows of an upstream ([_query_upstream]), and its three
      instances.  [Stack]: the event loop that runs servers, handler and a
      forwarder together, each query of a task being a query of the forwarder
      ([Stack], [run_stack], [run_stacks]).  [Asks] (a task asks for its own key),
      [StackProps] (the refinement and what a forwarder guarantees of its
      answers), [Guarantees] (proved of the three forwarders),
      [StackTheorems], [StackLive].
    - [Http], [HttpTheorems] ([dns/server.py]): [HttpMetricsServer] and
      [ReadyState].
    - [Background] ([dns/handler.py]): the scan loop, the refresh workers and
      the watcher of a stale refresh.
    - [Config] ([config.py]): settings and validation.  [Argparse],
      [ArgNumbers], [ArgparseProps]: what argparse makes of arguments, for
      any [Parser]; [Decimal]: numbers as text.  [Args], [ArgsTheorems]
      ([main.py]): the options of the server's command line.
    - [Main] ([main.py]): [main] from the arguments to the settings, the
      configuration each component gets, the warmup at start-up.
    - [Lifecycle], [LifecycleProps], [LifecycleTheorems] ([main.py],
      [dns/server.py]): [_run], the [run] and [stop] methods of the servers, the
      signal handlers and the background tasks as one transition system
      ([step] for the loop, [external] for signals and requests).
    - [DnsCheck] ([tools/dns-check/dns_check.py]): the stand-alone tool, from
      its command line to its report.

    ** Modelling conventions

    State is a record with the fields of the Python object; an operation is a
    function of the monad [M S A], in which an exception keeps the changes made
    before it.  A coroutine is cut at the [await]s at which it can be suspended
    for long: [f_begin] runs up to the suspension, [f_resume] from there with
    the awaited result, so that an interleaving is a list of such steps.  Code
    between two suspensions runs without interruption on the event loop, and
    the locks of the program are held over such code or over a whole access to
    what they guard, so each step is atomic.  [time.monotonic()] is an argument
    of the operation that reads it: an exact integer counting nanoseconds, where
    Python has a float.  The float of the command line, the upstream timeout, is
    a double ([PyFloat]), infinities and NaN included.  [DNSRecord]
    objects that several requests share live in a heap ([h_heap]), since the
    code mutates them.  Strings are sequences of 8-bit characters and Python's
    tables outside ASCII are not modelled.  Integers are unbounded, as in
    Python; lengths on the wire are checked against their two bytes.

    Arguments stand for what is outside the repository: dnslib ([Dnslib]), the
    upstream's behaviour, the socket, a connection's bytes and how reading past
    them ends ([stream]), the HTTP exchange with the relay, the JSON decoder,
    the check of a bracketed address in a URL, the version metadata, and whether
    [Server.wait_closed()] waits for the connected clients ([waits]: it does from
    Python 3.12 on, and the program allows 3.10).

    Two choices allow more runs than asyncio has, so that the theorems over all
    runs hold of fewer: a cancelled request task need not cancel the resolution
    it awaits ([Net]: a separate event may), and a TCP request task may stay in
    [drain()] for any time after its reply is written ([NWake], [NCancelDrain]).
    One makes a step of several: [_acquire_from_pool] closes connections under
    its lock, which keeps every other access to the pool out.

    The only fuel of the program's code is that of [client_loop], the loop over a
    TCP connection: each turn consumes at least the two length bytes, so fuel beyond
    the length of the stream is never used up ([tcp_client_serves_all] proves
    that all requests are served).

    ** What the theorems show

    - Cache: an abstract history of puts and clears says what a lookup must
      answer, and the cache refines it ([cache_refines_history],
      [cache_serves_only_history]); eviction, lifetime and statistics are
      exact; the invariant holds after every sequence of operations.
    - SingleFlight: one running task per key in every reachable state, joining
      and leading, and no leak.
    - Handler: the outcome of each path of [handle] (fresh, stale, miss,
      failure), of the scan and of the workers.
    - System: over every interleaving, clients get only answers to their own
      question under their own id ([responses_correct]), no request is stuck,
      upstream work, queue and cache are bounded, and the counters are exactly
      the numbers of requests that fared so ([requests_accounted]).
    - Servers: sizes, truncation, framing, inflight limits.
    - Servers on the event loop: over every interleaving the replies to a
      client answer distinct requests of that client ([clients_correct]), and
      those on a connection in order ([tcp_replies_in_order]).  The invariant is
      that of [System] with task results that may have been truncated in place
      ([derived true]), because the UDP server cuts down records that requests
      share.
    - Upstream and relay: ownership of pooled connections, exact answers,
      restored counts, round trips of base64 and of the relay format, a query
      that the relay reads back from the posted body
      ([relay_query_roundtrip]).  Over
      every interleaving of queries that share connections, a query that is not
      cancelled returns the server's answer to that very query
      ([tcp_answers_matched]).
    - The stack: servers and handler with a forwarder reach only states that
      they reach with some upstream answers (the lemma [stack_refines_net]), so
      that the theorems above on the event loop carry over; with what each forwarder guarantees, a reply to a client is traced to the upstream
      server's answer to a query for that client's question
      ([tcp_end_to_end], [relay_end_to_end]); tasks and running queries
      correspond ([queries_match_tasks]); a waiting request is served after
      finitely many turns whatever the upstream does
      ([stack_request_served]).
    - Command line: whatever the arguments, the namespace is well typed or the
      process exits with status 0 or 2 ([parse_args_typed]), and any settings
      of the listed types and choices can be given by the listed options, with
      the listed defaults ([parse_args_roundtrip]).  The tool dns-check is covered from its
      arguments to its last line of output ([dns_check_correct]).
    - Start-up: [main] runs exactly with the valid settings its arguments parse
      to, and these satisfy what the other theorems assume ([main_sound]).
    - Lifecycle: readiness is announced only when every server listens; a run
      that has ended has closed every socket and the forwarder and ended every
      task; after a stop request every schedule is finite and ends the run,
      unless [wait_closed()] waits for a client that stays connected
      ([shutdown_terminates]).  No failure of a refresh ends a refresh loop
      ([refresh_tasks_survive]).
    - Metrics server: at most one complete response per connection, and when
      the connection is closed ([http_client_correct]).

    ** Not modelled

    Logging is not modelled.  Of argparse only what the declared options use is
    modelled (at most one positional argument, no sub-commands, ASCII).
    [tcp_answers_matched] and [tcp_end_to_end] are about runs in which no
    query on a TCP connection is cancelled, and about servers that answer each
    query once; the other theorems on the stack allow cancellation. *)

From stdpp Require Import base list strings gmap sets pretty.
From Stdlib Require Import ZArith.
From Stdlib.Strings Require Import Byte.

(** ** Notation scope of the development *)

Declare Scope rdns_scope.
Delimit Scope rdns_scope with rdns.
Open Scope rdns_scope.

(** Bytes objects of the program. *)
Abbreviation bytes := (list Byte.byte).

(** ** Time

    [time.monotonic()] and the durations compared with it are exact integers
    counting nanoseconds; [SECOND] converts the program's integer seconds. *)
Definition SECOND : Z := 1000000000.

(** ** Python exceptions and the state-and-exception monad

    A computation of type [M S A] runs on a state [S]; an exception keeps the
    state changes made before it, as Python does. *)
Inductive exn : Type :=
| ValueError (msg : string)
| UnicodeDecodeError
| UnicodeEncodeError
| KeyError
| TypeError
| TimeoutError
| OverflowError
| IncompleteReadError
| LimitOverrunError
| ClientError                          (** [aiohttp.ClientError] *)
| RelayStartupCheckError (msg : string)
| OtherException
| SystemExit (msg : string)
| CancelledError.

#[global] Instance exn_eq_dec : EqDecision exn.
Proof. solve_decision. Defined.

Inductive res (A : Type) : Type :=
| Ret (a : A)
| Raise (e : exn).
Arguments Ret {A} a.
Arguments Raise {A} e.

#[global] Instance res_eq_dec `{EqDecision A} : EqDecision (res A).
Proof. solve_decision. Defined.

Definition M (S A : Type) : Type := S → S * res A.

#[global] Instance M_ret S : MRet (M S) := λ A a s, (s, Ret a).
#[global] Instance M_bind S : MBind (M S) := λ A B f m s,
  match m s with
  | (s', Ret a) => f a s'
  | (s', Raise e) => (s', Raise e)
  end.

Section monad_ops.
Context {S : Type}.

Definition get_state : M S S := λ s, (s, Ret s).
Definition gets {A} (f : S → A) : M S A := λ s, (s, Ret (f s)).
Definition modify (f : S → S) : M S () := λ s, (f s, Ret ()).
Definition raise {A} (e : exn) : M S A := λ s, (s, Raise e).

(** A Python expression without effect that can raise. *)
Definition lift_res {A} (r : res A) : M S A := λ s, (s, r).

(** A third-party call modelled as a partial function: [None] is a raise. *)
Definition lift_opt {A} (o : option A) (e : exn) : M S A :=
  λ s, (s, match o with Some a => Ret a | None => Raise e end).

(** [try: m  except <those e with p e>: h]. *)
Definition try_except {A} (m : M S A) (p : exn → bool) (h : exn → M S A) : M S A :=
  λ s, match m s with
       | (s', Ret a) => (s', Ret a)
       | (s', Raise e) => if p e then h e s' else (s', Raise e)
       end.

(** [try: m  finally: f], for an [f] that only changes the state. *)
Definition try_finally {A} (m : M S A) (f : S → S) : M S A :=
  λ s, match m s with (s', r) => (f s', r) end.

(** [try: m  finally: f], for an [f] that can raise itself. *)
Definition try_finally_do {A} (m : M S A) (f : M S ()) : M S A :=
  λ s, match m s with
       | (s', r) => match f s' with
                    | (s'', Ret _) => (s'', r)
                    | (s'', Raise e) => (s'', Raise e)
                    end
       end.
End monad_ops.

(** [except Exception]: every exception but [CancelledError] and
    [SystemExit], which derive from [BaseException]. *)
Definition is_Exception (e : exn) : bool :=
  match e with CancelledError | SystemExit _ => false | _ => true end.

(** [except ValueError]; the two Unicode errors derive from it. *)
Definition is_ValueError (e : exn) : bool :=
  match e with ValueError _ | UnicodeDecodeError | UnicodeEncodeError => true | _ => false end.

(** [if b: m] as a statement. *)
Definition when {S} (b : bool) (m : M S ()) : M S () := if b then m else mret ().

(** ** Truth values of Python objects ([if x:]) *)
Class Truthy (A : Type) := truthy : A → bool.
#[global] Hint Mode Truthy ! : typeclass_instances.

(** [b""] is false. *)
#[global] Instance truthy_list {A} : Truthy (list A) :=
  λ l, match l with [] => false | _ :: _ => true end.
(** [""] is false. *)
#[global] Instance truthy_string : Truthy string :=
  λ s, match s with EmptyString => false | _ => true end.
(** [None] is false, and an object is as true as itself. *)
#[global] Instance truthy_option `{Truthy A} : Truthy (option A) :=
  λ o, match o with None => false | Some a => truthy a end.

(** ** Running computations *)

Section monad_laws.
Context {S : Type}.
Implicit Types (A B : Type) (s : S).

Lemma bind_run {A B} (m : M S A) (f : A → M S B) s s' r :
  m s = (s', r) →
  (m ≫= f) s = match r with Ret a => f a s' | Raise e => (s', Raise e) end.
Proof. intros H. unfold mbind, M_bind. rewrite H. by destruct r. Qed.

Lemma bind_Ret_inv {A B} (m : M S A) (f : A → M S B) s s' b :
  (m ≫= f) s = (s', Ret b) →
  ∃ a s1, m s = (s1, Ret a) ∧ f a s1 = (s', Ret b).
Proof.
  unfold mbind, M_bind. destruct (m s) as [s1 [a|e]]; naive_solver.
Qed.
End monad_laws.

(** The definitions a proof unfolds to run a computation. *)
Ltac runM :=
  unfold mret, mbind, M_ret, M_bind, gets, get_state, modify, raise,
    lift_res, lift_opt, try_except, try_finally in *;
  cbn [fst snd] in *.

(** ** Automation shared by the component files *)
Create HintDb rdns.
Create Rewrite HintDb rdns.

(** Turn boolean tests of the code into propositions. *)
Ltac zbool :=
  repeat match goal with
  | H : (_ && _)%bool = true |- _ => apply andb_true_iff in H as [??]
  | H : (_ || _)%bool = false |- _ => apply orb_false_iff in H as [??]
  | H : negb _ = true |- _ => apply negb_true_iff in H
  | H : negb _ = false |- _ => apply negb_false_iff in H
  | H : (_ <=? _)%Z = true |- _ => apply Z.leb_le in H
  | H : (_ <=? _)%Z = false |- _ => apply Z.leb_gt in H
  | H : (_ <? _)%Z = true |- _ => apply Z.ltb_lt in H
  | H : (_ <? _)%Z = false |- _ => apply Z.ltb_ge in H
  | H : (_ =? _)%Z = true |- _ => apply Z.eqb_eq in H
  | H : (_ =? _)%Z = false |- _ => apply Z.eqb_neq in H
  | H : bool_decide _ = true |- _ => apply bool_decide_eq_true in H
  | H : bool_decide _ = false |- _ => apply bool_decide_eq_false in H
  end.

(** Length of a list as a Python [len]. *)
Definition len {A} (l : list A) : Z := Z.of_nat (length l).

Lemma len_nil {A} : len (@nil A) = 0%Z.
Proof. done. Qed.
Lemma len_cons {A} (x : A) l : len (x :: l) = (len l + 1)%Z.
Proof. unfold len. cbn [length]. lia. Qed.
Lemma len_app {A} (l k : list A) : len (l ++ k) = (len l + len k)%Z.
Proof. unfold len. rewrite length_app. lia. Qed.
Lemma len_nonneg {A} (l : list A) : (0 ≤ len l)%Z.
Proof. unfold len. lia. Qed.
#[export] Hint Rewrite @len_nil @len_cons @len_app : rdns.
#[export] Hint Resolve len_nonneg : rdns.

(** ** Lists *)
Lemma filter_all {A} (P : A → Prop) `{∀ x, Decision (P x)} (l : list A) :
  (∀ x, x ∈ l → P x) → filter P l = l.
Proof.
  induction l as [|a l IH]; intros Hl; [done|].
  rewrite filter_cons, decide_True by (apply Hl; constructor).
  f_equal. apply IH. intros x Hx. apply Hl. by constructor.
Qed.

Lemma filter_ext_elem {A} (P Q : A → Prop) `{∀ x, Decision (P x), ∀ x, Decision (Q x)} (l : list A) :
  (∀ x, x ∈ l → P x ↔ Q x) → filter P l = filter Q l.
Proof.
  induction l as [|a l IH]; intros Hl; [done|]. rewrite !filter_cons.
  rewrite (decide_ext (P a) (Q a)) by (apply Hl; constructor).
  rewrite IH; [done|]. intros x Hx. apply Hl. by constructor.
Qed.

Lemma filter_none {A} (P : A → Prop) `{∀ x, Decision (P x)} (l : list A) :
  (∀ x, x ∈ l → ¬ P x) → filter P l = [].
Proof.
  induction l as [|a l IH]; intros Hl; [done|].
  rewrite filter_cons, decide_False by (apply Hl; constructor).
  apply IH. intros x Hx. apply Hl. by constructor.
Qed.

(** The first result of [omap] comes from the first element that has one. *)
Lemma omap_cons_inv {A B} (f : A → option B) (l : list A) (y : B) (ys : list B) :
  omap f l = y :: ys →
  ∃ l1 x l2, l = l1 ++ x :: l2 ∧ f x = Some y ∧ Forall (λ x, f x = None) l1.
Proof.
  induction l as [|a l IH]; cbn; [done|]. destruct (f a) as [b|] eqn:E.
  - intros [= <- _]. by exists [], a, l.
  - intros (l1 & x & l2 & -> & Hx & Hl)%IH. exists (a :: l1), x, l2.
    split; [done|]. split; [done|]. by constructor.
Qed.

Lemma omap_nil_inv {A B} (f : A → option B) (l : list A) :
  omap f l = [] → Forall (λ x, f x = None) l.
Proof.
  induction l as [|a l IH]; cbn; [constructor|]. destruct (f a) eqn:E; [done|].
  intros Hl. constructor; auto.
Qed.

Lemma foldr_min_spec (t : Z) (ts : list Z) :
  foldr Z.min t ts ∈ t :: ts ∧ ∀ x, x ∈ t :: ts → (foldr Z.min t ts ≤ x)%Z.
Proof.
  induction ts as [|a ts [IHin IHle]]; cbn.
  - split; [constructor|]. intros x Hx%list_elem_of_singleton. lia.
  - split.
    + destruct (Z.min_spec a (foldr Z.min t ts)) as [[_ ->]|[_ ->]]; set_solver.
    + intros x. rewrite !elem_of_cons. intros [->|[->|Hx]].
      * specialize (IHle t ltac:(constructor)). lia.
      * lia.
      * specialize (IHle x ltac:(by constructor)). lia.
Qed.

(** ** Running a computation on a part of the state *)
Definition zoom {S T A} (get : S → T) (put : T → S → S) (m : M T A) : M S A :=
  λ s, match m (get s) with (t, r) => (put t s, r) end.

(** [except TypeError] *)
Definition is_TypeError (e : exn) : bool :=
  match e with TypeError => true | _ => false end.

(** ** Invariants of computations

    [preserves I m]: whatever [m] returns or raises, it keeps [I].  The rules
    follow the structure of the monad; [solve_preserves] applies them. *)
Definition preserves {S A} (I : S → Prop) (m : M S A) : Prop := ∀ s, I s → I (m s).1.

Section preserves.
Context {S : Type} (I : S → Prop).
Implicit Types (A B : Type).

Lemma preserves_ret {A} (a : A) : preserves I (mret a).
Proof. by intros s Hs. Qed.
Lemma preserves_raise {A} e : preserves I (raise (A := A) e).
Proof. by intros s Hs. Qed.
Lemma preserves_gets {A} (f : S → A) : preserves I (gets f).
Proof. by intros s Hs. Qed.
Lemma preserves_get_state : preserves I get_state.
Proof. by intros s Hs. Qed.
Lemma preserves_lift_res {A} (r : res A) : preserves I (lift_res r).
Proof. by intros s Hs. Qed.
Lemma preserves_lift_opt {A} (o : option A) e : preserves I (lift_opt o e).
Proof. by intros s Hs. Qed.
Lemma preserves_modify (f : S → S) : (∀ s, I s → I (f s)) → preserves I (modify f).
Proof. intros Hf s Hs. by apply Hf. Qed.
Lemma preserves_bind {A B} (m : M S A) (f : A → M S B) :
  preserves I m → (∀ a, preserves I (f a)) → preserves I (m ≫= f).
Proof.
  intros Hm Hf s Hs. specialize (Hm s Hs). unfold mbind, M_bind.
  destruct (m s) as [s' [a|e]]; [by apply Hf|done].
Qed.
Lemma preserves_try_except {A} (m : M S A) p (f : exn → M S A) :
  preserves I m → (∀ e, preserves I (f e)) → preserves I (try_except m p f).
Proof.
  intros Hm Hf s Hs. specialize (Hm s Hs). unfold try_except.
  destruct (m s) as [s' [a|e]]; [done|]. destruct (p e); [by apply Hf|done].
Qed.
Lemma preserves_try_finally {A} (m : M S A) (f : S → S) :
  preserves I m → (∀ s, I s → I (f s)) → preserves I (try_finally m f).
Proof.
  intros Hm Hf s Hs. specialize (Hm s Hs). unfold try_finally.
  destruct (m s) as [s' r]. by apply Hf.
Qed.
Lemma preserves_try_finally_do {A} (m : M S A) (f : M S ()) :
  preserves I m → preserves I f → preserves I (try_finally_do m f).
Proof.
  intros Hm Hf s Hs. specialize (Hm s Hs). unfold try_finally_do. destruct (m s) as [s' r].
  specialize (Hf s' Hm). by destruct (f s') as [s'' []].
Qed.
Lemma preserves_when b (m : M S ()) : preserves I m → preserves I (when b m).
Proof. intros Hm. destruct b; [done|apply preserves_ret]. Qed.
Lemma preserves_zoom {T A} (get : S → T) (put : T → S → S) (m : M T A) (J : T → Prop) :
  (∀ s, I s → J (get s)) → (∀ s t, I s → J t → I (put t s)) → preserves J m →
  preserves I (zoom get put m).
Proof.
  intros Hget Hput Hm s Hs. specialize (Hm _ (Hget s Hs)). unfold zoom.
  destruct (m (get s)) as [t r]. by apply Hput.
Qed.
End preserves.

#[export] Hint Resolve preserves_ret preserves_raise preserves_gets preserves_get_state
  preserves_lift_res preserves_lift_opt : rdns.

(** Walk a computation, leaving the goals no rule and no hint solves. *)
Ltac solve_preserves :=
  repeat first
    [ progress intros
    | solve [auto with rdns]
    | apply preserves_bind
    | apply preserves_try_except
    | apply preserves_try_finally
    | apply preserves_try_finally_do
    | apply preserves_when
    | match goal with
      | |- preserves _ (match ?x with _ => _ end) => destruct x
      end ].
