(* ===== verification/PyFloat.v ===== *)
(** * Floats of the command line

    Python's [float] is a double: a sign, a mantissa below [2 ^ 53] and an
    exponent, an infinity or a NaN, as the standard library's [spec_float].
    [round_quotient] is the correctly rounded quotient of two integers, from
    which [float(s)] of a decimal text and the arithmetic of [settimeout] are
    built; comparison is [SFleb], which is false of a NaN. *)
From S2P Require Import Prelude.
From stdpp Require Import base list strings.
From Stdlib Require Import ZArith.
From Stdlib.Floats Require Import SpecFloat.

Abbreviation float := spec_float.

#[global] Instance float_eq_dec : EqDecision float.
Proof. solve_decision. Defined.

(** Every finite double is a multiple of [2 ^ -1074]. *)
Definition MIN_EXP : Z := (-1074)%Z.
Definition MAX_EXP : Z := 971%Z.

(** A double: the mantissa has 53 bits, fewer only at the least exponent. *)
Definition float_ok (x : float) : Prop :=
  match x with
  | S754_finite _ m e =>
      (MIN_EXP ≤ e ≤ MAX_EXP ∧ Z.pos m < 2 ^ 53 ∧ (2 ^ 52 ≤ Z.pos m ∨ e = MIN_EXP))%Z
  | _ => True
  end.

(** [n / d] to the nearest integer, a tie to the even. *)
Definition nearest (n d : Z) : Z :=
  let q := (n / d)%Z in
  let r := (n mod d)%Z in
  if (2 * r <? d)%Z then q else if (d <? 2 * r)%Z then (q + 1)%Z else if Z.even q then q else (q + 1)%Z.

(** A mantissa of at most [2 ^ 53] at exponent [e]. *)
Definition pack_float (neg : bool) (m e : Z) : float :=
  let '(m, e) := if (m =? 2 ^ 53)%Z then ((2 ^ 52)%Z, (e + 1)%Z) else (m, e) in
  match m with
  | Z.pos p => if (MAX_EXP <? e)%Z then S754_infinity neg else S754_finite neg p e
  | _ => S754_zero neg
  end.

(** The double nearest to [n / d], for [n >= 0] and [d > 0]: [e] is how many
    bits of [n / d], counted from [2 ^ -1074] up, do not fit the mantissa. *)
Definition round_quotient (neg : bool) (n d : Z) : float :=
  let n := (n * 2 ^ (- MIN_EXP))%Z in
  let e := Z.max 0 (Z.log2 (n / d) - 52) in
  pack_float neg (nearest n (d * 2 ^ e)) (e + MIN_EXP).

Definition float_of_Z (z : Z) : float := round_quotient (z <? 0)%Z (Z.abs z) 1.

(** ** Rounding *)

Lemma nearest_spec n d : (0 < d)%Z → (2 * Z.abs (n - nearest n d * d) ≤ d)%Z.
Proof.
  intros Hd. pose proof (Z.div_mod n d ltac:(lia)). pose proof (Z.mod_pos_bound n d Hd).
  unfold nearest. destruct (2 * (n mod d) <? d)%Z eqn:E1; zbool; [lia|].
  destruct (d <? 2 * (n mod d))%Z eqn:E2; zbool; [lia|]. destruct (Z.even (n / d)); lia.
Qed.

Lemma nearest_exact m d : (0 < d)%Z → nearest (m * d) d = m.
Proof.
  intros Hd. unfold nearest. rewrite Z.div_mul, Z.mod_mul by lia. by rewrite (proj2 (Z.ltb_lt _ _)) by lia.
Qed.

Lemma nearest_range n d lo hi : (0 < d)%Z → (lo * d ≤ n < hi * d)%Z → (lo ≤ nearest n d ≤ hi)%Z.
Proof.
  intros Hd [Hlo Hhi].
  assert (lo ≤ n / d)%Z by (apply Z.div_le_lower_bound; lia).
  assert (n / d < hi)%Z by (apply Z.div_lt_upper_bound; lia).
  unfold nearest. repeat case_match; lia.
Qed.

Lemma pack_float_ok neg m e :
  (0 ≤ m ≤ 2 ^ 53)%Z → (MIN_EXP ≤ e)%Z → (2 ^ 52 ≤ m ∨ e = MIN_EXP)%Z → float_ok (pack_float neg m e).
Proof.
  intros Hm He Hn. unfold pack_float. destruct (m =? 2 ^ 53)%Z eqn:E; zbool.
  - change (2 ^ 52)%Z with 4503599627370496%Z. cbn match. destruct (MAX_EXP <? e + 1)%Z eqn:Ee; [done|]. zbool.
    unfold float_ok. lia.
  - destruct m as [|p|p]; [done| |done]. destruct (MAX_EXP <? e)%Z eqn:Ee; [done|]. zbool. unfold float_ok. lia.
Qed.

(** The exponent leaves a mantissa of 53 bits. *)
Lemma scale_range n d : (0 ≤ n)%Z → (0 < d)%Z →
  let e := Z.max 0 (Z.log2 (n / d) - 52) in
  (0 ≤ n < 2 ^ 53 * (d * 2 ^ e))%Z ∧ (e = 0 ∨ 2 ^ 52 * (d * 2 ^ e) ≤ n)%Z.
Proof.
  intros Hn Hd e. assert (0 ≤ n / d)%Z as Hq by (apply Z.div_pos; lia).
  assert (∀ k, (n / d < k)%Z → (n < k * d)%Z) as Hup.
  { intros k Hk. pose proof (Z.div_mod n d ltac:(lia)). pose proof (Z.mod_pos_bound n d Hd). nia. }
  split; [split; [done|]|].
  - replace (2 ^ 53 * (d * 2 ^ e))%Z with (2 ^ (53 + e) * d)%Z by (rewrite Z.pow_add_r by lia; lia).
    apply Hup. destruct (decide (n / d = 0)%Z) as [-> |]; [apply Z.pow_pos_nonneg; lia|].
    destruct (Z.log2_spec (n / d) ltac:(lia)) as [_ Hl]. eapply Z.lt_le_trans; [exact Hl|]. apply Z.pow_le_mono_r; lia.
  - destruct (decide (e = 0)%Z) as [|He]; [by left|right].
    replace (2 ^ 52 * (d * 2 ^ e))%Z with (2 ^ (52 + e) * d)%Z by (rewrite Z.pow_add_r by lia; lia).
    assert (0 < n / d)%Z by (destruct (decide (n / d = 0)%Z) as [E|]; [by unfold e in He; rewrite E in He|lia]).
    destruct (Z.log2_spec (n / d) ltac:(lia)) as [Hl _].
    replace (52 + e)%Z with (Z.log2 (n / d))%Z by lia. pose proof (Z.mul_div_le n d Hd). nia.
Qed.

Lemma round_quotient_ok neg n d : (0 ≤ n)%Z → (0 < d)%Z → float_ok (round_quotient neg n d).
Proof.
  intros Hn Hd. unfold round_quotient. set (n' := (n * 2 ^ (- MIN_EXP))%Z).
  assert (0 ≤ n')%Z as Hn' by (apply Z.mul_nonneg_nonneg; [done|apply Z.pow_nonneg; lia]).
  destruct (scale_range n' d Hn' Hd) as [[_ Hhi] Hlo].
  set (e := Z.max 0 (Z.log2 (n' / d) - 52)) in *.
  assert (0 < d * 2 ^ e)%Z as Hde by (apply Z.mul_pos_pos; [done|apply Z.pow_pos_nonneg; lia]).
  apply pack_float_ok; [apply nearest_range; lia|lia|].
  destruct Hlo as [-> |Hlo]; [by right|left]. eapply (nearest_range _ _ (2 ^ 52) (2 ^ 53)); lia.
Qed.

Lemma float_of_Z_ok z : float_ok (float_of_Z z).
Proof. apply round_quotient_ok; lia. Qed.

(** A quotient that is a double is that double. *)
Lemma round_quotient_exact neg p e n d :
  float_ok (S754_finite neg p e) → (0 < d)%Z → (n * 2 ^ (- MIN_EXP) = Z.pos p * 2 ^ (e - MIN_EXP) * d)%Z →
  round_quotient neg n d = S754_finite neg p e.
Proof.
  intros (He & Hp & Hn) Hd E. unfold round_quotient. rewrite E, Z.div_mul by lia.
  set (k := (e - MIN_EXP)%Z). assert (0 ≤ k)%Z as Hk by (unfold k; lia).
  rewrite Z.log2_mul_pow2 by lia.
  assert (Z.max 0 (k + Z.log2 (Z.pos p) - 52) = k)%Z as Ek.
  { destruct Hn as [Hn|Hn].
    - rewrite (Z.log2_unique (Z.pos p) 52) by lia. lia.
    - assert (Z.log2 (Z.pos p) < 53)%Z by (apply Z.log2_lt_pow2; lia).
      assert (k = 0)%Z by (unfold k; lia). lia. }
  cbv zeta. rewrite Ek.
  replace (Z.pos p * 2 ^ k * d)%Z with (Z.pos p * (d * 2 ^ k))%Z by lia.
  rewrite nearest_exact by (apply Z.mul_pos_pos; [done|apply Z.pow_pos_nonneg; lia]).
  unfold pack_float. rewrite (proj2 (Z.eqb_neq _ _)) by lia.
  replace (k + MIN_EXP)%Z with e by (unfold k; lia). by rewrite (proj2 (Z.ltb_ge _ _)) by lia.
Qed.

Lemma round_quotient_zero neg d : (0 < d)%Z → round_quotient neg 0 d = S754_zero neg.
Proof.
  intros Hd. unfold round_quotient. rewrite Z.mul_0_l. cbv zeta. set (e := Z.max 0 _).
  assert (0 < d * 2 ^ e)%Z as Hde by (apply Z.mul_pos_pos; [done|apply Z.pow_pos_nonneg; lia]).
  assert (nearest 0 (d * 2 ^ e) = 0)%Z as -> by exact (nearest_exact 0 _ Hde). done.
Qed.

(** 1/10, the least double, and what is rounded to zero or overflows. *)
Lemma round_quotient_examples :
  round_quotient false 1 10 = S754_finite false 7205759403792794 (-56)
  ∧ round_quotient false 5 (10 ^ 324) = S754_finite false 1 (-1074)
  ∧ round_quotient false 2 (10 ^ 324) = S754_zero false
  ∧ round_quotient true (10 ^ 309) 1 = S754_infinity true
  ∧ float_of_Z 2 = S754_finite false 4503599627370496 (-51).
Proof. vm_compute. done. Qed.

(** ** [sock.settimeout(x)] *)

(** [x * 1e9], a double, rounded away from zero to an integer; [None] when it
    is infinite. *)
Definition timeout_ns (x : float) : option Z :=
  match x with
  | S754_finite neg m e =>
      match round_quotient neg (Z.pos m * 10 ^ 9 * 2 ^ (e - MIN_EXP)) (2 ^ (- MIN_EXP)) with
      | S754_finite _ m e =>
          let ns := (- (- (Z.pos m * 2 ^ (e - MIN_EXP)) / 2 ^ (- MIN_EXP)))%Z in
          Some (if neg then - ns else ns)%Z
      | S754_zero _ => Some 0%Z
      | _ => None
      end
  | S754_zero _ => Some 0%Z
  | _ => None
  end.

(** A NaN or a negative timeout is a [ValueError]; one that does not fit 64
    bits of nanoseconds or an [int] of milliseconds is an [OverflowError]. *)
Definition settimeout (x : float) : res unit :=
  match x with
  | S754_nan => Raise (ValueError "Invalid value NaN (not a number)")
  | _ =>
      match timeout_ns x with
      | None => Raise OverflowError
      | Some ns =>
          if (ns <? - 2 ^ 63)%Z then Raise OverflowError
          else if (ns <? 0)%Z then Raise (ValueError "Timeout value out of range")
          else if ((2 ^ 31 - 1) * 10 ^ 6 <? ns)%Z then Raise OverflowError
          else Ret ()
      end
  end.

(** Two seconds, the largest timeout, and one that is a millisecond larger. *)
Lemma settimeout_examples :
  settimeout (float_of_Z 2) = Ret ()
  ∧ settimeout (float_of_Z (-1)) = Raise (ValueError "Timeout value out of range")
  ∧ settimeout (round_quotient false 2147483647 1000) = Ret ()
  ∧ settimeout (round_quotient false 2147483648 1000) = Raise OverflowError
  ∧ settimeout (S754_infinity false) = Raise OverflowError
  ∧ timeout_ns (round_quotient false 1 (10 ^ 10)) = Some 1%Z.
Proof. vm_compute. done. Qed.

Lemma settimeout_raises x e : settimeout x = Raise e → is_Exception e = true.
Proof. unfold settimeout. repeat case_match; intros; by simplify_eq. Qed.
