(* ===== verification/PyString.v ===== *)
(** * Python string methods on ASCII text

    What the program uses of [str]: [lower], [upper], [strip], [rstrip],
    [split], [splitlines], [startswith], [isdigit] and [int].  A [string] is a
    sequence of ASCII characters; outside ASCII, Python's tables decide. *)
From S2P Require Import Prelude.
From stdpp Require Import base list strings.
From Stdlib Require Import Ascii.

Abbreviation chars := String.list_ascii_of_string.
Abbreviation unchars := String.string_of_list_ascii.

Lemma unchars_chars s : unchars (chars s) = s.
Proof. apply String.string_of_list_ascii_of_string. Qed.
Lemma chars_unchars l : chars (unchars l) = l.
Proof. apply String.list_ascii_of_string_of_list_ascii. Qed.

(** ** Characters *)

Definition code (c : ascii) : nat := nat_of_ascii c.
Definition between (lo hi : nat) (c : ascii) : bool := (lo <=? code c) && (code c <=? hi).

Definition lower_char (c : ascii) : ascii :=
  if between 65 90 c then ascii_of_nat (code c + 32) else c.
Definition upper_char (c : ascii) : ascii :=
  if between 97 122 c then ascii_of_nat (code c - 32) else c.

(** [str.isspace] on ASCII: tab to carriage return, the four separators
    [\x1c] to [\x1f], and space. *)
Definition is_space (c : ascii) : bool := between 9 13 c || between 28 32 c.
Definition is_digit (c : ascii) : bool := between 48 57 c.
(** The ASCII line boundaries of [str.splitlines], [\r\n] aside. *)
Definition is_linebreak (c : ascii) : bool := between 10 13 c || between 28 30 c.
Definition is_dot (c : ascii) : bool := code c =? 46.

(** ** Strings *)

Fixpoint drop_while {A} (p : A → bool) (l : list A) : list A :=
  match l with
  | [] => []
  | x :: l' => if p x then drop_while p l' else l
  end.

Definition rstrip_while {A} (p : A → bool) (l : list A) : list A :=
  reverse (drop_while p (reverse l)).

Definition lower (s : string) : string := unchars (lower_char <$> chars s).
Definition upper (s : string) : string := unchars (upper_char <$> chars s).
(** [s.rstrip(".")] *)
Definition rstrip_dots (s : string) : string := unchars (rstrip_while is_dot (chars s)).
(** [s.strip()] *)
Definition strip (s : string) : string :=
  unchars (rstrip_while is_space (drop_while is_space (chars s))).

(** Maximal runs of characters that are not separators, [cur] being the one
    under construction, reversed. *)
Fixpoint split_go (sep : ascii → bool) (cur : list ascii) (l : list ascii) : list string :=
  let flush := match cur with [] => [] | _ => [unchars (reverse cur)] end in
  match l with
  | [] => flush
  | c :: l => if sep c then flush ++ split_go sep [] l else split_go sep (c :: cur) l
  end.
(** [s.split()] *)
Definition str_split (s : string) : list string := split_go is_space [] (chars s).

(** [s.splitlines()]: a line ends at a line boundary, [\r\n] being one, and
    the text after the last boundary is a line only when it is not empty. *)
Fixpoint splitlines_go (cur : list ascii) (l : list ascii) : list string :=
  match l with
  | [] => match cur with [] => [] | _ => [unchars (reverse cur)] end
  | c :: l' =>
      if is_linebreak c then
        unchars (reverse cur) ::
        match l' with
        | c2 :: l'' =>
            if (code c =? 13) && (code c2 =? 10) then splitlines_go [] l'' else splitlines_go [] l'
        | [] => []
        end
      else splitlines_go (c :: cur) l'
  end.
Definition splitlines (s : string) : list string := splitlines_go [] (chars s).

(** [s.startswith("#")] *)
Definition starts_with_hash (s : string) : bool :=
  match chars s with c :: _ => code c =? 35 | [] => false end.

(** [s.isdigit()] *)
Definition isdigit (s : string) : bool :=
  match chars s with [] => false | l => forallb is_digit l end.

(** [int(s)] for a string of digits. *)
Definition int_of_digits (s : string) : Z :=
  foldl (λ n c, (10 * n + (Z.of_nat (code c) - 48))%Z) 0%Z (chars s).

(** The name part of a cache key: [qname.rstrip(".").lower()]. *)
Definition normalize (qname : string) : string := lower (rstrip_dots qname).

(** ** Lemmas *)

Lemma lower_char_upper c : between 65 90 (lower_char c) = false.
Proof. destruct c as [[] [] [] [] [] [] [] []]; reflexivity. Qed.

Lemma lower_char_idemp c : lower_char (lower_char c) = lower_char c.
Proof. unfold lower_char at 1. by rewrite lower_char_upper. Qed.

Lemma lower_char_dot c : is_dot (lower_char c) = is_dot c.
Proof. destruct c as [[] [] [] [] [] [] [] []]; reflexivity. Qed.

Lemma drop_while_fmap {A} (p : A → bool) (f : A → A) l :
  (∀ x, p (f x) = p x) → drop_while p (f <$> l) = f <$> drop_while p l.
Proof. intros Hf. induction l as [|x l IH]; cbn; [done|]. rewrite Hf. by case_match. Qed.

Lemma rstrip_while_fmap {A} (p : A → bool) (f : A → A) l :
  (∀ x, p (f x) = p x) → rstrip_while p (f <$> l) = f <$> rstrip_while p l.
Proof.
  intros Hf. unfold rstrip_while. by rewrite fmap_reverse, <- drop_while_fmap, fmap_reverse.
Qed.

Lemma drop_while_idemp {A} (p : A → bool) l : drop_while p (drop_while p l) = drop_while p l.
Proof. induction l as [|x l IH]; cbn; [done|]. destruct (p x) eqn:E; [done|]. cbn. by rewrite E. Qed.

Lemma rstrip_while_idemp {A} (p : A → bool) l :
  rstrip_while p (rstrip_while p l) = rstrip_while p l.
Proof. unfold rstrip_while. by rewrite reverse_involutive, drop_while_idemp. Qed.

Lemma lower_idemp s : lower (lower s) = lower s.
Proof.
  unfold lower. rewrite chars_unchars. f_equal. rewrite <- list_fmap_compose.
  apply list_fmap_ext. intros _ c _. apply lower_char_idemp.
Qed.

(** Stripping the dots and lowering the case commute. *)
Lemma normalize_comm s : rstrip_dots (lower s) = lower (rstrip_dots s).
Proof.
  unfold rstrip_dots, lower. rewrite !chars_unchars. f_equal.
  apply rstrip_while_fmap, lower_char_dot.
Qed.

Lemma normalize_idemp s : normalize (normalize s) = normalize s.
Proof.
  unfold normalize. rewrite normalize_comm, lower_idemp. f_equal.
  unfold rstrip_dots. by rewrite chars_unchars, rstrip_while_idemp.
Qed.
