(* ===== verification/OrderedDict.v ===== *)
(** * Python's [collections.OrderedDict]

    The operations [src/resilientdns/cache/memory.py] uses of it, on the list
    of its items in iteration order.  The abstraction to a finite map
    ([od_map]) forgets the order; every operation is characterised both on
    the map and on the order. *)
From S2P Require Import Prelude.
From stdpp Require Import base list gmap sets.

Section odict.
Context {K V : Type} `{Countable K}.
Implicit Types (d : list (K * V)) (k : K) (v : V).

(** [d.get(k)] *)
Fixpoint od_get (k : K) (d : list (K * V)) : option V :=
  match d with
  | [] => None
  | (k', v) :: d => if decide (k' = k) then Some v else od_get k d
  end.

(** [k in d] *)
Definition od_in (k : K) (d : list (K * V)) : bool :=
  match od_get k d with Some _ => true | None => false end.

(** [d[k] = v]: in place when the key is there, at the end otherwise. *)
Fixpoint od_set (k : K) (v : V) (d : list (K * V)) : list (K * V) :=
  match d with
  | [] => [(k, v)]
  | (k', v') :: d => if decide (k' = k) then (k, v) :: d else (k', v') :: od_set k v d
  end.

(** [d.pop(k, None)] *)
Definition od_del (k : K) (d : list (K * V)) : list (K * V) :=
  filter (λ kv, kv.1 ≠ k) d.

(** [d.move_to_end(k)] for a key that is present, the guard of [_touch]. *)
Definition od_move_to_end (k : K) (d : list (K * V)) : list (K * V) :=
  match od_get k d with Some v => od_del k d ++ [(k, v)] | None => d end.

(** The order of a well-formed dict has no key twice. *)
Definition od_wf (d : list (K * V)) : Prop := NoDup d.*1.

Definition od_map (d : list (K * V)) : gmap K V := list_to_map d.

Lemma od_get_map k d : od_get k d = od_map d !! k.
Proof.
  unfold od_map. induction d as [|[k' v] d IH]; cbn; [done|].
  rewrite lookup_insert. case_decide; naive_solver.
Qed.

Lemma od_get_elem k v d : od_get k d = Some v → (k, v) ∈ d.
Proof. rewrite od_get_map. apply elem_of_list_to_map_2. Qed.

Lemma od_elem_get k v d : od_wf d → (k, v) ∈ d → od_get k d = Some v.
Proof. intros Hwf Hin. rewrite od_get_map. by apply elem_of_list_to_map_1. Qed.

Lemma od_get_None k d : od_get k d = None ↔ k ∉ d.*1.
Proof. rewrite od_get_map. symmetry. apply not_elem_of_list_to_map. Qed.

Lemma od_set_map k v d : od_map (od_set k v d) = <[k := v]> (od_map d).
Proof.
  unfold od_map. induction d as [|[k' v'] d IH]; cbn; [done|].
  case_decide as E; cbn.
  - subst. by rewrite insert_insert_eq.
  - rewrite IH. by rewrite insert_insert_ne by done.
Qed.

Lemma od_del_map k d : od_map (od_del k d) = delete k (od_map d).
Proof.
  unfold od_map, od_del. induction d as [|[k' v'] d IH]; [cbn; by rewrite delete_empty|].
  rewrite filter_cons. case_decide as E; rewrite ?list_to_map_cons, IH; cbn in E.
  - by rewrite delete_insert_ne by done.
  - subst. by rewrite delete_insert_eq.
Qed.

Lemma od_get_set k k' v d :
  od_get k' (od_set k v d) = if decide (k = k') then Some v else od_get k' d.
Proof. rewrite !od_get_map, od_set_map. apply lookup_insert. Qed.

Lemma od_get_del k k' d :
  od_get k' (od_del k d) = if decide (k = k') then None else od_get k' d.
Proof. rewrite !od_get_map, od_del_map. apply lookup_delete. Qed.

Lemma od_get_app k d d' :
  od_get k (d ++ d') = match od_get k d with Some v => Some v | None => od_get k d' end.
Proof. induction d as [|[k' v'] d IH]; cbn; [done|]. by case_decide. Qed.

(** [move_to_end] changes the order only. *)
Lemma od_get_move k k' d : od_get k' (od_move_to_end k d) = od_get k' d.
Proof.
  unfold od_move_to_end. destruct (od_get k d) as [v|] eqn:E; [|done].
  rewrite od_get_app, od_get_del. cbn. case_decide; subst; [done|].
  by destruct (od_get k' d).
Qed.

Lemma od_del_keys k d : (od_del k d).*1 = filter (λ k', k' ≠ k) d.*1.
Proof.
  unfold od_del. induction d as [|[k' v'] d IH]; [done|].
  rewrite fmap_cons, !filter_cons. cbn [fst]. case_decide; [|done].
  by rewrite fmap_cons, IH.
Qed.

Lemma od_set_keys k v d :
  (od_set k v d).*1 = if decide (k ∈ d.*1) then d.*1 else d.*1 ++ [k].
Proof.
  induction d as [|[k' v'] d IH]; cbn; [done|].
  destruct (decide (k' = k)) as [->|E]; cbn.
  - by rewrite decide_True by constructor.
  - rewrite IH. destruct (decide (k ∈ d.*1)) as [Hk|Hk], (decide (k ∈ k' :: d.*1)) as [Hk2|Hk2];
      rewrite elem_of_cons in Hk2; naive_solver.
Qed.

Lemma od_move_keys k d :
  k ∈ d.*1 → (od_move_to_end k d).*1 = filter (λ k', k' ≠ k) d.*1 ++ [k].
Proof.
  intros Hk. unfold od_move_to_end.
  destruct (od_get k d) as [v|] eqn:E; [|by apply od_get_None in E].
  by rewrite fmap_app, od_del_keys.
Qed.

Lemma od_wf_del k d : od_wf d → od_wf (od_del k d).
Proof. unfold od_wf. rewrite od_del_keys. apply NoDup_filter. Qed.

Lemma od_wf_set k v d : od_wf d → od_wf (od_set k v d).
Proof.
  unfold od_wf. rewrite od_set_keys. case_decide; [done|].
  intros Hd. apply NoDup_app. repeat split; [done | set_solver | apply NoDup_singleton].
Qed.

Lemma od_wf_move k d : od_wf d → od_wf (od_move_to_end k d).
Proof.
  intros Hd. destruct (decide (k ∈ d.*1)) as [Hk|Hk].
  - unfold od_wf. rewrite od_move_keys by done. apply NoDup_app. repeat split.
    + by apply NoDup_filter.
    + intros x Hx. rewrite list_elem_of_filter in Hx. set_solver.
    + apply NoDup_singleton.
  - unfold od_move_to_end. by rewrite (proj2 (od_get_None k d) Hk).
Qed.

Lemma od_map_move k d : od_map (od_move_to_end k d) = od_map d.
Proof. apply map_eq. intros i. by rewrite <- !od_get_map, od_get_move. Qed.

(** The size of a well-formed dict is that of its map. *)
Lemma od_size d : od_wf d → length d = size (od_map d).
Proof.
  intros Hd. unfold od_map. rewrite <- length_map_to_list.
  by rewrite (map_to_list_to_map d Hd).
Qed.

Lemma od_move_length k d : od_wf d → length (od_move_to_end k d) = length d.
Proof.
  intros Hd. by rewrite (od_size d), (od_size (od_move_to_end k d)), od_map_move
    by auto using od_wf_move.
Qed.

Lemma od_del_length k v d :
  od_wf d → od_get k d = Some v → length d = S (length (od_del k d)).
Proof.
  intros Hd Hk. rewrite (od_size d), (od_size (od_del k d)) by auto using od_wf_del.
  rewrite od_del_map, map_size_delete, <- od_get_map, Hk.
  assert (size (od_map d) ≠ 0); [|lia].
  rewrite map_size_non_empty_iff. intros E. rewrite od_get_map, E in Hk. done.
Qed.

(** Removing the head's key is dropping the head. *)
Lemma od_del_head k v d : od_wf ((k, v) :: d) → od_del k ((k, v) :: d) = d.
Proof.
  unfold od_wf, od_del. rewrite fmap_cons. intros [Hk Hd]%NoDup_cons.
  rewrite filter_cons, decide_False by naive_solver. apply filter_all.
  intros [k' v'] Hi. cbn. intros ->. apply Hk. apply list_elem_of_fmap. by exists (k, v').
Qed.

Lemma od_wf_nil : od_wf [].
Proof. constructor. Qed.
End odict.

#[export] Hint Extern 1 (od_wf []) => apply od_wf_nil : rdns.
#[export] Hint Extern 1 (od_wf (od_set _ _ _)) => apply od_wf_set : rdns.
#[export] Hint Extern 1 (od_wf (od_del _ _)) => apply od_wf_del : rdns.
#[export] Hint Extern 1 (od_wf (od_move_to_end _ _)) => apply od_wf_move : rdns.
