(* ===== verification/Metrics.v ===== *)
(** * The metrics registry ([src/resilientdns/metrics.py])

    [Metrics] is a lock-protected dict of integer counters shared by every
    component and, for the UDP forwarder, by executor threads.  Each method
    body runs under the lock, so it is one atomic step: an operation here is a
    function on the counters.  [HasMetrics] is the interface through which the
    component files reach the one shared registry. *)
From S2P Require Import Prelude.
From stdpp Require Import base list strings gmap sets pretty.

Record Metrics := mkMetrics { _counters : gmap string Z }.

Definition metrics_new : Metrics := mkMetrics ∅.

(** [snapshot.get(key, 0)] *)
Definition cget (snapshot : gmap string Z) (key : string) : Z := default 0%Z (snapshot !! key).

Definition inc (key : string) (by_ : Z) (m : Metrics) : Metrics :=
  mkMetrics (<[key := (cget (_counters m) key + by_)%Z]> (_counters m)).

Definition set_ (key : string) (value : Z) (m : Metrics) : Metrics :=
  mkMetrics (<[key := value]> (_counters m)).

Definition snapshot (m : Metrics) : gmap string Z := _counters m.

(** The value of a counter, 0 when it was never touched. *)
Definition count (m : Metrics) (key : string) : Z := cget (snapshot m) key.

(** [if self.metrics: self.metrics.inc(key)]: an absent registry counts
    nothing. *)
Definition count_opt (m : option Metrics) (key : string) : Z :=
  match m with Some m => count m key | None => 0%Z end.

(** [v] when there is a registry to count in, else 0. *)
Definition onm (m : option Metrics) (v : Z) : Z :=
  match m with Some _ => v | None => 0%Z end.

Definition _STATS_FIELDS : list (string * string) :=
  [ ("queries", "queries_total");
    ("hit_fresh", "cache_hit_fresh_total");
    ("hit_stale", "cache_hit_stale_total");
    ("miss", "cache_miss_total");
    ("negative_hit", "negative_cache_hit_total");
    ("upstream_req", "upstream_requests_total");
    ("upstream_fail", "upstream_fail_total");
    ("refresh", "swr_refresh_triggered_total");
    ("dedup", "singleflight_dedup_total");
    ("dropped", "dropped_total");
    ("malformed", "malformed_total");
    ("cache_entries", "cache_entries");
    ("evictions", "evictions_total") ].

Definition WARMUP_METRIC_KEYS : list string :=
  [ "cache_refresh_warmup_loaded_total"; "cache_refresh_warmup_invalid_lines_total" ].

(** [sep.join(parts)] *)
Fixpoint join (sep : string) (parts : list string) : string :=
  match parts with
  | [] => ""
  | [p] => p
  | p :: ps => p +:+ sep +:+ join sep ps
  end.

Definition format_stats (snapshot : gmap string Z) : string :=
  let parts := (λ '(label, key), label +:+ "=" +:+ pretty (cget snapshot key)) <$> _STATS_FIELDS in
  "STATS " +:+ join " " parts.

(** [any(snapshot.values())] *)
Definition any_nonzero (snapshot : gmap string Z) : bool :=
  existsb (λ kv, negb (kv.2 =? 0)%Z) (map_to_list snapshot).

(** One line per tick of the reporter whose snapshot has a non-zero counter;
    [ticks] are the registries read after each [asyncio.sleep]. *)
Definition periodic_stats_reporter (metrics : option (list Metrics)) : list string :=
  match metrics with
  | None => []
  | Some ticks =>
      omap (λ m, let s := snapshot m in
                 if any_nonzero s then Some (format_stats s) else None) ticks
  end.

(** ** The interface the components use

    A state that holds the shared registry (or [None]). *)
Class HasMetrics (S : Type) := {
  metrics_of : S → option Metrics;
  with_metrics : option Metrics → S → S;
}.

(** The laws of a field: reading back, and writing twice. *)
Class HasMetricsLaws (S : Type) `{HasMetrics S} : Prop := {
  metrics_of_with m (s : S) : metrics_of (with_metrics m s) = m;
  with_metrics_of (s : S) : with_metrics (metrics_of s) s = s;
  with_metrics_twice m m' (s : S) : with_metrics m (with_metrics m' s) = with_metrics m s;
}.

#[global] Instance HasMetrics_self : HasMetrics (option Metrics) :=
  {| metrics_of m := m; with_metrics m _ := m |}.
#[global] Instance HasMetricsLaws_self : HasMetricsLaws (option Metrics).
Proof. by split. Qed.

(** [if self.metrics: self.metrics.inc(key)] *)
Definition inc_opt (key : string) (m : option Metrics) : option Metrics := inc key 1 <$> m.
Definition inc_by_opt (key : string) (by_ : Z) (m : option Metrics) : option Metrics :=
  inc key by_ <$> m.
Definition set_opt (key : string) (v : Z) (m : option Metrics) : option Metrics := set_ key v <$> m.

#[global] Arguments inc_opt : simpl never.
#[global] Arguments inc_by_opt : simpl never.
#[global] Arguments set_opt : simpl never.

Section lifted.
Context {St : Type} `{HasMetrics St}.
Definition minc (key : string) : M St () :=
  modify (λ s, with_metrics (inc_opt key (metrics_of s)) s).
Definition minc_by (key : string) (by_ : Z) : M St () :=
  modify (λ s, with_metrics (inc_by_opt key by_ (metrics_of s)) s).
Definition mset (key : string) (v : Z) : M St () :=
  modify (λ s, with_metrics (set_opt key v (metrics_of s)) s).

Lemma minc_run key (s : St) :
  minc key s = (with_metrics (inc_opt key (metrics_of s)) s, Ret ()).
Proof. done. Qed.
End lifted.

(** ** Lemmas *)

Lemma count_inc m k k' v :
  count (inc k v m) k' = (count m k' + if decide (k = k') then v else 0)%Z.
Proof.
  unfold count, snapshot, cget, inc; cbn. rewrite lookup_insert.
  case_decide as E; [by rewrite E | cbn; lia].
Qed.

Lemma count_set m k k' v :
  count (set_ k v m) k' = if decide (k = k') then v else count m k'.
Proof.
  unfold count, snapshot, cget, set_; cbn. rewrite lookup_insert. by case_decide.
Qed.

Lemma count_opt_inc m k k' :
  count_opt (inc_opt k m) k' =
  (count_opt m k' + if decide (k = k') then onm m 1 else 0)%Z.
Proof. destruct m; unfold inc_opt, inc_by_opt; cbn; [apply count_inc | by case_decide]. Qed.

Lemma count_opt_set m k k' v :
  count_opt (set_opt k v m) k' =
  if decide (k = k') then onm m v else count_opt m k'.
Proof. destruct m; unfold set_opt; cbn; [apply count_set | by case_decide]. Qed.

Lemma count_opt_inc_by m k k' v :
  count_opt (inc_by_opt k v m) k' =
  (count_opt m k' + if decide (k = k') then onm m v else 0)%Z.
Proof. destruct m; unfold inc_opt, inc_by_opt; cbn; [apply count_inc | by case_decide]. Qed.

Lemma onm_inc k m v : onm (inc_opt k m) v = onm m v.
Proof. by destruct m. Qed.
Lemma onm_set k x m v : onm (set_opt k x m) v = onm m v.
Proof. by destruct m. Qed.
#[export] Hint Rewrite onm_inc onm_set : rdns.

#[export] Hint Rewrite count_inc count_set count_opt_inc count_opt_set count_opt_inc_by : rdns.

(** Evaluate counters after known increments. *)
Ltac counts :=
  rewrite ?count_opt_inc, ?count_opt_set, ?count_opt_inc_by, ?onm_inc, ?onm_set;
  repeat first [rewrite decide_True by done | rewrite decide_False by done].

Lemma inc_comm k j a b m : inc k a (inc j b m) = inc j b (inc k a m).
Proof.
  unfold inc; cbn. f_equal. apply map_eq. intros i. unfold cget.
  destruct (decide (k = j)) as [->|Hne].
  - rewrite !insert_insert_eq, !lookup_insert. case_decide; [|done].
    rewrite !decide_True by done. cbn. f_equal. lia.
  - rewrite !lookup_insert. repeat case_decide; subst; try done; by rewrite ?decide_False.
Qed.

(** Applying increments in sequence. *)
Definition inc_all (l : list (string * Z)) (m : Metrics) : Metrics :=
  foldr (λ kv, inc kv.1 kv.2) m l.

(** The registry after a set of increments does not depend on the order in
    which the threads and coroutines took the lock. *)
Theorem inc_all_permutation (l l' : list (string * Z)) (m : Metrics) :
  l ≡ₚ l' → inc_all l m = inc_all l' m.
Proof.
  induction 1; cbn; [done | by f_equal | apply inc_comm | by etrans].
Qed.

Lemma any_nonzero_spec (m : Metrics) :
  any_nonzero (snapshot m) = true ↔ ∃ k, count m k ≠ 0%Z.
Proof.
  unfold any_nonzero, count, cget. rewrite existsb_exists. split.
  - intros ([k v] & Hin & Hv). exists k.
    apply list_elem_of_In, elem_of_map_to_list in Hin. rewrite Hin. cbn in *. by zbool.
  - intros [k Hk]. destruct (snapshot m !! k) as [v|] eqn:E; [|done].
    exists (k, v). rewrite <- list_elem_of_In, elem_of_map_to_list. split; [done|].
    cbn in *. by rewrite negb_true_iff, Z.eqb_neq.
Qed.

Lemma reporter_line (ticks : list Metrics) (line : string) :
  line ∈ periodic_stats_reporter (Some ticks) ↔
  ∃ m, m ∈ ticks ∧ line = format_stats (snapshot m) ∧ ∃ k, count m k ≠ 0%Z.
Proof.
  cbn. rewrite list_elem_of_omap. split.
  - intros (m & Hm & Hl). destruct (any_nonzero (snapshot m)) eqn:E; [|done]. simplify_eq.
    apply any_nonzero_spec in E. naive_solver.
  - intros (m & Hm & -> & Hk). exists m. split; [done|].
    by rewrite (proj2 (any_nonzero_spec m) Hk).
Qed.
