(* ===== verification/Dns.v ===== *)
(** * The interface to [dnslib]

    [dnslib] is a third-party package: its objects and functions are
    parameters of the model.  [DnsTypes] gives the attributes of a resource
    record, a question and a header that the program reads, over abstract
    types; [DNSRecord] is the mutable record object the program builds,
    inspects and truncates; [Dnslib] gives the functions the program calls.
    [DnslibLaws] states documented behaviour, assumed only where a theorem
    names it.  [toy] is a concrete instance that satisfies the laws. *)
From S2P Require Import Prelude.
From stdpp Require Import base list strings gmap countable.

(** [getattr(r, "ttl", None)] and the like: [None] when the attribute is
    missing. *)
Class DnsTypes := {
  rr : Type;
  rr_ttl : rr → option Z;
  rr_rtype : rr → option Z;
  rr_minttl : rr → option Z;          (** [r.rdata.minttl] *)
  rr_times : rr → option (list Z);    (** [r.rdata.times], when a list or tuple *)
  question : Type;
  q_qname : question → string;        (** [str(q.qname)] *)
  q_qtype : question → Z;
  q_qclass : question → Z;
  hdr_rest : Type;                    (** header fields the program never reads *)
}.

Record DNSRecord `{DnsTypes} := mkDNSRecord {
  hdr_id : Z;
  hdr_rcode : Z;
  hdr_tc : Z;
  hdr_other : hdr_rest;
  questions : list question;
  rrs : list rr;
  auth : list rr;
  ar : list rr;
}.
Arguments mkDNSRecord {_} _ _ _ _ _ _ _ _.

Class Dnslib `{DnsTypes} := {
  dns_parse : bytes → option DNSRecord;                       (** [DNSRecord.parse] *)
  dns_pack : DNSRecord → option bytes;                        (** [record.pack()] *)
  dns_reply : DNSRecord → DNSRecord;                          (** [request.reply()] *)
  dns_question : string → string → string → option DNSRecord; (** [DNSRecord.question] *)
  QTYPE_get : Z → option string;                              (** [QTYPE[i]] *)
  QTYPE_forward : Z → bool;                                   (** [i in QTYPE.forward] *)
  QTYPE_reverse : string → option Z;                          (** [QTYPE.reverse.get(s)] *)
  CLASS_get : Z → option string;                              (** [CLASS[i]] *)
}.

(** Codes of RFC 1035 that [RCODE], [QTYPE] and [CLASS] hold. *)
Definition NOERROR : Z := 0.
Definition FORMERR : Z := 1.
Definition SERVFAIL : Z := 2.
Definition NXDOMAIN : Z := 3.
Definition SOA : Z := 6.
Definition CLASS_IN : Z := 1.

Section setters.
Context `{DnsTypes}.
Definition set_id (i : Z) (r : DNSRecord) : DNSRecord :=
  mkDNSRecord i (hdr_rcode r) (hdr_tc r) (hdr_other r) (questions r) (rrs r) (auth r) (ar r).
Definition set_rcode (c : Z) (r : DNSRecord) : DNSRecord :=
  mkDNSRecord (hdr_id r) c (hdr_tc r) (hdr_other r) (questions r) (rrs r) (auth r) (ar r).
Definition set_tc (t : Z) (r : DNSRecord) : DNSRecord :=
  mkDNSRecord (hdr_id r) (hdr_rcode r) t (hdr_other r) (questions r) (rrs r) (auth r) (ar r).
Definition clear_sections (r : DNSRecord) : DNSRecord :=
  mkDNSRecord (hdr_id r) (hdr_rcode r) (hdr_tc r) (hdr_other r) (questions r) [] [] [].
End setters.

(** Documented behaviour of [dnslib]: parsing a packed record gives it back,
    and a reply carries the transaction id and no answer. *)
Class DnslibLaws `{Dnslib} : Prop := {
  parse_pack r w : dns_pack r = Some w → dns_parse w = Some r;
  reply_id r : hdr_id (dns_reply r) = hdr_id r;
}.

(** ** A concrete instance

    Records are encoded bit by bit, one byte per bit, through the generic
    encoding of countable types, so that packing is injective, with one more
    byte per resource record, so that truncating shortens. *)
Module toy.
Record toy_rr := mkRR {
  t_ttl : option Z; t_rtype : option Z; t_minttl : option Z; t_times : option (list Z) }.
Record toy_question := mkQ { t_qname : string; t_qtype : Z; t_qclass : Z }.

#[global] Instance toy_rr_eq_dec : EqDecision toy_rr.
Proof. solve_decision. Defined.
#[global] Instance toy_rr_countable : Countable toy_rr.
Proof.
  apply (inj_countable' (λ r, (t_ttl r, t_rtype r, t_minttl r, t_times r))
    (λ '(a, b, c, d), mkRR a b c d)). by intros [].
Defined.
#[global] Instance toy_question_eq_dec : EqDecision toy_question.
Proof. solve_decision. Defined.
#[global] Instance toy_question_countable : Countable toy_question.
Proof.
  apply (inj_countable' (λ q, (t_qname q, t_qtype q, t_qclass q))
    (λ '(a, b, c), mkQ a b c)). by intros [].
Defined.

#[global] Instance toy_types : DnsTypes := {|
  rr := toy_rr; rr_ttl := t_ttl; rr_rtype := t_rtype; rr_minttl := t_minttl;
  rr_times := t_times; question := toy_question; q_qname := t_qname;
  q_qtype := t_qtype; q_qclass := t_qclass; hdr_rest := unit |}.

Definition rec_tuple : Type :=
  Z * Z * Z * list toy_question * list toy_rr * list toy_rr * list toy_rr.

Definition to_tuple (r : DNSRecord) : rec_tuple :=
  (hdr_id r, hdr_rcode r, hdr_tc r, questions r, rrs r, auth r, ar r).
Definition of_tuple (t : rec_tuple) : DNSRecord :=
  match t with (i, c, t, q, a, b, d) => mkDNSRecord i c t () q a b d end.
Lemma of_to_tuple r : of_tuple (to_tuple r) = r.
Proof. by destruct r as [??? [] ????]. Qed.

Fixpoint pos_bytes (p : positive) : bytes :=
  match p with
  | xH => []
  | xO p => Byte.x00 :: pos_bytes p
  | xI p => Byte.x01 :: pos_bytes p
  end.
Fixpoint bytes_pos (b : bytes) : option positive :=
  match b with
  | [] => Some xH
  | Byte.x00 :: b => xO <$> bytes_pos b
  | Byte.x01 :: b => xI <$> bytes_pos b
  | Byte.x02 :: _ => Some xH
  | _ => None
  end.
Lemma bytes_pos_bytes p n : bytes_pos (pos_bytes p ++ replicate n Byte.x02) = Some p.
Proof. induction p as [p IH|p IH|]; cbn; rewrite ?IH; [done..|]. by destruct n. Qed.

Definition toy_pack (r : DNSRecord) : option bytes :=
  Some (pos_bytes (encode (to_tuple r)) ++
        replicate (length (rrs r) + length (auth r) + length (ar r)) Byte.x02).
Definition toy_parse (w : bytes) : option DNSRecord :=
  p ← bytes_pos w; of_tuple <$> (decode p : option rec_tuple).

Definition toy_qtypes : list (Z * string) :=
  [(1%Z, "A"); (2%Z, "NS"); (6%Z, "SOA"); (16%Z, "TXT"); (28%Z, "AAAA")].

Definition qtype_entry (P : Z * string → bool) : option (Z * string) :=
  List.find P toy_qtypes.

Definition toy_question_of (n t c : string) : option DNSRecord :=
  (λ kv, mkDNSRecord 0 0 0 () [mkQ n kv.1 CLASS_IN] [] [] []) <$>
    qtype_entry (λ kv, bool_decide (kv.2 = t)).

#[global] Instance toy_dnslib : Dnslib := {|
  dns_parse := toy_parse;
  dns_pack := toy_pack;
  dns_reply r := mkDNSRecord (hdr_id r) NOERROR 0 (hdr_other r) (take 1 (questions r)) [] [] [];
  dns_question := toy_question_of;
  QTYPE_get i := snd <$> qtype_entry (λ kv, (kv.1 =? i)%Z);
  QTYPE_forward i := bool_decide (is_Some (qtype_entry (λ kv, (kv.1 =? i)%Z)));
  QTYPE_reverse s := fst <$> qtype_entry (λ kv, bool_decide (kv.2 = s));
  CLASS_get i := if (i =? 1)%Z then Some "IN" else None |}.

#[global] Instance toy_laws : DnslibLaws.
Proof.
  split; [|done]. intros r w [= <-].
  change (toy_parse (pos_bytes (encode (to_tuple r)) ++
    replicate (length (rrs r) + length (auth r) + length (ar r)) Byte.x02) = Some r).
  unfold toy_parse. rewrite bytes_pos_bytes. cbn [mbind option_bind].
  rewrite decode_encode. unfold fmap, option_fmap, option_map. by rewrite of_to_tuple.
Qed.
End toy.
