(* ===== verification/Framing.v ===== *)
(** * Length-prefixed messages

    DNS over TCP puts a two-byte big-endian length before each message.  The
    server ([src/resilientdns/dns/server.py]) and the TCP forwarder
    ([src/resilientdns/upstream/tcp_forwarder.py]) both write and read such
    messages; this file models what they use of Python's [int] and asyncio's
    [StreamReader]. *)
From S2P Require Import Prelude.
From stdpp Require Import base list strings.
From Stdlib.Strings Require Import Byte.

(** ** Integers as bytes *)

Definition byte_of_Z (z : Z) : Byte.byte :=
  match Byte.of_N (Z.to_N z) with Some b => b | None => Byte.x00 end.
Definition byte_to_Z (b : Byte.byte) : Z := Z.of_N (Byte.to_N b).

(** [n.to_bytes(2, "big")], for a length [n]. *)
Definition to_bytes2 (n : Z) : res bytes :=
  if ((0 <=? n) && (n <? 65536))%Z
  then Ret [byte_of_Z (Z.shiftr n 8); byte_of_Z (Z.land n 255)]
  else Raise OverflowError.

(** [int.from_bytes(b, "big")] *)
Definition from_bytes (b : bytes) : Z :=
  foldl (λ acc x, Z.lor (Z.shiftl acc 8) (byte_to_Z x)) 0%Z b.

(** ** Reading *)

(** What a connection delivers: the bytes that arrive in time, and how
    reading past them fails ([TimeoutError] or [IncompleteReadError]). *)
Record stream := mkStream { st_data : bytes; st_end : exn }.

(** [await asyncio.wait_for(reader.readexactly(n), ...)] *)
Definition readexactly (n : Z) (st : stream) : res (bytes * stream) :=
  if (n <=? len (st_data st))%Z
  then Ret (take (Z.to_nat n) (st_data st), mkStream (drop (Z.to_nat n) (st_data st)) (st_end st))
  else Raise (st_end st).

Definition is_read_error (e : exn) : bool :=
  match e with TimeoutError | IncompleteReadError => true | _ => false end.

(** ** Two-byte lengths *)

Lemma byte_of_to_Z z : (0 ≤ z < 256)%Z → byte_to_Z (byte_of_Z z) = z.
Proof.
  intros Hz. unfold byte_to_Z, byte_of_Z. destruct (Byte.of_N (Z.to_N z)) as [b|] eqn:E.
  - apply Byte.to_of_N in E. rewrite E. lia.
  - apply Byte.of_N_None_iff in E. lia.
Qed.

Lemma shiftl_land_low a b : (0 ≤ b < 2 ^ 8)%Z → Z.land (Z.shiftl a 8) b = 0%Z.
Proof.
  intros Hb. apply Z.bits_inj'. intros n Hn. rewrite Z.land_spec, Z.shiftl_spec, Z.bits_0 by done.
  destruct (Z.lt_ge_cases n 8).
  - by rewrite (Z.testbit_neg_r a) by lia.
  - rewrite (proj1 (Z.bounded_iff_bits_nonneg 8 b ltac:(lia) ltac:(lia))) by lia. apply andb_false_r.
Qed.

Lemma from_bytes_two a b : from_bytes [a; b] = (byte_to_Z a * 256 + byte_to_Z b)%Z.
Proof.
  unfold from_bytes. cbn [foldl]. rewrite Z.shiftl_0_l, Z.lor_0_l.
  assert (0 ≤ byte_to_Z b < 2 ^ 8)%Z as Hb.
  { unfold byte_to_Z. pose proof (Byte.to_N_bounded b). lia. }
  rewrite <- Z.add_nocarry_lor by (by apply shiftl_land_low).
  rewrite Z.shiftl_mul_pow2 by lia. done.
Qed.

Lemma to_bytes2_spec n :
  (0 ≤ n < 65536)%Z → ∃ b, to_bytes2 n = Ret b ∧ length b = 2 ∧ from_bytes b = n.
Proof.
  intros Hn. unfold to_bytes2. rewrite (proj2 (Z.leb_le _ _)), (proj2 (Z.ltb_lt _ _)) by lia. cbn [andb].
  eexists. split; [done|]. split; [done|]. rewrite from_bytes_two, Z.shiftr_div_pow2 by lia.
  change 255%Z with (Z.ones 8). rewrite Z.land_ones by lia. change (2 ^ 8)%Z with 256%Z.
  rewrite !byte_of_to_Z; [|apply Z.mod_pos_bound; lia|split; [apply Z.div_pos; lia|apply Z.div_lt_upper_bound; lia]].
  rewrite Z.mul_comm. symmetry. apply Z.div_mod. lia.
Qed.

Lemma to_bytes2_overflow n : (65536 ≤ n)%Z → to_bytes2 n = Raise OverflowError.
Proof. intros Hn. unfold to_bytes2. rewrite (proj2 (Z.ltb_ge n _)) by lia. by rewrite andb_false_r. Qed.

(** A message with its length in front. *)
Definition frame (m : bytes) : bytes :=
  match to_bytes2 (len m) with Ret p => p ++ m | Raise _ => [] end.

Lemma readexactly_app n a b e :
  length a = n → readexactly (Z.of_nat n) (mkStream (a ++ b) e) = Ret (a, mkStream b e).
Proof.
  intros <-. unfold readexactly. cbn [st_data st_end].
  rewrite (proj2 (Z.leb_le _ _)) by (rewrite len_app; unfold len; lia).
  by rewrite Nat2Z.id, take_app_length, drop_app_length.
Qed.

(** A reader gets a framed message back. *)
Lemma frame_read m rest e :
  (len m < 65536)%Z →
  ∃ lb, readexactly 2 (mkStream (frame m ++ rest) e) = Ret (lb, mkStream (m ++ rest) e)
        ∧ readexactly (from_bytes lb) (mkStream (m ++ rest) e) = Ret (m, mkStream rest e)
        ∧ from_bytes lb = len m.
Proof.
  intros Hm. pose proof (len_nonneg m).
  destruct (to_bytes2_spec (len m)) as (lb & E & Hl & Hv); [lia|]. exists lb.
  unfold frame. rewrite E, <- app_assoc. split; [by apply (readexactly_app 2)|].
  rewrite Hv. split; [by apply readexactly_app|done].
Qed.

Lemma frame_length m : (len m < 65536)%Z → length (frame m) = 2 + length m.
Proof.
  intros Hm. pose proof (len_nonneg m). destruct (to_bytes2_spec (len m)) as (lb & E & Hl & _); [lia|].
  unfold frame. rewrite E, length_app, Hl. done.
Qed.
