(* ===== verification/CacheEvict.v ===== *)
(** * Eviction: equivalence with its specification

    [README.md] and [docs/architecture.md] promise: fully expired entries
    first, then LRU, and no more than needed.  [evict_spec] states it in one
    line; [evict_if_needed_spec] proves that the two loops of
    [_evict_if_needed] compute it, and that [evictions_total] counts it. *)
From S2P Require Import Prelude OrderedDict Metrics Dns Cache.
From stdpp Require Import base list strings gmap sets.

Implicit Types (d pre items : list (CacheKey * CacheEntry)) (max now : Z).

(** How many entries are too many. *)
Definition overflow (max : Z) (d : list (CacheKey * CacheEntry)) : nat := Z.to_nat (len d - max).

(** Past [stale_until]: not servable any more. *)
Definition expired (now : Z) (kv : CacheKey * CacheEntry) : Prop := (stale_until kv.2 < now)%Z.
#[global] Instance expired_dec now kv : Decision (expired now kv).
Proof. unfold expired. apply _. Defined.

(** The entries to evict: as many as overflow, from the expired ones in LRU
    order followed by the others in LRU order. *)
Definition victims (max now : Z) (d : list (CacheKey * CacheEntry)) : list (CacheKey * CacheEntry) :=
  take (overflow max d) (filter (expired now) d ++ filter (λ kv, ¬ expired now kv) d).

Definition evict_spec (max now : Z) (d : list (CacheKey * CacheEntry)) : list (CacheKey * CacheEntry) :=
  filter (λ kv, kv.1 ∉ (victims max now d).*1) d.

(** [evictions_total] incremented [n] times. *)
Definition count_evictions (n : nat) (m : option Metrics) : option Metrics :=
  Nat.iter n (inc_opt "evictions_total") m.

(** ** Lemmas *)

#[local] Arguments count_evictions : simpl never.

Lemma count_evictions_S n m :
  count_evictions (S n) m = count_evictions n (inc_opt "evictions_total" m).
Proof. unfold count_evictions. by rewrite <- Nat.iter_succ_r. Qed.

(** Removing the first [n] expired items of a list. *)
Fixpoint drop_expired (n : nat) (now : Z) (items : list (CacheKey * CacheEntry)) :=
  match n, items with
  | O, _ => items
  | _, [] => []
  | S n', kv :: items =>
      if decide (expired now kv) then drop_expired n' now items
      else kv :: drop_expired n now items
  end.

Definition n_expired (now : Z) (items : list (CacheKey * CacheEntry)) : nat :=
  length (filter (expired now) items).

Lemma n_expired_cons now kv items :
  n_expired now (kv :: items) =
  if decide (expired now kv) then S (n_expired now items) else n_expired now items.
Proof. unfold n_expired. rewrite filter_cons. by case_decide. Qed.

Lemma drop_expired_0 now items : drop_expired 0 now items = items.
Proof. by destruct items. Qed.

Lemma overflow_0 max d : (len d <=? max)%Z = true ↔ overflow max d = 0.
Proof. unfold overflow. rewrite Z.leb_le. lia. Qed.

Lemma overflow_S max d : (len d <=? max)%Z = false → ∃ n, overflow max d = S n.
Proof. unfold overflow. rewrite Z.leb_gt. intros. exists (Z.to_nat (len d - max - 1)). lia. Qed.

Lemma overflow_app_cons max pre kv items n :
  overflow max (pre ++ kv :: items) = S n → overflow max (pre ++ items) = n.
Proof. unfold overflow. rewrite !len_app, len_cons. lia. Qed.

Lemma od_del_mid pre k e items :
  od_wf (pre ++ (k, e) :: items) → od_del k (pre ++ (k, e) :: items) = pre ++ items.
Proof.
  unfold od_wf, od_del. rewrite fmap_app, fmap_cons. intros Hd.
  rewrite filter_app, filter_cons, decide_False by naive_solver.
  apply NoDup_app in Hd as (Hp & Hdisj & [Hk Hi]%NoDup_cons).
  f_equal; apply filter_all; intros [k' e'] Hin; cbn; intros ->.
  - apply (Hdisj k); [apply list_elem_of_fmap; by exists (k, e') | left].
  - apply Hk, list_elem_of_fmap. by exists (k, e').
Qed.

Lemma od_in_mid pre k e items : od_in k (pre ++ (k, e) :: items) = true.
Proof.
  unfold od_in. rewrite od_get_app. destruct (od_get k pre); [done|]. cbn.
  by rewrite decide_True.
Qed.

Lemma od_wf_mid pre k e items : od_wf (pre ++ (k, e) :: items) → od_wf (pre ++ items).
Proof. intros Hd. rewrite <- (od_del_mid pre k e items Hd). by apply od_wf_del. Qed.

(** The first loop removes the first expired entries, up to the overflow; it
    returns early only when nothing is left to evict. *)
Lemma evict_expired_run max now items pre m :
  od_wf (pre ++ items) →
  let n := overflow max (pre ++ items) in
  ∃ b, evict_expired max now items (mkCacheSt m (pre ++ items)) =
         (mkCacheSt (count_evictions (n `min` n_expired now items) m)
            (pre ++ drop_expired n now items), Ret b)
       ∧ (b = true → n ≤ n_expired now items).
Proof.
  revert pre m. induction items as [|[k e] items IH]; intros pre m Hwf; cbn zeta.
  { exists false. split; [|done]. cbn. unfold n_expired. cbn. rewrite Nat.min_0_r.
    by destruct (overflow _ _). }
  cbn [evict_expired]. unfold mbind, M_bind, gets. cbn [_store].
  destruct (len (pre ++ (k, e) :: items) <=? max)%Z eqn:Elen.
  { apply overflow_0 in Elen. rewrite Elen, drop_expired_0. exists true.
    split; [done|]. intros _. lia. }
  apply overflow_S in Elen as [n En]. rewrite En. cbn [drop_expired].
  rewrite n_expired_cons. pose proof (overflow_app_cons _ _ _ _ _ En) as En'.
  destruct (decide (expired now (k, e))) as [Hex|Hex]; unfold expired in Hex; cbn in Hex.
  - rewrite (proj2 (Z.ltb_lt _ _)) by done. cbn [when]. rewrite od_in_mid. cbn [when].
    unfold minc. runM. cbn. rewrite od_del_mid by done.
    destruct (IH pre (inc_opt "evictions_total" m)) as (b & Hrun & Hb).
    { by eapply od_wf_mid. }
    exists b. rewrite Hrun, En', count_evictions_S. rewrite En' in Hb.
    split; [done|]. intros E. specialize (Hb E). lia.
  - rewrite (proj2 (Z.ltb_ge _ _)) by lia. cbn [when]. runM.
    specialize (IH (pre ++ [(k, e)]) m). rewrite <- !app_assoc in IH. cbn in IH.
    destruct IH as (b & Hrun & Hb); [done|]. exists b. rewrite Hrun, En.
    split; [done|]. by rewrite En in Hb.
Qed.

Lemma evict_lru_from_run max d m :
  (0 ≤ max)%Z →
  evict_lru_from max d (mkCacheSt m d) =
  (mkCacheSt (count_evictions (overflow max d) m) (drop (overflow max d) d), Ret ()).
Proof.
  intros Hmax. revert m. induction d as [|kv d IH]; intros m.
  { cbn [evict_lru_from]. rewrite (proj2 (Z.leb_le _ _)) by (unfold len; cbn; lia).
    unfold overflow. rewrite len_nil. replace (Z.to_nat (0 - max)) with 0 by lia. done. }
  cbn [evict_lru_from]. destruct (len (kv :: d) <=? max)%Z eqn:E.
  { apply overflow_0 in E. by rewrite E. }
  apply overflow_S in E as [n En]. rewrite En.
  pose proof (overflow_app_cons max [] kv d n En) as En'. cbn in En'.
  unfold minc. runM. unfold with_store; cbn. rewrite IH, En'. cbn [drop].
  by rewrite count_evictions_S.
Qed.

Lemma drop_expired_ge n now items :
  n_expired now items ≤ n → drop_expired n now items = filter (λ kv, ¬ expired now kv) items.
Proof.
  revert n. induction items as [|kv items IH]; intros n.
  { intros _. by destruct n. }
  rewrite n_expired_cons, filter_cons. destruct n as [|n]; cbn [drop_expired].
  - intros Hn. case_decide; [lia|]. rewrite decide_True by done. f_equal.
    rewrite <- (drop_expired_0 now items) at 1. by apply IH.
  - intros Hn. case_decide; [rewrite decide_False by naive_solver; apply IH; lia|].
    rewrite decide_True by done. f_equal. by apply IH.
Qed.

Lemma elem_of_keys k e d : (k, e) ∈ d → k ∈ d.*1.
Proof. intros Hin. apply list_elem_of_fmap. by exists (k, e). Qed.

Lemma od_key_inj k e e' d : od_wf d → (k, e) ∈ d → (k, e') ∈ d → e = e'.
Proof. intros Hwf H1%od_elem_get H2%od_elem_get; [congruence|done|done]. Qed.

(** Filtering out the keys of a prefix is dropping the prefix. *)
Lemma filter_not_prefix d d' :
  od_wf (d ++ d') → filter (λ kv : CacheKey * CacheEntry, kv.1 ∉ d.*1) (d ++ d') = d'.
Proof.
  unfold od_wf. rewrite fmap_app, filter_app. intros (_ & Hdisj & _)%NoDup_app.
  rewrite filter_none, filter_all; [done | |].
  - intros [k e] Hin. cbn. intros Hk. apply (Hdisj _ Hk). by eapply elem_of_keys.
  - intros [k e] Hin. cbn. intros Hk. apply Hk. by eapply elem_of_keys.
Qed.

Lemma od_wf_filter (P : CacheKey * CacheEntry → Prop) `{∀ x, Decision (P x)} d :
  od_wf d → od_wf (filter P d).
Proof.
  intros Hd. eapply sublist_NoDup; [exact Hd|]. by apply fmap_sublist, sublist_filter.
Qed.

(** When the expired entries cover the overflow, the first of them go. *)
Lemma drop_expired_le n now d :
  od_wf d → n ≤ n_expired now d →
  drop_expired n now d =
  filter (λ kv : CacheKey * CacheEntry, kv.1 ∉ (take n (filter (expired now) d)).*1) d.
Proof.
  revert n. induction d as [|[k e] d IH]; intros n Hwf; [by destruct n|].
  destruct n as [|n].
  { intros _. rewrite take_0, filter_all by set_solver. done. }
  assert ((k ∉ d.*1) ∧ od_wf d) as [Hk Hd] by (by apply NoDup_cons).
  rewrite n_expired_cons. cbn [drop_expired]. rewrite (filter_cons (expired now)).
  case_decide as Hex; intros Hn.
  - rewrite firstn_cons, fmap_cons. cbn [fst].
    rewrite filter_cons_False by (cbn; set_solver).
    rewrite IH by (done || lia). apply filter_ext_elem. intros [k' e'] Hin%elem_of_keys. cbn.
    rewrite not_elem_of_cons. set_solver.
  - rewrite filter_cons_True; [by rewrite IH | cbn].
    intros (kv & Hkv & Hin)%list_elem_of_fmap. apply Hk. subst k.
    apply list_elem_of_fmap. exists kv. split; [done|].
    apply elem_of_take in Hin as (i & Hi%list_elem_of_lookup_2 & _).
    by apply list_elem_of_filter in Hi as [_ ?].
Qed.

(** The two loops together. *)
Lemma evict_spec_eq max now d :
  od_wf d →
  let n := overflow max d in
  drop (n - n_expired now d) (drop_expired n now d) = evict_spec max now d.
Proof.
  intros Hwf n. unfold evict_spec, victims. fold n.
  destruct (decide (n ≤ n_expired now d)) as [Hn|Hn].
  - replace (n - n_expired now d) with 0 by lia. rewrite drop_0.
    rewrite drop_expired_le by done. unfold n_expired in Hn.
    by rewrite take_app_le by done.
  - rewrite drop_expired_ge by lia. rewrite take_app_ge by (unfold n_expired in Hn; lia).
    fold (n_expired now d). set (F := filter (λ kv, ¬ expired now kv) d).
    set (j := n - n_expired now d). assert (od_wf F) as HF by by apply od_wf_filter.
    trans (filter (λ kv : CacheKey * CacheEntry, kv.1 ∉ (take j F).*1)
             (filter (λ kv, ¬ expired now kv) d)).
    { fold F. symmetry. pose proof (filter_not_prefix (take j F) (drop j F)) as HP.
      rewrite take_drop in HP. by apply HP. }
    rewrite list_filter_filter.
    apply filter_ext_elem. intros [k e] Hin. cbn [fst].
    rewrite fmap_app, not_elem_of_app. split; [|].
    + intros [Hk Hne]. split; [|done]. intros (kv & -> & Hkv)%list_elem_of_fmap.
      apply list_elem_of_filter in Hkv as [Hexp Hkv]. destruct kv as [k e']. cbn in *.
      by rewrite (od_key_inj _ _ _ _ Hwf Hin Hkv) in Hne.
    + intros [Hne Hk]. split; [done|]. intros Hexp. apply Hne.
      apply (elem_of_keys k e). by apply list_elem_of_filter.
Qed.

Lemma count_evictions_add a b m :
  count_evictions a (count_evictions b m) = count_evictions (a + b) m.
Proof. unfold count_evictions. by rewrite Nat.iter_add. Qed.

Lemma length_drop_expired n now d :
  length (drop_expired n now d) = length d - (n `min` n_expired now d).
Proof.
  revert n. induction d as [|kv d IH]; intros [|n]; cbn [drop_expired]; [done|done|cbn;lia|].
  rewrite n_expired_cons. case_decide; cbn [length]; rewrite IH; [lia|].
  assert (n_expired now d ≤ length d) by apply length_filter. lia.
Qed.

(** The eviction loops compute [evict_spec], and count what they evict. *)
Lemma evict_run cfg now d m :
  od_wf d → (0 < max_entries cfg)%Z →
  _evict_if_needed cfg now (mkCacheSt m d) =
  (mkCacheSt (count_evictions (overflow (max_entries cfg) d) m)
     (evict_spec (max_entries cfg) now d), Ret ()).
Proof.
  intros Hwf Hmax. unfold _evict_if_needed. rewrite (proj2 (Z.eqb_neq _ _)) by lia.
  rewrite <- (evict_spec_eq _ _ _ Hwf). set (n := overflow (max_entries cfg) d).
  unfold mbind, M_bind, gets. cbn [_store].
  destruct (len d <=? max_entries cfg)%Z eqn:E.
  { apply overflow_0 in E. unfold n. rewrite E, drop_expired_0. done. }
  destruct (evict_expired_run (max_entries cfg) now d [] m Hwf) as (b & Hrun & Hb).
  cbn [app] in Hrun, Hb. fold n in Hrun, Hb. rewrite Hrun. destruct b.
  - rewrite (Nat.min_l _ _ (Hb eq_refl)).
    replace (n - n_expired now d) with 0 by (specialize (Hb eq_refl); lia). done.
  - unfold evict_lru, mbind, M_bind, gets. cbn [_store].
    rewrite evict_lru_from_run by lia. rewrite count_evictions_add.
    assert (overflow (max_entries cfg) (drop_expired n now d) = n - n_expired now d) as ->.
    { unfold overflow, len. rewrite length_drop_expired.
      assert (n_expired now d ≤ length d) by apply length_filter.
      unfold n, overflow, len in *. lia. }
    by replace (n - n_expired now d + n `min` n_expired now d) with n by lia.
Qed.
