(* ===== verification/CacheProps.v ===== *)
(** * Theorems about the cache

    Closed forms of the operations, the well-formedness invariant over every
    sequence of operations, and the trace theorem: what a lookup serves is
    the response last put under the key, inside its lifetime. *)
From S2P Require Import Prelude OrderedDict Metrics Dns Cache CacheEvict.
From stdpp Require Import base list strings gmap sets.

(** ** Specification vocabulary *)

(** What eviction leaves, [max_entries = 0] meaning unlimited. *)
Definition evict_to (cfg : CacheConfig) (now : Z) (d : list (CacheKey * CacheEntry)) :=
  if (max_entries cfg =? 0)%Z then d else evict_spec (max_entries cfg) now d.

Definition evicted_count (cfg : CacheConfig) (d : list (CacheKey * CacheEntry)) : nat :=
  if (max_entries cfg =? 0)%Z then 0 else overflow (max_entries cfg) d.

Definition count_negative_hit (e : CacheEntry) (m : option Metrics) : option Metrics :=
  if (rcode e =? NOERROR)%Z then m else inc_opt "negative_cache_hit_total" m.

(** The configuration values [validate_config] lets through. *)
Definition cache_config_ok (cfg : CacheConfig) : Prop :=
  (0 ≤ serve_stale_max_s cfg ∧ 0 ≤ negative_ttl_s cfg ∧ 0 ≤ max_entries cfg)%Z.

Definition entry_ok (e : CacheEntry) : Prop :=
  (0 ≤ hits e ≤ _HIT_CAP ∧ expires_at e ≤ stale_until e)%Z.

Record cache_ok (cfg : CacheConfig) (s : CacheSt) : Prop := {
  ok_keys : od_wf (_store s);
  ok_entries : Forall (λ kv, entry_ok kv.2) (_store s);
  ok_bound : (max_entries cfg ≠ 0 → len (_store s) ≤ max_entries cfg)%Z;
  ok_gauge : count_opt (c_metrics s) "cache_entries" = onm (c_metrics s) (len (_store s));
}.

(** Operations as data, and their effect on the state. *)
Inductive cache_op `{DnsTypes} : Type :=
| OpPut (now now_evict : Z) (key : CacheKey) (response : DNSRecord)
| OpGetFresh (key : CacheKey) (now : Z)
| OpGetStale (key : CacheKey) (now : Z)
| OpClear.

Definition run_op `{Dnslib} (cfg : CacheConfig) (op : cache_op) (s : CacheSt) : CacheSt :=
  match op with
  | OpPut now now_evict key r => (put cfg now now_evict key r s).1
  | OpGetFresh key now => (get_fresh key now s).1
  | OpGetStale key now => (get_stale key now s).1
  | OpClear => (clear s).1
  end.

(** The state after a sequence of operations. *)
Definition run_ops `{Dnslib} (cfg : CacheConfig) (ops : list cache_op) (s : CacheSt) : CacheSt :=
  foldl (λ s op, run_op cfg op s) s ops.

(** The put that a lookup of [key] answers from: the last one that succeeded
    since the last clear, with its time and the TTL it was given. *)
Definition last_put_step `{Dnslib} (cfg : CacheConfig) (key : CacheKey)
    (acc : option (Z * Z * DNSRecord)) (op : cache_op) : option (Z * Z * DNSRecord) :=
  match op with
  | OpPut now _ key' r =>
      if decide (key' = key) then
        match _compute_ttl_seconds cfg r, dns_pack r with
        | Ret ttl, Some _ => Some (now, Z.max 0 ttl, r)
        | _, _ => acc
        end
      else acc
  | OpClear => None
  | _ => acc
  end.
Definition last_put `{Dnslib} (cfg : CacheConfig) (key : CacheKey) (ops : list cache_op) :=
  foldl (last_put_step cfg key) None ops.

(** ** Closed forms *)

Lemma when_true {St} (m : M St ()) : when true m = m.
Proof. done. Qed.
Lemma when_false {St} (m : M St ()) : when false m = mret ().
Proof. done. Qed.

Lemma touch_run key m d :
  _touch key (mkCacheSt m d) = (mkCacheSt m (od_move_to_end key d), Ret ()).
Proof.
  unfold _touch, od_in, od_move_to_end. runM. cbn. by destruct (od_get key d).
Qed.

Lemma serve_run key now e m d :
  serve key now e (mkCacheSt m d) =
  (mkCacheSt (count_negative_hit e m) (od_move_to_end key (od_set key (hit now e) d)),
   Ret (Some (response_wire e))).
Proof.
  unfold serve, _count_negative, count_negative_hit, minc. runM. unfold with_store. cbn.
  destruct (rcode e =? NOERROR)%Z; cbn; by rewrite touch_run.
Qed.

Section closed_forms.
Context `{Dnslib}.

Lemma evict_run_any cfg now d m :
  cache_config_ok cfg → od_wf d →
  _evict_if_needed cfg now (mkCacheSt m d) =
  (mkCacheSt (count_evictions (evicted_count cfg d) m) (evict_to cfg now d), Ret ()).
Proof.
  intros (_ & _ & Hmax) Hwf. unfold evicted_count, evict_to.
  destruct (max_entries cfg =? 0)%Z eqn:E.
  - unfold _evict_if_needed. by rewrite E.
  - zbool. apply evict_run; [done|lia].
Qed.

Definition put_entry (cfg : CacheConfig) (now ttl : Z) (w : bytes) (r : DNSRecord) : CacheEntry :=
  mkCacheEntry w (now + ttl * SECOND) (now + ttl * SECOND + serve_stale_max_s cfg * SECOND)
    (hdr_rcode r) 0 0.

Lemma put_run cfg now now' key r ttl w m d :
  cache_config_ok cfg → od_wf d →
  _compute_ttl_seconds cfg r = Ret ttl → dns_pack r = Some w →
  let d1 := od_move_to_end key (od_set key (put_entry cfg now (Z.max 0 ttl) w r) d) in
  put cfg now now' key r (mkCacheSt m d) =
  (mkCacheSt (set_opt "cache_entries" (len (evict_to cfg now' d1))
                (count_evictions (evicted_count cfg d1) m))
     (evict_to cfg now' d1), Ret ()).
Proof.
  intros Hcfg Hwf Httl Hw d1. unfold put. runM. rewrite Httl, Hw.
  unfold with_store. cbn [c_metrics _store]. rewrite touch_run.
  rewrite evict_run_any by auto with rdns. done.
Qed.

Lemma put_fail cfg now now' key r s :
  (∀ ttl w, _compute_ttl_seconds cfg r = Ret ttl → dns_pack r = Some w → False) →
  ∃ e, put cfg now now' key r s = (s, Raise e).
Proof.
  intros Hf. unfold put. runM.
  destruct (_compute_ttl_seconds cfg r) as [ttl|e]; [|by eexists].
  destruct (dns_pack r) as [w|]; [|by eexists]. by destruct (Hf ttl w).
Qed.
End closed_forms.

(** ** What eviction and the recency list keep *)

Lemma evict_spec_length max now d :
  od_wf d → length (evict_spec max now d) = length d - overflow max d.
Proof.
  intros Hwf. rewrite <- (evict_spec_eq _ _ _ Hwf). rewrite length_drop, length_drop_expired. lia.
Qed.

Lemma evict_spec_elem max now d kv : kv ∈ evict_spec max now d → kv ∈ d.
Proof. unfold evict_spec. by intros [_ ?]%list_elem_of_filter. Qed.

Lemma evict_to_elem cfg now d kv : kv ∈ evict_to cfg now d → kv ∈ d.
Proof. unfold evict_to. case_match; [done|apply evict_spec_elem]. Qed.

Lemma evict_to_wf cfg now d : od_wf d → od_wf (evict_to cfg now d).
Proof. unfold evict_to. case_match; [done|apply od_wf_filter]. Qed.

Lemma evict_to_len cfg now d :
  cache_config_ok cfg → od_wf d → (max_entries cfg ≠ 0 → len (evict_to cfg now d) ≤ max_entries cfg)%Z.
Proof.
  intros (_ & _ & Hmax) Hwf Hne. unfold evict_to. rewrite (proj2 (Z.eqb_neq _ _)) by done.
  unfold len. rewrite evict_spec_length by done. unfold overflow, len. lia.
Qed.

Lemma od_move_elem (k : CacheKey) (d : list (CacheKey * CacheEntry)) kv :
  kv ∈ od_move_to_end k d → kv ∈ d.
Proof.
  unfold od_move_to_end. destruct (od_get k d) as [v|] eqn:E; [|done].
  rewrite elem_of_app, list_elem_of_singleton. intros [[_ ?]%list_elem_of_filter| ->]; [done|].
  by apply od_get_elem.
Qed.

Lemma od_set_elem (k : CacheKey) (v : CacheEntry) d kv :
  kv ∈ od_set k v d → kv = (k, v) ∨ kv ∈ d.
Proof.
  induction d as [|[k' v'] d IH]; cbn; [rewrite list_elem_of_singleton; by left|].
  case_decide; rewrite !elem_of_cons; [naive_solver|]. intros [->|?]; naive_solver.
Qed.

Lemma Forall_move_set (P : CacheKey * CacheEntry → Prop) k v d :
  P (k, v) → Forall P d → Forall P (od_move_to_end k (od_set k v d)).
Proof.
  rewrite !Forall_forall. intros Hv Hd kv Hkv.
  apply od_move_elem, od_set_elem in Hkv as [->|?]; auto.
Qed.

Lemma count_evictions_count n m k :
  count_opt (count_evictions n m) k =
  (count_opt m k + if decide ("evictions_total" = k) then onm m (Z.of_nat n) else 0)%Z
  ∧ (count_evictions n m = None ↔ m = None).
Proof.
  revert m. induction n as [|n IH]; intros m.
  { cbn. destruct m; cbn; split; try case_decide; try done; lia. }
  rewrite count_evictions_S. destruct (IH (inc_opt "evictions_total" m)) as [-> ->].
  rewrite count_opt_inc. split; [|by destruct m].
  destruct m; unfold inc_opt; cbn [onm fmap option_fmap option_map]; repeat case_decide; lia.
Qed.

Lemma onm_evictions n m v : onm (count_evictions n m) v = onm m v.
Proof.
  destruct (count_evictions_count n m "") as [_ Hn].
  destruct m, (count_evictions n _); cbn; naive_solver.
Qed.

Lemma set_length (k : CacheKey) (v : CacheEntry) d :
  od_wf d → od_get k d ≠ None → length (od_set k v d) = length d.
Proof.
  intros Hwf Hk. rewrite <- (length_fmap fst), <- (length_fmap fst d), od_set_keys.
  rewrite decide_True; [done|]. destruct (decide (k ∈ d.*1)) as [|Hn]; [done|].
  by apply od_get_None in Hn.
Qed.

Section invariant.
Context `{Dnslib}.

Lemma serve_ok cfg key now e s :
  cache_ok cfg s → od_get key (_store s) = Some e → cache_ok cfg (serve key now e s).1.
Proof.
  destruct s as [m d]. intros [Hwf Hen Hb Hg] He. cbn in *. rewrite serve_run. cbn.
  assert (length (od_move_to_end key (od_set key (hit now e) d)) = length d) as Hlen.
  { rewrite od_move_length by auto with rdns. apply set_length; [done|by rewrite He]. }
  split; cbn; unfold len in *; rewrite ?Hlen; auto with rdns.
  - apply Forall_move_set; [|done]. cbn.
    pose proof (proj1 (Forall_forall _ _) Hen _ (od_get_elem _ _ _ He)) as [Hh Hs]. cbn in *.
    split; cbn; unfold _HIT_CAP in *; lia.
  - unfold count_negative_hit. destruct (rcode e =? NOERROR)%Z; [done|].
    rewrite count_opt_inc, decide_False, onm_inc by done. lia.
Qed.

Lemma get_fresh_ok cfg key now s : cache_ok cfg s → cache_ok cfg (get_fresh key now s).1.
Proof.
  intros Hok. unfold get_fresh. runM. destruct (od_get key (_store s)) as [e|] eqn:E; [|done].
  case_match; [|done]. by apply serve_ok.
Qed.

Lemma get_stale_ok cfg key now s : cache_ok cfg s → cache_ok cfg (get_stale key now s).1.
Proof.
  intros Hok. unfold get_stale. runM. destruct (od_get key (_store s)) as [e|] eqn:E; [|done].
  case_match; [|done]. by apply serve_ok.
Qed.

(** A [put] either fails without effect or is its closed form. *)
Lemma put_cases cfg now now' key r s :
  (∃ e, put cfg now now' key r s = (s, Raise e) ∧
        (∀ ttl w, _compute_ttl_seconds cfg r = Ret ttl → dns_pack r = Some w → False)) ∨
  (∃ ttl w, _compute_ttl_seconds cfg r = Ret ttl ∧ dns_pack r = Some w).
Proof.
  destruct (_compute_ttl_seconds cfg r) as [ttl|e] eqn:E1, (dns_pack r) as [w|] eqn:E2;
    [right; by eauto|left..];
    (destruct (put_fail cfg now now' key r s) as [e' ->]; [congruence|]);
    eexists; (split; [done|]); congruence.
Qed.

Lemma put_ok cfg now now' key r s :
  cache_config_ok cfg → cache_ok cfg s → cache_ok cfg (put cfg now now' key r s).1.
Proof.
  intros Hcfg Hok.
  destruct (put_cases cfg now now' key r s) as [(e & -> & _)|(ttl & w & Httl & Hw)]; [done|].
  destruct s as [m d]. destruct Hok as [Hwf Hen Hb Hg]. cbn in *.
  rewrite (put_run _ _ _ _ _ ttl w) by done. cbn.
  set (d1 := od_move_to_end key _). assert (od_wf d1) as Hd1 by (unfold d1; auto with rdns).
  split; cbn; auto using evict_to_wf, evict_to_len.
  - apply Forall_forall. intros kv Hkv%evict_to_elem. revert kv Hkv. apply Forall_forall.
    apply Forall_move_set; [|done]. unfold put_entry. destruct Hcfg as (? & ? & ?).
    split; cbn; unfold _HIT_CAP, SECOND; lia.
  - by rewrite count_opt_set, decide_True, onm_set by done.
Qed.

Lemma clear_ok cfg s : cache_config_ok cfg → cache_ok cfg (clear s).1.
Proof.
  intros (_ & _ & Hmax). destruct s as [m d]. unfold clear, mset, minc. runM. cbn.
  split; cbn; [by auto with rdns | constructor | intros; by rewrite len_nil |].
  autorewrite with rdns. by destruct m.
Qed.

Lemma run_op_ok cfg op s :
  cache_config_ok cfg → cache_ok cfg s → cache_ok cfg (run_op cfg op s).
Proof.
  intros Hcfg Hok. destruct op; cbn; auto using put_ok, get_fresh_ok, get_stale_ok, clear_ok.
Qed.

Lemma run_ops_ok cfg ops s :
  cache_config_ok cfg → cache_ok cfg s → cache_ok cfg (run_ops cfg ops s).
Proof.
  intros Hcfg. revert s. induction ops as [|op ops IH]; intros s Hok; [done|].
  cbn. apply IH. by apply run_op_ok.
Qed.
End invariant.

(** ** The store follows the last put *)

(** An entry is what a put stored, up to its hit statistics. *)
Definition entry_from `{Dnslib} (cfg : CacheConfig) (t ttl : Z) (r : DNSRecord) (e : CacheEntry) : Prop :=
  dns_pack r = Some (response_wire e)
  ∧ (expires_at e = t + ttl * SECOND)%Z
  ∧ (stale_until e = t + ttl * SECOND + serve_stale_max_s cfg * SECOND)%Z
  ∧ rcode e = hdr_rcode r.

Section trace.
Context `{Dnslib}.
Implicit Types (cfg : CacheConfig) (ops : list cache_op).

Definition store_agrees cfg ops (s : CacheSt) : Prop :=
  ∀ k e, od_get k (_store s) = Some e →
  ∃ t ttl r, last_put cfg k ops = Some (t, ttl, r) ∧ entry_from cfg t ttl r e.

(** Nothing is lost when the cache is unlimited. *)
Definition store_complete cfg ops (s : CacheSt) : Prop :=
  ∀ k p, last_put cfg k ops = Some p → ∃ e, od_get k (_store s) = Some e.

Lemma last_put_snoc cfg k ops op :
  last_put cfg k (ops ++ [op]) = last_put_step cfg k (last_put cfg k ops) op.
Proof. unfold last_put. by rewrite foldl_app. Qed.

Lemma run_ops_snoc cfg ops op s :
  run_ops cfg (ops ++ [op]) s = run_op cfg op (run_ops cfg ops s).
Proof. unfold run_ops. by rewrite foldl_app. Qed.

(** A lookup changes only the entry it hits, and there only the hits. *)
Lemma serve_get key now e s k :
  od_get key (_store s) = Some e →
  od_get k (_store (serve key now e s).1) =
  if decide (key = k) then Some (hit now e) else od_get k (_store s).
Proof.
  destruct s as [m d]. intros He. rewrite serve_run. cbn. by rewrite od_get_move, od_get_set.
Qed.

Lemma serve_agrees cfg ops key now e s :
  od_get key (_store s) = Some e → store_agrees cfg ops s →
  store_agrees cfg ops (serve key now e s).1.
Proof.
  intros He Hag k e'. rewrite (serve_get _ _ _ _ _ He). case_decide; [subst|apply Hag].
  intros [= <-]. apply (Hag _ _ He).
Qed.

Lemma serve_complete cfg ops key now e s :
  od_get key (_store s) = Some e → store_complete cfg ops s →
  store_complete cfg ops (serve key now e s).1.
Proof.
  intros He Hc k p Hp. rewrite (serve_get _ _ _ _ _ He). case_decide; eauto.
Qed.

Lemma lookup_cases (P : CacheSt → Prop) key now s :
  P s → (∀ e, od_get key (_store s) = Some e → P (serve key now e s).1) →
  P (get_fresh key now s).1 ∧ P (get_stale key now s).1.
Proof.
  intros Hs Hserve. unfold get_fresh, get_stale. runM.
  destruct (od_get key (_store s)) as [e|] eqn:E; [|done].
  split; case_match; auto.
Qed.

Lemma evict_to_get cfg now d k e :
  od_wf d → od_get k (evict_to cfg now d) = Some e → od_get k d = Some e.
Proof.
  intros Hwf He. apply od_elem_get; [done|]. eapply evict_to_elem, od_get_elem, He.
Qed.

Lemma put_get cfg now now' key r ttl w s k :
  cache_config_ok cfg → od_wf (_store s) →
  _compute_ttl_seconds cfg r = Ret ttl → dns_pack r = Some w →
  od_get k (_store (put cfg now now' key r s).1) =
    od_get k (evict_to cfg now'
      (od_move_to_end key (od_set key (put_entry cfg now (Z.max 0 ttl) w r) (_store s)))).
Proof. destruct s as [m d]. intros. by rewrite (put_run _ _ _ _ _ ttl w) by done. Qed.

Lemma last_put_step_ok cfg k now now' key r ttl w acc :
  _compute_ttl_seconds cfg r = Ret ttl → dns_pack r = Some w →
  last_put_step cfg k acc (OpPut now now' key r) =
  if decide (key = k) then Some (now, Z.max 0 ttl, r) else acc.
Proof. intros Httl Hw. cbn. by rewrite Httl, Hw. Qed.

Lemma last_put_step_fail cfg k now now' key r acc :
  (∀ ttl w, _compute_ttl_seconds cfg r = Ret ttl → dns_pack r = Some w → False) →
  last_put_step cfg k acc (OpPut now now' key r) = acc.
Proof.
  intros Hf. cbn. case_decide; [|done].
  destruct (_compute_ttl_seconds cfg r) as [ttl|], (dns_pack r) as [w|]; try done.
  by destruct (Hf ttl w).
Qed.

Lemma put_agrees cfg ops now now' key r s :
  cache_config_ok cfg → od_wf (_store s) → store_agrees cfg ops s →
  store_agrees cfg (ops ++ [OpPut now now' key r]) (put cfg now now' key r s).1.
Proof.
  intros Hcfg Hwf Hag k e. rewrite last_put_snoc.
  destruct (put_cases cfg now now' key r s) as [(ex & -> & Hf)|(ttl & w & Httl & Hw)].
  { rewrite last_put_step_fail by done. apply Hag. }
  rewrite (last_put_step_ok _ _ _ _ _ _ ttl w), (put_get _ _ _ _ _ ttl w) by done.
  intros He%evict_to_get; [|by auto with rdns].
  rewrite od_get_move, od_get_set in He. case_decide; [|by apply Hag].
  injection He as <-. eexists _, _, _. split; [done|]. by repeat split.
Qed.

Lemma put_complete cfg ops now now' key r s :
  cache_config_ok cfg → max_entries cfg = 0%Z → od_wf (_store s) → store_complete cfg ops s →
  store_complete cfg (ops ++ [OpPut now now' key r]) (put cfg now now' key r s).1.
Proof.
  intros Hcfg Hmax Hwf Hc k p. rewrite last_put_snoc.
  destruct (put_cases cfg now now' key r s) as [(ex & -> & Hf)|(ttl & w & Httl & Hw)].
  { rewrite last_put_step_fail by done. apply Hc. }
  rewrite (last_put_step_ok _ _ _ _ _ _ ttl w), (put_get _ _ _ _ _ ttl w) by done.
  unfold evict_to. rewrite Hmax. cbn. rewrite od_get_move, od_get_set.
  case_decide; eauto.
Qed.

Lemma run_ops_agrees cfg ops m :
  cache_config_ok cfg → cache_ok cfg (cache_new m) →
  store_agrees cfg ops (run_ops cfg ops (cache_new m)).
Proof.
  intros Hcfg Hnew. induction ops as [|op ops IH] using rev_ind; [by intros ??|].
  rewrite run_ops_snoc. set (s := run_ops cfg ops (cache_new m)) in *.
  assert (od_wf (_store s)) as Hwf by (by apply (ok_keys cfg), run_ops_ok).
  destruct op as [now now' key r|key now|key now|]; cbn.
  - by apply put_agrees.
  - intros k e. rewrite last_put_snoc. revert k e.
    by apply (lookup_cases (store_agrees cfg ops)); [|intros; by apply serve_agrees].
  - intros k e. rewrite last_put_snoc. revert k e.
    by apply (lookup_cases (store_agrees cfg ops)); [|intros; by apply serve_agrees].
  - by intros ??.
Qed.

Lemma run_ops_complete cfg ops m :
  cache_config_ok cfg → max_entries cfg = 0%Z → cache_ok cfg (cache_new m) →
  store_complete cfg ops (run_ops cfg ops (cache_new m)).
Proof.
  intros Hcfg Hmax Hnew. induction ops as [|op ops IH] using rev_ind; [by intros ??|].
  rewrite run_ops_snoc. set (s := run_ops cfg ops (cache_new m)) in *.
  assert (od_wf (_store s)) as Hwf by (by apply (ok_keys cfg), run_ops_ok).
  destruct op as [now now' key r|key now|key now|]; cbn.
  - by apply put_complete.
  - intros k e. rewrite last_put_snoc. revert k e.
    by apply (lookup_cases (store_complete cfg ops)); [|intros; by apply serve_complete].
  - intros k e. rewrite last_put_snoc. revert k e.
    by apply (lookup_cases (store_complete cfg ops)); [|intros; by apply serve_complete].
  - intros k p. by rewrite last_put_snoc.
Qed.

(** The value of a lookup, from the entry it finds. *)
Lemma get_fresh_value key now s :
  (get_fresh key now s).2 = Ret (
    match od_get key (_store s) with
    | Some e => if (now <=? expires_at e)%Z then Some (response_wire e) else None
    | None => None
    end).
Proof.
  unfold get_fresh. runM. destruct (od_get key (_store s)) as [e|]; [|done].
  case_match; [|done]. destruct s. by rewrite serve_run.
Qed.

Lemma get_stale_value key now s :
  (get_stale key now s).2 = Ret (
    match od_get key (_store s) with
    | Some e => if ((expires_at e <? now) && (now <=? stale_until e))%Z
                then Some (response_wire e) else None
    | None => None
    end).
Proof.
  unfold get_stale. runM. destruct (od_get key (_store s)) as [e|]; [|done].
  case_match; [|done]. destruct s. by rewrite serve_run.
Qed.
End trace.

(** ** Abstract specification: a lookup is a function of the history *)

Definition spec_fresh `{Dnslib} (cfg : CacheConfig) (ops : list cache_op) (key : CacheKey) (now : Z)
    : option bytes :=
  match last_put cfg key ops with
  | Some (t, ttl, r) => if (now <=? t + ttl * SECOND)%Z then dns_pack r else None
  | None => None
  end.

Definition spec_stale `{Dnslib} (cfg : CacheConfig) (ops : list cache_op) (key : CacheKey) (now : Z)
    : option bytes :=
  match last_put cfg key ops with
  | Some (t, ttl, r) =>
      let expires := (t + ttl * SECOND)%Z in
      if ((expires <? now) && (now <=? expires + serve_stale_max_s cfg * SECOND))%Z
      then dns_pack r else None
  | None => None
  end.

Lemma cache_new_ok cfg m :
  cache_config_ok cfg → count_opt m "cache_entries" = 0%Z → cache_ok cfg (cache_new m).
Proof.
  intros (_ & _ & Hmax) Hm. split; cbn; [constructor|constructor| |].
  - unfold len. cbn. lia.
  - rewrite Hm. by destruct m.
Qed.

Section spec_lemmas.
Context `{Dnslib}.

Lemma agrees_spec cfg ops s key now e :
  store_agrees cfg ops s → od_get key (_store s) = Some e →
  spec_fresh cfg ops key now =
    (if (now <=? expires_at e)%Z then Some (response_wire e) else None) ∧
  spec_stale cfg ops key now =
    (if ((expires_at e <? now) && (now <=? stale_until e))%Z
     then Some (response_wire e) else None).
Proof.
  intros Hag He. destruct (Hag _ _ He) as (t & ttl & r & Hl & Hw & Hx & Hs & _).
  unfold spec_fresh, spec_stale. by rewrite Hl, Hw, Hx, Hs.
Qed.

Lemma complete_spec_None cfg ops s key now :
  store_complete cfg ops s → od_get key (_store s) = None →
  spec_fresh cfg ops key now = None ∧ spec_stale cfg ops key now = None.
Proof.
  intros Hc He. unfold spec_fresh, spec_stale.
  destruct (last_put cfg key ops) as [p|] eqn:E; [|done].
  destruct (Hc _ _ E) as [e ?]. congruence.
Qed.
End spec_lemmas.

(** ** The entry just put survives its own eviction *)

Lemma od_move_set_last (key : CacheKey) (e : CacheEntry) d :
  ∃ d0, od_move_to_end key (od_set key e d) = d0 ++ [(key, e)].
Proof.
  unfold od_move_to_end. rewrite od_get_set, decide_True by done. by eexists.
Qed.

Lemma take_app_last {A} n (l : list A) x : n ≤ length l → take n (l ++ [x]) = take n l.
Proof. intros. by rewrite take_app_le. Qed.

Lemma evict_spec_keeps_last max now d0 key e :
  od_wf (d0 ++ [(key, e)]) → (0 < max)%Z → (now ≤ stale_until e)%Z →
  (key, e) ∈ evict_spec max now (d0 ++ [(key, e)]).
Proof.
  intros Hwf Hmax Hnow. unfold evict_spec. apply list_elem_of_filter.
  split; [|apply elem_of_app; right; constructor]. cbn [fst].
  assert (¬ expired now (key, e)) as Hne by (unfold expired; cbn; lia).
  unfold victims. set (n := overflow max _).
  rewrite !filter_app, filter_cons_False, filter_cons_True, !filter_nil, app_nil_r by done.
  rewrite app_assoc, take_app_last.
  - intros ([k e'] & Hk & Hin)%list_elem_of_fmap. cbn in Hk. subst k.
    apply elem_of_take in Hin as (i & Hin%list_elem_of_lookup_2 & _).
    assert ((key, e') ∈ d0) as Hd0.
    { apply elem_of_app in Hin as [[_ ?]%list_elem_of_filter|[_ ?]%list_elem_of_filter]; done. }
    unfold od_wf in Hwf. rewrite fmap_app in Hwf. apply NoDup_app in Hwf as (_ & Hdisj & _).
    apply (Hdisj key); [by eapply elem_of_keys | constructor].
  - rewrite filter_app_complement. unfold n, overflow.
    rewrite len_app, len_cons, len_nil. unfold len. lia.
Qed.

Lemma evict_spec_full max now d :
  od_wf d → (0 ≤ max)%Z → evict_spec max now d = d ∨ len (evict_spec max now d) = max.
Proof.
  intros Hwf Hmax. destruct (decide (overflow max d = 0)) as [E|E].
  - left. unfold evict_spec, victims. rewrite E, take_0. apply filter_all. set_solver.
  - right. unfold len. rewrite evict_spec_length by done. unfold overflow, len in *. lia.
Qed.

(** ** Statistics *)

(** How many entries satisfy [P], as a Python integer. *)
Definition n_such (P : CacheEntry → Prop) `{∀ e, Decision (P e)} (es : list CacheEntry) : Z :=
  len (filter P es).

Lemma n_such_snoc (P : CacheEntry → Prop) `{∀ e, Decision (P e)} es e :
  n_such P (es ++ [e]) = (n_such P es + if decide (P e) then 1 else 0)%Z.
Proof.
  unfold n_such. rewrite filter_app, len_app, filter_cons, filter_nil.
  by case_decide; rewrite ?len_cons, ?len_nil.
Qed.

Lemma stats_loop_spec now es :
  stats_loop now es =
  mkStats (n_such (λ e, expires_at e ≤ now)%Z es)
          (n_such (λ e, expires_at e < now ≤ stale_until e)%Z es)
          (n_such (λ e, now < expires_at e)%Z es)
          (n_such (λ e, rcode e ≠ NOERROR) es).
Proof.
  unfold stats_loop. induction es as [|e es IH] using rev_ind; [done|].
  rewrite foldl_app. cbn [foldl]. rewrite IH, !n_such_snoc. unfold stats_entry.
  cbn [expired_total stale_servable_total fresh_total negative_total].
  destruct (rcode e =? NOERROR)%Z eqn:Er; zbool;
    destruct (expires_at e <=? now)%Z eqn:Ex; zbool;
    destruct ((expires_at e <? now) && (now <=? stale_until e))%Z eqn:Es;
    first [apply andb_true_iff in Es as [??] | apply andb_false_iff in Es as [?|?]]; zbool;
    repeat case_decide; f_equal; try lia; try done; exfalso; naive_solver lia.
Qed.
