(* ===== verification/CacheTheorems.v ===== *)
(** * The cache's properties

    The theorems a reader of [memory.py] should rely on, each with a concrete
    instance where it has hypotheses. *)
From S2P Require Import Prelude OrderedDict Metrics Dns Cache CacheEvict CacheProps.
From stdpp Require Import base list strings gmap sets.

(** A concrete history for the instances below. *)
Module cache_example.
Import toy.
Definition answer : DNSRecord :=
  mkDNSRecord 7 NOERROR 0 () [mkQ "a.com." 1 1] [mkRR (Some 60%Z) (Some 1%Z) None None] [] [].
Definition key : CacheKey := ("a.com", 1%Z, 1%Z).
Definition key2 : CacheKey := ("b.com", 1%Z, 1%Z).
Definition cfg : CacheConfig := mkCacheConfig 300 60 0.
Definition small : CacheConfig := mkCacheConfig 300 60 1.
Definition m0 : option Metrics := Some metrics_new.
Definition history : list cache_op := [OpPut 0 0 key answer; OpGetFresh key 5].
Definition wire : bytes := default [] (dns_pack answer).
Definition entry (t : Z) : CacheEntry := mkCacheEntry wire t (t + 10) 0 0 0.
Lemma cfg_ok : cache_config_ok cfg.
Proof. unfold cache_config_ok, cfg; cbn; lia. Qed.
Lemma small_ok : cache_config_ok small.
Proof. unfold cache_config_ok, small; cbn; lia. Qed.
End cache_example.

(** C10: Eviction computes its specification: with a positive [max_entries],
    [_evict_if_needed] removes exactly the overflow, choosing the entries past
    [stale_until] first and then the least recently used, leaves the order of
    the others alone, counts each removal in [evictions_total] and touches no
    other counter. *)
Theorem evict_if_needed_correct (cfg : CacheConfig) (now : Z) (s : CacheSt) :
  od_wf (_store s) → (0 < max_entries cfg)%Z →
  ∃ m', _evict_if_needed cfg now s =
          (mkCacheSt m' (evict_spec (max_entries cfg) now (_store s)), Ret ())
      ∧ len (evict_spec (max_entries cfg) now (_store s)) = Z.min (len (_store s)) (max_entries cfg)
      ∧ ∀ k, count_opt m' k =
          (count_opt (c_metrics s) k +
           if decide ("evictions_total" = k)
           then onm (c_metrics s) (Z.of_nat (overflow (max_entries cfg) (_store s))) else 0)%Z.
Proof.
  destruct s as [m d]. cbn [_store c_metrics]. intros Hwf Hmax.
  eexists. split; [by apply evict_run|]. split.
  - unfold len. rewrite evict_spec_length by done. unfold overflow, len. lia.
  - intros k. apply count_evictions_count.
Qed.

Lemma evict_if_needed_correct_witness :
  ∃ m', _evict_if_needed cache_example.small 20
          (mkCacheSt cache_example.m0
             [(cache_example.key, cache_example.entry 15);
              (cache_example.key2, cache_example.entry 5)]) =
        (mkCacheSt m' [(cache_example.key, cache_example.entry 15)], Ret ()).
Proof.
  destruct (evict_if_needed_correct cache_example.small 20
    (mkCacheSt cache_example.m0
       [(cache_example.key, cache_example.entry 15); (cache_example.key2, cache_example.entry 5)]))
    as (m' & Hrun & _).
  - vm_compute. apply (bool_decide_unpack _). by vm_compute.
  - reflexivity.
  - exists m'. exact Hrun.
Defined.

(** Invariant over every sequence of operations from an empty cache: no
    key is stored twice, the hit count of an entry stays between 0 and 1024,
    an entry expires no later than it stops being servable, a bounded cache
    holds at most [max_entries] entries, and the [cache_entries] gauge is the
    number of entries. *)
Theorem cache_invariant `{Dnslib} (cfg : CacheConfig) (ops : list cache_op) (m : option Metrics) :
  cache_config_ok cfg → count_opt m "cache_entries" = 0%Z →
  cache_ok cfg (run_ops cfg ops (cache_new m)).
Proof. intros Hcfg Hm. apply run_ops_ok; [done|]. by apply cache_new_ok. Qed.

Lemma cache_invariant_witness :
  cache_ok cache_example.small (run_ops cache_example.small cache_example.history
    (cache_new cache_example.m0)).
Proof.
  apply (cache_invariant cache_example.small cache_example.history cache_example.m0);
    [apply cache_example.small_ok | reflexivity].
Defined.

(** C4: Refinement of an unlimited cache: after any sequence of operations a
    lookup answers exactly as the history says it should, from the last
    response successfully put under the key since the last clear, as fresh up
    to its TTL and as stale for [serve_stale_max_s] more seconds. *)
Theorem cache_refines_history `{Dnslib} (cfg : CacheConfig) (ops : list cache_op)
    (m : option Metrics) (key : CacheKey) (now : Z) :
  cache_config_ok cfg → max_entries cfg = 0%Z → count_opt m "cache_entries" = 0%Z →
  let s := run_ops cfg ops (cache_new m) in
  (get_fresh key now s).2 = Ret (spec_fresh cfg ops key now)
  ∧ (get_stale key now s).2 = Ret (spec_stale cfg ops key now).
Proof.
  intros Hcfg Hmax Hm s. assert (cache_ok cfg (cache_new m)) by by apply cache_new_ok.
  assert (store_agrees cfg ops s) as Hag by by apply run_ops_agrees.
  assert (store_complete cfg ops s) as Hc by by apply run_ops_complete.
  rewrite get_fresh_value, get_stale_value.
  destruct (od_get key (_store s)) as [e|] eqn:E.
  - by destruct (agrees_spec cfg ops s key now e Hag E) as [-> ->].
  - by destruct (complete_spec_None cfg ops s key now Hc E) as [-> ->].
Qed.

Lemma cache_refines_history_witness :
  (get_fresh cache_example.key 8 (run_ops cache_example.cfg cache_example.history
    (cache_new cache_example.m0))).2 = Ret (Some cache_example.wire).
Proof.
  destruct (cache_refines_history cache_example.cfg cache_example.history cache_example.m0
    cache_example.key 8 cache_example.cfg_ok eq_refl eq_refl) as [Hf _].
  rewrite Hf. vm_compute. reflexivity.
Defined.

(** A bounded cache never serves anything else: whatever the evictions, a
    fresh or stale hit returns the bytes the history gives for that key at
    that time. *)
Theorem cache_serves_only_history `{Dnslib} (cfg : CacheConfig) (ops : list cache_op)
    (m : option Metrics) (key : CacheKey) (now : Z) (w : bytes) :
  cache_config_ok cfg → count_opt m "cache_entries" = 0%Z →
  let s := run_ops cfg ops (cache_new m) in
  ((get_fresh key now s).2 = Ret (Some w) → spec_fresh cfg ops key now = Some w)
  ∧ ((get_stale key now s).2 = Ret (Some w) → spec_stale cfg ops key now = Some w).
Proof.
  intros Hcfg Hm s. assert (cache_ok cfg (cache_new m)) by by apply cache_new_ok.
  assert (store_agrees cfg ops s) as Hag by by apply run_ops_agrees.
  rewrite get_fresh_value, get_stale_value.
  destruct (od_get key (_store s)) as [e|] eqn:E; [|done].
  destruct (agrees_spec cfg ops s key now e Hag E) as [-> ->].
  split; congruence.
Qed.

Lemma cache_serves_only_history_witness :
  spec_fresh cache_example.small cache_example.history cache_example.key 8
    = Some cache_example.wire.
Proof.
  apply (cache_serves_only_history cache_example.small cache_example.history cache_example.m0
    cache_example.key 8 cache_example.wire cache_example.small_ok eq_refl).
  vm_compute. reflexivity.
Defined.

(** C22: A successful [put] is visible at once and disturbs nothing: the new
    entry (unused, expiring after the response's TTL) is stored under the key
    as long as it has not gone past [stale_until] before the eviction check,
    every other key keeps its entry or has lost it to a full cache, and a
    [put] whose TTL or packing raises leaves the cache untouched. *)
Theorem put_correct `{Dnslib} (cfg : CacheConfig) (now now_evict : Z) (key : CacheKey)
    (r : DNSRecord) (s : CacheSt) :
  cache_config_ok cfg → cache_ok cfg s →
  let s' := (put cfg now now_evict key r s).1 in
  match _compute_ttl_seconds cfg r, dns_pack r with
  | Ret ttl, Some w =>
      let e := put_entry cfg now (Z.max 0 ttl) w r in
      (put cfg now now_evict key r s).2 = Ret ()
      ∧ ((now_evict ≤ stale_until e)%Z → od_get key (_store s') = Some e)
      ∧ ∀ k, k ≠ key →
          od_get k (_store s') = od_get k (_store s)
          ∨ (od_get k (_store s') = None ∧ len (_store s') = max_entries cfg)
  | _, _ => s' = s ∧ ∃ ex, (put cfg now now_evict key r s).2 = Raise ex
  end.
Proof.
  intros Hcfg Hok s'.
  destruct (_compute_ttl_seconds cfg r) as [ttl|ex] eqn:Httl, (dns_pack r) as [w|] eqn:Hw.
  2-4: destruct (put_fail cfg now now_evict key r s) as [e He]; [congruence|];
       unfold s'; rewrite He; eauto.
  destruct s as [m d]. pose proof (ok_keys _ _ Hok) as Hwf. cbn in Hwf.
  unfold s'. rewrite (put_run _ _ _ _ _ ttl w) by done. cbn [fst snd _store].
  set (e := put_entry cfg now (Z.max 0 ttl) w r).
  destruct (od_move_set_last key e d) as [d0 Hd0].
  assert (od_wf (od_move_to_end key (od_set key e d))) as Hwf1 by auto with rdns.
  assert (∀ k, k ≠ key → od_get k (d0 ++ [(key, e)]) = od_get k d) as Hother.
  { intros k Hk. by rewrite <- Hd0, od_get_move, od_get_set, decide_False by done. }
  rewrite Hd0 in Hwf1 |- *. unfold evict_to. destruct Hcfg as (_ & _ & Hmax).
  destruct (max_entries cfg =? 0)%Z eqn:E; zbool.
  - split; [done|]. split; [|by left; apply Hother].
    intros _. rewrite <- Hd0, od_get_move, od_get_set. by rewrite decide_True.
  - split; [done|]. split.
    + intros Hnow. apply od_elem_get; [by apply od_wf_filter|].
      apply evict_spec_keeps_last; [done|lia|done].
    + intros k Hk. rewrite <- (Hother k Hk).
      destruct (evict_spec_full (max_entries cfg) now_evict _ Hwf1 Hmax) as [-> | Hfull]; [by left|].
      destruct (od_get k (evict_spec _ _ _)) as [e'|] eqn:Ek; [left|by right].
      symmetry. apply od_elem_get; [done|]. by eapply evict_spec_elem, od_get_elem.
Qed.

Lemma put_correct_witness :
  od_get cache_example.key (_store (put cache_example.small 0 1 cache_example.key
    cache_example.answer (cache_new cache_example.m0)).1)
  = Some (put_entry cache_example.small 0 60 cache_example.wire cache_example.answer).
Proof.
  pose proof (put_correct cache_example.small 0 1 cache_example.key cache_example.answer
    (cache_new cache_example.m0) cache_example.small_ok
    (cache_new_ok _ cache_example.m0 cache_example.small_ok eq_refl)) as Hput.
  cbn zeta in Hput.
  replace (_compute_ttl_seconds cache_example.small cache_example.answer)
    with (@Ret Z 60%Z) in Hput by reflexivity.
  replace (dns_pack cache_example.answer) with (Some cache_example.wire) in Hput by reflexivity.
  destruct Hput as (_ & Hget & _). apply Hget. vm_compute. discriminate.
Defined.

(** C23: The lookups partition time: an entry is answered by [get_fresh] alone
    up to and including [expires_at], by [get_stale] alone after it up to and
    including [stale_until], and by neither afterwards; a hit counts one use
    (capped at 1024), makes the entry the most recently used, and changes no
    other entry; a miss changes nothing. *)
Theorem lookup_correct (cfg : CacheConfig) (key : CacheKey) (now : Z) (s : CacheSt) :
  cache_ok cfg s →
  match od_get key (_store s) with
  | None => get_fresh key now s = (s, Ret None) ∧ get_stale key now s = (s, Ret None)
  | Some e =>
      let s' := mkCacheSt (count_negative_hit e (c_metrics s))
                  (od_del key (_store s) ++
                     [(key, mkCacheEntry (response_wire e) (expires_at e) (stale_until e) (rcode e)
                              (Z.min 1024 (hits e + 1)) now)]) in
      get_fresh key now s =
        (if bool_decide (now ≤ expires_at e)%Z
         then (s', Ret (Some (response_wire e))) else (s, Ret None))
      ∧ get_stale key now s =
        (if bool_decide (expires_at e < now ≤ stale_until e)%Z
         then (s', Ret (Some (response_wire e))) else (s, Ret None))
  end.
Proof.
  intros Hok. destruct s as [m d]. cbn [_store c_metrics].
  unfold get_fresh, get_stale. runM. cbn [_store].
  destruct (od_get key d) as [e|] eqn:E; [|done]. cbn zeta. change 1024%Z with _HIT_CAP. fold (hit now e).
  assert (od_del key (od_set key (hit now e) d) = od_del key d) as Hdel.
  { clear Hok E. unfold od_del. induction d as [|[k v] d IH]; cbn [od_set].
    - by rewrite filter_cons_False by naive_solver.
    - case_decide; [subst|].
      + by rewrite !filter_cons_False by naive_solver.
      + by rewrite !filter_cons_True, IH by done. }
  assert (serve key now e (mkCacheSt m d) =
    (mkCacheSt (count_negative_hit e m) (od_del key d ++ [(key, hit now e)]),
     Ret (Some (response_wire e)))) as Hserve.
  { rewrite serve_run. unfold od_move_to_end.
    by rewrite od_get_set, decide_True, Hdel by done. }
  split.
  - destruct (now <=? expires_at e)%Z eqn:Ex; zbool.
    + by rewrite bool_decide_true, Hserve.
    + by rewrite bool_decide_false by lia.
  - destruct ((expires_at e <? now) && (now <=? stale_until e))%Z eqn:Ex.
    + zbool. by rewrite bool_decide_true, Hserve.
    + apply andb_false_iff in Ex as [Ex|Ex]; zbool; by rewrite bool_decide_false by lia.
Qed.

Lemma lookup_correct_witness :
  get_stale cache_example.key 17 (mkCacheSt None [(cache_example.key, cache_example.entry 15)]) =
  (mkCacheSt None [(cache_example.key, let e := cache_example.entry 15 in
                      mkCacheEntry cache_example.wire 15 (stale_until e) (rcode e) 1 17)],
   Ret (Some cache_example.wire)).
Proof.
  assert (cache_ok cache_example.small
    (mkCacheSt None [(cache_example.key, cache_example.entry 15)])) as Hok.
  { split; cbn.
    - apply NoDup_singleton.
    - repeat constructor; cbn; unfold _HIT_CAP; lia.
    - vm_compute. discriminate.
    - reflexivity. }
  exact (proj2 (lookup_correct cache_example.small cache_example.key 17 _ Hok)).
Defined.

(** The MINIMUM of an SOA record, type 6: its attribute of that name, or the
    fifth of its five numbers. *)
Definition soa_minimum `{DnsTypes} (r : rr) (t : Z) : Prop :=
  rr_rtype r = Some 6%Z
  ∧ (rr_minttl r = Some t
     ∨ (rr_minttl r = None ∧ ∃ serial refresh retry expire rest,
          rr_times r = Some (serial :: refresh :: retry :: expire :: t :: rest))).

Lemma soa_minttl_spec `{DnsTypes} r t : soa_minttl r = Some t ↔ soa_minimum r t.
Proof.
  unfold soa_minttl, soa_minimum, SOA. case_bool_decide as Hs; [|naive_solver].
  destruct (rr_minttl r) as [m|]; [naive_solver|]. destruct (rr_times r) as [ts|]; [|naive_solver].
  destruct ts as [|a [|b [|c [|d [|t' ts]]]]]; unfold len; cbn; try naive_solver.
  destruct (Z.leb_spec 5 (Z.of_nat (S (S (S (S (S (length ts)))))))); [naive_solver|lia].
Qed.

Lemma soa_minttl_none `{DnsTypes} l : Forall (λ r, soa_minttl r = None) l ↔ ∀ r t, r ∈ l → ¬ soa_minimum r t.
Proof.
  setoid_rewrite <- soa_minttl_spec. rewrite Forall_forall. split; [intros Hl r t Hr; by rewrite Hl|].
  intros Hl r Hr. destruct (soa_minttl r) as [t|] eqn:E; [by destruct (Hl r t Hr)|done].
Qed.

(** C24: The TTL a response is cached with: the smallest TTL of the answer
    section for a positive answer; for a negative answer or NODATA, the MINIMUM
    (its attribute, or the fifth number) of the first authority record of type
    SOA that has one, and [negative_ttl_s] when none has; it raises only for a
    positive answer none of whose records has a TTL. *)
Theorem compute_ttl_correct `{Dnslib} (cfg : CacheConfig) (resp : DNSRecord) :
  let positive := hdr_rcode resp = 0%Z ∧ rrs resp ≠ [] in
  match _compute_ttl_seconds cfg resp with
  | Ret t =>
      (positive →
         (∃ r, r ∈ rrs resp ∧ rr_ttl r = Some t)
         ∧ ∀ r t', r ∈ rrs resp → rr_ttl r = Some t' → (t ≤ t')%Z)
      ∧ (¬ positive →
         (∃ l1 r l2, auth resp = l1 ++ r :: l2 ∧ soa_minimum r t ∧ ∀ r' t', r' ∈ l1 → ¬ soa_minimum r' t')
         ∨ (t = negative_ttl_s cfg ∧ ∀ r' t', r' ∈ auth resp → ¬ soa_minimum r' t'))
  | Raise e => positive ∧ (∀ r, r ∈ rrs resp → rr_ttl r = None) ∧ is_ValueError e = true
  end.
Proof.
  intros positive. unfold _compute_ttl_seconds.
  assert (((hdr_rcode resp =? NOERROR) && (0 <? len (rrs resp)))%Z = true ↔ positive) as Hpos.
  { unfold positive. rewrite andb_true_iff, Z.eqb_eq, Z.ltb_lt. unfold len.
    destruct (rrs resp); cbn; naive_solver lia. }
  destruct ((hdr_rcode resp =? NOERROR) && (0 <? len (rrs resp)))%Z eqn:E.
  - assert positive as Hp by naive_solver. unfold min_ttl.
    destruct (omap rr_ttl (rrs resp)) as [|t ts] eqn:Eo.
    + split; [done|]. split; [|done]. by apply Forall_forall, omap_nil_inv.
    + split; [intros _|done]. destruct (foldr_min_spec t ts) as [Hin Hle].
      rewrite <- Eo in Hin, Hle. split.
      * by apply list_elem_of_omap in Hin.
      * intros r t' Hr Ht'. apply Hle, list_elem_of_omap. eauto.
  - assert (¬ positive) as Hp by (rewrite <- Hpos; congruence).
    destruct (omap soa_minttl (auth resp)) as [|t ts] eqn:Eo; (split; [done|intros _]).
    + right. split; [done|]. by apply soa_minttl_none, omap_nil_inv.
    + left. apply omap_cons_inv in Eo as (l1 & r & l2 & E1 & Hr & Hl).
      exists l1, r, l2. split; [done|]. split; [by apply soa_minttl_spec|by apply soa_minttl_none].
Qed.

(** An NXDOMAIN response with two authority records, the second an SOA. *)
Lemma compute_ttl_correct_witness :
  let soa := toy.mkRR (Some 900%Z) (Some 6%Z) None (Some [1; 7200; 600; 86400; 300]%Z) in
  let ns := toy.mkRR (Some 900%Z) (Some 2%Z) (Some 5%Z) (Some [9; 9; 9; 9; 9]%Z) in
  _compute_ttl_seconds cache_example.small (@mkDNSRecord toy.toy_types 7 3 0 () [] [] [ns; soa] []) = Ret 300%Z.
Proof.
  intros soa ns. set (resp := @mkDNSRecord toy.toy_types 7 3 0 () [] [] [ns; soa] []).
  pose proof (compute_ttl_correct cache_example.small resp) as Ht. cbn zeta in Ht.
  destruct (_compute_ttl_seconds cache_example.small resp) as [t|e]; [|by destruct Ht as [[? _] _]].
  f_equal. destruct Ht as [_ Ht]. destruct Ht as [(l1 & r & l2 & E & Hr & _)|[_ Hn]]; [by intros [? _]| |].
  - destruct l1 as [|x [|y l1]]; cbn in E; unfold soa, ns in *; simplify_eq; [..|by destruct l1].
    all: destruct Hr as [? [?|[_ (a & b & c & d & rest & Hts)]]]; cbn in *; by simplify_eq.
  - exfalso. apply (Hn soa 300%Z); [set_solver|]. split; [done|]. right. split; [done|]. by do 5 eexists.
Defined.

(** The statistics: every entry is counted once as fresh or as expired,
    the stale-servable ones are those [get_stale] would answer now, and the
    entries [get_fresh] would answer now are the fresh ones together with
    those that expire at this very instant, which the statistics count as
    expired. *)
Theorem stats_snapshot_correct (now : Z) (s : CacheSt) :
  let es := (_store s).*2 in
  let fresh := n_such (λ e, now < expires_at e)%Z es in
  let expired_ := n_such (λ e, expires_at e ≤ now)%Z es in
  let stale := n_such (λ e, expires_at e < now ≤ stale_until e)%Z es in
  stats_snapshot now s =
    (s, Ret [ ("entries_total", len (_store s)); ("expired_total", expired_);
              ("stale_servable_total", stale); ("fresh_total", fresh);
              ("negative_total", n_such (λ e, rcode e ≠ NOERROR) es);
              ("evictions_total", count_opt (c_metrics s) "evictions_total") ])
  ∧ (fresh + expired_ = len (_store s))%Z
  ∧ (stale ≤ expired_)%Z
  ∧ n_such (λ e, now ≤ expires_at e)%Z es =
      (fresh + n_such (λ e, expires_at e = now) es)%Z.
Proof.
  intros es fresh expired_ stale. split; [|split; [|split]].
  - unfold stats_snapshot. runM. by rewrite stats_loop_spec.
  - unfold fresh, expired_. replace (len (_store s)) with (len es)
      by (unfold len, es; by rewrite length_fmap).
    generalize es. intros l. induction l as [|e l IH] using rev_ind; [done|].
    rewrite !n_such_snoc, len_app, <- IH. unfold len at 1. cbn [length].
    repeat case_decide; lia.
  - unfold stale, expired_. generalize es. intros l.
    induction l as [|e l IH] using rev_ind; [done|].
    rewrite !n_such_snoc. repeat case_decide; lia.
  - unfold fresh. generalize es. intros l. induction l as [|e l IH] using rev_ind; [done|].
    rewrite !n_such_snoc, IH. repeat case_decide; lia.
Qed.
