(* ===== verification/SingleFlight.v ===== *)
(** * SingleFlight ([src/resilientdns/dns/singleflight.py])

    One task per key.  [SfSt] holds the dict [_tasks], the event loop's view
    of the tasks it created ([loop_tasks]: still running, at some point [P] of
    its coroutine, or done with a result [R]) and the [_cleanup] coroutines
    that done callbacks have scheduled but that have not run yet.

    [self._lock] guards bodies that contain no [await], so no coroutine ever
    finds it taken: acquiring it never suspends, and [get_or_create] and
    [_cleanup] are atomic steps of the event loop.  [sf_step] is one step of
    the loop; the theorems hold in every state it reaches. *)
From S2P Require Import Prelude Metrics.
From stdpp Require Import base list strings gmap sets relations.

Section singleflight.
Context {K : Type} `{Countable K} {P R : Type}.

Inductive task_state : Type := Running (p : P) | Done (r : R).
Record task := mkTask { t_key : K; t_state : task_state }.

Record SfSt := mkSfSt {
  sf_metrics : option Metrics;
  _tasks : gmap K nat;
  loop_tasks : gmap nat task;
  cleanups : gset (K * nat);
  next_task : nat;
}.

#[global] Instance SfSt_metrics : HasMetrics SfSt := {|
  metrics_of := sf_metrics;
  with_metrics m s := mkSfSt m (_tasks s) (loop_tasks s) (cleanups s) (next_task s) |}.

Definition sf_new (m : option Metrics) : SfSt := mkSfSt m ∅ ∅ ∅ 0.

(** [task.done()] *)
Definition task_done (t : nat) (s : SfSt) : bool :=
  match loop_tasks s !! t with
  | Some (mkTask _ (Running _)) => false
  | _ => true
  end.

(** [asyncio.create_task(factory())], the dict update and the done
    callback, which names this key and this task. *)
Definition create_task (key : K) (coro : P) : M SfSt (nat * bool) :=
  t ← gets next_task;
  modify (λ s, mkSfSt (sf_metrics s) (<[key := t]> (_tasks s))
                 (<[t := mkTask key (Running coro)]> (loop_tasks s)) (cleanups s) (S t));;
  mret (t, true).

Definition get_or_create (key : K) (coro : P) : M SfSt (nat * bool) :=
  s ← get_state;
  match _tasks s !! key with
  | Some existing =>
      if negb (task_done existing s) then
        minc "singleflight_dedup_total";; mret (existing, false)
      else create_task key coro
  | None => create_task key coro
  end.

(** The coroutine of a running task reaches its next suspension point. *)
Definition advance_task (t : nat) (p : P) (s : SfSt) : SfSt :=
  mkSfSt (sf_metrics s) (_tasks s)
    (alter (λ k, mkTask (t_key k) (Running p)) t (loop_tasks s)) (cleanups s) (next_task s).

(** The task completes (value, exception or cancellation); its done
    callback schedules [_cleanup]. *)
Definition finish_task (t : nat) (r : R) (s : SfSt) : SfSt :=
  match loop_tasks s !! t with
  | Some (mkTask key (Running _)) =>
      mkSfSt (sf_metrics s) (_tasks s) (<[t := mkTask key (Done r)]> (loop_tasks s))
        ({[(key, t)]} ∪ cleanups s) (next_task s)
  | _ => s
  end.

Definition _cleanup (key : K) (t : nat) (s : SfSt) : SfSt :=
  mkSfSt (sf_metrics s)
    (if decide (_tasks s !! key = Some t) then delete key (_tasks s) else _tasks s)
    (loop_tasks s) (cleanups s ∖ {[(key, t)]}) (next_task s).

Definition task_running (t : nat) (s : SfSt) : bool := negb (task_done t s).

(** One step of the event loop, as far as SingleFlight is concerned. *)
Inductive sf_step (s : SfSt) : SfSt → Prop :=
| step_get_or_create key coro : sf_step s (get_or_create key coro s).1
| step_advance t p : task_running t s = true → sf_step s (advance_task t p s)
| step_finish t r : task_running t s = true → sf_step s (finish_task t r s)
| step_cleanup key t : (key, t) ∈ cleanups s → sf_step s (_cleanup key t s).

Record sf_ok (s : SfSt) : Prop := {
  sf_fresh : ∀ t, t ∈ dom (loop_tasks s) → t < next_task s;
  sf_keyed : ∀ key t, _tasks s !! key = Some t →
    ∃ st, loop_tasks s !! t = Some (mkTask key st);
  sf_running : ∀ key t p, loop_tasks s !! t = Some (mkTask key (Running p)) →
    _tasks s !! key = Some t;
  sf_finished : ∀ key t r, _tasks s !! key = Some t →
    loop_tasks s !! t = Some (mkTask key (Done r)) → (key, t) ∈ cleanups s;
  sf_pending : ∀ key t, (key, t) ∈ cleanups s →
    ∃ r, loop_tasks s !! t = Some (mkTask key (Done r));
}.

(** ** Lemmas *)

Lemma task_running_spec t s :
  task_running t s = true ↔ ∃ key p, loop_tasks s !! t = Some (mkTask key (Running p)).
Proof.
  unfold task_running, task_done. destruct (loop_tasks s !! t) as [[k [p|r]]|]; naive_solver.
Qed.

Lemma sf_new_ok m : sf_ok (sf_new m).
Proof. split; cbn; intros *; set_solver. Qed.

Lemma create_task_ok key coro s :
  sf_ok s → (∀ t, _tasks s !! key = Some t → task_running t s = false) →
  sf_ok (create_task key coro s).1.
Proof.
  intros [Hfr Hk Hr Hf Hp] Hidle. unfold create_task. runM. cbn.
  assert (∀ t st, loop_tasks s !! t = Some st → t ≠ next_task s) as Hne.
  { intros t st Ht ->. apply (Nat.lt_irrefl (next_task s)), Hfr, elem_of_dom. eauto. }
  split; cbn.
  - intros t. rewrite dom_insert_L, elem_of_union, elem_of_singleton.
    intros [->|Ht]; [lia|]. specialize (Hfr t Ht). lia.
  - intros k t. rewrite lookup_insert. case_decide as Ek.
    + intros [= <-]. subst. exists (Running coro). by rewrite lookup_insert_eq.
    + intros Hkt. destruct (Hk _ _ Hkt) as [st Hst]. exists st.
      rewrite lookup_insert_ne; [done|]. intros <-. by destruct (Hne _ _ Hst).
  - intros k t p. rewrite lookup_insert. case_decide as Et.
    + intros [= <- <-]. subst. by rewrite lookup_insert_eq.
    + intros Ht. apply Hr in Ht as Hkt. rewrite lookup_insert_ne; [done|]. intros <-.
      specialize (Hidle _ Hkt). apply not_true_iff_false in Hidle.
      apply Hidle, task_running_spec. eauto.
  - intros k t r. rewrite lookup_insert. case_decide as Ek.
    + intros [= <-]. by rewrite lookup_insert_eq.
    + intros Hkt. rewrite lookup_insert_ne; [by apply Hf|]. intros <-.
      destruct (Hk _ _ Hkt) as [st Hst]. by destruct (Hne _ _ Hst).
  - intros k t Hin. destruct (Hp _ _ Hin) as [r Hr']. exists r.
    rewrite lookup_insert_ne; [done|]. intros <-. by destruct (Hne _ _ Hr').
Qed.

Lemma get_or_create_cases key coro s :
  (∃ t, _tasks s !! key = Some t ∧ task_running t s = true ∧
     get_or_create key coro s =
     (with_metrics (inc_opt "singleflight_dedup_total" (sf_metrics s)) s, Ret (t, false)))
  ∨ ((∀ t, _tasks s !! key = Some t → task_running t s = false) ∧
     get_or_create key coro s = create_task key coro s).
Proof.
  unfold get_or_create, minc, task_running. runM.
  destruct (_tasks s !! key) as [t|]; [|by right].
  destruct (task_done t s) eqn:E; cbn [negb].
  - right. split; [|done]. intros t' [= <-]. by rewrite E.
  - left. exists t. by rewrite E.
Qed.

Lemma with_metrics_ok m s : sf_ok s → sf_ok (with_metrics m s).
Proof. intros [????]. by split. Qed.

Lemma get_or_create_ok key coro s : sf_ok s → sf_ok (get_or_create key coro s).1.
Proof.
  intros Hok. destruct (get_or_create_cases key coro s) as [(t & _ & _ & ->)|[Hidle ->]].
  - by apply with_metrics_ok.
  - by apply create_task_ok.
Qed.

Lemma advance_task_ok t p s : task_running t s = true → sf_ok s → sf_ok (advance_task t p s).
Proof.
  intros (key & p0 & Ht)%task_running_spec [Hfr Hk Hr Hf Hp].
  unfold advance_task. split; cbn.
  - intros t'. rewrite dom_alter_L. apply Hfr.
  - intros k t' Hkt. destruct (Hk _ _ Hkt) as [st Hst]. rewrite lookup_alter, Hst.
    case_decide; subst; rewrite ?Hst; cbn; eauto.
  - intros k t' p'. rewrite lookup_alter. case_decide; subst; [|apply Hr].
    rewrite Ht. cbn. intros [= <- <-]. eauto.
  - intros k t' r. rewrite lookup_alter. case_decide; subst; [by rewrite Ht|apply Hf].
  - intros k t' Hin. destruct (Hp _ _ Hin) as [r Hr']. exists r. rewrite lookup_alter.
    case_decide; subst; [congruence|done].
Qed.

Lemma finish_task_ok t r s : sf_ok s → sf_ok (finish_task t r s).
Proof.
  intros Hok. unfold finish_task.
  destruct (loop_tasks s !! t) as [[key [p|r0]]|] eqn:Ht; [|done..].
  destruct Hok as [Hfr Hk Hr Hf Hp]. split; cbn.
  - intros t'. rewrite dom_insert_L, elem_of_union, elem_of_singleton.
    intros [->|?]; [|by apply Hfr]. apply Hfr, elem_of_dom. eauto.
  - intros k t' Hkt. destruct (Hk _ _ Hkt) as [st Hst]. rewrite lookup_insert.
    case_decide; subst; [|eauto]. rewrite Ht in Hst. simplify_eq. eauto.
  - intros k t' p'. rewrite lookup_insert. case_decide; [done|apply Hr].
  - intros k t' r'. rewrite lookup_insert. case_decide; subst; [|set_solver].
    intros _ [= <- <-]. set_solver.
  - intros k t'. rewrite elem_of_union, elem_of_singleton, lookup_insert.
    intros [[= -> ->]|Hin]; [rewrite decide_True by done; eauto|].
    destruct (Hp _ _ Hin) as [r' Hr']. exists r'. case_decide; [congruence|done].
Qed.

Lemma cleanup_ok key t s : (key, t) ∈ cleanups s → sf_ok s → sf_ok (_cleanup key t s).
Proof.
  intros Hin [Hfr Hk Hr Hf Hp]. destruct (Hp _ _ Hin) as [r0 Ht]. unfold _cleanup. split; cbn.
  - done.
  - intros k t'. case_decide; [|apply Hk]. rewrite lookup_delete. by case_decide; [|apply Hk].
  - intros k t' p Ht'. specialize (Hr _ _ _ Ht'). case_decide; [|done].
    rewrite lookup_delete. case_decide; [subst|done]. simplify_eq.
  - intros k t' r Hkt Ht'. case_decide as Hd.
    + rewrite lookup_delete in Hkt. case_decide; [done|]. set_solver.
    + specialize (Hf _ _ _ Hkt Ht'). set_solver.
  - intros k t' Hin'. apply Hp. set_solver.
Qed.

Lemma sf_step_ok s s' : sf_step s s' → sf_ok s → sf_ok s'.
Proof.
  destruct 1; eauto using get_or_create_ok, advance_task_ok, finish_task_ok, cleanup_ok.
Qed.

Lemma sf_reachable_ok m s : rtc sf_step (sf_new m) s → sf_ok s.
Proof.
  intros Hr. remember (sf_new m) as s0 eqn:E. assert (sf_ok s0) as Hok by (subst; apply sf_new_ok).
  clear E. induction Hr as [|s0 s1 s2 Hstep _ IH]; eauto using sf_step_ok.
Qed.
End singleflight.

Arguments task_state : clear implicits.
Arguments task : clear implicits.
Arguments SfSt _ {_ _} _ _.

(** ** Properties *)

(** Running the scheduled cleanups, in some order. *)
Definition run_cleanups {K} `{Countable K} {P R} (l : list (K * nat)) (s : SfSt K P R) : SfSt K P R :=
  foldr (λ kt, _cleanup kt.1 kt.2) s l.

Lemma no_leak_ok {K} `{Countable K} {P R} (s : SfSt K P R) :
  sf_ok s → (∀ t, task_running t s = false) → cleanups s = ∅ → _tasks s = ∅.
Proof.
  intros [_ Hk _ Hf _] Hidle Hc. apply map_eq. intros key. rewrite lookup_empty.
  destruct (_tasks s !! key) as [t|] eqn:Ekt; [|done]. exfalso.
  destruct (Hk _ _ Ekt) as [[p|r] Hst].
  - specialize (Hidle t). apply not_true_iff_false in Hidle. apply Hidle, task_running_spec. eauto.
  - specialize (Hf _ _ _ Ekt Hst). set_solver.
Qed.

Lemma run_cleanups_ok {K} `{Countable K} {P R} (l : list (K * nat)) (s : SfSt K P R) :
  NoDup l → (∀ kt, kt ∈ l → kt ∈ cleanups s) → sf_ok s →
  let s' := run_cleanups l s in
  sf_ok s' ∧ loop_tasks s' = loop_tasks s ∧ cleanups s' = cleanups s ∖ list_to_set l.
Proof.
  induction l as [|[k t] l IH]; intros Hnd Hin Hok.
  { split; [done|]. split; [done|]. cbn. set_solver. }
  change (run_cleanups ((k, t) :: l) s) with (_cleanup k t (run_cleanups l s)). cbn zeta.
  apply NoDup_cons in Hnd as [Hnot Hnd].
  destruct IH as (Hok' & Hloop & Hcl); [done|set_solver|done|].
  split; [|split].
  - apply cleanup_ok; [|done]. rewrite Hcl. set_solver.
  - done.
  - unfold _cleanup. cbn [cleanups]. rewrite Hcl. set_solver.
Qed.

Lemma get_or_create_spec {K} `{Countable K} {P R} (s : SfSt K P R) (key : K) (coro : P) :
  sf_ok s →
  let s' := (get_or_create key coro s).1 in
  ∃ t leader, (get_or_create key coro s).2 = Ret (t, leader)
    ∧ (leader = true ↔ ∀ t' p, loop_tasks s !! t' ≠ Some (mkTask key (Running p)))
    ∧ (∃ p, loop_tasks s' !! t = Some (mkTask key (Running p)))
    ∧ (leader = false → loop_tasks s' = loop_tasks s ∧ _tasks s' = _tasks s
         ∧ count_opt (sf_metrics s') "singleflight_dedup_total" =
             (count_opt (sf_metrics s) "singleflight_dedup_total" + onm (sf_metrics s) 1)%Z)
    ∧ (leader = true → loop_tasks s !! t = None
         ∧ loop_tasks s' = <[t := mkTask key (Running coro)]> (loop_tasks s)
         ∧ sf_metrics s' = sf_metrics s).
Proof.
  intros Hok s'. unfold s'.
  destruct (get_or_create_cases key coro s) as [(t & Hkt & Hrun & ->)|[Hidle ->]].
  - exists t, false. destruct (sf_keyed _ Hok _ _ Hkt) as [st Hst].
    apply task_running_spec in Hrun as (k & p & Hp). rewrite Hst in Hp. simplify_eq.
    split; [done|]. split; [split; [done|]; intros Hno; by destruct (Hno t p)|].
    split; [by exists p|]. split; [|done]. intros _. cbn. split; [done|]. split; [done|].
    by rewrite count_opt_inc, decide_True by done.
  - exists (next_task s), true. unfold create_task. runM. cbn. split; [done|].
    split; [split; [|done]; intros _ t' p Ht'|].
    { apply (sf_running _ Hok) in Ht' as Hkt. specialize (Hidle _ Hkt).
      apply not_true_iff_false in Hidle. apply Hidle, task_running_spec. eauto. }
    split; [exists coro; by rewrite lookup_insert_eq|]. split; [done|]. intros _.
    split; [|done]. apply not_elem_of_dom. intros Hin%(sf_fresh _ Hok). lia.
Qed.

(** A concrete instance: one key, two callers, completion, cleanup. *)
Module sf_example.
Abbreviation St := (SfSt nat unit nat).
Definition s1 : St := (get_or_create 5 () (sf_new (Some metrics_new))).1.
Definition s2 : St := (get_or_create 5 () s1).1.
Definition s3 : St := finish_task 0 42 s2.
Lemma s1_reachable : rtc sf_step (sf_new (Some metrics_new)) s1.
Proof. apply rtc_once, step_get_or_create. Qed.
Lemma s2_reachable : rtc sf_step (sf_new (Some metrics_new)) s2.
Proof. eapply rtc_r; [apply s1_reachable|]. apply step_get_or_create. Qed.
Lemma s3_reachable : rtc sf_step (sf_new (Some metrics_new)) s3.
Proof. eapply rtc_r; [apply s2_reachable|]. apply step_finish. reflexivity. Qed.
End sf_example.

(** C11: SingleFlight's guarantee: in every reachable state of the event loop,
    two tasks that are still running for the same key are the same task. *)
Theorem singleflight_unique {K} `{Countable K} {P R} (m : option Metrics) (s : SfSt K P R)
    (key : K) (t1 t2 : nat) (p1 p2 : P) :
  rtc sf_step (sf_new m) s →
  loop_tasks s !! t1 = Some (mkTask key (Running p1)) →
  loop_tasks s !! t2 = Some (mkTask key (Running p2)) →
  t1 = t2.
Proof.
  intros Hok%sf_reachable_ok H1 H2.
  apply (sf_running _ Hok) in H1. apply (sf_running _ Hok) in H2. congruence.
Qed.

Lemma singleflight_unique_witness :
  (get_or_create 5 () (sf_new (Some metrics_new) : sf_example.St)).2 = Ret (0, true)
  ∧ (get_or_create 5 () sf_example.s1).2 = Ret (0, false)
  ∧ loop_tasks sf_example.s2 !! 0 = Some (mkTask 5 (Running ()))
  ∧ 0 = 0.
Proof.
  split; [reflexivity|]. split; [reflexivity|]. split; [reflexivity|].
  apply (singleflight_unique (Some metrics_new) sf_example.s2 5 0 0 () () sf_example.s2_reachable);
    reflexivity.
Defined.

(** A caller of [get_or_create] joins the task that is running for its
    key, counting one deduplication and starting nothing, and becomes the
    leader of a new running task exactly when none is running; either way the
    task it is given is running for its key. *)
Theorem get_or_create_correct {K} `{Countable K} {P R} (m : option Metrics) (s : SfSt K P R)
    (key : K) (coro : P) :
  rtc sf_step (sf_new m) s →
  let s' := (get_or_create key coro s).1 in
  ∃ t leader, (get_or_create key coro s).2 = Ret (t, leader)
    ∧ (leader = true ↔ ∀ t' p, loop_tasks s !! t' ≠ Some (mkTask key (Running p)))
    ∧ (∃ p, loop_tasks s' !! t = Some (mkTask key (Running p)))
    ∧ (leader = false → loop_tasks s' = loop_tasks s ∧ _tasks s' = _tasks s
         ∧ count_opt (sf_metrics s') "singleflight_dedup_total" =
             (count_opt (sf_metrics s) "singleflight_dedup_total" + onm (sf_metrics s) 1)%Z)
    ∧ (leader = true → loop_tasks s !! t = None
         ∧ loop_tasks s' = <[t := mkTask key (Running coro)]> (loop_tasks s)
         ∧ sf_metrics s' = sf_metrics s).
Proof.
  intros Hok%sf_reachable_ok. by apply get_or_create_spec.
Qed.

Lemma get_or_create_correct_witness :
  (get_or_create 5 () sf_example.s1).2 = Ret (0, false).
Proof.
  destruct (get_or_create_correct (Some metrics_new) sf_example.s1 5 () sf_example.s1_reachable)
    as (t & leader & Hret & _ & _ & _ & _).
  rewrite Hret. revert Hret. vm_compute. intros Hret. congruence.
Defined.

(** The dict does not leak: from any reachable state in which no task is
    running, once the cleanups the done callbacks scheduled have run, [_tasks]
    is empty. *)
Theorem singleflight_no_leak {K} `{Countable K} {P R} (m : option Metrics) (s : SfSt K P R) :
  rtc sf_step (sf_new m) s →
  (∀ t, task_running t s = false) →
  _tasks (run_cleanups (elements (cleanups s)) s) = ∅.
Proof.
  intros Hok%sf_reachable_ok Hidle.
  destruct (run_cleanups_ok (elements (cleanups s)) s) as (Hok' & Hloop & Hcl);
    [apply NoDup_elements|set_solver|done|].
  apply no_leak_ok; [done| |rewrite Hcl; set_solver].
  intros t. specialize (Hidle t). unfold task_running, task_done in *. by rewrite Hloop.
Qed.

Lemma singleflight_no_leak_witness :
  _tasks (run_cleanups (elements (cleanups sf_example.s3)) sf_example.s3) = ∅.
Proof.
  apply (singleflight_no_leak (Some metrics_new) sf_example.s3 sf_example.s3_reachable).
  intros t. destruct (decide (t = 0)) as [->|Ht]; [reflexivity|].
  assert (loop_tasks sf_example.s3 = {[0 := mkTask 5 (Done 42)]}) as E by reflexivity.
  unfold task_running, task_done. by rewrite E, lookup_singleton_ne by done.
Defined.
