(* ===== verification/Handler.v ===== *)
(** * The DNS handler ([src/resilientdns/dns/handler.py])

    [HSt] is the state behind a [DnsHandler]: the shared metrics registry, the
    cache's store, the SingleFlight tables, the refresh queue with its two
    key sets, and the heap of [DNSRecord] objects that tasks and callers share
    by reference.

    asyncio runs a coroutine without interruption from one suspension to the
    next, so each [async def] is cut at the places where it really suspends:
    awaiting a task that is not done, awaiting [upstream.query], or a queue
    that is empty.  Awaiting a coroutine that does not suspend (here
    [_schedule_refresh] and [get_or_create]) is an ordinary call.  The part up
    to the suspension is a computation [.._begin], the part after it
    [.._resume]; clock readings and the upstream's answer are arguments.

    Logging is left out.  [_watch_refresh] only logs: it shields the task it
    watches, so it changes neither the task nor the state. *)
From S2P Require Import Prelude PyFloat PyString OrderedDict Metrics Dns Cache SingleFlight.
From stdpp Require Import base list strings gmap sets countable pretty.

Record HandlerConfig := mkHandlerConfig {
  upstream_timeout_s : float;
  refresh_watch_timeout_s : Z;
  refresh_queue_max : Z;
  refresh_enabled : bool;
  refresh_ahead_seconds : Z;
  refresh_popularity_threshold : Z;
  refresh_popularity_decay_seconds : Z;
  refresh_tick_ms : Z;
  refresh_batch_size : Z;
  refresh_concurrency : Z;
}.
Definition HandlerConfig_default : HandlerConfig :=
  mkHandlerConfig (float_of_Z 2) (5 * SECOND) 1024 false 30 5 0 500 50 5.

(** SingleFlight keys: [key] for a resolution, [("refresh", key)] for a
    stale-while-revalidate refresh. *)
Inductive sf_key : Type := KResolve (key : CacheKey) | KRefresh (key : CacheKey).
#[global] Instance sf_key_eq_dec : EqDecision sf_key.
Proof. solve_decision. Defined.
#[global] Instance sf_key_countable : Countable sf_key.
Proof.
  apply (inj_countable' (λ k, match k with KResolve k => inl k | KRefresh k => inr k end)
    (λ s, match s with inl k => KResolve k | inr k => KRefresh k end)). by intros [].
Defined.

Section handler.
Context `{Dnslib}.

(** The coroutine of a SingleFlight task: created and not started, or awaiting
    [upstream.query]. *)
Inductive coro : Type :=
| CResolve (request : DNSRecord) (key : CacheKey) (qname qtype_name : string)
| CResolveQuery (wire : bytes) (request_id : string) (key : CacheKey) (qname qtype_name : string)
| CRefresh (key : CacheKey) (qname qtype_name : string) (refresh_key : CacheKey)
| CRefreshQuery (wire : bytes) (request_id : string) (key : CacheKey) (qname qtype_name : string)
    (refresh_key : CacheKey).

(** A task's result: a reference to the response object, [None], or an
    exception. *)
Abbreviation task_result := (res (option nat)).

Record HSt := mkHSt {
  h_metrics : option Metrics;
  h_store : list (CacheKey * CacheEntry);
  h_sf : SfSt sf_key coro task_result;
  refresh_queue : list (CacheKey * string);
  queued_keys : gset CacheKey;
  inflight_keys : gset CacheKey;
  h_heap : gmap nat DNSRecord;
  h_next : nat;
}.

#[global] Instance HSt_metrics : HasMetrics HSt := {|
  metrics_of := h_metrics;
  with_metrics m h := mkHSt m (h_store h) (h_sf h) (refresh_queue h) (queued_keys h)
                        (inflight_keys h) (h_heap h) (h_next h) |}.

(** The registry lives in [h_metrics] alone. *)
Definition handler_new (m : option Metrics) : HSt :=
  mkHSt m [] (sf_new None) [] ∅ ∅ ∅ 0.

(** ** Calls on the cache and on SingleFlight *)

Definition in_cache {A} : M CacheSt A → M HSt A :=
  zoom (λ h, mkCacheSt (h_metrics h) (h_store h))
       (λ c h, mkHSt (c_metrics c) (_store c) (h_sf h) (refresh_queue h) (queued_keys h)
                 (inflight_keys h) (h_heap h) (h_next h)).

Definition in_sf {A} : M (SfSt sf_key coro task_result) A → M HSt A :=
  zoom (λ h, with_metrics (h_metrics h) (h_sf h))
       (λ f h, mkHSt (sf_metrics f) (h_store h) (with_metrics None f) (refresh_queue h)
                 (queued_keys h) (inflight_keys h) (h_heap h) (h_next h)).

Definition with_sf (f : SfSt sf_key coro task_result) (h : HSt) : HSt :=
  mkHSt (h_metrics h) (h_store h) f (refresh_queue h) (queued_keys h)
    (inflight_keys h) (h_heap h) (h_next h).
Definition with_queue (q : list (CacheKey * string)) (qd inf : gset CacheKey) (h : HSt) : HSt :=
  mkHSt (h_metrics h) (h_store h) (h_sf h) q qd inf (h_heap h) (h_next h).
Definition with_heap (hp : gmap nat DNSRecord) (n : nat) (h : HSt) : HSt :=
  mkHSt (h_metrics h) (h_store h) (h_sf h) (refresh_queue h) (queued_keys h)
    (inflight_keys h) hp n.

(** A new [DNSRecord] object. *)
Definition alloc (r : DNSRecord) : M HSt nat :=
  n ← gets h_next;
  modify (λ h, with_heap (<[n := r]> (h_heap h)) (S n) h);;
  mret n.

(** ** Small methods *)

Definition _qtype_mapping (qtype : Z) : Z * string :=
  (qtype, match QTYPE_get qtype with Some n => n | None => pretty qtype end).

(** [response.header.id = request.header.id], on the object itself. *)
Definition _with_txid (request : DNSRecord) (response : nat) : M HSt nat :=
  modify (λ h, with_heap (alter (set_id (hdr_id request)) response (h_heap h)) (h_next h) h);;
  mret response.

(** [asyncio.Queue.full()]: a queue of [maxsize <= 0] is never full. *)
Definition queue_full (cfg : HandlerConfig) (q : list (CacheKey * string)) : bool :=
  if (refresh_queue_max cfg <=? 0)%Z then false else (refresh_queue_max cfg <=? len q)%Z.

Definition enqueue_refresh (cfg : HandlerConfig) (key : CacheKey) (reason : string) : M HSt bool :=
  h ← get_state;
  if bool_decide (key ∈ queued_keys h) || bool_decide (key ∈ inflight_keys h) then
    minc "cache_refresh_dropped_total{reason=duplicate}";; mret false
  else if queue_full cfg (refresh_queue h) then
    minc "cache_refresh_dropped_total{reason=queue_full}";; mret false
  else
    modify (λ h, with_queue (refresh_queue h ++ [(key, reason)]) ({[key]} ∪ queued_keys h)
                   (inflight_keys h) h);;
    minc "cache_refresh_enqueued_total";;
    mret true.

(** [queued_keys.discard(key); inflight_keys.add(key)] *)
Definition mark_inflight (key : CacheKey) (h : HSt) : HSt :=
  with_queue (refresh_queue h) (queued_keys h ∖ {[key]}) ({[key]} ∪ inflight_keys h) h.
(** [inflight_keys.discard(key)] *)
Definition unmark_inflight (key : CacheKey) (h : HSt) : HSt :=
  with_queue (refresh_queue h) (queued_keys h) (inflight_keys h ∖ {[key]}) h.

(** ** Upstream resolution

    [up wire request_id] is what the [await] of [upstream.query] gives: the
    call with the keyword argument, or without it for [None]. *)
Definition upstream := bytes → option string → res (option bytes).

Definition _query_upstream (up : upstream) (wire : bytes) (request_id : option string)
    : M HSt (option bytes) :=
  resp ← try_except
    (match request_id with
     | None => lift_res (up wire None)
     | Some i => try_except (lift_res (up wire (Some i))) is_TypeError
                   (λ _, lift_res (up wire None))
     end) is_Exception (λ _, mret None);
  match resp with
  | None => minc "upstream_fail_total";; mret None
  | Some b => mret (Some b)
  end.

(** The end of both [_resolve_upstream] and [_refresh_once]: query, parse,
    store; a response that does not parse is a failure. *)
Definition query_and_store (cc : CacheConfig) (up : upstream) (now now_evict : Z)
    (wire : bytes) (request_id : string) (key : CacheKey) : M HSt (option nat) :=
  resp_bytes ← _query_upstream up wire (Some request_id);
  match resp_bytes with
  | None => mret None
  | Some b =>
      match dns_parse b with
      | None => mret None
      | Some resp =>
          o ← alloc resp;
          in_cache (put cc now now_evict key resp);;
          mret (Some o)
      end
  end.

(** [_resolve_upstream] up to the [await] of the upstream. *)
Definition _resolve_upstream_begin (request : DNSRecord) : M HSt (bytes * string) :=
  wire ← lift_opt (dns_pack request) OtherException;
  mret (wire, pretty (hdr_id request)).

Definition class_name (qclass_id : Z) : string :=
  match CLASS_get qclass_id with Some n => n | None => pretty qclass_id end.

(** [_refresh_once] up to the [await]: [None] when the query cannot be
    built. *)
Definition _refresh_once_begin (key : CacheKey) (qname qtype_name : string)
    : M HSt (option (bytes * string)) :=
  match dns_question qname qtype_name (class_name key.2) with
  | None => mret None
  | Some new_req =>
      wire ← lift_opt (dns_pack new_req) OtherException;
      mret (Some (wire, "refresh-" +:+ qname +:+ "-" +:+ qtype_name))
  end.

(** ** Tasks of SingleFlight *)

(** A task completes: its result is what the coroutine returned or raised. *)
Definition finish (t : nat) (m : M HSt (option nat)) (h : HSt) : HSt :=
  let '(h', r) := m h in with_sf (finish_task t r (h_sf h')) h'.

(** The event loop runs task [t] up to its [await] of the upstream. *)
Definition task_begin (t : nat) (h : HSt) : HSt :=
  match loop_tasks (h_sf h) !! t with
  | Some (mkTask _ (Running (CResolve request key qname qtype_name))) =>
      match _resolve_upstream_begin request h with
      | (h', Ret (wire, rid)) =>
          with_sf (advance_task t (CResolveQuery wire rid key qname qtype_name) (h_sf h')) h'
      | (h', Raise e) => finish t (raise e) h'
      end
  | Some (mkTask _ (Running (CRefresh key qname qtype_name refresh_key))) =>
      let h := mark_inflight refresh_key h in
      match _refresh_once_begin key qname qtype_name h with
      | (h', Ret (Some (wire, rid))) =>
          with_sf (advance_task t
            (CRefreshQuery wire rid key qname qtype_name refresh_key) (h_sf h')) h'
      | (h', Ret None) => finish t (try_finally (mret None) (unmark_inflight refresh_key)) h'
      | (h', Raise e) => finish t (try_finally (raise e) (unmark_inflight refresh_key)) h'
      end
  | _ => h
  end.

(** The upstream answers task [t]. *)
Definition task_resume (cc : CacheConfig) (t : nat) (up : upstream) (now now_evict : Z) (h : HSt) : HSt :=
  match loop_tasks (h_sf h) !! t with
  | Some (mkTask _ (Running (CResolveQuery wire rid key _ _))) =>
      finish t (query_and_store cc up now now_evict wire rid key) h
  | Some (mkTask _ (Running (CRefreshQuery wire rid key _ _ refresh_key))) =>
      finish t (try_finally (query_and_store cc up now now_evict wire rid key)
                  (unmark_inflight refresh_key)) h
  | _ => h
  end.

(** A task is cancelled at its [await]: [CancelledError] is raised there; the
    [finally] of [_refresh_once_tracked] runs, no handler catches it. *)
Definition task_cancel (t : nat) (h : HSt) : HSt :=
  match loop_tasks (h_sf h) !! t with
  | Some (mkTask _ (Running (CRefreshQuery _ _ _ _ _ refresh_key))) =>
      finish t (try_finally (raise CancelledError) (unmark_inflight refresh_key)) h
  | Some (mkTask _ (Running _)) => finish t (raise CancelledError) h
  | _ => h
  end.

(** ** The request handler *)

Definition _schedule_refresh (key : CacheKey) (qname qtype_name : string) (refresh_key : CacheKey)
    : M HSt () :=
  tl ← in_sf (get_or_create (KRefresh key) (CRefresh key qname qtype_name refresh_key));
  when tl.2 (minc "swr_refresh_triggered_total").

(** [handle] returns a response object, or suspends on a task. *)
Inductive handle_out : Type :=
| HReturn (response : nat)
| HAwait (key : CacheKey) (qname qtype_name : string) (t : nat).

(** [return self._with_txid(request, DNSRecord.parse(wire))] *)
Definition reply_cached (request : DNSRecord) (wire : option bytes) : M HSt nat :=
  r ← lift_opt (wire ≫= dns_parse) OtherException;
  o ← alloc r;
  _with_txid request o.

(** Serve [stale] and refresh in the background. *)
Definition serve_stale (cfg : HandlerConfig) (request : DNSRecord) (stale : option bytes)
    (key : CacheKey) (qname qtype_name : string) : M HSt nat :=
  minc "cache_hit_stale_total";;
  enqueue_refresh cfg key "stale_served";;
  _schedule_refresh key qname qtype_name key;;
  reply_cached request stale.

(** [reply = request.reply(); reply.header.rcode = code] *)
Definition error_reply (request : DNSRecord) (code : Z) : M HSt nat :=
  alloc (set_rcode code (dns_reply request)).

(** [now_fresh] and [now_stale] are the readings of the two lookups. *)
Definition handle_begin (cfg : HandlerConfig) (request : DNSRecord) (now_fresh now_stale : Z)
    : M HSt handle_out :=
  match questions request with
  | [] => o ← error_reply request FORMERR; mret (HReturn o)
  | q :: _ =>
      let qname := normalize (q_qname q) in
      minc "queries_total";;
      let '(qtype_id, qtype_name) := _qtype_mapping (q_qtype q) in
      let key := (qname, qtype_id, q_qclass q) in
      fresh ← in_cache (get_fresh key now_fresh);
      if truthy fresh then
        minc "cache_hit_fresh_total";;
        o ← reply_cached request fresh; mret (HReturn o)
      else
        stale ← in_cache (get_stale key now_stale);
        if truthy stale then
          o ← serve_stale cfg request stale key qname qtype_name; mret (HReturn o)
        else
          minc "cache_miss_total";;
          tl ← in_sf (get_or_create (KResolve key) (CResolve request key qname qtype_name));
          mret (HAwait key qname qtype_name tl.1)
  end.

(** [handle] after [await task] gave [result]; [now] is the reading of the
    late stale lookup. *)
Definition handle_resume (cfg : HandlerConfig) (request : DNSRecord) (key : CacheKey)
    (qname qtype_name : string) (result : task_result) (now : Z) : M HSt nat :=
  resp ← try_except (lift_res result) is_Exception (λ _, mret None);
  match resp with
  | Some o => _with_txid request o
  | None =>
      stale2 ← in_cache (get_stale key now);
      if truthy stale2 then serve_stale cfg request stale2 key qname qtype_name
      else
        o ← error_reply request SERVFAIL;
        _with_txid request o
  end.

(** ** Background refresh *)

(** The time and popularity gate of the scan and of the worker. *)
Definition refresh_gate (cfg : HandlerConfig) (now : Z) (e : CacheEntry) : bool :=
  let remaining := (expires_at e - now)%Z in
  if (remaining <? 0)%Z then false
  else if (refresh_ahead_seconds cfg * SECOND <? remaining)%Z then false
  else if (hits e <? refresh_popularity_threshold cfg)%Z then false
  else if (0 <? refresh_popularity_decay_seconds cfg)%Z then
    if (last_hit_mono e <=? 0)%Z then false
    else negb (refresh_popularity_decay_seconds cfg * SECOND <? now - last_hit_mono e)%Z
  else true.

(** The loop of [_refresh_scan_tick]. *)
Fixpoint scan_entries (cfg : HandlerConfig) (now : Z) (enqueued : Z)
    (entries : list (CacheKey * CacheEntry)) : M HSt () :=
  match entries with
  | [] => mret ()
  | (key, entry) :: entries =>
      if refresh_gate cfg now entry then
        ok ← enqueue_refresh cfg key "tick";
        let enqueued' := (if (ok : bool) then enqueued + 1 else enqueued)%Z in
        if ok && (refresh_batch_size cfg <=? enqueued')%Z then mret ()
        else
          q ← gets refresh_queue;
          if queue_full cfg q then mret () else scan_entries cfg now enqueued' entries
      else scan_entries cfg now enqueued entries
  end.

Definition _refresh_scan_tick (cfg : HandlerConfig) (now : Z) : M HSt () :=
  entries ← in_cache entries_snapshot;
  scan_entries cfg now 0 entries.

(** What [_refresh_via_worker] does before its [await]: it returns
    [(attempted, result)] or suspends on a task. *)
Inductive worker_out : Type :=
| WReturn (attempted : bool) (result : string)
| WAwait (t : nat).

Definition _refresh_via_worker_begin (cfg : HandlerConfig) (now : Z) (refresh_key : CacheKey)
    : M HSt worker_out :=
  if negb (refresh_enabled cfg) then mret (WReturn false "skipped")
  else
    entry ← in_cache (peek refresh_key);
    match entry with
    | None => mret (WReturn false "skipped")
    | Some e =>
        if negb (refresh_gate cfg now e) then mret (WReturn false "skipped")
        else
          let '(qname, qtype_id, qclass_id) := refresh_key in
          let qtype_name := (_qtype_mapping qtype_id).2 in
          match dns_question qname qtype_name (class_name qclass_id) with
          | None => mret (WReturn true "fail")
          | Some request =>
              tl ← in_sf (get_or_create (KResolve refresh_key)
                            (CResolve request refresh_key qname qtype_name));
              mret (WAwait tl.1)
          end
    end.

(** The [finally] of one job of [_refresh_worker]. *)
Definition worker_finally (refresh_key : CacheKey) (attempted cancelled : bool) (result : string)
    : M HSt () :=
  when attempted (minc "cache_refresh_started_total");;
  when (negb cancelled) (minc ("cache_refresh_completed_total{result=" +:+ result +:+ "}"));;
  modify (unmark_inflight refresh_key).

(** One job up to its suspension: [None] when the queue is empty, else the
    job's key and the task awaited, if any. *)
Definition _refresh_worker_begin (cfg : HandlerConfig) (now : Z)
    : M HSt (option (CacheKey * option nat)) :=
  q ← gets refresh_queue;
  match q with
  | [] => mret None
  | (refresh_key, _) :: q =>
      modify (λ h, mark_inflight refresh_key (with_queue q (queued_keys h) (inflight_keys h) h));;
      out ← _refresh_via_worker_begin cfg now refresh_key;
      match out with
      | WReturn attempted result =>
          worker_finally refresh_key attempted false result;; mret (Some (refresh_key, None))
      | WAwait t => mret (Some (refresh_key, Some t))
      end
  end.

(** The rest of the job once the await of the task gave [result]; what is not
    an [Exception] leaves the loop after the [finally]. *)
Definition _refresh_worker_resume (refresh_key : CacheKey) (result : task_result) : M HSt () :=
  match result with
  | Ret (Some _) => worker_finally refresh_key true false "success"
  | Ret None => worker_finally refresh_key true false "fail"
  | Raise CancelledError =>
      worker_finally refresh_key false true "skipped";; raise CancelledError
  | Raise e =>
      if is_Exception e then worker_finally refresh_key true false "fail"
      else worker_finally refresh_key false false "skipped";; raise e
  end.
End handler.
