(* ===== verification/HandlerProps.v ===== *)
(** * Lemmas and theorems about the handler

    The behaviour of [handle] on every branch (fresh hit, stale hit, miss,
    upstream success, late stale, failure), of the refresh queue and scan,
    and of a refresh worker's job. *)
From S2P Require Import Prelude PyString OrderedDict Metrics Dns Cache CacheEvict CacheProps SingleFlight Handler.
From stdpp Require Import base list strings gmap sets pretty.

Section handler_props.
Context `{Dnslib}.
Implicit Types (h : HSt) (cfg : HandlerConfig) (request : DNSRecord).

(** The cache key of a question. *)
Definition key_of (q : question) : CacheKey := (normalize (q_qname q), q_qtype q, q_qclass q).

(** The store after a lookup of [key] hit [e]. *)
Definition used (key : CacheKey) (now : Z) (e : CacheEntry) (d : list (CacheKey * CacheEntry)) :=
  od_move_to_end key (od_set key (hit now e) d).

(** ** Running the cache from the handler *)

Lemma get_fresh_run key now m d :
  get_fresh key now (mkCacheSt m d) =
  match od_get key d with
  | Some e => if (now <=? expires_at e)%Z
              then (mkCacheSt (count_negative_hit e m) (used key now e d), Ret (Some (response_wire e)))
              else (mkCacheSt m d, Ret None)
  | None => (mkCacheSt m d, Ret None)
  end.
Proof.
  unfold get_fresh. runM. cbn. destruct (od_get key d) as [e|]; [|done].
  case_match; [|done]. apply serve_run.
Qed.

Lemma get_stale_run key now m d :
  get_stale key now (mkCacheSt m d) =
  match od_get key d with
  | Some e => if ((expires_at e <? now) && (now <=? stale_until e))%Z
              then (mkCacheSt (count_negative_hit e m) (used key now e d), Ret (Some (response_wire e)))
              else (mkCacheSt m d, Ret None)
  | None => (mkCacheSt m d, Ret None)
  end.
Proof.
  unfold get_stale. runM. cbn. destruct (od_get key d) as [e|]; [|done].
  case_match; [|done]. apply serve_run.
Qed.

Lemma alloc_run r h :
  alloc r h = (with_heap (<[h_next h := r]> (h_heap h)) (S (h_next h)) h, Ret (h_next h)).
Proof. done. Qed.

Lemma with_txid_run request o h :
  _with_txid request o h =
  (with_heap (alter (set_id (hdr_id request)) o (h_heap h)) (h_next h) h, Ret o).
Proof. done. Qed.

(** A reply parsed from the cache: a new object with the request's id. *)
Lemma reply_cached_run request w r h :
  dns_parse w = Some r →
  reply_cached request (Some w) h =
  (with_heap (<[h_next h := set_id (hdr_id request) r]> (h_heap h)) (S (h_next h)) h,
   Ret (h_next h)).
Proof.
  intros Hr. unfold reply_cached, alloc, _with_txid. runM. cbn. rewrite Hr. cbn.
  unfold with_heap. cbn. by rewrite alter_insert_eq.
Qed.

Lemma truthy_wire (w : bytes) : truthy (Some w) = true ↔ w ≠ [].
Proof. by destruct w. Qed.

(** ** The refresh queue *)

Lemma enqueue_refresh_cases cfg key reason h :
  (∃ m, enqueue_refresh cfg key reason h = (with_metrics m h, Ret false)
        ∧ (key ∈ queued_keys h ∨ key ∈ inflight_keys h ∨ queue_full cfg (refresh_queue h) = true)) ∨
  ((key ∉ queued_keys h) ∧ (key ∉ inflight_keys h) ∧ queue_full cfg (refresh_queue h) = false ∧
   enqueue_refresh cfg key reason h =
     (with_metrics (inc_opt "cache_refresh_enqueued_total" (h_metrics h))
        (with_queue (refresh_queue h ++ [(key, reason)]) ({[key]} ∪ queued_keys h)
           (inflight_keys h) h), Ret true)).
Proof.
  unfold enqueue_refresh, minc. runM. cbn.
  destruct (bool_decide (key ∈ queued_keys h)) eqn:E1; cbn.
  { left. eexists. split; [done|]. zbool. by left. }
  destruct (bool_decide (key ∈ inflight_keys h)) eqn:E2; cbn.
  { left. eexists. split; [done|]. zbool. by right; left. }
  destruct (queue_full cfg (refresh_queue h)) eqn:E3.
  { left. eexists. split; [done|]. by right; right. }
  right. zbool. done.
Qed.

(** The queue never exceeds [refresh_queue_max] when that is positive. *)
Definition queue_bounded cfg h : Prop :=
  (0 < refresh_queue_max cfg)%Z → (len (refresh_queue h) ≤ refresh_queue_max cfg)%Z.

(** Every key marked as queued is in the queue. *)
Definition queued_in_queue h : Prop := ∀ key, key ∈ queued_keys h → key ∈ (refresh_queue h).*1.

Lemma queue_full_false cfg q :
  queue_full cfg q = false → (0 < refresh_queue_max cfg → len q < refresh_queue_max cfg)%Z.
Proof.
  unfold queue_full. destruct (refresh_queue_max cfg <=? 0)%Z eqn:E; zbool; [lia|].
  intros ?. zbool. lia.
Qed.

Lemma enqueue_refresh_bounded cfg key reason h :
  queue_bounded cfg h → queue_bounded cfg (enqueue_refresh cfg key reason h).1.
Proof.
  intros Hb. destruct (enqueue_refresh_cases cfg key reason h)
    as [(m & -> & _)|(_ & _ & Hf & ->)]; [done|].
  intros Hpos. cbn [fst refresh_queue with_queue with_metrics HSt_metrics].
  pose proof (queue_full_false _ _ Hf Hpos). rewrite len_app. unfold len at 2. cbn. lia.
Qed.

Lemma enqueue_refresh_queued cfg key reason h :
  queued_in_queue h → queued_in_queue (enqueue_refresh cfg key reason h).1.
Proof.
  intros Hq. destruct (enqueue_refresh_cases cfg key reason h)
    as [(m & -> & _)|(_ & _ & _ & ->)]; [done|].
  intros k. cbn. rewrite fmap_app, elem_of_union, elem_of_app, elem_of_singleton.
  intros [->|Hk]; [right; constructor|left; by apply Hq].
Qed.

(** ** SingleFlight from the handler *)

(** Joining or creating a task changes the tables and the registry only. *)
Lemma in_sf_get_run key c h :
  ∃ m' f' t leader,
    in_sf (get_or_create key c) h = (with_sf f' (with_metrics m' h), Ret (t, leader))
    ∧ sf_metrics f' = None
    ∧ (sf_ok (h_sf h) →
        sf_ok f'
        ∧ (∃ p, loop_tasks f' !! t = Some (mkTask key (Running p)))
        ∧ (leader = true ↔ ∀ t' p, loop_tasks (h_sf h) !! t' ≠ Some (mkTask key (Running p)))
        ∧ (leader = false → loop_tasks f' = loop_tasks (h_sf h) ∧ _tasks f' = _tasks (h_sf h))
        ∧ (leader = true → loop_tasks (h_sf h) !! t = None ∧
             loop_tasks f' = <[t := mkTask key (Running c)]> (loop_tasks (h_sf h)) ∧
             m' = h_metrics h)).
Proof.
  unfold in_sf, zoom. set (s := with_metrics (h_metrics h) (h_sf h)).
  destruct (get_or_create_cases key c s) as [(t & Hkt & Hrun & E)|[Hidle E]].
  - eexists _, _, t, false. rewrite E. split; [done|]. split; [done|]. intros Hok.
    destruct (get_or_create_spec s key c (with_metrics_ok _ _ Hok)) as (t' & l & Hret & Hl & Hr & Hf & _).
    rewrite E in Hret, Hr, Hf. cbn in Hret. simplify_eq. split; [by do 3 apply with_metrics_ok|].
    split; [done|]. split; [done|]. split; [|done]. intros _. by destruct (Hf eq_refl) as (? & ? & _).
  - eexists _, _, _, true. rewrite E. unfold create_task. runM. cbn. split; [done|].
    split; [done|]. intros Hok. apply (with_metrics_ok (h_metrics h)) in Hok. fold s in Hok.
    destruct (get_or_create_spec s key c Hok) as (t' & l & Hret & Hl & Hr & _ & Ht).
    pose proof (get_or_create_ok key c s Hok) as Hok'. rewrite E in Hret, Hr, Ht, Hok'.
    unfold create_task in *. runM. cbn in *. simplify_eq.
    split; [by apply (with_metrics_ok None) in Hok'|]. split; [done|]. split; [done|].
    split; [done|]. intros _. by destruct (Ht eq_refl) as (? & ? & ?).
Qed.

(** One refresh runs for [key] in the tasks [l']: the one that ran in [l], with
    no task started, or else a new one running [c]. *)
Definition refreshed_once (key : CacheKey) (c : coro) (l l' : gmap nat (task sf_key coro (res (option nat)))) : Prop :=
  (∃ t p, l' !! t = Some (mkTask (KRefresh key) (Running p))
          ∧ ∀ t' p', l' !! t' = Some (mkTask (KRefresh key) (Running p')) → t' = t)
  ∧ (((∃ t p, l !! t = Some (mkTask (KRefresh key) (Running p))) ∧ l' = l)
     ∨ ((∀ t p, l !! t ≠ Some (mkTask (KRefresh key) (Running p)))
        ∧ ∃ t, l !! t = None ∧ l' = <[t := mkTask (KRefresh key) (Running c)]> l)).

Lemma schedule_refresh_run key qname qtype_name rk h :
  ∃ m' f', _schedule_refresh key qname qtype_name rk h = (with_sf f' (with_metrics m' h), Ret ())
    ∧ (sf_ok (h_sf h) → sf_ok f' ∧
        refreshed_once key (CRefresh key qname qtype_name rk) (loop_tasks (h_sf h)) (loop_tasks f') ∧
        (∀ t k p, loop_tasks f' !! t = Some (mkTask (KResolve k) p) ↔
                  loop_tasks (h_sf h) !! t = Some (mkTask (KResolve k) p))).
Proof.
  unfold _schedule_refresh, minc. unfold mbind, M_bind.
  destruct (in_sf_get_run (KRefresh key) (CRefresh key qname qtype_name rk) h)
    as (m & f & t & l & -> & _ & Hspec).
  exists (if l then inc_opt "swr_refresh_triggered_total" m else m), f. split; [by destruct l|].
  intros (Hok & [p Hrun] & Hl & Hf & Ht)%Hspec. split; [done|]. split; [split|].
  { exists t, p. split; [done|]. intros t' p' Ht'.
    pose proof (sf_running _ Hok _ _ _ Hrun). pose proof (sf_running _ Hok _ _ _ Ht'). congruence. }
  { destruct l; [right; split; [by apply Hl|]; by destruct (Ht eq_refl) as (? & ? & _); eauto|].
    left. destruct (Hf eq_refl) as [E _]. split; [|done]. rewrite E in Hrun. by eauto. }
  clear p Hrun. intros t' k p. destruct l.
  - destruct (Ht eq_refl) as (Hnone & -> & _). rewrite lookup_insert. case_decide; [|done].
    subst. split; [done|]. congruence.
  - destruct (Hf eq_refl) as (-> & _). done.
Qed.

(** Serving stale: everything happens before [handle] returns. *)
Lemma serve_stale_run cfg request w r key qname qtype_name h :
  dns_parse w = Some r →
  ∃ h', serve_stale cfg request (Some w) key qname qtype_name h = (h', Ret (h_next h))
    ∧ h_heap h' = <[h_next h := set_id (hdr_id request) r]> (h_heap h)
    ∧ h_store h' = h_store h ∧ inflight_keys h' = inflight_keys h
    ∧ (sf_ok (h_sf h) → sf_ok (h_sf h') ∧
        refreshed_once key (CRefresh key qname qtype_name key) (loop_tasks (h_sf h)) (loop_tasks (h_sf h')) ∧
        (∀ t k p, loop_tasks (h_sf h') !! t = Some (mkTask (KResolve k) p) ↔
                  loop_tasks (h_sf h) !! t = Some (mkTask (KResolve k) p))).
Proof.
  intros Hr. unfold serve_stale, mbind, M_bind. cbn [minc modify].
  set (h1 := with_metrics _ h).
  assert (∃ m q qd b, enqueue_refresh cfg key "stale_served" h1 =
    (with_metrics m (with_queue q qd (inflight_keys h) h1), Ret b)) as (m & q & qd & b & ->).
  { destruct (enqueue_refresh_cases cfg key "stale_served" h1) as [(m & -> & _)|(_ & _ & _ & ->)];
      by eexists _, _, _, _. }
  destruct (schedule_refresh_run key qname qtype_name key
    (with_metrics m (with_queue q qd (inflight_keys h) h1))) as (m2 & f & -> & Hf).
  rewrite (reply_cached_run _ _ r) by done. eexists. split; [done|]. do 3 (split; [done|]). exact Hf.
Qed.

(** ** Upstream resolution *)

(** What [_query_upstream] gives for one query: an upstream without the
    [request_id] argument is called again without it, and every failure is
    [None]. *)
Definition upstream_result (up : upstream) (wire : bytes) (request_id : string) : res (option bytes) :=
  match up wire (Some request_id) with
  | Ret b => Ret b
  | Raise e =>
      if is_TypeError e then
        match up wire None with
        | Ret b => Ret b
        | Raise e' => if is_Exception e' then Ret None else Raise e'
        end
      else if is_Exception e then Ret None else Raise e
  end.

Lemma query_upstream_run up wire rid h :
  _query_upstream up wire (Some rid) h =
  (match upstream_result up wire rid with
   | Ret None => with_metrics (inc_opt "upstream_fail_total" (h_metrics h)) h
   | _ => h
   end, upstream_result up wire rid).
Proof.
  unfold _query_upstream, upstream_result, minc. runM.
  destruct (up wire (Some rid)) as [[b|]|e]; [done..|].
  destruct (is_TypeError e).
  - destruct (up wire None) as [[b|]|e']; [done..|]. by destruct (is_Exception e').
  - by destruct (is_Exception e).
Qed.

(** A response that parses is stored under the key and returned as a new
    object; anything else leaves the cache alone. *)
Lemma query_and_store_run cc up now now_evict wire rid key h :
  query_and_store cc up now now_evict wire rid key h =
  match upstream_result up wire rid with
  | Raise e => (h, Raise e)
  | Ret None => (with_metrics (inc_opt "upstream_fail_total" (h_metrics h)) h, Ret None)
  | Ret (Some b) =>
      match dns_parse b with
      | None => (h, Ret None)
      | Some r =>
          let h1 := with_heap (<[h_next h := r]> (h_heap h)) (S (h_next h)) h in
          let hr := in_cache (put cc now now_evict key r) h1 in
          (hr.1, match hr.2 with Ret _ => Ret (Some (h_next h)) | Raise e => Raise e end)
      end
  end.
Proof.
  unfold query_and_store, mbind, M_bind. rewrite query_upstream_run.
  destruct (upstream_result up wire rid) as [[b|]|e]; [|done..].
  destruct (dns_parse b) as [r|]; [|done]. rewrite alloc_run.
  by destruct (in_cache _ _) as [h' [[]|e]].
Qed.

(** The cache and SingleFlight see only their own part of the state. *)
Lemma in_cache_run {A} (m : M CacheSt A) h :
  ∃ mt d, (in_cache m h).1 = mkHSt mt d (h_sf h) (refresh_queue h) (queued_keys h)
                               (inflight_keys h) (h_heap h) (h_next h).
Proof. unfold in_cache, zoom. destruct (m _) as [[mt d] r]. by exists mt, d. Qed.

Lemma query_and_store_sf cc up now now_evict wire rid key h :
  h_sf (query_and_store cc up now now_evict wire rid key h).1 = h_sf h.
Proof.
  rewrite query_and_store_run. destruct (upstream_result up wire rid) as [[b|]|e]; [|done..].
  destruct (dns_parse b) as [r|]; [|done]. cbn zeta.
  match goal with |- context [in_cache ?m ?h1] => destruct (in_cache_run m h1) as (? & ? & Eq) end.
  cbn [fst]. by rewrite Eq.
Qed.

(** Lookups never raise. *)
Lemma in_cache_fresh_ret key now h : ∃ h1 v, in_cache (get_fresh key now) h = (h1, Ret v).
Proof.
  unfold in_cache, zoom. rewrite get_fresh_run.
  destruct (od_get _ _); [destruct (_ <=? _)%Z|]; by do 2 eexists.
Qed.
Lemma in_cache_stale_ret key now h : ∃ h1 v, in_cache (get_stale key now) h = (h1, Ret v).
Proof.
  unfold in_cache, zoom. rewrite get_stale_run.
  destruct (od_get _ _); [destruct (_ && _)|]; by do 2 eexists.
Qed.

(** A task that raised is a task that gave [None], except for a
    [BaseException], which leaves [handle]. *)
Lemma handle_resume_exn cfg request key qname qtype_name e now h :
  is_Exception e = true →
  handle_resume cfg request key qname qtype_name (Raise e) now h =
  handle_resume cfg request key qname qtype_name (Ret None) now h.
Proof.
  intros He. unfold handle_resume, try_except, lift_res, mbind, M_bind. by rewrite He.
Qed.
Lemma handle_resume_base cfg request key qname qtype_name e now h :
  is_Exception e = false →
  handle_resume cfg request key qname qtype_name (Raise e) now h = (h, Raise e).
Proof.
  intros He. unfold handle_resume, try_except, lift_res, mbind, M_bind. by rewrite He.
Qed.

(** The SERVFAIL reply: a new object, and nothing else. *)
Definition servfail request h : HSt * res nat :=
  (with_heap (<[h_next h := set_id (hdr_id request) (set_rcode SERVFAIL (dns_reply request))]> (h_heap h))
     (S (h_next h)) h, Ret (h_next h)).

Lemma handle_resume_servfail cfg request key qname qtype_name now h :
  match od_get key (h_store h) with
  | Some e => ¬ (expires_at e < now ≤ stale_until e)%Z
  | None => True
  end →
  handle_resume cfg request key qname qtype_name (Ret None) now h = servfail request h.
Proof.
  intros Hno. unfold handle_resume, mbind, M_bind, try_except, lift_res, in_cache, zoom.
  assert (get_stale key now (mkCacheSt (h_metrics h) (h_store h)) =
          (mkCacheSt (h_metrics h) (h_store h), Ret None)) as ->.
  { rewrite get_stale_run. destruct (od_get key (h_store h)) as [e|]; [|done].
    destruct (expires_at e <? now)%Z eqn:E1, (now <=? stale_until e)%Z eqn:E2; zbool; try done. lia. }
  cbn [truthy truthy_option]. unfold error_reply. rewrite alloc_run, with_txid_run. unfold servfail.
  cbn [h_heap with_heap h_next]. by rewrite alter_insert_eq.
Qed.

Lemma handle_resume_stale cfg request key qname qtype_name now h e r :
  sf_ok (h_sf h) → od_get key (h_store h) = Some e →
  (expires_at e < now ≤ stale_until e)%Z → response_wire e ≠ [] →
  dns_parse (response_wire e) = Some r →
  ∃ h', handle_resume cfg request key qname qtype_name (Ret None) now h = (h', Ret (h_next h))
    ∧ h_heap h' = <[h_next h := set_id (hdr_id request) r]> (h_heap h)
    ∧ h_store h' = used key now e (h_store h)
    ∧ ∃ t p, loop_tasks (h_sf h') !! t = Some (mkTask (KRefresh key) (Running p)).
Proof.
  intros Hok He Hnow Hw Hr. unfold handle_resume, mbind, M_bind, try_except, lift_res.
  unfold in_cache, zoom. rewrite get_stale_run, He, (proj2 (Z.ltb_lt _ _)), (proj2 (Z.leb_le _ _)) by lia.
  cbn [andb]. rewrite (proj2 (truthy_wire _) Hw).
  match goal with |- context [serve_stale cfg request ?w key ?n ?t ?h1] =>
    destruct (serve_stale_run cfg request (response_wire e) r key n t h1 Hr)
      as (h' & Hrun & Hheap & Hstore & _ & Hsf)
  end.
  rewrite Hrun. exists h'. split; [done|]. split; [done|]. split; [done|]. by destruct (Hsf Hok) as (_ & [(t & p & ? & _) _] & _); eauto.
Qed.
End handler_props.

(** ** The refresh scan *)

Section scan.
Context `{Dnslib}.
Implicit Types (h : HSt) (cfg : HandlerConfig) (key : CacheKey) (now : Z).

(** The keys of [entries] that are due for a refresh, popular enough, and
    neither queued nor in flight, in cache order. *)
Definition due_keys cfg (now : Z) (entries : list (CacheKey * CacheEntry)) (busy : gset CacheKey)
    : list CacheKey :=
  filter (λ k, k ∉ busy) (filter (λ kv, refresh_gate cfg now kv.2 = true) entries).*1.

(** What the queue has room for. *)
Definition fitting {A} cfg (q : list (CacheKey * string)) (l : list A) : list A :=
  if (refresh_queue_max cfg <=? 0)%Z then l else take (Z.to_nat (refresh_queue_max cfg - len q)) l.

(** The keys one scan may still enqueue after [enqueued] of them. *)
Definition scan_keys cfg (now : Z) (enqueued : Z) (entries : list (CacheKey * CacheEntry)) h : list CacheKey :=
  take (Z.to_nat (Z.max 1 (refresh_batch_size cfg) - enqueued))
    (fitting cfg (refresh_queue h)
       (due_keys cfg now entries (queued_keys h ∪ inflight_keys h))).

(** [h'] is [h] with [keys] queued by a scan, up to the registry. *)
Definition scanned h (keys : list CacheKey) h' : Prop :=
  ∃ m, h' = with_metrics m (with_queue (refresh_queue h ++ ((λ k, (k, "tick")) <$> keys))
              (list_to_set keys ∪ queued_keys h) (inflight_keys h) h).

Lemma scanned_nil h m : scanned h [] (with_metrics m h).
Proof.
  exists m. destruct h. unfold with_queue, with_metrics, HSt_metrics. cbn.
  f_equal; [by rewrite app_nil_r|set_solver].
Qed.
Lemma scanned_cons h m key keys h' :
  scanned (with_metrics m (with_queue (refresh_queue h ++ [(key, "tick")]) ({[key]} ∪ queued_keys h)
             (inflight_keys h) h)) keys h' →
  scanned h (key :: keys) h'.
Proof.
  intros [m' ->]. exists m'. unfold with_queue, with_metrics, HSt_metrics. cbn.
  f_equal; [by rewrite <- app_assoc|set_solver].
Qed.
Lemma scanned_metrics h m keys h' : scanned (with_metrics m h) keys h' → scanned h keys h'.
Proof. intros [m' ->]. by exists m'. Qed.

Lemma fitting_full {A} cfg q (l : list A) : queue_full cfg q = true → fitting cfg q l = [].
Proof.
  unfold queue_full, fitting. destruct (_ <=? 0)%Z; [done|]. intros ?. zbool.
  by replace (Z.to_nat _) with 0 by lia.
Qed.
Lemma fitting_cons {A} cfg q x (l : list A) kv :
  queue_full cfg q = false → fitting cfg q (x :: l) = x :: fitting cfg (q ++ [kv]) l.
Proof.
  intros Hf. pose proof (queue_full_false _ _ Hf) as Hlt. unfold fitting.
  destruct (_ <=? 0)%Z eqn:E; [done|]. zbool. rewrite len_app, len_cons, len_nil.
  replace (Z.to_nat (refresh_queue_max cfg - len q))
    with (S (Z.to_nat (refresh_queue_max cfg - (len q + (0 + 1))))) by lia. done.
Qed.

Lemma due_keys_busy cfg now entries busy busy' :
  (∀ k, k ∈ entries.*1 → k ∈ busy ↔ k ∈ busy') →
  due_keys cfg now entries busy = due_keys cfg now entries busy'.
Proof.
  intros Hb. unfold due_keys. apply filter_ext_elem. intros k Hk. rewrite Hb; [done|].
  apply list_elem_of_fmap in Hk as ([k' e] & -> & [_ Hin]%list_elem_of_filter).
  apply list_elem_of_fmap. by exists (k', e).
Qed.

Lemma due_keys_cons cfg now key e entries busy :
  due_keys cfg now ((key, e) :: entries) busy =
  if refresh_gate cfg now e && bool_decide (key ∉ busy)
  then key :: due_keys cfg now entries busy else due_keys cfg now entries busy.
Proof.
  unfold due_keys. rewrite filter_cons. cbn [snd]. destruct (refresh_gate cfg now e); cbn [andb].
  - rewrite decide_True, fmap_cons, filter_cons by done. cbn [fst]. case_decide; by case_bool_decide.
  - by rewrite decide_False.
Qed.

Lemma scan_entries_run cfg now enqueued entries h :
  NoDup entries.*1 → (0 ≤ enqueued < Z.max 1 (refresh_batch_size cfg))%Z →
  ∃ h', scan_entries cfg now enqueued entries h = (h', Ret ())
        ∧ scanned h (scan_keys cfg now enqueued entries h) h'.
Proof.
  revert enqueued h. induction entries as [|[key e] entries IH]; intros enqueued h Hnd Henq.
  { exists h. split; [done|]. unfold scan_keys, fitting, due_keys. cbn.
    destruct (_ <=? 0)%Z; rewrite ?take_nil; destruct h; apply (scanned_nil (mkHSt _ _ _ _ _ _ _ _)). }
  apply NoDup_cons in Hnd as [Hkey Hnd]. cbn [scan_entries]. unfold scan_keys. rewrite due_keys_cons.
  destruct (refresh_gate cfg now e); cbn [andb]; [|by apply IH].
  unfold mbind, M_bind.
  destruct (enqueue_refresh_cases cfg key "tick" h) as [(m & -> & Hdrop)|(Hnq & Hni & Hnf & ->)];
    unfold gets; cbn [andb fst snd].
  - change (refresh_queue (with_metrics m h)) with (refresh_queue h).
    destruct (queue_full cfg (refresh_queue h)) eqn:Hf.
    + eexists. split; [done|]. rewrite fitting_full, take_nil by done. apply scanned_nil.
    + rewrite bool_decide_eq_false_2 by set_solver.
      destruct (IH enqueued (with_metrics m h) Hnd Henq) as (h' & -> & Hs).
      exists h'. split; [done|]. by apply scanned_metrics in Hs.
  - rewrite bool_decide_eq_true_2 by set_solver.
    rewrite (fitting_cons _ _ _ _ (key, "tick")) by done.
    set (h1 := with_metrics _ (with_queue _ _ _ h)).
    destruct (refresh_batch_size cfg <=? enqueued + 1)%Z eqn:Hb; zbool.
    + exists h1. split; [done|].
      replace (Z.to_nat (Z.max 1 (refresh_batch_size cfg) - enqueued)) with 1 by lia.
      cbn [take]. eapply scanned_cons. apply scanned_nil.
    + assert (∀ l : list CacheKey, take (Z.to_nat (Z.max 1 (refresh_batch_size cfg) - enqueued)) (key :: l)
        = key :: take (Z.to_nat (Z.max 1 (refresh_batch_size cfg) - (enqueued + 1))) l) as Htake.
      { intros l. replace (Z.to_nat (Z.max 1 (refresh_batch_size cfg) - enqueued))
          with (S (Z.to_nat (Z.max 1 (refresh_batch_size cfg) - (enqueued + 1)))) by lia. done. }
      rewrite Htake. destruct (queue_full cfg (refresh_queue h1)) eqn:Hf1.
      * exists h1. split; [done|]. rewrite fitting_full, take_nil by done.
        eapply scanned_cons. apply scanned_nil.
      * destruct (IH (enqueued + 1)%Z h1 Hnd ltac:(lia)) as (h' & -> & Hs). exists h'. split; [done|].
        eapply scanned_cons. unfold scan_keys in Hs. cbn [queued_keys inflight_keys h1 refresh_queue
          with_queue with_metrics HSt_metrics] in Hs.
        rewrite (due_keys_busy _ _ _ _ (queued_keys h ∪ inflight_keys h)) in Hs; [exact Hs|].
        intros k Hk. assert (k ≠ key) by (by intros ->). set_solver.
Qed.
End scan.

(** ** The refresh worker *)

(** An entry is worth refreshing: it expires within [refresh_ahead_seconds],
    is popular, and, with decay on, was hit recently. *)
Definition refresh_due (cfg : HandlerConfig) (now : Z) (e : CacheEntry) : Prop :=
  (now ≤ expires_at e ≤ now + refresh_ahead_seconds cfg * SECOND
   ∧ refresh_popularity_threshold cfg ≤ hits e
   ∧ (0 < refresh_popularity_decay_seconds cfg →
        0 < last_hit_mono e ∧ now - last_hit_mono e ≤ refresh_popularity_decay_seconds cfg * SECOND))%Z.

Lemma refresh_gate_spec cfg now e : refresh_gate cfg now e = true ↔ refresh_due cfg now e.
Proof.
  unfold refresh_gate, refresh_due. repeat (case_match; zbool);
    (split; [intros Hb; try done; zbool; repeat split; lia|]);
    intros (Hexp & Hpop & Hdecay); try lia; try done.
Qed.

#[global] Instance refresh_due_dec cfg now e : Decision (refresh_due cfg now e).
Proof. refine (cast_if (decide (refresh_gate cfg now e = true))); by rewrite <- refresh_gate_spec. Defined.

(** The worker would refresh [key]. *)
Definition worker_due (cfg : HandlerConfig) (now : Z) (d : list (CacheKey * CacheEntry))
    (key : CacheKey) : Prop :=
  refresh_enabled cfg = true ∧ ∃ e, od_get key d = Some e ∧ refresh_due cfg now e.

Section worker.
Context `{Dnslib}.
Implicit Types (h : HSt) (cfg : HandlerConfig) (key : CacheKey) (now : Z).

Lemma refresh_via_worker_skip cfg now key h :
  ¬ worker_due cfg now (h_store h) key →
  _refresh_via_worker_begin cfg now key h = (h, Ret (WReturn false "skipped")).
Proof.
  intros Hno. unfold _refresh_via_worker_begin. destruct (refresh_enabled cfg) eqn:Een; [|done].
  cbn [negb]. unfold mbind, M_bind, in_cache, zoom, peek, gets. cbn [_store c_metrics fst snd].
  destruct h as [m d sf q qd inf hp n]. cbn in *.
  destruct (od_get key d) as [e|] eqn:E; [|done].
  destruct (refresh_gate cfg now e) eqn:Eg; [|done]. destruct Hno. split; [done|].
  exists e. split; [done|]. by apply refresh_gate_spec.
Qed.

Lemma refresh_via_worker_start cfg now key h request :
  worker_due cfg now (h_store h) key →
  dns_question key.1.1 (_qtype_mapping key.1.2).2 (class_name key.2) = Some request →
  _refresh_via_worker_begin cfg now key h =
  (tl ← in_sf (get_or_create (KResolve key)
          (CResolve request key key.1.1 (_qtype_mapping key.1.2).2)); mret (WAwait tl.1)) h.
Proof.
  intros (Hen & e & He & Hdue) Hreq. unfold _refresh_via_worker_begin. rewrite Hen. cbn [negb].
  unfold mbind at 1, M_bind at 1. unfold in_cache, zoom, peek, gets. cbn [_store c_metrics fst snd].
  destruct h as [m d sf q qd inf hp n]. cbn [h_store h_metrics h_sf refresh_queue queued_keys inflight_keys
    h_heap h_next] in *.
  rewrite He, (proj2 (refresh_gate_spec _ _ _) Hdue). cbn [negb].
  destruct key as [[qname qtype_id] qclass_id]. cbn in *. by rewrite Hreq.
Qed.
End worker.
