(* ===== verification/HandlerTheorems.v ===== *)
(** * The handler's properties *)
From S2P Require Import Prelude PyFloat PyString OrderedDict Metrics Dns Cache CacheEvict CacheProps SingleFlight Handler HandlerProps.
From stdpp Require Import base list strings gmap sets pretty.

(** A concrete handler for the instances below: one cached answer. *)
Module handler_example.
Import toy.
Definition q : toy_question := mkQ "A.com." 1 1.
Definition request : DNSRecord := mkDNSRecord 4660 0 0 () [q] [] [] [].
Definition answer : DNSRecord :=
  mkDNSRecord 7 NOERROR 0 () [q] [mkRR (Some 60%Z) (Some 1%Z) None None] [] [].
Definition wire : bytes := default [] (dns_pack answer).
Definition key : CacheKey := ("a.com", 1%Z, 1%Z).
Definition entry : CacheEntry := mkCacheEntry wire (100 * SECOND) (400 * SECOND) 0 0 0.
Definition cfg : HandlerConfig := HandlerConfig_default.
Definition cc : CacheConfig := CacheConfig_default.
Definition cfg_refresh : HandlerConfig := mkHandlerConfig (float_of_Z 2) (5 * SECOND) 1024 true 30 5 0 500 50 5.
Definition popular : CacheEntry := mkCacheEntry wire (100 * SECOND) (400 * SECOND) 0 7 (80 * SECOND).
Definition refresh_query : DNSRecord := mkDNSRecord 0 0 0 () [mkQ "a.com" 1 1] [] [] [].
Definition h0 : HSt := handler_new (Some metrics_new).
Definition h1 : HSt :=
  mkHSt (Some metrics_new) [(key, entry)] (sf_new None) [] ∅ ∅ ∅ 0.
(** An upstream without the [request_id] argument that always answers. *)
Definition up : upstream :=
  λ _ rid, match rid with Some _ => Raise TypeError | None => Ret (Some wire) end.
Definition up_down : upstream := λ _ _, Raise TimeoutError.
End handler_example.

(** C14: Fresh hit: when the cache holds an unexpired answer, [handle] returns
    at once a new object that is the cached answer with the transaction id of
    the request; nothing is asked upstream, no refresh is queued, and the only
    effects are the use of the entry and the query and hit counters. *)
Theorem handle_fresh_hit `{Dnslib} (cfg : HandlerConfig) (request : DNSRecord) (q : question)
    (qs : list question) (now_fresh now_stale : Z) (h : HSt) (e : CacheEntry) (r : DNSRecord) :
  questions request = q :: qs →
  od_get (key_of q) (h_store h) = Some e →
  (now_fresh ≤ expires_at e)%Z →
  response_wire e ≠ [] → dns_parse (response_wire e) = Some r →
  handle_begin cfg request now_fresh now_stale h =
    (mkHSt (inc_opt "cache_hit_fresh_total"
              (count_negative_hit e (inc_opt "queries_total" (h_metrics h))))
       (used (key_of q) now_fresh e (h_store h)) (h_sf h) (refresh_queue h) (queued_keys h)
       (inflight_keys h) (<[h_next h := set_id (hdr_id request) r]> (h_heap h)) (S (h_next h)),
     Ret (HReturn (h_next h))).
Proof.
  intros Hq He Hnow Hw Hr. unfold handle_begin. rewrite Hq. unfold mbind, M_bind.
  cbn [minc modify]. unfold _qtype_mapping. fold (key_of q).
  unfold in_cache at 1, zoom at 1. cbn [h_metrics h_store with_metrics HSt_metrics].
  rewrite get_fresh_run, He, (proj2 (Z.leb_le _ _) Hnow).
  rewrite (proj2 (truthy_wire _) Hw). cbn [minc modify].
  by rewrite (reply_cached_run _ _ r) by done.
Qed.

Lemma handle_fresh_hit_witness :
  h_heap (handle_begin handler_example.cfg handler_example.request 5 6 handler_example.h1).1 !! 0 =
  Some (set_id 4660 handler_example.answer).
Proof.
  rewrite (handle_fresh_hit handler_example.cfg handler_example.request handler_example.q [] 5 6
    handler_example.h1 handler_example.entry handler_example.answer); try reflexivity.
  - vm_compute. discriminate.
  - vm_compute. discriminate.
Defined.

(** C12: Stale-while-revalidate never waits: when the cached answer has
    expired but may still be served, [handle] returns at once, in the same
    step of the event loop, the stale answer with the transaction id of the
    request; when it returns, exactly one background refresh task for the key
    is running: the one that ran before, and then no task was started, or else
    one new task that refreshes this name and type; no resolution task was
    started or changed, and the stale entry stays in the cache. *)
Theorem handle_stale_hit `{Dnslib} (cfg : HandlerConfig) (request : DNSRecord) (q : question)
    (qs : list question) (now_fresh now_stale : Z) (h : HSt) (e : CacheEntry) (r : DNSRecord) :
  sf_ok (h_sf h) →
  questions request = q :: qs →
  od_get (key_of q) (h_store h) = Some e →
  (expires_at e < now_fresh ≤ now_stale)%Z → (now_stale ≤ stale_until e)%Z →
  response_wire e ≠ [] → dns_parse (response_wire e) = Some r →
  ∃ h', handle_begin cfg request now_fresh now_stale h = (h', Ret (HReturn (h_next h)))
    ∧ h_heap h' !! h_next h = Some (set_id (hdr_id request) r)
    ∧ h_store h' = used (key_of q) now_stale e (h_store h)
    ∧ (∃ t p, loop_tasks (h_sf h') !! t = Some (mkTask (KRefresh (key_of q)) (Running p))
         ∧ ∀ t' p', loop_tasks (h_sf h') !! t' = Some (mkTask (KRefresh (key_of q)) (Running p')) → t' = t)
    ∧ ((∃ t p, loop_tasks (h_sf h) !! t = Some (mkTask (KRefresh (key_of q)) (Running p))) →
         loop_tasks (h_sf h') = loop_tasks (h_sf h))
    ∧ ((∀ t p, loop_tasks (h_sf h) !! t ≠ Some (mkTask (KRefresh (key_of q)) (Running p))) →
         ∃ t, loop_tasks (h_sf h) !! t = None
           ∧ loop_tasks (h_sf h') =
               <[t := mkTask (KRefresh (key_of q)) (Running (CRefresh (key_of q) (normalize (q_qname q))
                        (_qtype_mapping (q_qtype q)).2 (key_of q)))]> (loop_tasks (h_sf h)))
    ∧ (∀ t k st, loop_tasks (h_sf h') !! t = Some (mkTask (KResolve k) st) ↔
                 loop_tasks (h_sf h) !! t = Some (mkTask (KResolve k) st)).
Proof.
  intros Hok Hq He Hnow Hstale Hw Hr. unfold handle_begin. rewrite Hq. unfold mbind, M_bind.
  cbn [minc modify]. unfold _qtype_mapping. fold (key_of q).
  unfold in_cache at 1, zoom at 1. cbn [h_metrics h_store with_metrics HSt_metrics].
  rewrite get_fresh_run, He, (proj2 (Z.leb_gt _ _)) by lia. cbn [truthy truthy_option].
  unfold in_cache at 1, zoom at 1. cbn [h_metrics h_store c_metrics _store].
  rewrite get_stale_run, He, (proj2 (Z.ltb_lt _ _)), (proj2 (Z.leb_le _ _) Hstale) by lia.
  cbn [andb]. rewrite (proj2 (truthy_wire _) Hw).
  match goal with |- context [serve_stale cfg request ?w (key_of q) ?n ?t ?h1] =>
    destruct (serve_stale_run cfg request (response_wire e) r (key_of q) n t h1 Hr)
      as (h' & Hrun & Hheap & Hstore & _ & Hsf)
  end.
  rewrite Hrun. exists h'. split; [done|]. rewrite Hheap, lookup_insert_eq, Hstore.
  split; [done|]. split; [done|]. destruct (Hsf Hok) as (_ & [Hone Hcase] & Hres). cbn [h_sf with_metrics] in Hcase.
  split; [done|]. split; [|split; [|done]].
  - intros (t & p & Ht). destruct Hcase as [[_ ?]|[Hn _]]; [done|by destruct (Hn t p)].
  - intros Hn. destruct Hcase as [[(t & p & Ht) _]|[_ Ht]]; [by destruct (Hn t p)|done].
Qed.

Lemma handle_stale_hit_witness :
  ∃ h', handle_begin handler_example.cfg handler_example.request (101 * SECOND) (101 * SECOND)
          handler_example.h1 = (h', Ret (HReturn 0))
    ∧ h_heap h' !! 0 = Some (set_id 4660 handler_example.answer)
    ∧ ∃ t, loop_tasks (h_sf h') = {[t := mkTask (KRefresh handler_example.key)
                                         (Running (CRefresh handler_example.key "a.com" "A" handler_example.key))]}.
Proof.
  destruct (handle_stale_hit handler_example.cfg handler_example.request handler_example.q []
    (101 * SECOND) (101 * SECOND) handler_example.h1 handler_example.entry handler_example.answer)
    as (h' & Hrun & Hheap & _ & _ & _ & Hnew & _); try reflexivity.
  - apply sf_new_ok.
  - split; vm_compute; [reflexivity|discriminate].
  - vm_compute. discriminate.
  - vm_compute. discriminate.
  - exists h'. split; [exact Hrun|]. split; [exact Hheap|].
    destruct Hnew as (t & _ & Ht); [done|]. exists t. exact Ht.
Defined.

(** C19: Miss: when the cache can serve neither a fresh nor a stale answer,
    [handle] suspends on a task that is running for the key's resolution: the
    one already running, if there is one, and then no task is started; else
    the one new task it starts, made from this request; the cache, the queue
    and the response objects are untouched. *)
Theorem handle_miss `{Dnslib} (cfg : HandlerConfig) (request : DNSRecord) (q : question)
    (qs : list question) (now_fresh now_stale : Z) (h : HSt) :
  sf_ok (h_sf h) →
  questions request = q :: qs →
  (now_fresh ≤ now_stale)%Z →
  (∀ e, od_get (key_of q) (h_store h) = Some e →
        (expires_at e < now_fresh)%Z ∧ (stale_until e < now_stale)%Z) →
  let key := key_of q in
  let qtype_name := (_qtype_mapping (q_qtype q)).2 in
  ∃ h' t, handle_begin cfg request now_fresh now_stale h =
            (h', Ret (HAwait key (normalize (q_qname q)) qtype_name t))
    ∧ (∃ p, loop_tasks (h_sf h') !! t = Some (mkTask (KResolve key) (Running p)))
    ∧ ((∃ t' p, loop_tasks (h_sf h) !! t' = Some (mkTask (KResolve key) (Running p))) →
        loop_tasks (h_sf h') = loop_tasks (h_sf h))
    ∧ ((∀ t' p, loop_tasks (h_sf h) !! t' ≠ Some (mkTask (KResolve key) (Running p))) →
        loop_tasks (h_sf h) !! t = None
        ∧ loop_tasks (h_sf h') =
          <[t := mkTask (KResolve key) (Running (CResolve request key (normalize (q_qname q)) qtype_name))]>
            (loop_tasks (h_sf h)))
    ∧ h_store h' = h_store h ∧ refresh_queue h' = refresh_queue h ∧ h_heap h' = h_heap h.
Proof.
  intros Hok Hq Hnow Hmiss key qtype_name. unfold handle_begin. rewrite Hq. unfold mbind, M_bind.
  cbn [minc modify]. unfold _qtype_mapping in *. fold (key_of q). fold key.
  unfold in_cache at 1, zoom at 1. cbn [h_metrics h_store with_metrics HSt_metrics].
  assert (∀ m, get_fresh key now_fresh (mkCacheSt m (h_store h)) = (mkCacheSt m (h_store h), Ret None)) as ->.
  { intros m. rewrite get_fresh_run. destruct (od_get key (h_store h)) as [e|] eqn:E; [|done].
    destruct (Hmiss e E). by rewrite (proj2 (Z.leb_gt _ _)) by lia. }
  cbn [truthy truthy_option]. unfold in_cache at 1, zoom at 1. cbn [h_metrics h_store c_metrics _store].
  assert (∀ m, get_stale key now_stale (mkCacheSt m (h_store h)) = (mkCacheSt m (h_store h), Ret None)) as ->.
  { intros m. rewrite get_stale_run. destruct (od_get key (h_store h)) as [e|] eqn:E; [|done].
    destruct (Hmiss e E). rewrite (proj2 (Z.leb_gt now_stale _)) by lia. by rewrite andb_false_r. }
  cbn [truthy truthy_option minc modify c_metrics _store h_sf].
  match goal with |- context [in_sf (get_or_create ?k ?c) ?h1] =>
    destruct (in_sf_get_run k c h1) as (m & f & t & l & Hrun & _ & Hspec)
  end.
  rewrite Hrun. eexists _, t. split; [done|]. cbn [h_sf with_sf with_metrics HSt_metrics].
  destruct (Hspec Hok) as (_ & Hp & Hl & Hf & Ht). cbn in Hl, Hf, Ht.
  split; [done|]. split; [|split].
  - intros (t' & p & Htp). destruct l; [by destruct (proj1 Hl eq_refl t' p)|].
    by destruct (Hf eq_refl).
  - intros Hnone. destruct l.
    + by destruct (Ht eq_refl) as (? & ? & _).
    + destruct (Hf eq_refl) as [Heq _]. rewrite Heq in Hp. destruct Hp as [p Hp]. by destruct (Hnone t p).
  - done.
Qed.

Lemma handle_miss_witness :
  ∃ h' t, handle_begin handler_example.cfg handler_example.request 5 6 handler_example.h0 =
    (h', Ret (HAwait handler_example.key "a.com" "A" t))
    ∧ loop_tasks (h_sf h') !! t =
        Some (mkTask (KResolve handler_example.key)
                (Running (CResolve handler_example.request handler_example.key "a.com" "A"))).
Proof.
  destruct (handle_miss handler_example.cfg handler_example.request handler_example.q [] 5 6
    handler_example.h0) as (h' & t & Hrun & _ & _ & Hnew & _); try reflexivity.
  - apply sf_new_ok.
  - discriminate.
  - discriminate.
  - exists h', t. split; [exact Hrun|]. destruct Hnew as [_ ->]; [done|]. apply lookup_insert_eq.
Defined.

(** ** After the awaited task *)

(** C13: Serve-stale on upstream failure: when the awaited task gave no
    response or raised an ordinary exception, [handle] serves the cached
    answer if it may be served stale at that moment, with the request's
    transaction id, keeping the entry and starting a background refresh; and
    otherwise replies SERVFAIL with the request's transaction id, changing
    nothing but the response objects. *)
Theorem handle_failure `{Dnslib} (cfg : HandlerConfig) (request : DNSRecord) (key : CacheKey)
    (qname qtype_name : string) (result : res (option nat)) (now : Z) (h : HSt) :
  sf_ok (h_sf h) →
  (result = Ret None ∨ ∃ e, result = Raise e ∧ is_Exception e = true) →
  (∀ e, od_get key (h_store h) = Some e →
     response_wire e ≠ [] ∧ is_Some (dns_parse (response_wire e))) →
  match od_get key (h_store h) with
  | Some e =>
      if decide (expires_at e < now ≤ stale_until e)%Z then
        ∃ h' r, handle_resume cfg request key qname qtype_name result now h = (h', Ret (h_next h))
          ∧ dns_parse (response_wire e) = Some r
          ∧ h_heap h' = <[h_next h := set_id (hdr_id request) r]> (h_heap h)
          ∧ h_store h' = used key now e (h_store h)
          ∧ ∃ t p, loop_tasks (h_sf h') !! t = Some (mkTask (KRefresh key) (Running p))
      else handle_resume cfg request key qname qtype_name result now h = servfail request h
  | None => handle_resume cfg request key qname qtype_name result now h = servfail request h
  end.
Proof.
  intros Hok Hres Hwires.
  assert (handle_resume cfg request key qname qtype_name result now h =
          handle_resume cfg request key qname qtype_name (Ret None) now h) as ->.
  { destruct Hres as [->|(e & -> & He)]; [done|by apply handle_resume_exn]. }
  destruct (od_get key (h_store h)) as [e|] eqn:E; [|by apply handle_resume_servfail; rewrite E].
  case_decide as Hstale; [|apply handle_resume_servfail; rewrite E; lia].
  destruct (Hwires e eq_refl) as [Hw [r Hr]].
  destruct (handle_resume_stale cfg request key qname qtype_name now h e r Hok E Hstale Hw Hr)
    as (h' & Hrun & Hrest). eauto 10.
Qed.

Lemma handle_failure_witness :
  handle_resume handler_example.cfg handler_example.request handler_example.key "a.com" "A"
    (Raise TimeoutError) 0 handler_example.h0 = servfail handler_example.request handler_example.h0.
Proof.
  refine (handle_failure handler_example.cfg handler_example.request handler_example.key "a.com" "A"
    (Raise TimeoutError) 0 handler_example.h0 _ _ _).
  - apply sf_new_ok.
  - right. by exists TimeoutError.
  - discriminate.
Defined.

(** ** Background refresh *)

(** C25: The refresh scan enqueues, in cache order, exactly the first keys that
    are unexpired, due within [refresh_ahead_seconds], popular enough and
    recently hit, and neither queued nor in flight: at most [refresh_batch_size] of
    them, and no more than the queue has room for.  Nothing else changes but
    the counters. *)
Theorem scan_tick_correct `{Dnslib} (cfg : HandlerConfig) (now : Z) (h : HSt) :
  NoDup (h_store h).*1 → (0 < refresh_batch_size cfg)%Z →
  let due := filter (λ k, k ∉ queued_keys h ∪ inflight_keys h)
               (filter (λ kv, refresh_due cfg now kv.2) (h_store h)).*1 in
  let keys := take (Z.to_nat (refresh_batch_size cfg)) (fitting cfg (refresh_queue h) due) in
  ∃ m, _refresh_scan_tick cfg now h =
    (mkHSt m (h_store h) (h_sf h) (refresh_queue h ++ ((λ k, (k, "tick")) <$> keys))
       (list_to_set keys ∪ queued_keys h) (inflight_keys h) (h_heap h) (h_next h), Ret ()).
Proof.
  intros Hnd Hb due keys. unfold _refresh_scan_tick, mbind, M_bind, in_cache, zoom, entries_snapshot, gets.
  cbn [_store c_metrics fst snd].
  destruct (scan_entries_run cfg now 0 (h_store h) h Hnd) as (h' & Hrun & [m ->]); [lia|].
  exists m. destruct h. cbn in *. rewrite Hrun. unfold scan_keys. rewrite Z.max_r, Z.sub_0_r by lia.
  unfold keys, due, due_keys.
  rewrite (list_filter_iff (λ kv, refresh_due cfg now kv.2) (λ kv, refresh_gate cfg now kv.2 = true))
    by (intros kv; by rewrite refresh_gate_spec).
  done.
Qed.

Lemma scan_tick_correct_witness :
  refresh_queue (_refresh_scan_tick handler_example.cfg_refresh (90 * SECOND)
    (mkHSt None [(handler_example.key, handler_example.popular)] (sf_new None) [] ∅ ∅ ∅ 0)).1 =
  [(handler_example.key, "tick")].
Proof.
  destruct (scan_tick_correct handler_example.cfg_refresh (90 * SECOND)
    (mkHSt None [(handler_example.key, handler_example.popular)] (sf_new None) [] ∅ ∅ ∅ 0))
    as [m Hrun].
  - apply NoDup_singleton.
  - reflexivity.
  - rewrite Hrun. vm_compute. reflexivity.
Defined.

(** A refresh job is only a hint: when the worker takes a job whose key is
    not due (refresh disabled, no cached answer, already expired, far from
    expiry, not popular or not recently hit), it contacts nobody: it counts
    one [skipped] completion and no start, and the key is neither queued nor
    in flight any more. *)
Theorem refresh_worker_skips `{Dnslib} (cfg : HandlerConfig) (now : Z) (h : HSt)
    (key : CacheKey) (reason : string) (q : list (CacheKey * string)) :
  refresh_queue h = (key, reason) :: q →
  ¬ worker_due cfg now (h_store h) key →
  _refresh_worker_begin cfg now h =
    (mkHSt (inc_opt "cache_refresh_completed_total{result=skipped}" (h_metrics h)) (h_store h) (h_sf h) q
       (queued_keys h ∖ {[key]}) (({[key]} ∪ inflight_keys h) ∖ {[key]}) (h_heap h) (h_next h),
     Ret (Some (key, None))).
Proof.
  intros Hq Hno. unfold _refresh_worker_begin, mbind, M_bind, gets. rewrite Hq. unfold modify.
  by rewrite refresh_via_worker_skip.
Qed.

Lemma refresh_worker_skips_witness :
  (_refresh_worker_begin handler_example.cfg_refresh 0
     (mkHSt None [] (sf_new None) [(handler_example.key, "warmup")] {[handler_example.key]} ∅ ∅ 0)).2 =
  Ret (Some (handler_example.key, None)).
Proof.
  rewrite (refresh_worker_skips handler_example.cfg_refresh 0
    (mkHSt None [] (sf_new None) [(handler_example.key, "warmup")] {[handler_example.key]} ∅ ∅ 0)
    handler_example.key "warmup" []); [reflexivity|reflexivity|].
  intros (_ & e & He & _). discriminate He.
Defined.

(** When the key of a job is due, the worker waits for the resolution
    task of that key, the one already running or a new one made from a fresh
    query for the key's name, type and class; meanwhile the key counts as in
    flight, and the cached answer stays. *)
Theorem refresh_worker_refreshes `{Dnslib} (cfg : HandlerConfig) (now : Z) (h : HSt)
    (key : CacheKey) (reason : string) (q : list (CacheKey * string)) (request : DNSRecord) :
  sf_ok (h_sf h) →
  refresh_queue h = (key, reason) :: q →
  worker_due cfg now (h_store h) key →
  dns_question key.1.1 (_qtype_mapping key.1.2).2 (class_name key.2) = Some request →
  ∃ h' t, _refresh_worker_begin cfg now h = (h', Ret (Some (key, Some t)))
    ∧ (∃ p, loop_tasks (h_sf h') !! t = Some (mkTask (KResolve key) (Running p)))
    ∧ (loop_tasks (h_sf h) !! t = None → loop_tasks (h_sf h') !! t =
         Some (mkTask (KResolve key) (Running (CResolve request key key.1.1 (_qtype_mapping key.1.2).2))))
    ∧ key ∈ inflight_keys h' ∧ (key ∉ queued_keys h') ∧ refresh_queue h' = q
    ∧ h_store h' = h_store h ∧ h_heap h' = h_heap h.
Proof.
  intros Hok Hq Hdue Hreq. unfold _refresh_worker_begin, mbind, M_bind, gets. rewrite Hq. unfold modify.
  rewrite (refresh_via_worker_start _ _ _ _ request) by done. unfold mbind, M_bind.
  match goal with |- context [in_sf (get_or_create ?k ?c) ?h1] =>
    destruct (in_sf_get_run k c h1) as (m & f & t & l & -> & _ & Hspec) end.
  eexists _, t. split; [done|]. destruct (Hspec Hok) as (_ & Hp & _ & Hf & Ht).
  split; [done|]. split; [|cbn; set_solver]. cbn. intros Hnone. destruct l.
  - destruct (Ht eq_refl) as (_ & -> & _). by rewrite lookup_insert_eq.
  - destruct (Hf eq_refl) as [Heq _]. rewrite Heq in Hp. destruct Hp as [p Hp]. cbn in Hp. congruence.
Qed.

Lemma refresh_worker_refreshes_witness :
  ∃ h' t, _refresh_worker_begin handler_example.cfg_refresh (90 * SECOND)
     (mkHSt None [(handler_example.key, handler_example.popular)] (sf_new None)
        [(handler_example.key, "tick")] {[handler_example.key]} ∅ ∅ 0) =
  (h', Ret (Some (handler_example.key, Some t))).
Proof.
  destruct (refresh_worker_refreshes handler_example.cfg_refresh (90 * SECOND)
     (mkHSt None [(handler_example.key, handler_example.popular)] (sf_new None)
        [(handler_example.key, "tick")] {[handler_example.key]} ∅ ∅ 0)
    handler_example.key "tick" [] handler_example.refresh_query)
    as (h' & t & Hrun & _).
  - apply sf_new_ok.
  - reflexivity.
  - split; [reflexivity|]. exists handler_example.popular. split; [reflexivity|].
    apply refresh_gate_spec. reflexivity.
  - reflexivity.
  - exists h', t. exact Hrun.
Defined.
