(* ===== verification/Background.v ===== *)
(** * The background tasks of the handler ([src/resilientdns/dns/handler.py])

    The loops that [start_refresh_tasks] starts and the watcher of a stale
    refresh, with the proof that no failure of a refresh ends a loop.  What a
    loop awaits is an input: how each [await] ended, and what the other tasks
    made of the handler's state meanwhile. *)
From S2P Require Import Prelude PyString OrderedDict Metrics Dns Cache SingleFlight Handler HandlerProps.
From stdpp Require Import base list strings gmap sets.

Section background.
Context `{Dnslib}.

(** [tick_s], the sleep between two scans. *)
Definition tick_s (cfg : HandlerConfig) : Z := Z.max 0 (refresh_tick_ms cfg * 1000000).

(** One round of the scan loop: what happened during the sleep, how it ended,
    and the reading of the scan. *)
Record tick := mkTick { tk_meanwhile : HSt → HSt; tk_slept : res unit; tk_now : Z }.

(** At the end of [ticks] the loop is asleep. *)
Fixpoint _refresh_scan_loop (cfg : HandlerConfig) (ticks : list tick) : M HSt () :=
  match ticks with
  | [] => mret ()
  | k :: ticks =>
      modify (tk_meanwhile k);;
      lift_res (tk_slept k);;
      _refresh_scan_tick cfg (tk_now k);;
      _refresh_scan_loop cfg ticks
  end.

(** One round of a worker: what happened while it waited for the queue, how
    that ended, the reading of the job, and, for a job that awaits a task, what
    happened meanwhile and how the await ended. *)
Record job := mkJob {
  jb_meanwhile : HSt → HSt; jb_got : res unit; jb_now : Z;
  jb_awaiting : HSt → HSt; jb_result : res (option nat) }.

(** At the end of [jobs] the worker waits for the queue; woken while the queue
    is empty, it waits on. *)
Fixpoint _refresh_worker (cfg : HandlerConfig) (jobs : list job) : M HSt () :=
  match jobs with
  | [] => mret ()
  | j :: jobs =>
      modify (jb_meanwhile j);;
      lift_res (jb_got j);;
      begun ← _refresh_worker_begin cfg (jb_now j);
      match begun with
      | None => _refresh_worker cfg jobs
      | Some (_, None) => _refresh_worker cfg jobs
      | Some (key, Some _) =>
          modify (jb_awaiting j);;
          _refresh_worker_resume key (jb_result j);;
          _refresh_worker cfg jobs
      end
  end.

(** What the watcher logs of the refresh it shields: [r] is the outcome of the
    [wait_for], a [TimeoutError] when the time is up. *)
Definition _watch_refresh (qname qtype_name : string) (r : res (option nat)) : res string :=
  match r with
  | Ret None => Ret ("REFRESH FAIL " +:+ qname +:+ " " +:+ qtype_name)
  | Ret (Some _) => Ret ("REFRESH OK " +:+ qname +:+ " " +:+ qtype_name +:+ " (updated cache)")
  | Raise TimeoutError => Ret ("REFRESH TIMEOUT " +:+ qname +:+ " " +:+ qtype_name)
  | Raise e =>
      if is_Exception e then Ret ("REFRESH ERROR " +:+ qname +:+ " " +:+ qtype_name) else Raise e
  end.

(** ** Computations that do not raise *)

Definition returns {S A} (m : M S A) : Prop := ∀ s, ∃ s' a, m s = (s', Ret a).

Lemma returns_bind {S A B} (m : M S A) (f : A → M S B) : returns m → (∀ a, returns (f a)) → returns (m ≫= f).
Proof.
  intros Hm Hf s. destruct (Hm s) as (s1 & a & E). destruct (Hf a s1) as (s2 & b & E2).
  exists s2, b. unfold mbind, M_bind. by rewrite E.
Qed.
Lemma returns_ret {S A} (a : A) : returns (mret (M := M S) a).
Proof. intros s. by exists s, a. Qed.
Lemma returns_gets {S A} (f : S → A) : returns (gets f).
Proof. intros s. by eexists _, _. Qed.
Lemma returns_get_state {S} : returns (get_state (S := S)).
Proof. intros s. by eexists _, _. Qed.
Lemma returns_modify {S} (f : S → S) : returns (modify f).
Proof. intros s. by eexists _, _. Qed.
Lemma returns_when {S} b (m : M S ()) : returns m → returns (when b m).
Proof. destruct b; [done|]. intros _. apply returns_ret. Qed.
Lemma returns_minc {S} `{HasMetrics S} k : returns (minc (St := S) k).
Proof. apply returns_modify. Qed.
Create HintDb returns.
#[local] Hint Resolve returns_ret returns_gets returns_get_state returns_modify returns_minc : returns.

Lemma enqueue_refresh_returns cfg key reason : returns (enqueue_refresh cfg key reason).
Proof.
  intros h. destruct (enqueue_refresh_cases cfg key reason h) as [(m & -> & _)|(_ & _ & _ & ->)]; by eexists _, _.
Qed.

Lemma scan_entries_returns cfg now n entries : returns (scan_entries cfg now n entries).
Proof.
  revert n. induction entries as [|[key e] entries IH]; intros n; cbn [scan_entries]; [apply returns_ret|].
  destruct (refresh_gate cfg now e); [|done]. apply returns_bind; [apply enqueue_refresh_returns|]. intros ok.
  destruct (ok && _); [apply returns_ret|]. apply returns_bind; [apply returns_gets|]. intros q.
  destruct (queue_full cfg q); [apply returns_ret|done].
Qed.

Lemma scan_tick_returns cfg now : returns (_refresh_scan_tick cfg now).
Proof.
  apply returns_bind; [|intros; apply scan_entries_returns].
  intros h. unfold in_cache, zoom, entries_snapshot, gets. by eexists _, _.
Qed.

Lemma worker_finally_returns key a c r : returns (worker_finally key a c r).
Proof.
  unfold worker_finally. repeat (apply returns_bind; [|intros]); auto using returns_when with returns.
Qed.

Lemma via_worker_returns cfg now key : returns (_refresh_via_worker_begin cfg now key).
Proof.
  unfold _refresh_via_worker_begin. destruct (negb (refresh_enabled cfg)); [apply returns_ret|].
  apply returns_bind; [intros h; unfold in_cache, zoom, peek, gets; by eexists _, _|].
  intros [e|]; [|apply returns_ret]. destruct (negb _); [apply returns_ret|].
  destruct key as [[qname qtype] qclass]. destruct (dns_question _ _ _); [|apply returns_ret].
  apply returns_bind; [|intros; apply returns_ret].
  intros h. match goal with |- context [in_sf (get_or_create ?k ?c)] =>
    destruct (in_sf_get_run k c h) as (m & f & t & leader & -> & _) end. by eexists _, _.
Qed.

Lemma worker_begin_returns cfg now : returns (_refresh_worker_begin cfg now).
Proof.
  apply returns_bind; [apply returns_gets|]. intros [|[key reason] q]; [apply returns_ret|].
  apply returns_bind; [apply returns_modify|]. intros _. apply returns_bind; [apply via_worker_returns|].
  intros [a r|t]; [|apply returns_ret]. apply returns_bind; [apply worker_finally_returns|]. intros. apply returns_ret.
Qed.

(** ** One job *)

Definition count_completed (result : string) (h : HSt) : HSt :=
  with_metrics (inc_opt ("cache_refresh_completed_total{result=" +:+ result +:+ "}") (h_metrics h)) h.
Definition count_started (h : HSt) : HSt := with_metrics (inc_opt "cache_refresh_started_total" (h_metrics h)) h.

(** The job is done: its key is no longer in flight. *)
Definition job_done (key : CacheKey) (h h' : HSt) : Prop :=
  inflight_keys h' = inflight_keys h ∖ {[key]} ∧ queued_keys h' = queued_keys h ∧ refresh_queue h' = refresh_queue h
  ∧ h_store h' = h_store h ∧ h_sf h' = h_sf h ∧ h_heap h' = h_heap h.

Lemma worker_finally_done key a c r h :
  ∃ h', worker_finally key a c r h = (h', Ret ()) ∧ job_done key h h'
  ∧ h_metrics h' = h_metrics ((if c then id else count_completed r) ((if a then count_started else id) h)).
Proof.
  unfold worker_finally, when, minc. runM. destruct a, c; cbn; eexists; (split; [reflexivity|]); by destruct h.
Qed.

(** How a job that awaited a task ends. *)
Lemma worker_resume_done key r h :
  ∃ h', (_refresh_worker_resume key r h).1 = h' ∧ job_done key h h'
  ∧ match r with
    | Ret (Some _) => h_metrics h' = h_metrics (count_completed "success" (count_started h))
    | Ret None => h_metrics h' = h_metrics (count_completed "fail" (count_started h))
    | Raise e => is_Exception e = true → h_metrics h' = h_metrics (count_completed "fail" (count_started h))
    end
  ∧ (_refresh_worker_resume key r h).2 = match r with Raise e => if is_Exception e then Ret () else Raise e | _ => Ret () end.
Proof.
  unfold _refresh_worker_resume.
  assert (∀ a c s e, ∃ h', ((worker_finally key a c s;; raise e) : M HSt ()) h = (h', Raise e) ∧ job_done key h h') as Hraise.
  { intros a c s e. destruct (worker_finally_done key a c s h) as (h' & E & ? & _). exists h'. unfold mbind, M_bind. by rewrite E. }
  destruct r as [[o|]|e].
  - destruct (worker_finally_done key true false "success" h) as (h' & -> & ? & ?). by exists h'.
  - destruct (worker_finally_done key true false "fail" h) as (h' & -> & ? & ?). by exists h'.
  - destruct (worker_finally_done key true false "fail" h) as (h' & E & ? & ?).
    destruct e; cbn [is_Exception]; try (rewrite E; by exists h').
    + destruct (Hraise false false "skipped" (SystemExit msg)) as (h2 & -> & ?). by exists h2.
    + destruct (Hraise false true "skipped" CancelledError) as (h2 & -> & ?). by exists h2.
Qed.

Lemma via_worker_cases cfg now key h :
  (∃ a r, _refresh_via_worker_begin cfg now key h = (h, Ret (WReturn a r)) ∧ (a, r) ∈ [(false, "skipped"); (true, "fail")])
  ∨ ∃ m f t, _refresh_via_worker_begin cfg now key h = (with_sf f (with_metrics m h), Ret (WAwait t)).
Proof.
  assert (∀ h' a r, h' = h → (a, r) ∈ [(false, "skipped"); (true, "fail")] →
    ∃ a' r', (h', Ret (WReturn a r)) = (h, Ret (WReturn a' r')) ∧ (a', r') ∈ [(false, "skipped"); (true, "fail")]) as Hret
    by (intros h' a r ->; eauto).
  unfold _refresh_via_worker_begin. destruct (negb (refresh_enabled cfg)); [left; apply Hret; [done|set_solver]|].
  unfold mbind, M_bind, in_cache, zoom, peek, gets. cbn [c_metrics _store].
  destruct (od_get key (h_store h)) as [e|]; [|left; apply Hret; [by destruct h|set_solver]].
  destruct (negb _); [left; apply Hret; [by destruct h|set_solver]|].
  destruct key as [[qname qtype] qclass]. destruct (dns_question _ _ _) as [q|]; [|left; apply Hret; [by destruct h|set_solver]].
  right. set (h0 := mkHSt _ _ _ _ _ _ _ _). assert (h0 = h) as -> by (by destruct h).
  match goal with |- context [in_sf (get_or_create ?k ?c)] =>
    destruct (in_sf_get_run k c h) as (m & f & t & leader & -> & _) end. by eexists _, _, _.
Qed.

(** A job is taken from the front of the queue: it is done at once, skipped or
    failed, or awaits a task with its key in flight. *)
Lemma worker_begin_job cfg now h key reason q :
  refresh_queue h = (key, reason) :: q →
  ∃ h' o, _refresh_worker_begin cfg now h = (h', Ret (Some (key, o))) ∧ refresh_queue h' = q
  ∧ match o with
    | None => (key ∉ inflight_keys h')
        ∧ (h_metrics h' = h_metrics (count_completed "skipped" h) ∨ h_metrics h' = h_metrics (count_completed "fail" (count_started h)))
    | Some _ => key ∈ inflight_keys h'
    end.
Proof.
  intros Hq. unfold _refresh_worker_begin. unfold mbind at 1, M_bind at 1, gets. rewrite Hq.
  unfold mbind at 1, M_bind at 1, modify. set (h1 := mark_inflight _ _). unfold mbind at 1, M_bind at 1.
  destruct (via_worker_cases cfg now key h1) as [(a & r & -> & Har)|(m & f & t & ->)].
  - unfold mbind, M_bind. destruct (worker_finally_done key a false r h1) as (h' & -> & (Hi & _ & Hr & _) & Hm).
    exists h', None. split; [done|]. split; [by rewrite Hr|]. split; [rewrite Hi; set_solver|].
    rewrite !elem_of_cons, elem_of_nil in Har. destruct Har as [[= -> ->]|[[= -> ->]|[]]]; [left|right]; by rewrite Hm.
  - eexists _, _. split; [reflexivity|]. split; [done|]. cbn. set_solver.
Qed.

Lemma worker_begin_empty cfg now h : refresh_queue h = [] → _refresh_worker_begin cfg now h = (h, Ret None).
Proof. intros Hq. unfold _refresh_worker_begin, mbind, M_bind, gets. by rewrite Hq. Qed.

(** ** The loops *)

(** The first exception among the outcomes. *)
Fixpoint first_raise (l : list (res unit)) : res unit :=
  match l with [] => Ret () | Ret _ :: l => first_raise l | Raise e :: _ => Raise e end.

Lemma scan_loop_outcome cfg ticks h : (_refresh_scan_loop cfg ticks h).2 = first_raise (tk_slept <$> ticks).
Proof.
  revert h. induction ticks as [|[f [[]|e] now] ticks IH]; intros h; [done| |done].
  cbn [_refresh_scan_loop fmap list_fmap first_raise tk_slept tk_now tk_meanwhile].
  unfold mbind, M_bind, modify, lift_res. destruct (scan_tick_returns cfg now (f h)) as (h' & [] & ->). apply IH.
Qed.

(** What ends a worker: an interrupted wait for the queue, or an outcome of an
    awaited task that is no [Exception]. *)
Definition ends_worker (j : job) (e : exn) : Prop :=
  jb_got j = Raise e ∨ (jb_result j = Raise e ∧ is_Exception e = false).

Lemma worker_outcome cfg jobs h :
  match (_refresh_worker cfg jobs h).2 with
  | Ret _ => Forall (λ j, jb_got j = Ret ()) jobs
  | Raise e => ∃ j, j ∈ jobs ∧ ends_worker j e
  end.
Proof.
  revert h. induction jobs as [|[f [[]|e] now g r] jobs IH]; intros h; [by apply Forall_nil_2| |].
  2: { cbn. eexists. split; [apply list_elem_of_here|by left]. }
  cbn [_refresh_worker jb_got jb_now jb_meanwhile jb_awaiting jb_result]. unfold mbind, M_bind, modify, lift_res.
  assert (∀ h1, match (_refresh_worker cfg jobs h1).2 with
    | Ret _ => Forall (λ j, jb_got j = Ret ()) (mkJob f (Ret ()) now g r :: jobs)
    | Raise e => ∃ j, j ∈ mkJob f (Ret ()) now g r :: jobs ∧ ends_worker j e end) as Hrest.
  { intros h1. specialize (IH h1). destruct (_refresh_worker cfg jobs h1).2; [by constructor|].
    destruct IH as (j & ? & ?). exists j. split; [by apply list_elem_of_further|done]. }
  destruct (worker_begin_returns cfg now (f h)) as (h1 & [[key [t|]]|] & ->); [|apply Hrest|apply Hrest].
  destruct (worker_resume_done key r (g h1)) as (h2 & _ & _ & _ & Ho).
  destruct (_refresh_worker_resume key r (g h1)) as [h3 [[]|e]]; [apply Hrest|]. cbn in *.
  destruct r as [|e']; [done|]. destruct (is_Exception e') eqn:Ee; [done|]. simplify_eq.
  eexists. split; [apply list_elem_of_here|]. by right.
Qed.
End background.

(** C39: No failure of a refresh stops the refreshing.  Whatever the other tasks
    do meanwhile, the scan loop runs on until its sleep is interrupted, and
    ends with that exception; a worker runs on until its wait for the queue is
    interrupted, or an await of a resolution raises something that is no
    [Exception] (a cancellation).  The worker's jobs are the front of the
    queue: each is finished at once as skipped or failed, or awaits a task with
    its key in flight and, when the await ends, takes the key out of flight,
    and counts one started and one completed refresh, a success exactly when
    the task gave a response and a failure for no response or an
    [Exception]. *)
Theorem refresh_tasks_survive `{Dnslib} (cfg : HandlerConfig) (ticks : list tick) (jobs : list job) (h : HSt) :
  (_refresh_scan_loop cfg ticks h).2 = first_raise (tk_slept <$> ticks)
  ∧ match (_refresh_worker cfg jobs h).2 with
    | Ret _ => Forall (λ j, jb_got j = Ret ()) jobs
    | Raise e => ∃ j, j ∈ jobs ∧ (jb_got j = Raise e ∨ (jb_result j = Raise e ∧ is_Exception e = false))
    end
  ∧ (∀ now key reason q, refresh_queue h = (key, reason) :: q →
       ∃ h' o, _refresh_worker_begin cfg now h = (h', Ret (Some (key, o))) ∧ refresh_queue h' = q
       ∧ match o with
         | None => (key ∉ inflight_keys h')
             ∧ (h_metrics h' = h_metrics (count_completed "skipped" h)
                ∨ h_metrics h' = h_metrics (count_completed "fail" (count_started h)))
         | Some _ => key ∈ inflight_keys h'
         end)
  ∧ (∀ key r, (∀ e, r = Raise e → is_Exception e = true) →
       ∃ h', _refresh_worker_resume key r h = (h', Ret ()) ∧ job_done key h h'
       ∧ h_metrics h' =
           h_metrics (count_completed (match r with Ret (Some _) => "success" | _ => "fail" end) (count_started h))).
Proof.
  split; [apply scan_loop_outcome|]. split; [apply worker_outcome|]. split; [intros now; apply worker_begin_job|].
  intros key r Hr. destruct (worker_resume_done key r h) as (h' & E1 & Hd & Hm & E2). exists h'.
  rewrite (surjective_pairing (_refresh_worker_resume key r h)), E1, E2.
  destruct r as [[o|]|e]; [done..|]. rewrite Hr by done. split; [done|]. split; [done|]. by apply Hm, Hr.
Qed.

(** A worker whose awaited resolution fails counts the failure and goes on; it
    ends when its next wait for the queue is cancelled. *)
Lemma refresh_tasks_survive_witness :
  let key : CacheKey := ("a.com", 1%Z, 1%Z) in
  let h := mark_inflight key (handler_new (Some metrics_new)) in
  ∃ h', _refresh_worker_resume key (Raise TimeoutError) h = (h', Ret ())
  ∧ inflight_keys h' = ∅
  ∧ h_metrics h' = Some (inc "cache_refresh_completed_total{result=fail}" 1 (inc "cache_refresh_started_total" 1 metrics_new)).
Proof.
  intros key h.
  destruct (refresh_tasks_survive HandlerConfig_default [] [] h) as (_ & _ & _ & Hres).
  destruct (Hres key (Raise TimeoutError)) as (h' & E & (Hi & _) & Hm); [by intros ? [= <-]|].
  exists h'. split; [exact E|]. split; [rewrite Hi; set_solver|exact Hm].
Defined.
