(* ===== verification/System.v ===== *)
(** * The running system: interleavings of the handler's coroutines

    [World] is the handler's state together with the coroutines that are
    suspended: the [handle] calls waiting for a resolution task and the
    refresh-worker jobs waiting for one.  [run_event] is one step of the event
    loop; a sequence of events is one interleaving, and a world is reachable
    when some sequence of events leads to it from the start.  The clock
    readings and the upstream's answers are part of the events.

    Two ghost fields record what happened: [w_out] is what each finished
    [handle] call gave, and [w_log] is every answer the upstream gave, with
    the key it was asked for. *)
From S2P Require Import Prelude PyString OrderedDict Metrics Dns Cache CacheEvict CacheProps SingleFlight Handler HandlerProps.
From stdpp Require Import base list strings gmap sets pretty.

Section system.
Context `{Dnslib}.

(** A [handle] call suspended on its task. *)
Record call := mkCall {
  call_request : DNSRecord;
  call_key : CacheKey;
  call_qname : string;
  call_qtype_name : string;
  call_task : nat;
}.

(** What a [handle] call gave: the object it returned as it was then, or an
    exception. *)
Definition outcome : Type := DNSRecord * res (option DNSRecord).

Record World := mkWorld {
  w_h : HSt;
  w_calls : list call;
  w_jobs : list (CacheKey * nat);
  w_out : list outcome;
  w_log : list (CacheKey * bytes);
}.

Definition world_new (m : option Metrics) : World := mkWorld (handler_new m) [] [] [] [].

Definition with_h (h : HSt) (w : World) : World :=
  mkWorld h (w_calls w) (w_jobs w) (w_out w) (w_log w).

(** A finished call's outcome. *)
Definition outcome_of (request : DNSRecord) (hr : HSt * res nat) : outcome :=
  (request, match hr.2 with Ret o => Ret (h_heap hr.1 !! o) | Raise e => Raise e end).

(** The answer of the upstream that reaches a task, if any. *)
Definition answers (up : upstream) (wire : bytes) (request_id : string) : list bytes :=
  match upstream_result up wire request_id with
  | Ret (Some b) => [b]
  | _ => []
  end.

Definition coro_key (p : coro) : sf_key :=
  match p with
  | CResolve _ key _ _ | CResolveQuery _ _ key _ _ => KResolve key
  | CRefresh key _ _ _ | CRefreshQuery _ _ key _ _ _ => KRefresh key
  end.
Definition sf_cache_key (k : sf_key) : CacheKey :=
  match k with KResolve key | KRefresh key => key end.

(** The log entries of the upstream answering task [t]. *)
Definition task_log (t : nat) (up : upstream) (h : HSt) : list (CacheKey * bytes) :=
  match loop_tasks (h_sf h) !! t with
  | Some (mkTask _ (Running (CResolveQuery wire rid key _ _)))
  | Some (mkTask _ (Running (CRefreshQuery wire rid key _ _ _))) =>
      (λ b, (key, b)) <$> answers up wire rid
  | _ => []
  end.

(** The counters of the forwarders, which share the handler's registry. *)
Definition upstream_counters : list string :=
  ["dropped_total"; "dropped_max_inflight_total"; "dropped_oversize_total"; "upstream_requests_total";
   "upstream_udp_errors_total"; "upstream_udp_timeouts_total";
   "upstream_tcp_errors_total"; "upstream_tcp_timeouts_total"; "upstream_tcp_connect_errors_total";
   "upstream_tcp_protocol_errors_total"; "upstream_tcp_reuses_total";
   "upstream_relay_requests_total"; "upstream_relay_client_errors_total"; "upstream_relay_http_4xx_total";
   "upstream_relay_http_5xx_total"; "upstream_relay_timeouts_total"; "upstream_relay_protocol_errors_total"].

Inductive event : Type :=
| EvRequest (request : DNSRecord) (now_fresh now_stale : Z)
| EvTaskBegin (t : nat)
| EvTaskResume (t : nat) (up : upstream) (now now_evict : Z)
| EvTaskCancel (t : nat)
| EvCleanup (key : sf_key) (t : nat)
| EvCallResume (i : nat) (now : Z)
| EvScanTick (now : Z)
| EvWorker (now : Z)
| EvJobResume (j : nat)
| EvEnqueue (key : CacheKey) (reason : string)
| EvClear
| EvCount (k : string).

(** The result of task [t], when it is done. *)
Definition task_result_of (t : nat) (h : HSt) : option (res (option nat)) :=
  match loop_tasks (h_sf h) !! t with
  | Some (mkTask _ (Done r)) => Some r
  | _ => None
  end.

(** One step of the event loop; an event that is not enabled changes
    nothing. *)
Definition run_event (cc : CacheConfig) (cfg : HandlerConfig) (ev : event) (w : World) : World :=
  let h := w_h w in
  match ev with
  | EvRequest request now_fresh now_stale =>
      match handle_begin cfg request now_fresh now_stale h with
      | (h', Ret (HReturn o)) =>
          mkWorld h' (w_calls w) (w_jobs w) (w_out w ++ [outcome_of request (h', Ret o)]) (w_log w)
      | (h', Ret (HAwait key qname qtype_name t)) =>
          mkWorld h' (w_calls w ++ [mkCall request key qname qtype_name t]) (w_jobs w) (w_out w) (w_log w)
      | (h', Raise e) =>
          mkWorld h' (w_calls w) (w_jobs w) (w_out w ++ [outcome_of request (h', Raise e)]) (w_log w)
      end
  | EvTaskBegin t => with_h (task_begin t h) w
  | EvTaskResume t up now now_evict =>
      mkWorld (task_resume cc t up now now_evict h) (w_calls w) (w_jobs w) (w_out w)
        (w_log w ++ task_log t up h)
  | EvTaskCancel t => with_h (task_cancel t h) w
  | EvCleanup key t =>
      if decide ((key, t) ∈ cleanups (h_sf h)) then with_h (with_sf (_cleanup key t (h_sf h)) h) w
      else w
  | EvCallResume i now =>
      match w_calls w !! i with
      | None => w
      | Some c =>
          match task_result_of (call_task c) h with
          | None => w
          | Some r =>
              let hr := handle_resume cfg (call_request c) (call_key c) (call_qname c)
                          (call_qtype_name c) r now h in
              mkWorld hr.1 (delete i (w_calls w)) (w_jobs w)
                (w_out w ++ [outcome_of (call_request c) hr]) (w_log w)
          end
      end
  | EvScanTick now => with_h (_refresh_scan_tick cfg now h).1 w
  | EvWorker now =>
      match _refresh_worker_begin cfg now h with
      | (h', Ret (Some (key, Some t))) =>
          mkWorld h' (w_calls w) (w_jobs w ++ [(key, t)]) (w_out w) (w_log w)
      | (h', _) => with_h h' w
      end
  | EvJobResume j =>
      match w_jobs w !! j with
      | None => w
      | Some (key, t) =>
          match task_result_of t h with
          | None => w
          | Some r =>
              mkWorld (_refresh_worker_resume key r h).1 (w_calls w) (delete j (w_jobs w))
                (w_out w) (w_log w)
          end
      end
  | EvEnqueue key reason => with_h (enqueue_refresh cfg key reason h).1 w
  | EvClear => with_h (in_cache clear h).1 w
  | EvCount k => if bool_decide (k ∈ upstream_counters) then with_h (minc k h).1 w else w
  end.

Definition run_events (cc : CacheConfig) (cfg : HandlerConfig) (evs : list event) (w : World) : World :=
  foldl (λ w ev, run_event cc cfg ev w) w evs.

(** ** The invariant *)

(** [r] is, up to its transaction id, an answer the upstream gave for [key]. *)
Definition from_upstream (log : list (CacheKey * bytes)) (key : CacheKey) (r : DNSRecord) : Prop :=
  ∃ b r0, (key, b) ∈ log ∧ dns_parse b = Some r0 ∧ r = set_id (hdr_id r) r0.

(** The same after the UDP server cut it down to fit a datagram: the record is
    the task's result, and the server changes it in place. *)
Definition truncate (r : DNSRecord) : DNSRecord := clear_sections (set_tc 1 r).

(** What a task's result may be: an answer of the upstream, or, when servers
    truncate ([tr]), one that was cut down. *)
Definition derived (tr : bool) (log : list (CacheKey * bytes)) (key : CacheKey) (r : DNSRecord) : Prop :=
  from_upstream log key r ∨ (tr = true ∧ ∃ r0, from_upstream log key r0 ∧ r = truncate r0).

Definition cache_inv (cc : CacheConfig) (log : list (CacheKey * bytes)) (s : CacheSt) : Prop :=
  cache_ok cc s ∧
  ∀ key e, (key, e) ∈ _store s →
    ∃ r, dns_parse (response_wire e) = Some r ∧ from_upstream log key r.

Record handler_ok (tr : bool) (cc : CacheConfig) (cfg : HandlerConfig) (log : list (CacheKey * bytes))
    (h : HSt) : Prop := {
  ho_sf : sf_ok (h_sf h);
  ho_cache : cache_inv cc log (mkCacheSt (h_metrics h) (h_store h));
  ho_queue : queue_bounded cfg h;
  ho_queued : queued_in_queue h;
  ho_heap : ∀ o, is_Some (h_heap h !! o) → o < h_next h;
  ho_results : ∀ t k o, loop_tasks (h_sf h) !! t = Some (mkTask k (Done (Ret (Some o)))) →
    ∃ r, h_heap h !! o = Some r ∧ derived tr log (sf_cache_key k) r;
  ho_coro : ∀ t k p, loop_tasks (h_sf h) !! t = Some (mkTask k (Running p)) → coro_key p = k;
}.
End system.
