(* ===== verification/SystemProps.v ===== *)
(** * The invariant of the running system

    Every operation of the handler keeps [handler_ok], and so does every event;
    the lemmas are composed with the rules of [preserves]. *)
From S2P Require Import Prelude PyString OrderedDict Metrics Dns Cache CacheEvict CacheProps SingleFlight Handler HandlerProps System.
From stdpp Require Import base list strings gmap sets pretty.

Section system_props.
Context `{Dnslib}.
Implicit Types (h : HSt) (log : list (CacheKey * bytes)) (key : CacheKey).

(** ** Provenance *)

Lemma from_upstream_set_id log key i r :
  from_upstream log key r → from_upstream log key (set_id i r).
Proof.
  intros (b & r0 & Hb & Hp & ->). exists b, r0. split; [done|]. split; [done|]. done.
Qed.

Lemma from_upstream_log log log' key r :
  from_upstream log key r → from_upstream (log ++ log') key r.
Proof. intros (b & r0 & Hb & ?). exists b, r0. split; [set_solver|done]. Qed.

Lemma from_upstream_parse log key b r :
  (key, b) ∈ log → dns_parse b = Some r → from_upstream log key r.
Proof. intros Hb Hp. exists b, r. split; [done|]. split; [done|]. by destruct r. Qed.

Lemma derived_upstream tr log key r : from_upstream log key r → derived tr log key r.
Proof. by left. Qed.
Lemma derived_set_id tr log key i r : derived tr log key r → derived tr log key (set_id i r).
Proof.
  intros [Hr|(-> & r0 & Hr & ->)]; [left; by apply from_upstream_set_id|right].
  split; [done|]. exists (set_id i r0). split; [by apply from_upstream_set_id|done].
Qed.
Lemma derived_log tr log log' key r : derived tr log key r → derived tr (log ++ log') key r.
Proof. intros [Hr|(-> & r0 & Hr & ->)]; [left|right]; eauto using from_upstream_log. Qed.
(** Cutting down twice is cutting down once. *)
Lemma derived_truncate log key r : derived true log key r → derived true log key (truncate r).
Proof. intros [Hr|(_ & r0 & Hr & ->)]; right; eauto. Qed.
Lemma derived_whole log key r : derived false log key r → from_upstream log key r.
Proof. by intros [Hr|[[=] _]]. Qed.

(** ** The cache's part *)

Section cache_part.
Context (cc : CacheConfig) (log : list (CacheKey * bytes)).

Lemma serve_inv key now e (s : CacheSt) :
  od_get key (_store s) = Some e → cache_inv cc log s → cache_inv cc log (serve key now e s).1.
Proof.
  intros He [Hok Hp]. split; [by apply serve_ok|]. destruct s as [m d]. rewrite serve_run. cbn in *.
  intros k e' Hin.
  assert (Forall (λ kv, ∃ r, dns_parse (response_wire kv.2) = Some r ∧ from_upstream log kv.1 r)
    (od_move_to_end key (od_set key (hit now e) d))) as Hall.
  { apply Forall_move_set; cbn.
    - apply (Hp key e). by apply od_get_elem.
    - apply Forall_forall. intros [k2 e2] ?. by apply Hp. }
  by apply (proj1 (Forall_forall _ _) Hall (k, e')).
Qed.

Lemma get_fresh_inv key now : preserves (cache_inv cc log) (get_fresh key now).
Proof.
  intros s Hs. unfold get_fresh. runM. destruct (od_get key (_store s)) as [e|] eqn:E; [|done].
  case_match; [by apply serve_inv|done].
Qed.
Lemma get_stale_inv key now : preserves (cache_inv cc log) (get_stale key now).
Proof.
  intros s Hs. unfold get_stale. runM. destruct (od_get key (_store s)) as [e|] eqn:E; [|done].
  case_match; [by apply serve_inv|done].
Qed.
Lemma peek_inv key : preserves (cache_inv cc log) (peek key).
Proof. by intros s Hs. Qed.
Lemma entries_snapshot_inv : preserves (cache_inv cc log) entries_snapshot.
Proof. by intros s Hs. Qed.

Lemma clear_inv : cache_config_ok cc → preserves (cache_inv cc log) clear.
Proof.
  intros Hcc s _. split; [by apply clear_ok|]. destruct s as [m d]. cbn. set_solver.
Qed.

(** Storing a response the upstream gave for the key; its wire form parses
    back to it. *)
Lemma put_inv `{!DnslibLaws} now now_evict key r :
  cache_config_ok cc → from_upstream log key r →
  preserves (cache_inv cc log) (put cc now now_evict key r).
Proof.
  intros Hcc Hr s [Hok Hp]. split; [by apply put_ok|].
  destruct (put_cases cc now now_evict key r s) as [(e & -> & _)|(ttl & w & Httl & Hw)]; [done|].
  destruct s as [m d]. destruct Hok as [Hwf _ _ _]. cbn in *.
  rewrite (put_run _ _ _ _ _ ttl w) by done. cbn. intros k e' Hin%evict_to_elem.
  assert (Forall (λ kv, ∃ r, dns_parse (response_wire kv.2) = Some r ∧ from_upstream log kv.1 r)
    (od_move_to_end key (od_set key (put_entry cc now (Z.max 0 ttl) w r) d))) as Hall.
  { apply Forall_move_set; cbn.
    - exists r. split; [by apply parse_pack|done].
    - apply Forall_forall. intros [k2 e2] ?. by apply Hp. }
  by apply (proj1 (Forall_forall _ _) Hall (k, e')).
Qed.
End cache_part.

Lemma cache_inv_metrics cc log m m' d :
  count_opt m' "cache_entries" = count_opt m "cache_entries" →
  (∀ v, onm m' v = onm m v) →
  cache_inv cc log (mkCacheSt m d) → cache_inv cc log (mkCacheSt m' d).
Proof.
  intros Hc Ho [[? ? ? Hg] Hp]. split; [|done]. split; try done. cbn in *. by rewrite Hc, Ho.
Qed.

Lemma cache_inv_log cc log log' s : cache_inv cc log s → cache_inv cc (log ++ log') s.
Proof.
  intros [? Hp]. split; [done|]. intros key e Hin. destruct (Hp key e Hin) as (r & ? & ?).
  eauto using from_upstream_log.
Qed.

(** ** The handler's part *)

Section handler_part.
Context `{!DnslibLaws} (tr : bool) (cc : CacheConfig) (cfg : HandlerConfig) (log : list (CacheKey * bytes)).
Context (Hcc : cache_config_ok cc).
#[local] Abbreviation inv := (handler_ok tr cc cfg log).

Lemma inv_metrics m h :
  count_opt m "cache_entries" = count_opt (h_metrics h) "cache_entries" →
  (∀ v, onm m v = onm (h_metrics h) v) →
  inv h → inv (with_metrics m h).
Proof.
  intros Hc Ho [? Hcache ? ? ? ? ?]. split; try done. cbn.
  by apply (cache_inv_metrics _ _ (h_metrics h)).
Qed.

Lemma minc_inv (k : string) : k ≠ "cache_entries" → preserves inv (minc k).
Proof.
  intros Hk h Hh. cbn. apply inv_metrics; [| |done].
  - by rewrite count_opt_inc, decide_False, Z.add_0_r by done.
  - intros v. apply onm_inc.
Qed.

Lemma in_cache_inv {A} (m : M CacheSt A) :
  preserves (cache_inv cc log) m → preserves inv (in_cache m).
Proof.
  intros Hm. unfold in_cache. eapply preserves_zoom; [| |exact Hm].
  - by intros h [].
  - intros h [m' d'] [] Hc. by split.
Qed.

Lemma alloc_inv r : preserves inv (alloc r).
Proof.
  intros h [? ? ? ? Hheap Hres ?]. rewrite alloc_run. cbn [fst].
  assert (h_heap h !! h_next h = None) as Hnew.
  { apply eq_None_not_Some. intros Hs%Hheap. lia. }
  split; try done.
  - intros o. cbn. rewrite lookup_insert_is_Some'. intros [<-|Ho%Hheap]; lia.
  - intros t k o Ht. destruct (Hres t k o Ht) as (r' & Hr' & ?). exists r'. cbn.
    split; [|done]. rewrite lookup_insert_ne; congruence.
Qed.

Lemma with_txid_inv request o : preserves inv (_with_txid request o).
Proof.
  intros h [? ? ? ? Hheap Hres ?]. rewrite with_txid_run. cbn [fst]. split; try done.
  - intros o'. cbn. rewrite lookup_alter. intros Ho. apply Hheap.
    case_decide; [|done]. subst. by destruct (h_heap h !! o'); destruct Ho.
  - intros t k o' Ht. destruct (Hres t k o' Ht) as (r & Hr & Hu). cbn. rewrite lookup_alter.
    case_decide; [|by eauto]. subst. rewrite Hr. eauto using derived_set_id.
Qed.

(** The SingleFlight tables change; [f] must keep the results and coroutines
    consistent. *)
Lemma inv_sf f h :
  sf_ok f →
  (∀ t k o, loop_tasks f !! t = Some (mkTask k (Done (Ret (Some o)))) →
    ∃ r, h_heap h !! o = Some r ∧ derived tr log (sf_cache_key k) r) →
  (∀ t k p, loop_tasks f !! t = Some (mkTask k (Running p)) → coro_key p = k) →
  inv h → inv (with_sf f h).
Proof. intros ??? []. by split. Qed.

Lemma in_sf_get_inv (key : sf_key) c : coro_key c = key → preserves inv (in_sf (get_or_create key c)).
Proof.
  intros Hc h Hh.
  destruct (get_or_create_cases key c (with_metrics (h_metrics h) (h_sf h)))
    as [(t & _ & _ & E)|[_ E]]; unfold in_sf, zoom; rewrite E.
  - pose proof (minc_inv "singleflight_dedup_total" ltac:(done) h Hh) as Hm.
    apply (inv_sf (with_metrics None (h_sf h))) in Hm; [done|..]; [|apply Hh|apply Hh].
    by apply with_metrics_ok, (ho_sf _ _ _ _ _ Hh).
  - unfold create_task. runM. cbn.
    change (inv (with_sf (with_metrics None
      (mkSfSt (h_metrics h) (<[key := next_task (h_sf h)]> (_tasks (h_sf h)))
         (<[next_task (h_sf h) := mkTask key (Running c)]> (loop_tasks (h_sf h)))
         (cleanups (h_sf h)) (S (next_task (h_sf h))))) h)).
    destruct Hh as [Hsf Hcache Hq Hqd Hheap Hres Hco]. apply inv_sf; [|..|done].
    + pose proof (get_or_create_ok key c (with_metrics (h_metrics h) (h_sf h))
        (with_metrics_ok _ _ Hsf)) as Hok. rewrite E in Hok. by apply with_metrics_ok.
    + cbn. intros t k o. rewrite lookup_insert. case_decide; [done|]. apply Hres.
    + cbn. intros t k p. rewrite lookup_insert. case_decide; [by intros [= <- <-]|]. apply Hco.
Qed.

Lemma enqueue_refresh_inv key reason : preserves inv (enqueue_refresh cfg key reason).
Proof.
  intros h Hh. pose proof Hh as [? ? Hq Hqd ? ? ?].
  apply (enqueue_refresh_bounded cfg key reason) in Hq.
  apply (enqueue_refresh_queued cfg key reason) in Hqd.
  revert Hq Hqd. unfold enqueue_refresh, mbind, M_bind, get_state.
  destruct (_ || _); [intros; by apply (minc_inv "cache_refresh_dropped_total{reason=duplicate}")|].
  destruct (queue_full _ _);
    [intros; by apply (minc_inv "cache_refresh_dropped_total{reason=queue_full}")|].
  intros Hq Hqd. apply (minc_inv "cache_refresh_enqueued_total"); [done|]. by split.
Qed.

#[local] Hint Resolve get_fresh_inv get_stale_inv peek_inv entries_snapshot_inv : rdns.
#[local] Hint Resolve in_cache_inv alloc_inv with_txid_inv enqueue_refresh_inv : rdns.
#[local] Hint Extern 1 (preserves _ (minc _)) => (by apply minc_inv) : rdns.
#[local] Hint Extern 1 (preserves _ (in_sf (get_or_create _ _))) => (by apply in_sf_get_inv) : rdns.

Lemma reply_cached_inv request w : preserves inv (reply_cached request w).
Proof. unfold reply_cached. solve_preserves. Qed.
Lemma error_reply_inv request c : preserves inv (error_reply request c).
Proof. unfold error_reply. solve_preserves. Qed.
#[local] Hint Resolve reply_cached_inv error_reply_inv : rdns.

Lemma serve_stale_inv request w key qname qtype_name :
  preserves inv (serve_stale cfg request w key qname qtype_name).
Proof. unfold serve_stale, _schedule_refresh. solve_preserves. Qed.
#[local] Hint Resolve serve_stale_inv : rdns.

Lemma handle_begin_inv request now_fresh now_stale :
  preserves inv (handle_begin cfg request now_fresh now_stale).
Proof. unfold handle_begin, _qtype_mapping. solve_preserves. Qed.

Lemma handle_resume_inv request key qname qtype_name r now :
  preserves inv (handle_resume cfg request key qname qtype_name r now).
Proof. unfold handle_resume. solve_preserves. Qed.

Lemma scan_entries_inv now enqueued entries : preserves inv (scan_entries cfg now enqueued entries).
Proof.
  revert enqueued. induction entries as [|[key e] entries IH]; intros enqueued; cbn [scan_entries];
    solve_preserves.
Qed.
Lemma scan_tick_inv now : preserves inv (_refresh_scan_tick cfg now).
Proof. unfold _refresh_scan_tick. pose proof scan_entries_inv. solve_preserves. Qed.

(** ** The refresh sets *)

Lemma inv_queue q qd inf h :
  ((0 < refresh_queue_max cfg)%Z → (len q ≤ refresh_queue_max cfg)%Z) →
  (∀ key, key ∈ qd → key ∈ q.*1) →
  inv h → inv (with_queue q qd inf h).
Proof. intros ?? []. by split. Qed.

Lemma mark_inflight_inv key h : inv h → inv (mark_inflight key h).
Proof.
  intros Hh. apply inv_queue; [apply Hh| |done].
  intros k [Hk _]%elem_of_difference. by apply (ho_queued _ _ _ _ _ Hh).
Qed.
Lemma unmark_inflight_inv key h : inv h → inv (unmark_inflight key h).
Proof. intros Hh. apply inv_queue; [apply Hh|apply (ho_queued _ _ _ _ _ Hh)|done]. Qed.
#[local] Hint Resolve mark_inflight_inv unmark_inflight_inv : rdns.

Lemma refresh_via_worker_inv now key : preserves inv (_refresh_via_worker_begin cfg now key).
Proof. unfold _refresh_via_worker_begin. solve_preserves. Qed.

Lemma worker_finally_inv key attempted cancelled result :
  preserves inv (worker_finally key attempted cancelled result).
Proof.
  unfold worker_finally. solve_preserves. apply preserves_modify. auto with rdns.
Qed.
#[local] Hint Resolve refresh_via_worker_inv worker_finally_inv : rdns.

Lemma worker_resume_inv key r : preserves inv (_refresh_worker_resume key r).
Proof. unfold _refresh_worker_resume. destruct r as [[]|[]]; cbn [is_Exception]; solve_preserves. Qed.

(** Taking the head of the queue. *)
Lemma dequeue_inv key reason q h :
  refresh_queue h = (key, reason) :: q →
  inv h → inv (mark_inflight key (with_queue q (queued_keys h) (inflight_keys h) h)).
Proof.
  intros Hq Hh.
  apply (inv_queue q (queued_keys h ∖ {[key]}) ({[key]} ∪ inflight_keys h) h); [| |done].
  - intros Hpos. pose proof (ho_queue _ _ _ _ _ Hh Hpos) as Hle. rewrite Hq, len_cons in Hle. lia.
  - intros k [Hk Hne]%elem_of_difference. apply (ho_queued _ _ _ _ _ Hh) in Hk. rewrite Hq in Hk.
    cbn in Hk. set_solver.
Qed.

Lemma worker_begin_inv now : preserves inv (_refresh_worker_begin cfg now).
Proof.
  intros h Hh. unfold _refresh_worker_begin, mbind at 1, M_bind at 1, gets.
  destruct (refresh_queue h) as [|[key reason] q] eqn:E; [done|].
  unfold mbind at 1, M_bind at 1, modify. cbv beta.
  refine ((_ : preserves inv _) _ (dequeue_inv key reason q h E Hh)). solve_preserves.
Qed.

(** ** Tasks *)

Lemma finish_inv t m h :
  preserves inv m → h_sf (m h).1 = h_sf h →
  (∀ k p o, loop_tasks (h_sf h) !! t = Some (mkTask k (Running p)) → (m h).2 = Ret (Some o) →
    ∃ r, h_heap (m h).1 !! o = Some r ∧ derived tr log (sf_cache_key k) r) →
  inv h → inv (finish t m h).
Proof.
  intros Hm Hsf Hres Hh. specialize (Hm h Hh). unfold finish.
  destruct (m h) as [h' res]. cbn [fst snd] in *. rewrite Hsf.
  destruct Hm as [? ? ? ? ? Hres' Hco']. rewrite Hsf in *.
  apply inv_sf; [by apply finish_task_ok|..|by split; rewrite ?Hsf]; unfold finish_task;
    (destruct (loop_tasks (h_sf h) !! t) as [[k [p|r]]|] eqn:E; [|done..]); cbn; intros t' k' x;
    rewrite lookup_insert; case_decide; try done; [|by apply Hres'|by apply Hco'].
  intros [= <- ->]. by apply (Hres _ p).
Qed.

Lemma advance_inv t p k0 p0 h :
  loop_tasks (h_sf h) !! t = Some (mkTask k0 (Running p0)) → coro_key p = k0 →
  inv h → inv (with_sf (advance_task t p (h_sf h)) h).
Proof.
  intros Ht Hp Hh. pose proof Hh as [? ? ? ? ? Hres Hco]. apply inv_sf; [..|done].
  - apply advance_task_ok; [|done]. apply task_running_spec. eauto.
  - cbn. intros t' k o. rewrite lookup_alter. case_decide; [|apply Hres]. subst. by rewrite Ht.
  - cbn. intros t' k p'. rewrite lookup_alter. case_decide; [|apply Hco]. subst. rewrite Ht.
    cbn. by intros [= <- <-].
Qed.

Lemma finish_pure_inv t (r : res (option nat)) f h :
  (∀ h, inv h → inv (f h)) → (∀ h, h_sf (f h) = h_sf h) → (∀ o, r ≠ Ret (Some o)) →
  inv h → inv (finish t (try_finally (lift_res r) f) h).
Proof.
  intros Hf Hsf Hr Hh. apply finish_inv; [| | |done].
  - apply preserves_try_finally; [apply preserves_lift_res|done].
  - apply Hsf.
  - intros k p o _ [=]. by destruct (Hr o).
Qed.

Lemma task_begin_inv t h : inv h → inv (task_begin t h).
Proof.
  intros Hh. unfold task_begin.
  destruct (loop_tasks (h_sf h) !! t) as [[k [[]|]]|] eqn:E; try done;
    pose proof (ho_coro _ _ _ _ _ Hh _ _ _ E) as Hk; cbn in Hk; subst k.
  - unfold _resolve_upstream_begin. runM. destruct (dns_pack request); cbn.
    + by eapply advance_inv.
    + by apply (finish_pure_inv t (Raise OtherException) id).
  - unfold _refresh_once_begin. apply (mark_inflight_inv refresh_key) in Hh.
    destruct (dns_question _ _ _) as [new_req|]; runM.
    + destruct (dns_pack new_req); cbn.
      * by refine (advance_inv t _ _ _ (mark_inflight refresh_key h) E _ Hh).
      * apply (finish_pure_inv t (Raise OtherException)); auto with rdns.
    + apply (finish_pure_inv t (Ret None)); auto with rdns.
Qed.

Lemma task_cancel_inv t h : inv h → inv (task_cancel t h).
Proof.
  intros Hh. unfold task_cancel.
  destruct (loop_tasks (h_sf h) !! t) as [[k [[]|]]|] eqn:E; try done;
    first [ by apply (finish_pure_inv t (Raise CancelledError) id)
          | apply (finish_pure_inv t (Raise CancelledError)); auto with rdns ].
Qed.

Lemma cleanup_inv k t h :
  (k, t) ∈ cleanups (h_sf h) → inv h → inv (with_sf (_cleanup k t (h_sf h)) h).
Proof.
  intros Hin Hh. pose proof Hh as [? ? ? ? ? Hres Hco]. apply inv_sf; [by apply cleanup_ok|..|done]; done.
Qed.

(** The upstream's answer to a query made for [key] is in the log. *)
Definition logged key (up : upstream) wire rid : Prop :=
  ∀ b, b ∈ answers up wire rid → (key, b) ∈ log.

Lemma query_and_store_inv up now now_evict wire rid key :
  logged key up wire rid →
  preserves inv (query_and_store cc up now now_evict wire rid key).
Proof.
  intros Hlog h Hh. rewrite query_and_store_run. unfold logged, answers in Hlog.
  destruct (upstream_result up wire rid) as [[b|]|e]; [|by apply minc_inv|done].
  destruct (dns_parse b) as [r|] eqn:Hr; [|done]. cbn [fst].
  apply in_cache_inv; [|by apply (alloc_inv r h)].
  apply put_inv; [done..|]. eapply from_upstream_parse; [|done]. apply Hlog. set_solver.
Qed.

Lemma query_and_store_result up now now_evict wire rid key h o :
  logged key up wire rid →
  (query_and_store cc up now now_evict wire rid key h).2 = Ret (Some o) →
  ∃ r, h_heap (query_and_store cc up now now_evict wire rid key h).1 !! o = Some r
       ∧ derived tr log key r.
Proof.
  rewrite query_and_store_run. unfold logged, answers.
  destruct (upstream_result up wire rid) as [[b|]|e]; [|done..]. intros Hlog.
  destruct (dns_parse b) as [r|] eqn:Hr; [|done]. cbn zeta.
  match goal with |- context [in_cache ?m ?h1] =>
    destruct (in_cache_run m h1) as (? & ? & Eq); destruct (in_cache m h1) as [h' [[]|]]; [|done]
  end.
  cbn in *. subst h'. intros [= <-]. exists r. cbn. rewrite lookup_insert_eq. split; [done|].
  apply derived_upstream. eapply from_upstream_parse; [|done]. apply Hlog. set_solver.
Qed.

Lemma task_resume_inv t up now now_evict h :
  (∀ kb, kb ∈ task_log t up h → kb ∈ log) →
  inv h → inv (task_resume cc t up now now_evict h).
Proof.
  intros Hlog Hh. unfold task_resume, task_log in *.
  destruct (loop_tasks (h_sf h) !! t) as [[k [[]|]]|] eqn:E; try done;
    pose proof (ho_coro _ _ _ _ _ Hh _ _ _ E) as Hk; cbn in Hk; subst k;
    (assert (logged key up wire request_id) as Hl
      by (intros b Hb; apply Hlog; apply list_elem_of_fmap; eauto)).
  - apply finish_inv; [by apply query_and_store_inv|apply query_and_store_sf| |done].
    intros k p o Hk Hr. rewrite E in Hk. simplify_eq. by apply query_and_store_result.
  - apply finish_inv; [| | |done].
    + apply preserves_try_finally; [by apply query_and_store_inv|auto with rdns].
    + unfold try_finally.
      rewrite <- (query_and_store_sf cc up now now_evict wire request_id key h).
      by destruct (query_and_store _ _ _ _ _ _ _ h).
    + intros k p o Hk. rewrite E in Hk. simplify_eq.
      pose proof (query_and_store_result up now now_evict wire request_id key h o Hl) as Hres.
      unfold try_finally. by destruct (query_and_store _ _ _ _ _ _ _ h).
Qed.
End handler_part.

Lemma inv_log tr cc cfg log log' h : handler_ok tr cc cfg log h → handler_ok tr cc cfg (log ++ log') h.
Proof.
  intros [? Hc ? ? ? Hres ?]. split; auto using cache_inv_log.
  intros t k o Ht. destruct (Hres t k o Ht) as (r & ? & ?). eauto using derived_log.
Qed.

Lemma handler_new_ok tr cc cfg m :
  cache_config_ok cc → count_opt m "cache_entries" = 0%Z → handler_ok tr cc cfg [] (handler_new m).
Proof.
  intros Hcc Hm. split; [apply sf_new_ok|..|done|done].
  - split; [by apply cache_new_ok|cbn; set_solver].
  - intros ?. unfold len. cbn. lia.
  - intros key. cbn. set_solver.
  - intros o. cbn. rewrite lookup_empty. by intros [].
Qed.

(** ** Outcomes *)

(** [r] answers [request]: it carries its transaction id, and is either an
    answer of the upstream for the request's question, or an error reply. *)
Definition answers_request (tr : bool) log (request : DNSRecord) (r : DNSRecord) : Prop :=
  hdr_id r = hdr_id request ∧
  match questions request with
  | [] => r = set_rcode FORMERR (dns_reply request)
  | q :: _ => derived tr log (key_of q) r ∨
              r = set_id (hdr_id request) (set_rcode SERVFAIL (dns_reply request))
  end.

(** A call ends with an answer, or is left by an exception that no handler of
    the program catches: a cancellation or the end of the process. *)
Definition outcome_ok (tr : bool) log (o : outcome) : Prop :=
  match o.2 with
  | Ret (Some r) => answers_request tr log o.1 r
  | Ret None => False
  | Raise e => is_Exception e = false
  end.

(** A suspended call waits for a task of its own question's key. *)
Definition call_ok h (c : call) : Prop :=
  (∃ q qs, questions (call_request c) = q :: qs ∧ call_key c = key_of q) ∧
  ∃ st, loop_tasks (h_sf h) !! call_task c = Some (mkTask (KResolve (call_key c)) st).

Record world_ok (tr : bool) cc cfg (w : World) : Prop := {
  wo_h : handler_ok tr cc cfg (w_log w) (w_h w);
  wo_calls : Forall (call_ok (w_h w)) (w_calls w);
  wo_out : Forall (outcome_ok tr (w_log w)) (w_out w);
}.
End system_props.
