(* ===== verification/SystemOutcomes.v ===== *)
(** * What calls give, and the invariant of the world

    Each [handle] call ends with an answer to its request; a task that a call
    waits for stays known to the event loop; so [world_ok] holds after every
    sequence of events. *)
From S2P Require Import Prelude PyString OrderedDict Metrics Dns Cache CacheEvict CacheProps SingleFlight Handler HandlerProps System SystemProps.
From stdpp Require Import base list strings gmap sets pretty.

Section outcomes.
Context `{DnslibLaws}.
Context (tr : bool) (cc : CacheConfig) (cfg : HandlerConfig) (log : list (CacheKey * bytes)).
#[local] Abbreviation inv := (handler_ok tr cc cfg log).
Implicit Types (h : HSt) (key : CacheKey) (request : DNSRecord).

(** A lookup of either kind gives an answer of the upstream for the key. *)
Lemma lookup_run key h (get : M CacheSt (option bytes)) :
  (∃ now, get = get_fresh key now ∨ get = get_stale key now) →
  inv h →
  ∃ h1 v, in_cache get h = (h1, Ret v) ∧ inv h1 ∧ h_sf h1 = h_sf h ∧
    ∀ w, v = Some w → ∃ r, dns_parse w = Some r ∧ from_upstream log key r.
Proof.
  intros [now Hget] Hh. assert (preserves (cache_inv cc log) get) as Hp.
  { destruct Hget as [->| ->]; [apply get_fresh_inv|apply get_stale_inv]. }
  pose proof (in_cache_inv tr cc cfg log get Hp h Hh) as Hh1.
  pose proof (ho_cache _ _ _ _ _ Hh) as [_ Hstore].
  assert (∃ v, (get (mkCacheSt (h_metrics h) (h_store h))).2 = Ret v ∧
    ∀ w, v = Some w → ∃ r, dns_parse w = Some r ∧ from_upstream log key r) as (v & Hv & Hw).
  { destruct Hget as [->| ->]; [rewrite get_fresh_run|rewrite get_stale_run];
      (destruct (od_get key (h_store h)) as [e|] eqn:E; [|by exists None]);
      (case_match; [|by exists None]);
      (eexists; split; [done|]; intros w [= <-]; apply (Hstore key e); by apply od_get_elem). }
  unfold in_cache, zoom in *. destruct (get _) as [[m d] r]. cbn in *. subst r. by eauto 10.
Qed.

(** The conclusion for a call that returned. *)
Lemma cached_answer request q qs key (x : option DNSRecord) r :
  questions request = q :: qs → key = key_of q →
  x = Some (set_id (hdr_id request) r) → derived tr log key r →
  ∃ r', x = Some r' ∧ answers_request tr log request r'.
Proof.
  intros Hq -> Ho Hr. eexists. split; [done|]. split; [done|]. rewrite Hq. left.
  by apply derived_set_id.
Qed.

Definition begin_ok request (hr : HSt * res handle_out) : Prop :=
  match hr.2 with
  | Ret (HReturn o) => ∃ r, h_heap hr.1 !! o = Some r ∧ answers_request tr log request r
  | Ret (HAwait key qname qtype_name t) => call_ok hr.1 (mkCall request key qname qtype_name t)
  | Raise _ => False
  end.

Lemma handle_begin_ok request now_fresh now_stale h :
  inv h → begin_ok request (handle_begin cfg request now_fresh now_stale h).
Proof.
  intros Hh. unfold handle_begin. destruct (questions request) as [|q qs] eqn:Hq.
  { unfold begin_ok, error_reply, mbind, M_bind. rewrite alloc_run. cbn. rewrite lookup_insert_eq. eexists. split; [done|].
    split; [apply reply_id|by rewrite Hq]. }
  unfold mbind, M_bind, _qtype_mapping. fold (key_of q).
  pose proof (minc_inv tr cc cfg log "queries_total" ltac:(done) h Hh) as Hh0. rewrite minc_run in *.
  cbn [fst] in Hh0.
  destruct (lookup_run (key_of q) _ (get_fresh (key_of q) now_fresh) ltac:(eauto) Hh0)
    as (h1 & v & -> & Hh1 & _ & Hv).
  destruct (truthy v) eqn:Ev.
  { destruct v as [w|]; [|done]. destruct (Hv w eq_refl) as (r & Hr & Hu).
    rewrite minc_run, (reply_cached_run _ _ r) by done. unfold begin_ok. cbn.
    eapply cached_answer; [done..|apply lookup_insert_eq|by left]. }
  destruct (lookup_run (key_of q) _ (get_stale (key_of q) now_stale) ltac:(eauto) Hh1)
    as (h2 & v2 & -> & Hh2 & _ & Hv2).
  destruct (truthy v2) eqn:Ev2.
  { destruct v2 as [w|]; [|done]. destruct (Hv2 w eq_refl) as (r & Hr & Hu).
    match goal with |- context [serve_stale cfg request ?w (key_of q) ?n ?t ?h1] =>
      destruct (serve_stale_run cfg request _ r (key_of q) n t h1 Hr) as (h' & -> & Hheap & _) end.
    unfold begin_ok. cbn. eapply cached_answer; [done..| |by left]. rewrite Hheap. apply lookup_insert_eq. }
  rewrite minc_run.
  match goal with |- context [in_sf (get_or_create ?k ?c) ?h1] =>
    destruct (in_sf_get_run k c h1) as (m & f & t & l & -> & _ & Hspec) end.
  destruct (Hspec (ho_sf _ _ _ _ _ Hh2)) as (_ & [p Hp] & _).
  unfold begin_ok, call_ok. cbn. by eauto 10.
Qed.

Definition resume_ok request (result : res (option nat)) (hr : HSt * res nat) : Prop :=
  match hr.2 with
  | Ret o => ∃ r, h_heap hr.1 !! o = Some r ∧ answers_request tr log request r
  | Raise e => result = Raise e ∧ is_Exception e = false
  end.

Lemma handle_resume_none_ok request q qs qname qtype_name result now h :
  inv h → questions request = q :: qs →
  resume_ok request result (handle_resume cfg request (key_of q) qname qtype_name (Ret None) now h).
Proof.
  intros Hh Hq. unfold handle_resume, mbind, M_bind, try_except, lift_res.
  destruct (lookup_run (key_of q) _ (get_stale (key_of q) now) ltac:(eauto) Hh)
    as (h1 & v & -> & Hh1 & _ & Hv).
  destruct (truthy v) eqn:Ev.
  - destruct v as [w|]; [|done]. destruct (Hv w eq_refl) as (r & Hr & Hu).
    destruct (serve_stale_run cfg request _ r (key_of q) qname qtype_name h1 Hr)
      as (h' & -> & Hheap & _).
    eapply cached_answer; [done..| |by left]. cbn. rewrite Hheap. apply lookup_insert_eq.
  - unfold error_reply. rewrite alloc_run, with_txid_run. unfold resume_ok. cbn.
    rewrite lookup_alter_eq, lookup_insert_eq. eexists. split; [done|].
    split; [done|]. rewrite Hq. by right.
Qed.

Lemma handle_resume_ok request q qs qname qtype_name result now h :
  inv h → questions request = q :: qs →
  (∀ o, result = Ret (Some o) → ∃ r, h_heap h !! o = Some r ∧ derived tr log (key_of q) r) →
  resume_ok request result (handle_resume cfg request (key_of q) qname qtype_name result now h).
Proof.
  intros Hh Hq Hres. destruct result as [[o|]|e].
  - destruct (Hres o eq_refl) as (r & Hr & Hu). unfold handle_resume, mbind, M_bind, try_except, lift_res.
    rewrite with_txid_run. eapply cached_answer; [done..| |done]. cbn. by rewrite lookup_alter_eq, Hr.
  - by eapply handle_resume_none_ok.
  - destruct (is_Exception e) eqn:He.
    + rewrite handle_resume_exn by done. by eapply handle_resume_none_ok.
    + by rewrite handle_resume_base.
Qed.
End outcomes.

(** ** Tasks persist *)

Section persistence.
Context `{Dnslib}.
Implicit Types (h : HSt).

(** Task [t] was created for [k]. *)
Definition has_task (t : nat) (k : sf_key) h : Prop :=
  sf_ok (h_sf h) ∧ ∃ st, loop_tasks (h_sf h) !! t = Some (mkTask k st).

Context (t : nat) (k : sf_key) (cfg : HandlerConfig).

Lemma has_task_sf h h' : h_sf h' = h_sf h → has_task t k h → has_task t k h'.
Proof. unfold has_task. by intros ->. Qed.

Lemma minc_task x : preserves (has_task t k) (minc x).
Proof. intros h Hh. by apply (has_task_sf h). Qed.
Lemma modify_task f : (∀ h, h_sf (f h) = h_sf h) → preserves (has_task t k) (modify f).
Proof. intros Hf h Hh. apply (has_task_sf h); [apply Hf|done]. Qed.
Lemma in_cache_task {A} (m : M CacheSt A) : preserves (has_task t k) (in_cache m).
Proof. intros h Hh. apply (has_task_sf h); [|done]. by destruct (in_cache_run m h) as (? & ? & ->). Qed.
Lemma alloc_task r : preserves (has_task t k) (alloc r).
Proof. intros h Hh. by apply (has_task_sf h). Qed.
Lemma with_txid_task request o : preserves (has_task t k) (_with_txid request o).
Proof. intros h Hh. by apply (has_task_sf h). Qed.

Lemma in_sf_get_task k' c : preserves (has_task t k) (in_sf (get_or_create k' c)).
Proof.
  intros h [Hok [st Ht]]. destruct (in_sf_get_run k' c h) as (m & f & t' & l & -> & _ & Hspec).
  destruct (Hspec Hok) as (Hok' & _ & _ & Hf & Hl). split; [done|]. exists st. cbn.
  destruct l.
  - destruct (Hl eq_refl) as (Hnone & -> & _). rewrite lookup_insert_ne; [done|]. congruence.
  - by destruct (Hf eq_refl) as [-> _].
Qed.
#[local] Hint Resolve minc_task in_cache_task alloc_task with_txid_task in_sf_get_task : rdns.
#[local] Hint Extern 1 (preserves _ (modify _)) => (by apply modify_task) : rdns.

Lemma enqueue_refresh_task key reason : preserves (has_task t k) (enqueue_refresh cfg key reason).
Proof. unfold enqueue_refresh. solve_preserves. Qed.
#[local] Hint Resolve enqueue_refresh_task : rdns.

Lemma handle_begin_task request now_fresh now_stale :
  preserves (has_task t k) (handle_begin cfg request now_fresh now_stale).
Proof.
  unfold handle_begin, _qtype_mapping, serve_stale, _schedule_refresh, reply_cached, error_reply.
  solve_preserves.
Qed.
Lemma handle_resume_task request key qname qtype_name r now :
  preserves (has_task t k) (handle_resume cfg request key qname qtype_name r now).
Proof.
  unfold handle_resume, serve_stale, _schedule_refresh, reply_cached, error_reply. solve_preserves.
Qed.
Lemma scan_tick_task now : preserves (has_task t k) (_refresh_scan_tick cfg now).
Proof.
  assert (∀ es n, preserves (has_task t k) (scan_entries cfg now n es)) as Hs.
  { induction es as [|[key e] es IH]; intros n; cbn [scan_entries]; solve_preserves. }
  unfold _refresh_scan_tick. solve_preserves.
Qed.
Lemma worker_begin_task now : preserves (has_task t k) (_refresh_worker_begin cfg now).
Proof.
  unfold _refresh_worker_begin, _refresh_via_worker_begin, worker_finally. solve_preserves.
Qed.
Lemma worker_resume_task key r : preserves (has_task t k) (_refresh_worker_resume key r).
Proof. unfold _refresh_worker_resume, worker_finally. destruct r as [[]|[]]; cbn [is_Exception]; solve_preserves. Qed.

Lemma finish_has_task t' m h :
  h_sf (m h).1 = h_sf h → has_task t k h → has_task t k (finish t' m h).
Proof.
  intros Hsf [Hok [st Ht]]. unfold finish. destruct (m h) as [h' r]. cbn in Hsf. rewrite Hsf.
  split; [by apply finish_task_ok|]. unfold finish_task. cbn.
  destruct (loop_tasks (h_sf h) !! t') as [[k' [p|r']]|] eqn:E; [|by eauto..]. cbn.
  destruct (decide (t = t')) as [->|Hne].
  - rewrite lookup_insert_eq. naive_solver.
  - rewrite lookup_insert_ne by done. eauto.
Qed.

Lemma advance_has_task t' p h :
  task_running t' (h_sf h) = true → has_task t k h →
  has_task t k (with_sf (advance_task t' p (h_sf h)) h).
Proof.
  intros Hr [Hok [st Ht]]. split; [by apply advance_task_ok|]. cbn.
  rewrite lookup_alter. case_decide; [|by eauto]. subst. rewrite Ht. cbn. eauto.
Qed.

Lemma task_begin_task t' h : has_task t k h → has_task t k (task_begin t' h).
Proof.
  intros Hh. unfold task_begin.
  destruct (loop_tasks (h_sf h) !! t') as [[k' [[]|]]|] eqn:E; try done;
    (assert (task_running t' (h_sf h) = true) as Hrun by (apply task_running_spec; eauto)).
  - unfold _resolve_upstream_begin. runM. destruct (dns_pack request); cbn.
    + by apply advance_has_task.
    + by apply (finish_has_task t' (raise OtherException) h).
  - unfold _refresh_once_begin.
    assert (has_task t k (mark_inflight refresh_key h)) as Hm by (by apply (has_task_sf h)).
    destruct (dns_question _ _ _) as [new_req|]; runM; [destruct (dns_pack new_req)|]; cbn.
    + by apply (advance_has_task t' _ (mark_inflight refresh_key h)).
    + by apply (finish_has_task t'
        (try_finally (raise OtherException) (unmark_inflight refresh_key)) (mark_inflight refresh_key h)).
    + by apply (finish_has_task t'
        (try_finally (lift_res (Ret None)) (unmark_inflight refresh_key)) (mark_inflight refresh_key h)).
Qed.

Lemma task_cancel_task t' h : has_task t k h → has_task t k (task_cancel t' h).
Proof.
  intros Hh. unfold task_cancel.
  destruct (loop_tasks (h_sf h) !! t') as [[k' [[]|]]|]; try done; by apply finish_has_task.
Qed.

Lemma task_resume_task cc t' up now now_evict h :
  has_task t k h → has_task t k (task_resume cc t' up now now_evict h).
Proof.
  intros Hh. unfold task_resume.
  destruct (loop_tasks (h_sf h) !! t') as [[k' [[]|]]|]; try done; apply finish_has_task; try done.
  - apply query_and_store_sf.
  - unfold try_finally.
    rewrite <- (query_and_store_sf cc up now now_evict wire request_id key h).
    by destruct (query_and_store _ _ _ _ _ _ _ h).
Qed.

Lemma cleanup_task k' t' h :
  (k', t') ∈ cleanups (h_sf h) → has_task t k h →
  has_task t k (with_sf (_cleanup k' t' (h_sf h)) h).
Proof. intros Hin [Hok Ht]. split; [by apply cleanup_ok|done]. Qed.
End persistence.

(** ** The invariant of the world *)

Section world.
Context `{DnslibLaws}.
Context (tr : bool) (cc : CacheConfig) (cfg : HandlerConfig) (Hcc : cache_config_ok cc).
Implicit Types (h : HSt) (w : World).

Lemma outcome_ok_log log log' o : outcome_ok tr log o → outcome_ok tr (log ++ log') o.
Proof.
  unfold outcome_ok, answers_request. destruct o as [request [[r|]|e]]; try done. cbn.
  intros [Hid Hans]. split; [done|]. destruct (questions request); [done|].
  destruct Hans; auto using derived_log.
Qed.

(** The calls a step leaves alone still wait for their tasks. *)
Lemma calls_ok_step h h' calls :
  sf_ok (h_sf h) → (∀ t k, has_task t k h → has_task t k h') →
  Forall (call_ok h) calls → Forall (call_ok h') calls.
Proof.
  intros Hok Hkeep Hc. eapply Forall_impl; [exact Hc|]. intros c [Hq Ht]. split; [done|].
  by destruct (Hkeep _ (KResolve (call_key c)) (conj Hok Ht)) as [_ ?].
Qed.

(** A step that only changes the handler's state. *)
Lemma world_step_h h' w :
  handler_ok tr cc cfg (w_log w) h' → (∀ t k, has_task t k (w_h w) → has_task t k h') →
  world_ok tr cc cfg w → world_ok tr cc cfg (with_h h' w).
Proof.
  intros Hh' Hkeep [Hh Hc Ho]. split; [done| |done].
  eapply calls_ok_step; [apply Hh|done|done].
Qed.

Lemma request_step request now_fresh now_stale w :
  world_ok tr cc cfg w → world_ok tr cc cfg (run_event cc cfg (EvRequest request now_fresh now_stale) w).
Proof.
  intros [Hh Hc Ho]. cbn [run_event].
  pose proof (handle_begin_inv tr cc cfg _ request now_fresh now_stale _ Hh) as Hh'.
  pose proof (handle_begin_ok tr cc cfg _ request now_fresh now_stale _ Hh) as Hout.
  pose proof (λ t k, handle_begin_task t k cfg request now_fresh now_stale (w_h w)) as Hkeep.
  destruct (handle_begin _ _ _ _ _) as [h' [[o|key qname qtype_name t]|e]]; unfold begin_ok in Hout;
    cbn in *; [| |done]; (apply (calls_ok_step _ h') in Hc; [|apply Hh|done]).
  - split; cbn; [done|done|]. apply Forall_app; split; [done|]. apply Forall_singleton.
    destruct Hout as (r & Hr & Ha). unfold outcome_ok, outcome_of. cbn. by rewrite Hr.
  - split; cbn; [done| |done]. apply Forall_app; split; [done|]. by apply Forall_singleton.
Qed.

Lemma waiting_call_ok i now w c r :
  world_ok tr cc cfg w → w_calls w !! i = Some c → task_result_of (call_task c) (w_h w) = Some r →
  resume_ok tr (w_log w) (call_request c) r
    (handle_resume cfg (call_request c) (call_key c) (call_qname c) (call_qtype_name c) r now (w_h w)).
Proof.
  intros [Hh Hc Ho] Ei Er.
  destruct (proj1 (Forall_lookup _ _) Hc i c Ei) as [(q & qs & Hq & Hkey) [st Ht]].
  rewrite Hkey in *. apply (handle_resume_ok tr cc cfg _ _ q qs); [done..|].
  intros o ->. unfold task_result_of in Er. rewrite Ht in Er. destruct st; [done|]. simplify_eq.
  by apply (ho_results _ _ _ _ _ Hh _ _ _ Ht).
Qed.

Lemma call_resume_step i now w :
  world_ok tr cc cfg w → world_ok tr cc cfg (run_event cc cfg (EvCallResume i now) w).
Proof.
  intros Hw. cbn [run_event].
  destruct (w_calls w !! i) as [c|] eqn:Ei; [|done].
  destruct (task_result_of (call_task c) (w_h w)) as [r|] eqn:Er; [|done].
  pose proof (waiting_call_ok i now w c r Hw Ei Er) as Hout. destruct Hw as [Hh Hc Ho].
  set (hr := handle_resume _ _ _ _ _ _ _ _) in *.
  pose proof (handle_resume_inv tr cc cfg _ (call_request c) (call_key c) (call_qname c)
    (call_qtype_name c) r now _ Hh) as Hh'. fold hr in Hh'.
  split; cbn; [done| |].
  - apply (calls_ok_step (w_h w)); [apply Hh| |].
    + intros t k. apply handle_resume_task.
    + by apply Forall_delete.
  - apply Forall_app; split; [done|]. apply Forall_singleton. unfold outcome_ok, outcome_of.
    unfold resume_ok in Hout. destruct hr as [h' [o|e]]; cbn in *; [|by destruct Hout].
    by destruct Hout as (r' & -> & ?).
Qed.

(** A call whose task is done, and was not cancelled, is answered. *)
Lemma call_resume_answers i now w c r :
  world_ok tr cc cfg w → w_calls w !! i = Some c → task_result_of (call_task c) (w_h w) = Some r →
  (∀ e, r = Raise e → is_Exception e = true) →
  ∃ a, w_out (run_event cc cfg (EvCallResume i now) w) = w_out w ++ [(call_request c, Ret (Some a))]
       ∧ answers_request tr (w_log w) (call_request c) a.
Proof.
  intros Hw Ei Er Hexn. pose proof (waiting_call_ok i now w c r Hw Ei Er) as Hout.
  cbn [run_event]. rewrite Ei, Er. set (hr := handle_resume _ _ _ _ _ _ _ _) in *. cbn [w_out].
  unfold resume_ok, outcome_of in *. destruct hr as [h' [o|e]]; cbn [fst snd] in *.
  - destruct Hout as (a & -> & Ha). by exists a.
  - destruct Hout as [-> He]. specialize (Hexn e eq_refl). congruence.
Qed.

Lemma run_event_ok ev w : world_ok tr cc cfg w → world_ok tr cc cfg (run_event cc cfg ev w).
Proof.
  intros Hw. pose proof (wo_h _ _ _ _ Hw) as Hh. destruct ev as [request nf ns|t|t up now ne|t|k t|i now|now|now|j|key reason| |k].
  - by apply request_step.
  - apply world_step_h; [by apply task_begin_inv|intros t' k; apply task_begin_task|done].
  - destruct Hw as [_ Hc Ho]. split; cbn.
    + apply task_resume_inv; [done| |by apply inv_log]. intros kb. set_solver.
    + apply (calls_ok_step (w_h w)); [apply Hh| |done]. intros t' k. apply task_resume_task.
    + eapply Forall_impl; [exact Ho|]. intros o. apply outcome_ok_log.
  - apply world_step_h; [by apply task_cancel_inv|intros t' k; apply task_cancel_task|done].
  - cbn. case_decide; [|done].
    apply world_step_h; [by apply cleanup_inv|intros t' k'; by apply cleanup_task|done].
  - by apply call_resume_step.
  - apply world_step_h; [by apply scan_tick_inv|intros t' k; apply scan_tick_task|done].
  - cbn. pose proof (worker_begin_inv tr cc cfg _ Hcc now _ Hh) as Hh'.
    pose proof (λ t k, worker_begin_task t k cfg now (w_h w)) as Hkeep.
    destruct (_refresh_worker_begin cfg now (w_h w)) as [h' [[[key [t|]]|]|e]]; cbn in *;
      try by apply world_step_h.
    destruct (world_step_h h' w Hh' Hkeep Hw). by split.
  - cbn. destruct (w_jobs w !! j) as [[key t]|]; [|done]. destruct (task_result_of t (w_h w)) as [r|]; [|done].
    destruct (world_step_h (_refresh_worker_resume key r (w_h w)).1 w) as [? ? ?]; [| |done|by split].
    + by apply worker_resume_inv.
    + intros t' k. apply worker_resume_task.
  - apply world_step_h; [by apply enqueue_refresh_inv|intros t' k; apply enqueue_refresh_task|done].
  - apply world_step_h; [|intros t' k; apply in_cache_task|done].
    apply in_cache_inv; [by apply clear_inv|done].
  - cbn [run_event]. case_bool_decide as Hk; [|done].
    apply world_step_h; [|intros t' k'; apply minc_task|done].
    apply (minc_inv tr cc cfg); [|done]. intros ->. revert Hk. refine (bool_decide_unpack _ _). vm_compute. exact I.
Qed.

Lemma run_events_ok evs w : world_ok tr cc cfg w → world_ok tr cc cfg (run_events cc cfg evs w).
Proof.
  revert w. induction evs as [|ev evs IH]; intros w Hw; [done|]. cbn. apply IH. by apply run_event_ok.
Qed.

Lemma reachable_ok evs m :
  count_opt m "cache_entries" = 0%Z → world_ok tr cc cfg (run_events cc cfg evs (world_new m)).
Proof.
  intros Hm. apply run_events_ok. split; [by apply handler_new_ok|constructor|constructor].
Qed.
End world.
