(* ===== verification/SystemLemmas.v ===== *)
(** * Work in flight, completion and counters of the running system

    The lemmas behind the system's bound on concurrent upstream work, its
    progress and the accounting of requests in the counters. *)
From S2P Require Import Prelude PyString OrderedDict Metrics Dns Cache CacheEvict CacheProps SingleFlight Handler HandlerProps System SystemProps SystemOutcomes.
From stdpp Require Import base list strings gmap sets pretty.

(** ** Concurrent upstream work per key *)

Section inflight.
Context `{Dnslib}.

(** The tasks still running for a cache key: its resolution and its refresh. *)
Definition runs_for (key : CacheKey) (tk : task sf_key coro (res (option nat))) : bool :=
  match t_state tk with
  | Running _ => bool_decide (sf_cache_key (t_key tk) = key)
  | Done _ => false
  end.
Definition running_for (key : CacheKey) (h : HSt) : gset nat :=
  dom (filter (λ tk, runs_for key tk.2 = true) (loop_tasks (h_sf h))).

(** The task SingleFlight knows for a key, as a set. *)
Definition task_of (k : sf_key) (h : HSt) : gset nat :=
  match _tasks (h_sf h) !! k with Some t => {[t]} | None => ∅ end.

Lemma task_of_size k h : size (task_of k h) ≤ 1.
Proof. unfold task_of. destruct (_ !! k); [by rewrite size_singleton|by rewrite size_empty; lia]. Qed.

Lemma running_for_size key h : sf_ok (h_sf h) → size (running_for key h) ≤ 2.
Proof.
  intros Hok.
  assert (running_for key h ⊆ task_of (KResolve key) h ∪ task_of (KRefresh key) h) as Hsub.
  { intros t. unfold running_for. rewrite elem_of_dom. intros [[k st] Ht].
    apply map_lookup_filter_Some in Ht as [Ht Hr]. unfold runs_for in Hr. cbn in Hr.
    destruct st as [p|]; [|done]. zbool.
    apply (sf_running _ Hok) in Ht. apply elem_of_union.
    destruct k as [k|k]; cbn in Hr; subst k; [left|right]; unfold task_of; rewrite Ht; set_solver. }
  apply subseteq_size in Hsub. pose proof (size_union_alt (task_of (KResolve key) h) (task_of (KRefresh key) h)).
  pose proof (task_of_size (KResolve key) h).
  assert (size (task_of (KRefresh key) h ∖ task_of (KResolve key) h) ≤ size (task_of (KRefresh key) h))
    by (apply subseteq_size; set_solver).
  pose proof (task_of_size (KRefresh key) h). lia.
Qed.
End inflight.

(** ** A completed resolution *)

Section completion.
Context `{Dnslib}.
Context (cc : CacheConfig) (Hcc : cache_config_ok cc).
Implicit Types (h : HSt).

(** An upstream that fails only with an [Exception]. *)
Definition upstream_ok (up : upstream) : Prop :=
  ∀ wire rid e, up wire rid = Raise e → is_Exception e = true.

Lemma upstream_result_ret up wire rid : upstream_ok up → ∃ b, upstream_result up wire rid = Ret b.
Proof.
  intros Hup. unfold upstream_result. destruct (up wire (Some rid)) as [b|e] eqn:E; [by eauto|].
  destruct (is_TypeError e).
  - destruct (up wire None) as [b|e'] eqn:E'; [by eauto|]. rewrite (Hup _ _ _ E'). eauto.
  - rewrite (Hup _ _ _ E). eauto.
Qed.

Lemma compute_ttl_raises cfg r e : _compute_ttl_seconds cfg r = Raise e → is_Exception e = true.
Proof.
  unfold _compute_ttl_seconds, min_ttl. intros Hr. repeat case_match; by simplify_eq.
Qed.

Lemma put_raises now now_evict key r s s' e :
  od_wf (_store s) → put cc now now_evict key r s = (s', Raise e) → is_Exception e = true.
Proof.
  intros Hwf. destruct (_compute_ttl_seconds cc r) as [ttl|e'] eqn:E1.
  - destruct (dns_pack r) as [w|] eqn:E2.
    + destruct s as [m d]. by rewrite (put_run _ _ _ _ _ ttl w) by done.
    + unfold put. runM. rewrite E1, E2. by intros [= _ <-].
  - unfold put. runM. rewrite E1. intros [= _ <-]. by eapply compute_ttl_raises.
Qed.

Lemma query_and_store_raises up now now_evict wire rid key h e :
  od_wf (h_store h) → upstream_ok up →
  (query_and_store cc up now now_evict wire rid key h).2 = Raise e → is_Exception e = true.
Proof.
  intros Hwf Hup. rewrite query_and_store_run.
  destruct (upstream_result_ret up wire rid Hup) as [[b|] ->]; [|done].
  destruct (dns_parse b) as [r|]; [|done]. unfold in_cache, zoom. cbn.
  destruct (put _ _ _ _ _ _) as [s [[]|e']] eqn:E; cbn; [done|]. intros [= <-].
  by eapply put_raises; [|exact E].
Qed.

Lemma finish_result t m h k p :
  h_sf (m h).1 = h_sf h → loop_tasks (h_sf h) !! t = Some (mkTask k (Running p)) →
  task_result_of t (finish t m h) = Some (m h).2.
Proof.
  intros Hsf Ht. unfold finish, task_result_of. destruct (m h) as [h' r]. cbn in *. rewrite Hsf.
  unfold finish_task. rewrite Ht. cbn. by rewrite lookup_insert_eq.
Qed.

(** Running a resolution task and answering its query completes it. *)
Lemma resolve_completes up now now_evict t key p h :
  od_wf (h_store h) → upstream_ok up →
  loop_tasks (h_sf h) !! t = Some (mkTask (KResolve key) (Running p)) → coro_key p = KResolve key →
  ∃ r, task_result_of t (task_resume cc t up now now_evict (task_begin t h)) = Some r
       ∧ ∀ e, r = Raise e → is_Exception e = true.
Proof.
  intros Hwf Hup Ht Hk.
  assert (∀ wire rid key' qn qt h', h_store h' = h_store h →
    loop_tasks (h_sf h') !! t = Some (mkTask (KResolve key) (Running (CResolveQuery wire rid key' qn qt))) →
    ∃ r, task_result_of t (task_resume cc t up now now_evict h') = Some r
       ∧ ∀ e, r = Raise e → is_Exception e = true) as Hresume.
  { intros wire rid key' qn qt h' Hst Ht'. unfold task_resume. rewrite Ht'. eexists.
    split; [eapply finish_result; [apply query_and_store_sf|done]|].
    intros e. apply query_and_store_raises; [by rewrite Hst|done]. }
  unfold task_begin. rewrite Ht. destruct p; try done; [|by eapply Hresume].
  unfold _resolve_upstream_begin. runM. destruct (dns_pack request) as [wire|]; cbn.
  - eapply Hresume; cbn; [done|]. by rewrite lookup_alter_eq, Ht.
  - exists (Raise OtherException). split; [|by intros e [= <-]].
    unfold task_resume, task_result_of, finish_task. rewrite Ht. cbn.
    by rewrite lookup_insert_eq; cbn; rewrite lookup_insert_eq.
Qed.
End completion.

(** ** Counters *)

Section counters.
Context `{Dnslib}.
Implicit Types (h : HSt) (w : World).

(** [queries_total], [cache_hit_fresh_total], [cache_hit_stale_total] and
    [cache_miss_total]. *)
Definition tally h : Z * Z * Z * Z :=
  (count_opt (h_metrics h) "queries_total", count_opt (h_metrics h) "cache_hit_fresh_total",
   count_opt (h_metrics h) "cache_hit_stale_total", count_opt (h_metrics h) "cache_miss_total").

Definition tally_keys : list string :=
  ["queries_total"; "cache_hit_fresh_total"; "cache_hit_stale_total"; "cache_miss_total"].

(** The registry's presence and the four counters, as an invariant. *)
Definition tally_is (b : bool) (x : Z * Z * Z * Z) h : Prop :=
  tally h = x ∧ bool_decide (is_Some (h_metrics h)) = b.

Context (b : bool) (x : Z * Z * Z * Z) (cfg : HandlerConfig) (cc : CacheConfig).
#[local] Abbreviation inv := (tally_is b x).

(** The same counters in the view of the cache. *)
Definition same_tally (s s' : option Metrics) : Prop :=
  (∀ k, k ∈ tally_keys → count_opt s' k = count_opt s k) ∧
  bool_decide (is_Some s') = bool_decide (is_Some s).

Lemma same_tally_inv h h' : same_tally (h_metrics h) (h_metrics h') → inv h → inv h'.
Proof.
  intros [Hc Hs] [Ht Hb]. split; [|by rewrite Hs]. rewrite <- Ht. unfold tally.
  rewrite !Hc; [done|..]; unfold tally_keys; set_solver.
Qed.

Lemma same_tally_inc k m : k ∉ tally_keys → same_tally m (inc_opt k m).
Proof.
  intros Hk. split; [|by destruct m]. intros k' Hk'. rewrite count_opt_inc, decide_False; [lia|].
  intros ->. done.
Qed.
Lemma same_tally_set k v m : k ∉ tally_keys → same_tally m (set_opt k v m).
Proof.
  intros Hk. split; [|by destruct m]. intros k' Hk'. rewrite count_opt_set, decide_False; [done|].
  intros ->. done.
Qed.
Lemma same_tally_refl m : same_tally m m.
Proof. done. Qed.
Lemma same_tally_trans m1 m2 m3 : same_tally m1 m2 → same_tally m2 m3 → same_tally m1 m3.
Proof. intros [Hc Hs] [Hc' Hs']. split; [|congruence]. intros k Hk. by rewrite Hc', Hc. Qed.

(** Computations on the cache that leave the four counters alone. *)
Definition cache_tally (m0 : option Metrics) (s : CacheSt) : Prop := same_tally m0 (c_metrics s).

Lemma cache_minc k m0 : bool_decide (k ∈ tally_keys) = false → preserves (cache_tally m0) (minc k).
Proof. intros Hk s Hs. zbool. eapply same_tally_trans; [exact Hs|]. by apply same_tally_inc. Qed.
Lemma cache_mset k v m0 : bool_decide (k ∈ tally_keys) = false → preserves (cache_tally m0) (mset k v).
Proof. intros Hk s Hs. zbool. eapply same_tally_trans; [exact Hs|]. by apply same_tally_set. Qed.
Lemma cache_store f m0 : (∀ s, c_metrics (f s) = c_metrics s) → preserves (cache_tally m0) (modify f).
Proof. intros Hf s Hs. unfold cache_tally. cbn. by rewrite Hf. Qed.
#[local] Hint Extern 1 (preserves _ (minc _)) => (by apply cache_minc) : rdns.
#[local] Hint Extern 1 (preserves _ (mset _ _)) => (by apply cache_mset) : rdns.
#[local] Hint Extern 1 (preserves _ (modify _)) => (by apply cache_store) : rdns.

Lemma get_fresh_tally key now m0 : preserves (cache_tally m0) (get_fresh key now).
Proof. unfold get_fresh, serve, _count_negative, _touch. solve_preserves. Qed.
Lemma get_stale_tally key now m0 : preserves (cache_tally m0) (get_stale key now).
Proof. unfold get_stale, serve, _count_negative, _touch. solve_preserves. Qed.
Lemma clear_tally m0 : preserves (cache_tally m0) clear.
Proof. unfold clear. solve_preserves. Qed.
Lemma evict_tally now m0 : preserves (cache_tally m0) (_evict_if_needed cc now).
Proof.
  assert (∀ max d, preserves (cache_tally m0) (evict_expired max now d)) as He.
  { intros max. induction d as [|[k e] d IH]; cbn [evict_expired]; solve_preserves. }
  assert (∀ max d, preserves (cache_tally m0) (evict_lru_from max d)) as Hl.
  { intros max. induction d as [|[k e] d IH]; cbn [evict_lru_from]; solve_preserves. }
  unfold _evict_if_needed, evict_lru. solve_preserves.
Qed.
Lemma put_tally now now_evict key r m0 : preserves (cache_tally m0) (put cc now now_evict key r).
Proof.
  pose proof evict_tally. unfold put, _touch, _update_cache_entries. solve_preserves.
Qed.

(** ** The handler's operations *)

Lemma in_cache_tally {A} (m : M CacheSt A) :
  (∀ m0, preserves (cache_tally m0) m) → preserves inv (in_cache m).
Proof.
  intros Hm h Hh. specialize (Hm (h_metrics h) (mkCacheSt (h_metrics h) (h_store h)) (same_tally_refl _)).
  apply (same_tally_inv h); [|done]. unfold in_cache, zoom. by destruct (m _) as [[] ?].
Qed.
Lemma minc_tally k : bool_decide (k ∈ tally_keys) = false → preserves inv (minc k).
Proof. intros Hk h Hh. zbool. apply (same_tally_inv h); [|done]. by apply same_tally_inc. Qed.
Lemma modify_tally f : (∀ h, h_metrics (f h) = h_metrics h) → preserves inv (modify f).
Proof. intros Hf h Hh. apply (same_tally_inv h); [|done]. cbn. by rewrite Hf. Qed.
Lemma alloc_tally r : preserves inv (alloc r).
Proof. intros h Hh. by apply (same_tally_inv h). Qed.
Lemma with_txid_tally request o : preserves inv (_with_txid request o).
Proof. intros h Hh. by apply (same_tally_inv h). Qed.
Lemma in_sf_get_tally k c : preserves inv (in_sf (get_or_create k c)).
Proof.
  intros h Hh. destruct (get_or_create_cases k c (with_metrics (h_metrics h) (h_sf h)))
    as [(t & _ & _ & E)|[_ E]]; unfold in_sf, zoom; rewrite E; apply (same_tally_inv h); try done.
  apply same_tally_inc. by apply (bool_decide_eq_false _).
Qed.
#[local] Hint Extern 2 (preserves _ (minc _)) => (by apply minc_tally) : rdns.
#[local] Hint Extern 2 (preserves _ (modify _)) => (by apply modify_tally) : rdns.
#[local] Hint Resolve in_cache_tally get_fresh_tally get_stale_tally clear_tally put_tally
  alloc_tally with_txid_tally in_sf_get_tally : rdns.

Lemma enqueue_tally key reason : preserves inv (enqueue_refresh cfg key reason).
Proof. unfold enqueue_refresh. solve_preserves. Qed.
#[local] Hint Resolve enqueue_tally : rdns.

Lemma scan_tick_tally now : preserves inv (_refresh_scan_tick cfg now).
Proof.
  assert (∀ es n, preserves inv (scan_entries cfg now n es)) as Hs.
  { induction es as [|[key e] es IH]; intros n; cbn [scan_entries]; solve_preserves. }
  unfold _refresh_scan_tick. solve_preserves. apply in_cache_tally. intros m0. apply preserves_gets.
Qed.

Lemma worker_finally_tally key attempted cancelled result :
  preserves inv (worker_finally key attempted cancelled result).
Proof.
  unfold worker_finally. solve_preserves.
Qed.
#[local] Hint Resolve worker_finally_tally : rdns.
Lemma worker_begin_tally now : preserves inv (_refresh_worker_begin cfg now).
Proof.
  unfold _refresh_worker_begin, _refresh_via_worker_begin. solve_preserves.
  apply in_cache_tally. intros m0. apply preserves_gets.
Qed.
Lemma worker_resume_tally key r : preserves inv (_refresh_worker_resume key r).
Proof. unfold _refresh_worker_resume. destruct r as [[]|[]]; cbn [is_Exception]; solve_preserves. Qed.

Lemma finish_tally t m h : preserves inv m → inv h → inv (finish t m h).
Proof.
  intros Hm Hh. specialize (Hm h Hh). unfold finish. destruct (m h) as [h' r].
  by apply (same_tally_inv h').
Qed.
Lemma query_and_store_tally up now now_evict wire rid key :
  preserves inv (query_and_store cc up now now_evict wire rid key).
Proof. unfold query_and_store, _query_upstream. solve_preserves. Qed.
#[local] Hint Resolve query_and_store_tally : rdns.

Lemma task_resume_tally t up now now_evict h : inv h → inv (task_resume cc t up now now_evict h).
Proof.
  intros Hh. unfold task_resume.
  destruct (loop_tasks (h_sf h) !! t) as [[k [[]|]]|]; try done; (apply finish_tally; [|done]);
    solve_preserves.
Qed.
Lemma task_cancel_tally t h : inv h → inv (task_cancel t h).
Proof.
  intros Hh. unfold task_cancel.
  destruct (loop_tasks (h_sf h) !! t) as [[k [[]|]]|]; try done; by apply (same_tally_inv h).
Qed.
Lemma task_begin_tally t h : inv h → inv (task_begin t h).
Proof.
  intros Hh. unfold task_begin, _resolve_upstream_begin, _refresh_once_begin.
  destruct (loop_tasks (h_sf h) !! t) as [[k [[]|]]|]; try done; runM.
  - destruct (dns_pack request); by apply (same_tally_inv h).
  - destruct (dns_question _ _ _) as [r|]; [destruct (dns_pack r)|]; by apply (same_tally_inv h).
Qed.

Lemma reply_cached_tally request v : preserves inv (reply_cached request v).
Proof. unfold reply_cached. solve_preserves. Qed.
Lemma error_reply_tally request c : preserves inv (error_reply request c).
Proof. unfold error_reply. solve_preserves. Qed.
#[local] Hint Resolve reply_cached_tally error_reply_tally : rdns.

(** What serving stale does after counting. *)
Lemma stale_rest_tally request v key qname qtype_name :
  preserves inv (enqueue_refresh cfg key "stale_served";;
                 _schedule_refresh key qname qtype_name key;;
                 reply_cached request v).
Proof. unfold _schedule_refresh. solve_preserves. Qed.
End counters.

Section handle_counters.
Context `{Dnslib}.
Context (b : bool) (cfg : HandlerConfig).
Implicit Types (h : HSt) (q f s m : Z).
#[local] Abbreviation one := (Z.b2z b).

Lemma count_one q f s m h k :
  tally_is b (q, f, s, m) h →
  tally_is b (q + (if decide (k = "queries_total") then one else 0),
              f + (if decide (k = "cache_hit_fresh_total") then one else 0),
              s + (if decide (k = "cache_hit_stale_total") then one else 0),
              m + (if decide (k = "cache_miss_total") then one else 0))%Z (minc k h).1.
Proof.
  intros [[= <- <- <- <-] Hb]. split; [|cbn; rewrite <- Hb; by destruct (h_metrics h)].
  assert (onm (h_metrics h) 1 = one) as <- by (by rewrite <- Hb; destruct (h_metrics h)).
  unfold tally. rewrite minc_run. cbn [fst h_metrics with_metrics HSt_metrics metrics_of].
  by rewrite !count_opt_inc.
Qed.

(** ** How a request fares *)

(** The cache holds an answer that [ok] accepts. *)
Definition answerable (key : CacheKey) (store : list (CacheKey * CacheEntry)) (ok : CacheEntry → Prop)
    `{∀ e, Decision (ok e)} : bool :=
  match od_get key store with
  | Some e => bool_decide (ok e ∧ response_wire e ≠ [])
  | None => false
  end.
Definition fresh_at (key : CacheKey) (now : Z) store : bool :=
  answerable key store (λ e, now ≤ expires_at e)%Z.
Definition stale_at (key : CacheKey) (now : Z) store : bool :=
  answerable key store (λ e, expires_at e < now ≤ stale_until e)%Z.

Inductive verdict := VFresh | VStale | VMiss | VLateStale.
#[global] Instance verdict_eq_dec : EqDecision verdict.
Proof. solve_decision. Defined.

(** A request that arrives finds a fresh answer, else a stale one, else none;
    one without a question is not looked up. *)
Definition arrival (request : DNSRecord) (now_fresh now_stale : Z) (h : HSt) : list verdict :=
  match questions request with
  | [] => []
  | q :: _ =>
      [if fresh_at (key_of q) now_fresh (h_store h) then VFresh
       else if stale_at (key_of q) now_stale (h_store h) then VStale else VMiss]
  end.

(** A request whose resolution gave nothing may find a stale answer after all. *)
Definition late (key : CacheKey) (r : res (option nat)) (now : Z) (h : HSt) : list verdict :=
  match r with
  | Ret (Some _) => []
  | Ret None => if stale_at key now (h_store h) then [VLateStale] else []
  | Raise e => if is_Exception e && stale_at key now (h_store h) then [VLateStale] else []
  end.

Definition count_of (v : verdict) (l : list verdict) : Z := Z.of_nat (length (filter (λ x, x = v) l)).

Lemma count_of_app v l1 l2 : count_of v (l1 ++ l2) = (count_of v l1 + count_of v l2)%Z.
Proof. unfold count_of. rewrite filter_app, length_app. lia. Qed.

Lemma count_of_single v x : count_of v [x] = (if decide (x = v) then 1 else 0)%Z.
Proof. unfold count_of. rewrite filter_cons. by case_decide. Qed.

(** The counters [q, f, s, m] with [l] added. *)
Definition add_verdicts (l : list verdict) q f s m : Z * Z * Z * Z :=
  (q + one * (count_of VFresh l + count_of VStale l + count_of VMiss l),
   f + one * count_of VFresh l, s + one * (count_of VStale l + count_of VLateStale l),
   m + one * count_of VMiss l)%Z.

Lemma truthy_answerable (key : CacheKey) store (ok : CacheEntry → Prop) `{∀ e, Decision (ok e)} (t : CacheEntry → bool) :
  (∀ e, t e = true ↔ ok e) →
  truthy (match od_get key store with Some e => if t e then Some (response_wire e) else None | None => None end)
  = answerable key store ok.
Proof.
  intros Ht. unfold answerable. destruct (od_get key store) as [e|]; [|done]. symmetry.
  destruct (t e) eqn:E.
  - destruct (response_wire e) as [|x w]; cbn; [by rewrite bool_decide_eq_false_2 by naive_solver|].
    rewrite bool_decide_eq_true_2; [done|]. split; [by apply Ht|done].
  - rewrite bool_decide_eq_false_2; [done|]. intros [?%Ht _]. congruence.
Qed.

Lemma od_get_used (key : CacheKey) now e d : od_get key d = Some e → od_get key (used key now e d) = Some (hit now e).
Proof. intros He. unfold used. rewrite od_get_move. by rewrite od_get_set, decide_True. Qed.

Lemma in_cache_fresh_val key now h :
  ∃ h1 v, in_cache (get_fresh key now) h = (h1, Ret v) ∧ truthy v = fresh_at key now (h_store h)
  ∧ (truthy v = false → ∀ now', stale_at key now' (h_store h1) = stale_at key now' (h_store h)).
Proof.
  unfold in_cache, zoom. rewrite get_fresh_run. unfold fresh_at.
  rewrite <- (truthy_answerable key (h_store h) _ (λ e, now <=? expires_at e)%Z) by (intros e; apply Z.leb_le).
  destruct (od_get key (h_store h)) as [e|] eqn:E; [|by eexists _, _].
  destruct (now <=? expires_at e)%Z; [|by eexists _, _].
  eexists _, _. split; [done|]. split; [done|]. cbn [h_store _store]. intros Hw now'.
  unfold stale_at, answerable. rewrite od_get_used, E by done.
  destruct (response_wire e) eqn:Er; [|done]. cbn. rewrite Er. by rewrite !bool_decide_eq_false_2 by naive_solver.
Qed.

Lemma in_cache_stale_val key now h :
  ∃ h1 v, in_cache (get_stale key now) h = (h1, Ret v) ∧ truthy v = stale_at key now (h_store h).
Proof.
  unfold in_cache, zoom. rewrite get_stale_run. unfold stale_at.
  rewrite <- (truthy_answerable key (h_store h) _ (λ e, (expires_at e <? now) && (now <=? stale_until e))%Z)
    by (intros e; by rewrite andb_true_iff, Z.ltb_lt, Z.leb_le).
  destruct (od_get key (h_store h)) as [e|]; [|by eexists _, _]. destruct (_ && _); by eexists _, _.
Qed.

(** A request with a question counts one query and how it fared. *)
Lemma handle_begin_tally request now_fresh now_stale h q f s m :
  tally_is b (q, f, s, m) h →
  tally_is b (add_verdicts (arrival request now_fresh now_stale h) q f s m)
    (handle_begin cfg request now_fresh now_stale h).1.
Proof.
  intros Hh. unfold handle_begin, arrival. destruct (questions request) as [|q0 qs] eqn:Hq.
  { unfold add_verdicts. cbn. rewrite !Z.mul_0_r, !Z.add_0_r. by apply (same_tally_inv b _ h). }
  unfold mbind, M_bind, _qtype_mapping. fold (key_of q0).
  apply (count_one _ _ _ _ _ "queries_total") in Hh. cbn [decide] in Hh. rewrite minc_run in *.
  cbn [fst] in Hh. change (h_store h) with (h_store (with_metrics (inc_opt "queries_total" (metrics_of h)) h)).
  set (h1 := with_metrics _ h) in *.
  pose proof (in_cache_tally b _ _ (get_fresh_tally (key_of q0) now_fresh) h1 Hh) as Hh2.
  destruct (in_cache_fresh_val (key_of q0) now_fresh h1) as (h2 & v & E & Hv & Hst). rewrite E in *. cbn [fst] in Hh2.
  rewrite <- Hv. destruct (truthy v).
  { apply (count_one _ _ _ _ _ "cache_hit_fresh_total") in Hh2. rewrite minc_run in *. cbn [fst] in Hh2.
    apply (reply_cached_tally _ _ request v) in Hh2. destruct (reply_cached _ _ _) as [h3 [o|e]];
      cbn in *; unfold add_verdicts; cbn; by rewrite ?Z.mul_0_r, ?Z.mul_1_r, ?Z.add_0_r in *. }
  rewrite <- Hst by done.
  pose proof (in_cache_tally b _ _ (get_stale_tally (key_of q0) now_stale) h2 Hh2) as Hh3.
  destruct (in_cache_stale_val (key_of q0) now_stale h2) as (h3 & v2 & E2 & Hv2). rewrite E2 in *. cbn [fst] in Hh3.
  rewrite <- Hv2. destruct (truthy v2).
  { unfold serve_stale. apply (count_one _ _ _ _ _ "cache_hit_stale_total") in Hh3.
    unfold mbind at 1, M_bind at 1. rewrite minc_run in *. cbn [fst] in Hh3.
    match goal with |- context [(?m1 ≫= ?g) ?s] =>
      pose proof (stale_rest_tally b _ cfg request v2 (key_of q0) (normalize (q_qname q0))
        (match QTYPE_get (q_qtype q0) with Some n => n | None => pretty (q_qtype q0) end) s Hh3) as Hh4;
      destruct ((m1 ≫= g) s) as [h4 [o|e]]
    end; cbn in *; unfold add_verdicts; cbn; by rewrite ?Z.mul_0_r, ?Z.mul_1_r, ?Z.add_0_r in *. }
  apply (count_one _ _ _ _ _ "cache_miss_total") in Hh3. rewrite minc_run in *. cbn [fst] in Hh3.
  match goal with |- context [in_sf (get_or_create ?k ?c) ?s] =>
    pose proof (in_sf_get_tally b _ k c s Hh3) as Hh4; destruct (in_sf (get_or_create k c) s) as [h4 [o|e]]
  end; cbn in *; unfold add_verdicts; cbn; by rewrite ?Z.mul_0_r, ?Z.mul_1_r, ?Z.add_0_r in *.
Qed.

(** The rest of a call counts a late stale hit when it makes one. *)
Lemma handle_resume_tally request key qname qtype_name r now h q f s m :
  tally_is b (q, f, s, m) h →
  tally_is b (add_verdicts (late key r now h) q f s m) (handle_resume cfg request key qname qtype_name r now h).1.
Proof.
  intros Hh. assert (add_verdicts [] q f s m = (q, f, s, m)) as Hnil
    by (unfold add_verdicts; cbn; by rewrite !Z.mul_0_r, !Z.add_0_r).
  assert (tally_is b (add_verdicts (late key (Ret None) now h) q f s m)
    (handle_resume cfg request key qname qtype_name (Ret None) now h).1) as Hnone.
  { unfold handle_resume, mbind at 1, M_bind at 1, try_except, lift_res, late.
    unfold mbind at 1, M_bind at 1.
    pose proof (in_cache_tally b _ _ (get_stale_tally key now) h Hh) as Hh1.
    destruct (in_cache_stale_val key now h) as (h1 & v & E & Hv). rewrite E in *. cbn [fst] in Hh1.
    rewrite <- Hv. destruct (truthy v).
    - unfold serve_stale. apply (count_one _ _ _ _ _ "cache_hit_stale_total") in Hh1.
      unfold mbind at 1, M_bind at 1. rewrite minc_run in *. cbn [fst] in Hh1.
      apply (stale_rest_tally b _ cfg request v key qname qtype_name) in Hh1.
      cbn in Hh1. unfold add_verdicts. cbn. by rewrite ?Z.mul_0_r, ?Z.mul_1_r, ?Z.add_0_r in *.
    - rewrite Hnil. by apply (same_tally_inv b _ h1). }
  destruct r as [[o|]|e]; [|done|].
  - cbn [late]. rewrite Hnil. by apply (same_tally_inv b _ h).
  - cbn [late]. destruct (is_Exception e) eqn:He; [by rewrite handle_resume_exn|].
    rewrite handle_resume_base by done. cbn [andb]. by rewrite Hnil.
Qed.
End handle_counters.

(** ** Accounting of requests *)

Section accounting.
Context `{Dnslib}.
Context (b : bool) (cc : CacheConfig) (cfg : HandlerConfig).
Implicit Types (w : World).

(** The requests among the events. *)
Definition requests (evs : list event) : list DNSRecord :=
  omap (λ ev, match ev with EvRequest request _ _ => Some request | _ => None end) evs.
(** Those that ask a question. *)
Definition n_questions (l : list DNSRecord) : nat :=
  length (filter (λ r, questions r ≠ []) l).

(** What one event, in the world [w] it meets, says about the requests. *)
Definition verdicts (ev : event) w : list verdict :=
  match ev with
  | EvRequest request now_fresh now_stale => arrival request now_fresh now_stale (w_h w)
  | EvCallResume i now =>
      match w_calls w !! i with
      | Some c =>
          match task_result_of (call_task c) (w_h w) with
          | Some r => late (call_key c) r now (w_h w)
          | None => []
          end
      | None => []
      end
  | _ => []
  end.

(** How the requests fared over a run from [w]. *)
Fixpoint fared (evs : list event) w : list verdict :=
  match evs with
  | [] => []
  | ev :: evs => verdicts ev w ++ fared evs (run_event cc cfg ev w)
  end.

(** [reqs] came in and fared as [l]: each is answered or waiting, and the
    counters agree. *)
Record accounted (reqs : list DNSRecord) (l : list verdict) w : Prop := {
  acc_calls : (w_out w).*1 ++ (call_request <$> w_calls w) ≡ₚ reqs;
  acc_counts : tally_is b (add_verdicts b l 0 0 0 0) (w_h w);
  acc_questions : (count_of VFresh l + count_of VStale l + count_of VMiss l)%Z = Z.of_nat (n_questions reqs);
}.

Lemma accounted_h h' reqs l w :
  (∀ x, tally_is b x (w_h w) → tally_is b x h') → accounted reqs l w → accounted reqs l (with_h h' w).
Proof. intros Hx [? ? ?]. split; [done|by apply Hx|done]. Qed.

Lemma n_questions_snoc reqs r :
  n_questions (reqs ++ [r]) = n_questions reqs + (if decide (questions r ≠ []) then 1 else 0).
Proof. unfold n_questions. rewrite filter_app, length_app. f_equal. rewrite filter_cons. by case_decide. Qed.

Lemma add_verdicts_app l1 l2 q f s m :
  add_verdicts b (l1 ++ l2) q f s m =
  let '(q', f', s', m') := add_verdicts b l1 q f s m in add_verdicts b l2 q' f' s' m'.
Proof. unfold add_verdicts. rewrite !count_of_app. destruct b; cbn [Z.b2z]; repeat (f_equal; [|lia]); lia. Qed.

Lemma accounted_request request nf ns reqs l w :
  accounted reqs l w →
  accounted (reqs ++ [request]) (l ++ verdicts (EvRequest request nf ns) w)
    (run_event cc cfg (EvRequest request nf ns) w).
Proof.
  intros [Hcalls Ht Hq]. split.
  - rewrite <- Hcalls. cbn. destruct (handle_begin _ _ _ _ _) as [h' [[o|]|e]]; cbn; rewrite !fmap_app; cbn.
    2: by rewrite (assoc_L (++)).
    all: rewrite <- !(assoc_L (++)); f_equiv; apply Permutation_app_comm.
  - assert (w_h (run_event cc cfg (EvRequest request nf ns) w) =
      (handle_begin cfg request nf ns (w_h w)).1) as ->
      by (cbn; by destruct (handle_begin _ _ _ _ _) as [h' [[o|]|e]]).
    rewrite add_verdicts_app. by apply handle_begin_tally.
  - rewrite n_questions_snoc, !count_of_app. cbn [verdicts]. unfold arrival.
    destruct (questions request) as [|q0 qs]; [rewrite decide_False by naive_solver; assert (∀ v, count_of v [] = 0%Z) as Hz by done; rewrite !Hz; lia|].
    rewrite decide_True by done. destruct (fresh_at _ _ _); [|destruct (stale_at _ _ _)]; rewrite !count_of_single;
      repeat (case_decide; try done); lia.
Qed.

Lemma accounted_same reqs l w : accounted reqs l w → accounted reqs (l ++ []) w.
Proof. by rewrite app_nil_r. Qed.

Lemma late_no_arrival key r now h v : v ≠ VLateStale → count_of v (late key r now h) = 0%Z.
Proof.
  intros Hv. unfold late, count_of. destruct r as [[]|e]; [done| |];
    (destruct (stale_at key now (h_store h)); [|by rewrite ?andb_false_r]); rewrite ?andb_true_r;
    [|destruct (is_Exception e)]; rewrite ?filter_cons, ?decide_False by done; done.
Qed.

Lemma accounted_call_resume i now reqs l w :
  accounted reqs l w →
  accounted reqs (l ++ verdicts (EvCallResume i now) w) (run_event cc cfg (EvCallResume i now) w).
Proof.
  intros Hw. cbn. destruct (w_calls w !! i) as [c|] eqn:Ei; [|by apply accounted_same].
  destruct (task_result_of _ _) as [r|]; [|by apply accounted_same]. destruct Hw as [Hcalls Ht Hq].
  split; cbn.
  - rewrite <- Hcalls, fmap_app, <- (assoc_L (++)). f_equiv. cbn.
    rewrite <- fmap_cons. f_equiv. symmetry. by apply delete_Permutation.
  - rewrite add_verdicts_app. by apply handle_resume_tally.
  - rewrite !count_of_app, !late_no_arrival by done. lia.
Qed.

(** A forwarder's counters are none of the handler's. *)
Lemma upstream_counter_keys k : k ∈ upstream_counters → k ≠ "cache_entries" ∧ (k ∉ tally_keys).
Proof.
  intros Hk. assert (Forall (λ k, k ≠ "cache_entries" ∧ (k ∉ tally_keys)) upstream_counters) as Hall.
  { refine (bool_decide_unpack _ _). vm_compute. exact I. }
  by apply (proj1 (Forall_forall _ _) Hall).
Qed.

Lemma accounted_step ev reqs l w :
  accounted reqs l w → accounted (reqs ++ requests [ev]) (l ++ verdicts ev w) (run_event cc cfg ev w).
Proof.
  intros Hw. destruct ev as [request nf ns|t|t up now ne|t|k t|i now|now|now|j|key reason| |k];
    cbn [requests omap list_omap]; rewrite ?(app_nil_r reqs);
    try match goal with |- accounted _ (_ ++ verdicts (EvCallResume _ _) _) _ => fail 1
        | |- accounted _ (_ ++ verdicts (EvRequest _ _ _) _) _ => fail 1
        | |- _ => cbn [verdicts]; rewrite app_nil_r end.
  - by apply accounted_request.
  - apply accounted_h; [|done]. intros x. apply task_begin_tally.
  - destruct Hw as [? Ht ?]. split; [done|by apply task_resume_tally|done].
  - apply accounted_h; [|done]. intros x. apply task_cancel_tally.
  - cbn. case_decide; [|done]. apply accounted_h; [|done]. intros x.
    by apply (same_tally_inv b).
  - by apply accounted_call_resume.
  - apply accounted_h; [|done]. intros x. apply scan_tick_tally.
  - cbn. pose proof (λ x, worker_begin_tally b x cfg now (w_h w)) as Ht.
    destruct (_refresh_worker_begin cfg now (w_h w)) as [h' [[[key [t|]]|]|e]]; cbn in Ht;
      by (destruct (accounted_h h' reqs l w Ht Hw) as [? ? ?]; split).
  - cbn. destruct (w_jobs w !! j) as [[key t]|]; [|done].
    destruct (task_result_of t (w_h w)) as [r|]; [|done].
    destruct (accounted_h (_refresh_worker_resume key r (w_h w)).1 reqs l w) as [? ? ?];
      [intros x; apply worker_resume_tally|done|by split].
  - apply accounted_h; [|done]. intros x. apply enqueue_tally.
  - apply accounted_h; [|done]. intros x. apply in_cache_tally, clear_tally.
  - cbn [run_event]. case_bool_decide as Hk; [|done]. apply accounted_h; [|done]. intros x. apply minc_tally.
    apply upstream_counter_keys in Hk as [_ Hk]. by apply bool_decide_eq_false.
Qed.

Lemma accounted_run evs reqs l w :
  accounted reqs l w → accounted (reqs ++ requests evs) (l ++ fared evs w) (run_events cc cfg evs w).
Proof.
  revert reqs l w. induction evs as [|ev evs IH]; intros reqs l w Hw; [by rewrite !app_nil_r|].
  apply (accounted_step ev), IH in Hw. rewrite <- !app_assoc in Hw.
  unfold requests in *. rewrite <- omap_app in Hw. done.
Qed.
End accounting.
