(* ===== verification/SystemTheorems.v ===== *)
(** * Properties of the running system

    Over every interleaving of requests, upstream answers, cancellations,
    cleanups, scans and worker jobs: what clients are answered, how much work
    is in flight, what the counters say, and that no request is stuck. *)
From S2P Require Import Prelude PyString OrderedDict Metrics Dns Cache CacheEvict CacheProps SingleFlight Handler HandlerProps HandlerTheorems System SystemProps SystemOutcomes SystemLemmas.
From stdpp Require Import base list strings gmap sets pretty.

(** One interleaving: a miss, a second client joining it, the upstream's
    answer, and the two replies. *)
Module system_example.
Import handler_example.
Definition request2 : DNSRecord := mkDNSRecord 9 0 0 () [q] [] [] [].
Definition evs_wait : list event := [EvRequest request 1 2; EvRequest request2 3 4].
Definition evs : list event :=
  evs_wait ++ [EvTaskBegin 0; EvTaskResume 0 up 5 6; EvCallResume 1 7; EvCallResume 0 8].
Definition w_wait : World := run_events cc cfg evs_wait (world_new (Some metrics_new)).
Definition w_end : World := run_events cc cfg evs (world_new (Some metrics_new)).
Lemma cc_ok : cache_config_ok cc.
Proof. repeat split; vm_compute; discriminate. Defined.
End system_example.

(** C2: What clients receive: over every interleaving, each call of [handle]
    that has finished either returned a response with the transaction id of
    its own request that is, up to that id, an answer the upstream gave for
    exactly the asked name, type and class (or, without such an answer, a
    SERVFAIL reply; a FORMERR reply when nothing is asked), or was left by a
    cancellation or the end of the process; no other exception leaves it. *)
Theorem responses_correct `{DnslibLaws} (cc : CacheConfig) (cfg : HandlerConfig)
    (evs : list event) (m : option Metrics) (o : outcome) :
  cache_config_ok cc → count_opt m "cache_entries" = 0%Z →
  let w := run_events cc cfg evs (world_new m) in
  o ∈ w_out w →
  match o.2 with
  | Ret (Some r) =>
      hdr_id r = hdr_id o.1 ∧
      match questions o.1 with
      | [] => r = set_rcode FORMERR (dns_reply o.1)
      | q :: _ => from_upstream (w_log w) (key_of q) r ∨
                  r = set_id (hdr_id o.1) (set_rcode SERVFAIL (dns_reply o.1))
      end
  | Ret None => False
  | Raise e => is_Exception e = false
  end.
Proof.
  intros Hcc Hm w Ho. pose proof (wo_out _ _ _ _ (reachable_ok false cc cfg Hcc evs m Hm)) as Hall.
  pose proof (proj1 (Forall_forall _ _) Hall o Ho) as Hok. unfold outcome_ok, answers_request in Hok.
  destruct o as [req [[r|]|e]]; cbn [fst snd] in *; [|done..]. destruct Hok as [Hid Hans]. split; [done|].
  destruct (questions req); [done|]. destruct Hans as [Hd|?]; [left; by apply derived_whole|by right].
Qed.

Lemma responses_correct_witness :
  hdr_id (set_id 9 handler_example.answer) = 9%Z.
Proof.
  destruct (responses_correct handler_example.cc handler_example.cfg system_example.evs
    (Some metrics_new) (system_example.request2, Ret (Some (set_id 9 handler_example.answer)))
    system_example.cc_ok) as [Hid _].
  - reflexivity.
  - vm_compute. constructor.
  - exact Hid.
Defined.

(** Bounded upstream work: over every interleaving, at most two tasks run
    for a name, type and class at any time: one resolution and one
    stale-while-revalidate refresh. *)
Theorem upstream_work_bounded `{DnslibLaws} (cc : CacheConfig) (cfg : HandlerConfig)
    (evs : list event) (m : option Metrics) (key : CacheKey) :
  cache_config_ok cc → count_opt m "cache_entries" = 0%Z →
  size (running_for key (w_h (run_events cc cfg evs (world_new m)))) ≤ 2.
Proof.
  intros Hcc Hm. apply running_for_size, (ho_sf _ _ _ _ _ (wo_h _ _ _ _ (reachable_ok false cc cfg Hcc evs m Hm))).
Qed.

Lemma upstream_work_bounded_witness :
  size (running_for handler_example.key (w_h system_example.w_wait)) ≤ 2.
Proof.
  apply (upstream_work_bounded handler_example.cc handler_example.cfg system_example.evs_wait
    (Some metrics_new) handler_example.key system_example.cc_ok).
  reflexivity.
Defined.

(** C21: Bounded memory: over every interleaving, the refresh queue holds at
    most [refresh_queue_max] jobs when that is positive, the cache at most
    [max_entries] entries when that is not 0, its keys are distinct, and the
    [cache_entries] gauge is its size. *)
Theorem system_bounded `{DnslibLaws} (cc : CacheConfig) (cfg : HandlerConfig)
    (evs : list event) (m : option Metrics) :
  cache_config_ok cc → count_opt m "cache_entries" = 0%Z →
  let h := w_h (run_events cc cfg evs (world_new m)) in
  ((0 < refresh_queue_max cfg)%Z → (len (refresh_queue h) ≤ refresh_queue_max cfg)%Z)
  ∧ (max_entries cc ≠ 0 → len (h_store h) ≤ max_entries cc)%Z
  ∧ NoDup (h_store h).*1
  ∧ count_opt (h_metrics h) "cache_entries" = onm (h_metrics h) (len (h_store h)).
Proof.
  intros Hcc Hm h. destruct (wo_h _ _ _ _ (reachable_ok false cc cfg Hcc evs m Hm)) as [_ [[Hwf _ Hb Hg] _] Hq _ _ _ _].
  done.
Qed.

Lemma system_bounded_witness :
  count_opt (h_metrics (w_h system_example.w_end)) "cache_entries" = 1%Z.
Proof.
  destruct (system_bounded handler_example.cc handler_example.cfg system_example.evs
    (Some metrics_new) system_example.cc_ok eq_refl) as (_ & _ & _ & Hg).
  unfold system_example.w_end. rewrite Hg. vm_compute. reflexivity.
Defined.

(** C6: No request is stuck: whenever a call waits for a task that is still
    running, letting that task run and the upstream answer, in whatever way
    (an answer, no answer, garbage, an exception), and resuming the call ends
    it with a response that carries its request's transaction id. *)
Theorem request_always_answered `{DnslibLaws} (cc : CacheConfig) (cfg : HandlerConfig)
    (evs : list event) (m : option Metrics) (i : nat) (c : call) (up : upstream)
    (now now_evict now_late : Z) :
  cache_config_ok cc → count_opt m "cache_entries" = 0%Z →
  let w := run_events cc cfg evs (world_new m) in
  w_calls w !! i = Some c →
  task_running (call_task c) (h_sf (w_h w)) = true →
  upstream_ok up →
  let t := call_task c in
  ∃ r, w_out (run_events cc cfg [EvTaskBegin t; EvTaskResume t up now now_evict; EvCallResume i now_late] w)
         = w_out w ++ [(call_request c, Ret (Some r))]
    ∧ hdr_id r = hdr_id (call_request c).
Proof.
  intros Hcc Hm w Hi Hrun Hup t. pose proof (reachable_ok false cc cfg Hcc evs m Hm) as Hw. fold w in Hw.
  pose proof (wo_h _ _ _ _ Hw) as Hh.
  destruct (proj1 (Forall_lookup _ _) (wo_calls _ _ _ _ Hw) i c Hi) as [_ [st Ht]].
  apply task_running_spec in Hrun as (k & p & Htp). assert (st = Running p) as -> by congruence.
  destruct (resolve_completes cc Hcc up now now_evict t (call_key c) p (w_h w)) as (r & Hr & Hexn);
    [apply Hh|done|done|by apply (ho_coro _ _ _ _ _ Hh _ _ _ Ht)|].
  set (w2 := run_events cc cfg [EvTaskBegin t; EvTaskResume t up now now_evict] w).
  assert (world_ok false cc cfg w2) as Hw2 by (by apply run_events_ok).
  destruct (call_resume_answers false cc cfg i now_late w2 c r Hw2 Hi Hr Hexn) as (a & Hout & Ha).
  exists a. split; [exact Hout|apply Ha].
Qed.

Lemma request_always_answered_witness :
  ∃ r, hdr_id r = 9%Z ∧
    w_out (run_events handler_example.cc handler_example.cfg
      [EvTaskBegin 0; EvTaskResume 0 handler_example.up_down 5 6; EvCallResume 1 7]
      system_example.w_wait) = [(system_example.request2, Ret (Some r))].
Proof.
  destruct (request_always_answered handler_example.cc handler_example.cfg system_example.evs_wait
    (Some metrics_new) 1 (mkCall system_example.request2 handler_example.key "a.com" "A" 0)
    handler_example.up_down 5 6 7 system_example.cc_ok) as (r & Hout & Hid).
  - reflexivity.
  - reflexivity.
  - reflexivity.
  - intros wire rid e [= <-]. reflexivity.
  - exists r. split; [exact Hid|exact Hout].
Defined.

(** C20: Accounting, over every interleaving.  The requests that came in are
    exactly those answered together with those still waiting.  Each request
    with a question counts one query and one of: a fresh hit, when the cache
    holds an answer for its key that has not expired on arrival; else a stale
    hit, when it holds one within its stale window; else a miss.  A miss whose
    resolution then gives nothing counts one more stale hit when the cache can
    serve stale by then.  The counters are exactly these numbers. *)
Theorem requests_accounted `{Dnslib} (cc : CacheConfig) (cfg : HandlerConfig) (evs : list event) :
  let w := run_events cc cfg evs (world_new (Some metrics_new)) in
  let n := count_opt (h_metrics (w_h w)) in
  let l := fared cc cfg evs (world_new (Some metrics_new)) in
  (w_out w).*1 ++ (call_request <$> w_calls w) ≡ₚ requests evs
  ∧ n "queries_total" = Z.of_nat (n_questions (requests evs))
  ∧ n "queries_total" = (count_of VFresh l + count_of VStale l + count_of VMiss l)%Z
  ∧ n "cache_hit_fresh_total" = count_of VFresh l
  ∧ n "cache_hit_stale_total" = (count_of VStale l + count_of VLateStale l)%Z
  ∧ n "cache_miss_total" = count_of VMiss l.
Proof.
  intros w n l. assert (accounted true [] [] (world_new (Some metrics_new))) as Hnew by done.
  destruct (accounted_run true cc cfg evs [] [] _ Hnew) as [Hcalls [Ht _] Hq].
  rewrite !app_nil_l in *. unfold add_verdicts in Ht. cbn [Z.b2z] in Ht. rewrite !Z.mul_1_l, !Z.add_0_l in Ht.
  injection Ht as Hq' Hf Hs Hm. unfold n, w. rewrite Hq', Hf, Hs, Hm. by rewrite <- Hq.
Qed.

(** ** The refresh queue can hold a key twice *)

(** A background refresh that starts takes its key out of [queued_keys] but
    not out of the queue; after it fails, the next stale hit enqueues the key
    again. *)
Module duplicate_example.
Import handler_example.
Definition evs : list event :=
  [EvRequest request 0 0; EvTaskBegin 0; EvTaskResume 0 up 0 0; EvCallResume 0 0;
   EvRequest request (100 * SECOND) (100 * SECOND); EvTaskBegin 1;
   EvTaskResume 1 up_down (101 * SECOND) (101 * SECOND);
   EvRequest request (102 * SECOND) (102 * SECOND)].
End duplicate_example.

Lemma refresh_queue_holds_duplicates :
  refresh_queue (w_h (run_events handler_example.cc handler_example.cfg duplicate_example.evs
    (world_new (Some metrics_new)))) =
  [(handler_example.key, "stale_served"); (handler_example.key, "stale_served")].
Proof. vm_compute. reflexivity. Qed.

(** The first request misses and the other two are stale hits. *)
Lemma requests_accounted_witness :
  let w := run_events handler_example.cc handler_example.cfg duplicate_example.evs (world_new (Some metrics_new)) in
  count_opt (h_metrics (w_h w)) "cache_hit_stale_total" = 2%Z ∧ count_opt (h_metrics (w_h w)) "cache_miss_total" = 1%Z.
Proof.
  destruct (requests_accounted handler_example.cc handler_example.cfg duplicate_example.evs) as (_ & _ & _ & _ & Hs & Hm).
  split; [rewrite Hs|rewrite Hm]; vm_compute; reflexivity.
Defined.
