(* ===== verification/Servers.v ===== *)
(** * The DNS servers ([UdpDnsServer] and [TcpDnsServer] of
      [src/resilientdns/dns/server.py])

    Both servers share one handler.  [SrvSt] is the handler's state, the sets
    of request tasks in flight, and what was sent: datagrams with their
    address, and bytes written to each TCP connection.  A request's coroutine
    is cut where [handle] is: [.._begin] runs up to the [await] of the
    resolution task, [.._resume] from there to the end; the reply is packed and
    sent in the same step of the event loop in which [handle] returns. *)
From S2P Require Import Prelude PyString OrderedDict Metrics Dns Framing Cache SingleFlight Handler.
From stdpp Require Import base list strings gmap sets.
From Stdlib.Strings Require Import Byte.

(** ** Configuration *)

Record UdpServerConfig := mkUdpServerConfig {
  udp_host : string;
  udp_port : Z;
  udp_max_inflight : Z;
  max_udp_payload : Z;
}.
Definition UdpServerConfig_default : UdpServerConfig := mkUdpServerConfig "127.0.0.1" 5353 256 1232.

Record TcpServerConfig := mkTcpServerConfig {
  tcp_host : string;
  tcp_port : Z;
  tcp_max_inflight : Z;
  max_message_size : Z;
  read_timeout_s : Z;
  idle_timeout_s : Z;
}.
Definition TcpServerConfig_default : TcpServerConfig :=
  mkTcpServerConfig "127.0.0.1" 5353 256 65535 (2 * SECOND) (30 * SECOND).

Abbreviation addr := (string * Z)%type.

Section servers.
Context `{Dnslib}.

Record SrvSt := mkSrvSt {
  s_h : HSt;
  udp_transport : bool;                 (** [self.transport] is set *)
  udp_inflight : gset nat;
  tcp_inflight : gset nat;
  next_client : nat;                    (** names of request tasks *)
  udp_sent : list (bytes * addr);
  tcp_written : list (nat * bytes);     (** connection, bytes *)
}.

#[global] Instance SrvSt_metrics : HasMetrics SrvSt := {|
  metrics_of s := h_metrics (s_h s);
  with_metrics m s := mkSrvSt (with_metrics m (s_h s)) (udp_transport s) (udp_inflight s)
                        (tcp_inflight s) (next_client s) (udp_sent s) (tcp_written s) |}.

Definition in_handler {A} : M HSt A → M SrvSt A :=
  zoom s_h (λ h s, mkSrvSt h (udp_transport s) (udp_inflight s) (tcp_inflight s) (next_client s)
                     (udp_sent s) (tcp_written s)).

Definition set_udp_inflight (f : gset nat) (n : nat) (s : SrvSt) : SrvSt :=
  mkSrvSt (s_h s) (udp_transport s) f (tcp_inflight s) n (udp_sent s) (tcp_written s).
Definition set_tcp_inflight (f : gset nat) (n : nat) (s : SrvSt) : SrvSt :=
  mkSrvSt (s_h s) (udp_transport s) (udp_inflight s) f n (udp_sent s) (tcp_written s).

(** [len(self._inflight) >= max_inflight], with a limit set. *)
Definition at_limit (limit : Z) (inflight : gset nat) : bool :=
  ((0 <? limit) && (limit <=? Z.of_nat (size inflight)))%Z.

Definition drop_max_inflight : M SrvSt () :=
  minc "dropped_total";; minc "dropped_max_inflight_total".
Definition drop_oversize : M SrvSt () :=
  minc "dropped_total";; minc "dropped_oversize_total".
Definition drop_malformed : M SrvSt () :=
  minc "malformed_total";; minc "dropped_malformed_total".

(** [resp.pack()] on a shared object. *)
Definition pack_obj (o : nat) : M SrvSt bytes :=
  hp ← gets (λ s, h_heap (s_h s));
  lift_opt (hp !! o ≫= dns_pack) OtherException.

(** ** UDP *)

(** The new task's name, or [None] when the datagram is dropped. *)
Definition datagram_received (cfg : UdpServerConfig) : M SrvSt (option nat) :=
  s ← get_state;
  if at_limit (udp_max_inflight cfg) (udp_inflight s) then
    drop_max_inflight;; mret None
  else
    modify (λ s, set_udp_inflight ({[next_client s]} ∪ udp_inflight s) (S (next_client s)) s);;
    mret (Some (next_client s)).

(** The done callback [self._inflight.discard]. *)
Definition udp_task_done (t : nat) : M SrvSt () :=
  modify (λ s, set_udp_inflight (udp_inflight s ∖ {[t]}) (next_client s) s).

Definition sendto (wire : bytes) (a : addr) : M SrvSt () :=
  modify (λ s, mkSrvSt (s_h s) (udp_transport s) (udp_inflight s) (tcp_inflight s) (next_client s)
                 (udp_sent s ++ [(wire, a)]) (tcp_written s)).

(** [resp.header.tc = 1; resp.rr = []; resp.auth = []; resp.ar = []], on the
    object itself. *)
Definition truncate_obj (o : nat) : M SrvSt () :=
  in_handler (modify (λ h, with_heap (alter (λ r, clear_sections (set_tc 1 r)) o (h_heap h)) (h_next h) h)).

(** From the handler's response to the datagram. *)
Definition udp_reply (cfg : UdpServerConfig) (o : nat) (a : addr) : M SrvSt () :=
  transport ← gets udp_transport;
  when transport
    (wire ← pack_obj o;
     if ((0 <? max_udp_payload cfg) && (max_udp_payload cfg <? len wire))%Z then
       truncate_obj o;;
       wire ← pack_obj o;
       if (max_udp_payload cfg <? len wire)%Z then drop_oversize else sendto wire a
     else sendto wire a).

(** A suspended request: what [handle] still needs. *)
Record waiting := mkWaiting {
  wt_request : DNSRecord; wt_key : CacheKey; wt_qname : string; wt_qtype_name : string; wt_task : nat }.

Definition _handle_datagram_begin (cfg : UdpServerConfig) (hcfg : HandlerConfig) (data : bytes) (a : addr)
    (now_fresh now_stale : Z) : M SrvSt (option waiting) :=
  match dns_parse data with
  | None => drop_malformed;; mret None
  | Some req =>
      try_except
        (out ← in_handler (handle_begin hcfg req now_fresh now_stale);
         match out with
         | HReturn o => udp_reply cfg o a;; mret None
         | HAwait key qname qtype_name t => mret (Some (mkWaiting req key qname qtype_name t))
         end) is_Exception (λ _, mret None)
  end.

Definition _handle_datagram_resume (cfg : UdpServerConfig) (hcfg : HandlerConfig) (w : waiting) (a : addr)
    (result : res (option nat)) (now : Z) : M SrvSt () :=
  try_except
    (o ← in_handler (handle_resume hcfg (wt_request w) (wt_key w) (wt_qname w) (wt_qtype_name w) result now);
     udp_reply cfg o a) is_Exception (λ _, mret ()).

(** ** TCP *)

(** One turn of the loop of [_handle_client] up to the request's task:
    [None] is a [return], else the task, its data and the rest of the
    stream. *)
Definition tcp_read_request (cfg : TcpServerConfig) (st : stream)
    : M SrvSt (option (nat * bytes * stream)) :=
  try_except
    (lr ← lift_res (readexactly 2 st);
     let msg_len := from_bytes lr.1 in
     if ((0 <? max_message_size cfg) && (max_message_size cfg <? msg_len))%Z then
       drop_oversize;; mret None
     else
       dr ← lift_res (readexactly msg_len lr.2);
       s ← get_state;
       if at_limit (tcp_max_inflight cfg) (tcp_inflight s) then
         drop_max_inflight;; mret None
       else
         modify (λ s, set_tcp_inflight ({[next_client s]} ∪ tcp_inflight s) (S (next_client s)) s);;
         mret (Some (next_client s, dr.1, dr.2))) is_read_error (λ _, mret None).

Definition tcp_task_done (t : nat) : M SrvSt () :=
  modify (λ s, set_tcp_inflight (tcp_inflight s ∖ {[t]}) (next_client s) s).

(** The loop: each request is awaited before the next is read.  [serve] is
    the request's task, run to its end; its done callback takes it out of the
    set however it ends.  Each turn reads at least two bytes, so [fuel] beyond
    the stream's length is never used up. *)
Fixpoint client_loop (fuel : nat) (cfg : TcpServerConfig) (serve : nat → bytes → M SrvSt ())
    (st : stream) : M SrvSt () :=
  match fuel with
  | 0 => mret ()
  | S fuel =>
      req ← tcp_read_request cfg st;
      match req with
      | None => mret ()
      | Some (t, data, st') =>
          try_finally (serve t data) (λ s, (tcp_task_done t s).1);;
          client_loop fuel cfg serve st'
      end
  end.

(** [close] is [writer.close(); await writer.wait_closed()], in the [finally]. *)
Definition _handle_client (fuel : nat) (cfg : TcpServerConfig) (serve : nat → bytes → M SrvSt ())
    (close : M SrvSt ()) (st : stream) : M SrvSt () :=
  try_finally_do (client_loop fuel cfg serve st) close.

Definition tcp_write (conn : nat) (b : bytes) : M SrvSt () :=
  modify (λ s, mkSrvSt (s_h s) (udp_transport s) (udp_inflight s) (tcp_inflight s) (next_client s)
                 (udp_sent s) (tcp_written s ++ [(conn, b)])).

(** From the handler's response to the bytes written.  The [drain] that follows
    ends the request's task: what it raises is caught and logged like success,
    and while it waits the task is not done, so the connection does not go on
    ([Net] lets any time pass before that, and [NCancelDrain] cancels the wait). *)
Definition tcp_reply (cfg : TcpServerConfig) (o : nat) (conn : nat) : M SrvSt () :=
  wire ← pack_obj o;
  if ((0 <? max_message_size cfg) && (max_message_size cfg <? len wire))%Z then drop_oversize
  else
    prefix ← lift_res (to_bytes2 (len wire));
    tcp_write conn (prefix ++ wire).

Definition _handle_request_begin (cfg : TcpServerConfig) (hcfg : HandlerConfig) (data : bytes) (conn : nat)
    (now_fresh now_stale : Z) : M SrvSt (option waiting) :=
  match dns_parse data with
  | None => drop_malformed;; mret None
  | Some req =>
      try_except
        (out ← in_handler (handle_begin hcfg req now_fresh now_stale);
         match out with
         | HReturn o => tcp_reply cfg o conn;; mret None
         | HAwait key qname qtype_name t => mret (Some (mkWaiting req key qname qtype_name t))
         end) is_Exception (λ _, mret None)
  end.

Definition _handle_request_resume (cfg : TcpServerConfig) (hcfg : HandlerConfig) (w : waiting) (conn : nat)
    (result : res (option nat)) (now : Z) : M SrvSt () :=
  try_except
    (o ← in_handler (handle_resume hcfg (wt_request w) (wt_key w) (wt_qname w) (wt_qtype_name w) result now);
     tcp_reply cfg o conn) is_Exception (λ _, mret ()).

(** ** Stopping *)

(** [_cancel_tasks]: every task in flight is cancelled and forgotten. *)
Definition udp_cancel_tasks : M SrvSt (list nat) :=
  l ← gets (λ s, elements (udp_inflight s));
  modify (λ s, set_udp_inflight ∅ (next_client s) s);;
  mret l.
Definition tcp_cancel_tasks : M SrvSt (list nat) :=
  l ← gets (λ s, elements (tcp_inflight s));
  modify (λ s, set_tcp_inflight ∅ (next_client s) s);;
  mret l.
End servers.
