(* ===== verification/ServerProps.v ===== *)
(** * Lemmas about the DNS servers

    The replies of both transports on a response object,
    and the bound on requests in flight as an invariant of a step relation. *)
From S2P Require Import Prelude PyString OrderedDict Metrics Dns Framing Cache SingleFlight Handler HandlerProps System SystemProps SystemOutcomes Servers.
From stdpp Require Import base list strings gmap sets.
From Stdlib.Strings Require Import Byte.

Section servers.
Context `{Dnslib}.
Implicit Types (s : SrvSt) (o : nat).

Lemma in_handler_run {A} (m : M HSt A) s :
  in_handler m s =
  (mkSrvSt (m (s_h s)).1 (udp_transport s) (udp_inflight s) (tcp_inflight s) (next_client s)
     (udp_sent s) (tcp_written s), (m (s_h s)).2).
Proof. unfold in_handler, zoom. by destruct (m (s_h s)). Qed.

Lemma pack_obj_run o s :
  pack_obj o s = (s, match h_heap (s_h s) !! o ≫= dns_pack with
                     | Some w => Ret w | None => Raise OtherException end).
Proof. done. Qed.

(** One datagram more. *)
Definition sent s w (a : addr) : SrvSt :=
  mkSrvSt (s_h s) (udp_transport s) (udp_inflight s) (tcp_inflight s) (next_client s)
    (udp_sent s ++ [(w, a)]) (tcp_written s).
(** The response object truncated. *)
Definition truncated_at o s : SrvSt :=
  mkSrvSt (with_heap (alter (λ r, clear_sections (set_tc 1 r)) o (h_heap (s_h s))) (h_next (s_h s)) (s_h s))
    (udp_transport s) (udp_inflight s) (tcp_inflight s) (next_client s) (udp_sent s) (tcp_written s).
(** A drop counted under two names. *)
Definition dropped k s : SrvSt :=
  with_metrics (inc_opt k (inc_opt "dropped_total" (h_metrics (s_h s)))) s.

Lemma udp_reply_run cfg o a s r w :
  h_heap (s_h s) !! o = Some r → dns_pack r = Some w →
  udp_reply cfg o a s =
  if negb (udp_transport s) then (s, Ret ())
  else if ((0 <? max_udp_payload cfg) && (max_udp_payload cfg <? len w))%Z then
    match dns_pack (clear_sections (set_tc 1 r)) with
    | None => (truncated_at o s, Raise OtherException)
    | Some w' => if (max_udp_payload cfg <? len w')%Z
                 then (dropped "dropped_oversize_total" (truncated_at o s), Ret ())
                 else (sent (truncated_at o s) w' a, Ret ())
    end
  else (sent s w a, Ret ()).
Proof.
  intros Ho Hw. unfold udp_reply, mbind, M_bind, gets. destruct (udp_transport s); [|done]. cbn [when negb].
  rewrite pack_obj_run, Ho. cbn [mbind option_bind]. rewrite Hw.
  destruct (_ && _)%Z; [|done]. unfold truncate_obj. rewrite in_handler_run. cbn [fst snd modify].
  rewrite pack_obj_run. cbn [s_h h_heap with_heap]. rewrite lookup_alter_eq, Ho.
  cbn [fmap option_fmap option_map mbind option_bind].
  destruct (dns_pack (clear_sections (set_tc 1 r))) as [w'|]; [|done].
  by destruct (_ <? _)%Z.
Qed.

Lemma tcp_reply_run cfg o conn s r w :
  h_heap (s_h s) !! o = Some r → dns_pack r = Some w →
  tcp_reply cfg o conn s =
  if ((0 <? max_message_size cfg) && (max_message_size cfg <? len w))%Z
  then (dropped "dropped_oversize_total" s, Ret ())
  else if (len w <? 65536)%Z then
    (mkSrvSt (s_h s) (udp_transport s) (udp_inflight s) (tcp_inflight s) (next_client s)
       (udp_sent s) (tcp_written s ++ [(conn, frame w)]), Ret ())
  else (s, Raise OverflowError).
Proof.
  intros Ho Hw. unfold tcp_reply, mbind, M_bind. rewrite pack_obj_run, Ho. cbn [mbind option_bind]. rewrite Hw.
  destruct (_ && _)%Z; [done|]. unfold lift_res, frame.
  destruct (len w <? 65536)%Z eqn:E; zbool.
  - destruct (to_bytes2_spec (len w)) as (b & -> & _); [pose proof (len_nonneg w); lia|]. done.
  - by rewrite to_bytes2_overflow.
Qed.

(** A reply sends at most one datagram; what it sends carries the response's
    id and respects the limit. *)
Lemma udp_reply_sent `{!DnslibLaws} cfg o a s r :
  h_heap (s_h s) !! o = Some r →
  udp_sent (udp_reply cfg o a s).1 = udp_sent s ∨
  ∃ w r', udp_sent (udp_reply cfg o a s).1 = udp_sent s ++ [(w, a)] ∧ dns_parse w = Some r'
    ∧ hdr_id r' = hdr_id r ∧ ((0 < max_udp_payload cfg)%Z → (len w ≤ max_udp_payload cfg)%Z).
Proof.
  intros Ho. destruct (dns_pack r) as [w|] eqn:Hw.
  2: { left. unfold udp_reply, mbind, M_bind, gets. destruct (udp_transport s); [|done]. cbn [when].
       rewrite pack_obj_run, Ho. cbn [mbind option_bind]. by rewrite Hw. }
  rewrite (udp_reply_run cfg o a s r w) by done. destruct (udp_transport s); [|by left]. cbn [negb].
  destruct (0 <? max_udp_payload cfg)%Z eqn:E0, (max_udp_payload cfg <? len w)%Z eqn:E1; cbn [andb]; zbool.
  - destruct (dns_pack (clear_sections (set_tc 1 r))) as [w'|] eqn:Hw'; [|by left].
    destruct (max_udp_payload cfg <? len w')%Z eqn:E2; [by left|]. zbool. right.
    exists w', (clear_sections (set_tc 1 r)). split; [done|]. split; [by apply parse_pack|done].
  - right. exists w, r. split; [done|]. split; [by apply parse_pack|done].
  - right. exists w, r. split; [done|]. split; [by apply parse_pack|]. split; [done|lia].
  - right. exists w, r. split; [done|]. split; [by apply parse_pack|]. split; [done|lia].
Qed.

(** ** Requests in flight *)

(** One step of the servers, or of the handler's own tasks. *)
Inductive srv_step (ucfg : UdpServerConfig) (tcfg : TcpServerConfig) (hcfg : HandlerConfig) (s : SrvSt)
    : SrvSt → Prop :=
| step_datagram : srv_step ucfg tcfg hcfg s (datagram_received ucfg s).1
| step_udp_begin data a nf ns :
    srv_step ucfg tcfg hcfg s (_handle_datagram_begin ucfg hcfg data a nf ns s).1
| step_udp_resume w a r now : srv_step ucfg tcfg hcfg s (_handle_datagram_resume ucfg hcfg w a r now s).1
| step_udp_done t : srv_step ucfg tcfg hcfg s (udp_task_done t s).1
| step_udp_stop : srv_step ucfg tcfg hcfg s (udp_cancel_tasks s).1
| step_tcp_read st : srv_step ucfg tcfg hcfg s (tcp_read_request tcfg st s).1
| step_tcp_begin data c nf ns :
    srv_step ucfg tcfg hcfg s (_handle_request_begin tcfg hcfg data c nf ns s).1
| step_tcp_resume w c r now : srv_step ucfg tcfg hcfg s (_handle_request_resume tcfg hcfg w c r now s).1
| step_tcp_done t : srv_step ucfg tcfg hcfg s (tcp_task_done t s).1
| step_tcp_stop : srv_step ucfg tcfg hcfg s (tcp_cancel_tasks s).1
| step_handler {A} (m : M HSt A) : srv_step ucfg tcfg hcfg s (in_handler m s).1.

(** The tables of requests, which replies never touch. *)
Definition tables_are (u t : gset nat) (n : nat) s : Prop :=
  udp_inflight s = u ∧ tcp_inflight s = t ∧ next_client s = n.

Section tables.
Context (u t : gset nat) (n : nat).
#[local] Abbreviation inv := (tables_are u t n).
Lemma minc_tables k : preserves inv (minc k).
Proof. by intros s Hs. Qed.
Lemma in_handler_tables {A} (m : M HSt A) : preserves inv (in_handler m).
Proof. intros s Hs. by rewrite in_handler_run. Qed.
Lemma pack_obj_tables o : preserves inv (pack_obj o).
Proof. by intros s Hs. Qed.
Lemma sendto_tables w a : preserves inv (sendto w a).
Proof. by intros s Hs. Qed.
Lemma tcp_write_tables c w : preserves inv (tcp_write c w).
Proof. by intros s Hs. Qed.
#[local] Hint Resolve minc_tables in_handler_tables pack_obj_tables sendto_tables tcp_write_tables : rdns.

Lemma drop_oversize_tables : preserves inv drop_oversize.
Proof. unfold drop_oversize. solve_preserves. Qed.
Lemma drop_malformed_tables : preserves inv drop_malformed.
Proof. unfold drop_malformed. solve_preserves. Qed.
#[local] Hint Resolve drop_oversize_tables drop_malformed_tables : rdns.
Lemma udp_reply_tables cfg o a : preserves inv (udp_reply cfg o a).
Proof. unfold udp_reply, truncate_obj. solve_preserves. Qed.
Lemma tcp_reply_tables cfg o c : preserves inv (tcp_reply cfg o c).
Proof. unfold tcp_reply. solve_preserves. Qed.
#[local] Hint Resolve udp_reply_tables tcp_reply_tables : rdns.

Lemma udp_begin_tables cfg hcfg data a nf ns : preserves inv (_handle_datagram_begin cfg hcfg data a nf ns).
Proof. unfold _handle_datagram_begin. solve_preserves. Qed.
Lemma udp_resume_tables cfg hcfg w a r now : preserves inv (_handle_datagram_resume cfg hcfg w a r now).
Proof. unfold _handle_datagram_resume. solve_preserves. Qed.
Lemma tcp_begin_tables cfg hcfg data c nf ns : preserves inv (_handle_request_begin cfg hcfg data c nf ns).
Proof. unfold _handle_request_begin. solve_preserves. Qed.
Lemma tcp_resume_tables cfg hcfg w c r now : preserves inv (_handle_request_resume cfg hcfg w c r now).
Proof. unfold _handle_request_resume. solve_preserves. Qed.
End tables.

Definition within (limit : Z) (inflight : gset nat) : Prop :=
  (0 < limit)%Z → (Z.of_nat (size inflight) ≤ limit)%Z.

Definition srv_ok (ucfg : UdpServerConfig) (tcfg : TcpServerConfig) s : Prop :=
  within (udp_max_inflight ucfg) (udp_inflight s) ∧ within (tcp_max_inflight tcfg) (tcp_inflight s).

Lemma within_add limit x f : at_limit limit f = false → within limit f → within limit ({[x]} ∪ f).
Proof.
  intros Hl Hf Hpos. unfold at_limit in Hl. rewrite (proj2 (Z.ltb_lt _ _) Hpos) in Hl.
  cbn [andb] in Hl. zbool. rewrite size_union_alt, size_singleton.
  assert (size (f ∖ {[x]}) ≤ size f) by (apply subseteq_size; set_solver). lia.
Qed.
Lemma within_sub limit f f' : f' ⊆ f → within limit f → within limit f'.
Proof. intros Hs%subseteq_size Hf Hpos. specialize (Hf Hpos). lia. Qed.

Lemma tables_srv_ok {A} ucfg tcfg (m : M SrvSt A) s :
  (∀ u t n, preserves (tables_are u t n) m) → srv_ok ucfg tcfg s → srv_ok ucfg tcfg (m s).1.
Proof.
  intros Hm [Hu Ht]. destruct (Hm _ _ _ s (conj eq_refl (conj eq_refl eq_refl))) as (E1 & E2 & _).
  split; [by rewrite E1|by rewrite E2].
Qed.

Lemma tcp_read_cases cfg st s :
  (∃ m, tcp_read_request cfg st s = (with_metrics m s, Ret None)) ∨
  (∃ e, tcp_read_request cfg st s = (s, Raise e) ∧ is_read_error e = false) ∨
  (∃ data rest, tcp_read_request cfg st s =
     (set_tcp_inflight ({[next_client s]} ∪ tcp_inflight s) (S (next_client s)) s,
      Ret (Some (next_client s, data, rest)))
     ∧ at_limit (tcp_max_inflight cfg) (tcp_inflight s) = false
     ∧ ∃ lb st1, readexactly 2 st = Ret (lb, st1) ∧ readexactly (from_bytes lb) st1 = Ret (data, rest)).
Proof.
  unfold tcp_read_request, try_except, mbind, M_bind, lift_res, get_state.
  assert (with_metrics (h_metrics (s_h s)) s = s) as Hid by (by destruct s as [[]]).
  destruct (readexactly 2 st) as [[lb st1]|e] eqn:E1.
  2: { destruct (is_read_error e) eqn:Ee; [left; exists (h_metrics (s_h s)); by rewrite Hid|right; left; eauto]. }
  cbn [fst snd]. destruct (_ && _)%Z; [left; by eexists|].
  destruct (readexactly (from_bytes lb) st1) as [[data rest]|e] eqn:E2.
  2: { destruct (is_read_error e) eqn:Ee; [left; exists (h_metrics (s_h s)); by rewrite Hid|right; left; eauto]. }
  destruct (at_limit _ _) eqn:El; [left; by eexists|]. right; right. eauto 10.
Qed.

Lemma tcp_read_full cfg m rest e s :
  (len m < 65536)%Z → (len m ≤ max_message_size cfg)%Z →
  at_limit (tcp_max_inflight cfg) (tcp_inflight s) = true →
  tcp_read_request cfg (mkStream (frame m ++ rest) e) s =
  (let '(s', _) := drop_max_inflight s in (s', Ret None)).
Proof.
  intros Hm Hmax Hlim. destruct (frame_read m rest e Hm) as (lb & E1 & E2 & Hv).
  unfold tcp_read_request, try_except, mbind, M_bind, lift_res, get_state. rewrite E1. cbn [fst snd].
  rewrite Hv in *. rewrite (proj2 (Z.ltb_ge (max_message_size cfg) _)) by lia. rewrite andb_false_r.
  rewrite E2. by rewrite Hlim.
Qed.

Lemma tcp_read_frame cfg m rest e s :
  (len m < 65536)%Z → (len m ≤ max_message_size cfg)%Z →
  at_limit (tcp_max_inflight cfg) (tcp_inflight s) = false →
  tcp_read_request cfg (mkStream (frame m ++ rest) e) s =
  (set_tcp_inflight ({[next_client s]} ∪ tcp_inflight s) (S (next_client s)) s,
   Ret (Some (next_client s, m, mkStream rest e))).
Proof.
  intros Hm Hmax Hlim. destruct (frame_read m rest e Hm) as (lb & E1 & E2 & Hv).
  unfold tcp_read_request, try_except, mbind, M_bind, lift_res, get_state. rewrite E1. cbn [fst snd].
  rewrite Hv in *. rewrite (proj2 (Z.ltb_ge (max_message_size cfg) _)) by lia. rewrite andb_false_r.
  rewrite E2. by rewrite Hlim.
Qed.

Lemma srv_step_ok ucfg tcfg hcfg s s' :
  srv_step ucfg tcfg hcfg s s' → srv_ok ucfg tcfg s → srv_ok ucfg tcfg s'.
Proof.
  intros Hstep Hok. destruct Hstep as [|data a nf ns|w a r now|t| |st|data c nf ns|w c r now|t| |A m].
  - unfold datagram_received, mbind, M_bind, get_state. destruct (at_limit _ _) eqn:El; [done|].
    destruct Hok as [Hu Ht]. split; [by apply within_add|done].
  - apply tables_srv_ok; [|done]. intros. apply udp_begin_tables.
  - apply tables_srv_ok; [|done]. intros. apply udp_resume_tables.
  - destruct Hok as [Hu Ht]. split; [|done]. eapply within_sub; [|exact Hu]. cbn. set_solver.
  - destruct Hok as [Hu Ht]. split; [|done]. eapply within_sub; [|exact Hu]. cbn. set_solver.
  - destruct Hok as [Hu Ht]. destruct (tcp_read_cases tcfg st s)
      as [(m & ->)|[(e & -> & _)|(data & rest & -> & El & _)]]; [done|done|]. split; [done|by apply within_add].
  - apply tables_srv_ok; [|done]. intros. apply tcp_begin_tables.
  - apply tables_srv_ok; [|done]. intros. apply tcp_resume_tables.
  - destruct Hok as [Hu Ht]. split; [done|]. eapply within_sub; [|exact Ht]. cbn. set_solver.
  - destruct Hok as [Hu Ht]. split; [done|]. eapply within_sub; [|exact Ht]. cbn. set_solver.
  - apply tables_srv_ok; [|done]. intros. apply in_handler_tables.
Qed.
End servers.
