(* ===== verification/ServerTheorems.v ===== *)
(** * Properties of the DNS servers *)
From S2P Require Import Prelude PyString OrderedDict Metrics Dns Framing Cache CacheProps SingleFlight Handler HandlerProps HandlerTheorems System SystemProps SystemOutcomes Servers ServerProps.
From stdpp Require Import base list strings gmap sets relations.
From Stdlib.Strings Require Import Byte.

(** A server state around a handler. *)
Definition srv_of `{Dnslib} (h : HSt) : SrvSt := mkSrvSt h true ∅ ∅ 0 [] [].

Module server_example.
Import handler_example.
Definition ucfg : UdpServerConfig := UdpServerConfig_default.
Definition ucfg_small : UdpServerConfig := mkUdpServerConfig "127.0.0.1" 5353 256 6184.
Definition tcfg : TcpServerConfig := TcpServerConfig_default.
Definition a : addr := ("10.0.0.1", 4000%Z).
Definition data : bytes := default [] (dns_pack request).
Definition truncated : DNSRecord := clear_sections (set_tc 1 answer).
Definition hp : HSt := mkHSt None [] (sf_new None) [] ∅ ∅ {[0 := answer]} 1.
End server_example.

(** ** Replies *)

(** C26: A UDP reply respects the payload limit: a response that fits is sent
    as it is and nothing else changes; a larger one is sent truncated, with
    the TC bit, the same transaction id and question and no records; when even
    that is too large, nothing is sent and two drop counters go up.  Whatever
    is sent parses to the record it was packed from. *)
Theorem udp_reply_correct `{DnslibLaws} (cfg : UdpServerConfig) (o : nat) (a : addr) (s : SrvSt)
    (r : DNSRecord) (w w' : bytes) :
  udp_transport s = true → (0 < max_udp_payload cfg)%Z →
  h_heap (s_h s) !! o = Some r → dns_pack r = Some w →
  dns_pack (clear_sections (set_tc 1 r)) = Some w' →
  (udp_reply cfg o a s).2 = Ret ()
  ∧ let s' := (udp_reply cfg o a s).1 in
    ((len w ≤ max_udp_payload cfg)%Z →
       udp_sent s' = udp_sent s ++ [(w, a)] ∧ dns_parse w = Some r ∧ s_h s' = s_h s)
    ∧ ((len w' ≤ max_udp_payload cfg < len w)%Z →
       udp_sent s' = udp_sent s ++ [(w', a)]
       ∧ ∃ t, dns_parse w' = Some t ∧ hdr_tc t = 1%Z ∧ hdr_id t = hdr_id r
              ∧ questions t = questions r ∧ rrs t = [] ∧ auth t = [] ∧ ar t = [])
    ∧ ((max_udp_payload cfg < len w)%Z → (max_udp_payload cfg < len w')%Z →
       udp_sent s' = udp_sent s
       ∧ count_opt (h_metrics (s_h s')) "dropped_oversize_total" =
           (count_opt (h_metrics (s_h s)) "dropped_oversize_total" + onm (h_metrics (s_h s)) 1)%Z).
Proof.
  intros Htr Hpos Ho Hw Hw'. rewrite (udp_reply_run cfg o a s r w Ho Hw), Htr, Hw'. cbn [negb].
  rewrite (proj2 (Z.ltb_lt _ _) Hpos). cbn [andb].
  destruct (max_udp_payload cfg <? len w)%Z eqn:E1; [destruct (max_udp_payload cfg <? len w')%Z eqn:E2|];
    zbool; (split; [done|]); cbn zeta; (split; [|split]); intros; try lia; cbn.
  - split; [done|]. rewrite !count_opt_inc, onm_inc. repeat case_decide; (lia || done).
  - split; [done|]. exists (clear_sections (set_tc 1 r)). split; [by apply parse_pack|done].
  - split; [done|]. split; [by apply parse_pack|done].
Qed.

Lemma udp_reply_correct_witness :
  udp_sent (udp_reply server_example.ucfg_small 0 server_example.a (srv_of server_example.hp)).1 =
  [(default [] (dns_pack server_example.truncated), server_example.a)].
Proof.
  destruct (udp_reply_correct server_example.ucfg_small 0 server_example.a (srv_of server_example.hp)
    handler_example.answer handler_example.wire (default [] (dns_pack server_example.truncated)))
    as (_ & _ & Htrunc & _); [reflexivity..|].
  destruct Htrunc as [Hsent _]; [split; vm_compute; [discriminate|reflexivity]|]. exact Hsent.
Defined.

(** A datagram is answered to its sender only, with its own transaction
    id: handling it sends at most one datagram, to the address it came from,
    that parses to a record with the id of the request, within the payload
    limit; and a datagram that does not parse is counted as malformed,
    answered by nothing and never reaches the handler. *)
Theorem udp_datagram_correct `{DnslibLaws} (tr : bool) (cc : CacheConfig) (cfg : UdpServerConfig)
    (hcfg : HandlerConfig) (log : list (CacheKey * bytes)) (data : bytes) (a : addr) (nf ns : Z) (s : SrvSt) :
  handler_ok tr cc hcfg log (s_h s) →
  let s' := (_handle_datagram_begin cfg hcfg data a nf ns s).1 in
  match dns_parse data with
  | None => s' = with_metrics (inc_opt "dropped_malformed_total"
                   (inc_opt "malformed_total" (h_metrics (s_h s)))) s
  | Some req => udp_sent s' = udp_sent s ∨
      ∃ w r, udp_sent s' = udp_sent s ++ [(w, a)] ∧ dns_parse w = Some r
             ∧ hdr_id r = hdr_id req ∧ ((0 < max_udp_payload cfg)%Z → (len w ≤ max_udp_payload cfg)%Z)
  end.
Proof.
  intros Hh s'. unfold s', _handle_datagram_begin. destruct (dns_parse data) as [req|]; [|done].
  unfold try_except, mbind, M_bind. rewrite in_handler_run.
  pose proof (handle_begin_ok tr cc hcfg log req nf ns (s_h s) Hh) as Hb. unfold begin_ok in Hb.
  destruct (handle_begin hcfg req nf ns (s_h s)) as [h' [[o|]|e]]; cbn [fst snd] in *; [|by left|done].
  destruct Hb as (r & Hr & Hid & _).
  match goal with |- context [udp_reply cfg o a ?s1] =>
    destruct (udp_reply_sent cfg o a s1 r Hr) as [E|(w & r' & E & Hp & Hid' & Hlen)];
      destruct (udp_reply cfg o a s1) as [s2 [[]|e]]; cbn [fst snd] in *; try destruct (is_Exception e)
  end; [by left..| | |];
    (right; exists w, r'; split; [exact E|split; [exact Hp|split; [congruence|exact Hlen]]]).
Qed.

Lemma udp_datagram_correct_witness :
  udp_sent (_handle_datagram_begin server_example.ucfg handler_example.cfg [Byte.x07] server_example.a 1 2
    (srv_of handler_example.h0)).1 = [].
Proof.
  pose proof (udp_datagram_correct false handler_example.cc server_example.ucfg handler_example.cfg []
    [Byte.x07] server_example.a 1 2 (srv_of handler_example.h0)) as Hc.
  rewrite Hc; [reflexivity|]. apply handler_new_ok; [|reflexivity].
  repeat split; vm_compute; discriminate.
Defined.

(** A TCP reply is one length-prefixed message: a response within
    [max_message_size] (and below 65536 bytes) is written to its connection
    so that a reader of the connection gets back exactly the packed response;
    a larger one is dropped and counted, and nothing is written. *)
Theorem tcp_reply_correct `{Dnslib} (cfg : TcpServerConfig) (o conn : nat) (s : SrvSt)
    (r : DNSRecord) (w : bytes) :
  (0 < max_message_size cfg < 65536)%Z →
  h_heap (s_h s) !! o = Some r → dns_pack r = Some w →
  (tcp_reply cfg o conn s).2 = Ret ()
  ∧ let s' := (tcp_reply cfg o conn s).1 in
    ((len w ≤ max_message_size cfg)%Z →
       ∃ f, tcp_written s' = tcp_written s ++ [(conn, f)] ∧ s_h s' = s_h s
         ∧ ∀ rest e, ∃ lb, readexactly 2 (mkStream (f ++ rest) e) = Ret (lb, mkStream (w ++ rest) e)
             ∧ readexactly (from_bytes lb) (mkStream (w ++ rest) e) = Ret (w, mkStream rest e))
    ∧ ((max_message_size cfg < len w)%Z →
       tcp_written s' = tcp_written s
       ∧ count_opt (h_metrics (s_h s')) "dropped_total" =
           (count_opt (h_metrics (s_h s)) "dropped_total" + onm (h_metrics (s_h s)) 1)%Z).
Proof.
  intros Hmax Ho Hw. rewrite (tcp_reply_run cfg o conn s r w) by done.
  rewrite (proj2 (Z.ltb_lt 0 _)) by lia. cbn [andb].
  destruct (max_message_size cfg <? len w)%Z eqn:E; zbool.
  - split; [done|]. split; [lia|]. intros _. split; [done|]. cbn.
    rewrite !count_opt_inc. repeat case_decide; (lia || done).
  - rewrite (proj2 (Z.ltb_lt (len w) _)) by lia. split; [done|]. split; [|lia]. intros _.
    exists (frame w). split; [done|]. split; [done|]. intros rest e.
    destruct (frame_read w rest e) as (lb & ? & ? & _); [lia|]. eauto.
Qed.

Lemma tcp_reply_correct_witness :
  (tcp_reply server_example.tcfg 0 3 (srv_of server_example.hp)).2 = Ret ().
Proof.
  refine (proj1 (tcp_reply_correct server_example.tcfg 0 3 (srv_of server_example.hp)
    handler_example.answer handler_example.wire _ _ _)).
  - split; reflexivity.
  - reflexivity.
  - reflexivity.
Defined.

(** What serving messages one after the other is, without a stream: each is
    given a task of its own, which is in the set of requests in flight while it
    runs, unless the set is full: then the message is dropped and nothing more
    is served. *)
Section in_turn.
Context `{Dnslib} (cfg : TcpServerConfig) (serve : nat → bytes → M SrvSt ()).

Definition serve_one (m : bytes) : M SrvSt () :=
  t ← gets next_client;
  modify (λ s, set_tcp_inflight ({[t]} ∪ tcp_inflight s) (S t) s);;
  try_finally (serve t m) (λ s, set_tcp_inflight (tcp_inflight s ∖ {[t]}) (next_client s) s).

Fixpoint in_turn (ms : list bytes) (last : M SrvSt ()) : M SrvSt () :=
  match ms with
  | [] => last
  | m :: ms =>
      full ← gets (λ s, at_limit (tcp_max_inflight cfg) (tcp_inflight s));
      if full : bool then drop_max_inflight else serve_one m;; in_turn ms last
  end.

(** How a stream that ends with [e] ends the loop. *)
Definition stream_end (e : exn) : M SrvSt () := if is_read_error e then mret () else raise e.

Lemma client_loop_in_turn ms e fuel s :
  (0 < max_message_size cfg < 65536)%Z → Forall (λ m, (len m ≤ max_message_size cfg)%Z) ms →
  length (mjoin (frame <$> ms)) < fuel →
  client_loop fuel cfg serve (mkStream (mjoin (frame <$> ms)) e) s = in_turn ms (stream_end e) s.
Proof.
  intros Hmax Hms. revert fuel s.
  induction Hms as [|m ms Hm Hms IH]; intros fuel s Hfuel; (destruct fuel as [|fuel]; [lia|]).
  - cbn [client_loop fmap list_fmap mjoin list_join in_turn]. unfold mbind, M_bind, stream_end.
    unfold tcp_read_request, try_except, mbind, M_bind, lift_res.
    assert (readexactly 2 (mkStream [] e) = Raise e) as -> by done. by destruct (is_read_error e).
  - assert (mjoin (frame <$> m :: ms) = frame m ++ mjoin (frame <$> ms)) as Hj by done.
    rewrite Hj in *. rewrite length_app in Hfuel. pose proof (frame_length m ltac:(lia)) as Hfl.
    cbn [client_loop in_turn]. unfold mbind, M_bind, gets.
    destruct (at_limit (tcp_max_inflight cfg) (tcp_inflight s)) eqn:Hlim.
    + rewrite (tcp_read_full cfg m) by (done || lia). done.
    + rewrite (tcp_read_frame cfg m) by (done || lia). unfold serve_one, mbind, M_bind, gets, modify, try_finally.
      destruct (serve (next_client s) m _) as [s2 [[]|e2]]; [|done]. cbn [tcp_task_done modify fst]. apply IH. lia.
Qed.

(** One message leaves the table as it was. *)
Lemma serve_one_tables m s :
  (∀ t m u f n, preserves (tables_are u f n) (serve t m)) → (∀ t, t ∈ tcp_inflight s → t < next_client s) →
  tcp_inflight (serve_one m s).1 = tcp_inflight s ∧ next_client s ≤ next_client (serve_one m s).1.
Proof.
  intros Htab Hfresh. unfold serve_one, mbind, M_bind, gets, modify, try_finally.
  set (s1 := set_tcp_inflight _ _ s).
  destruct (Htab (next_client s) m (udp_inflight s) ({[next_client s]} ∪ tcp_inflight s) (S (next_client s)) s1
    ltac:(done)) as (_ & Et & En).
  destruct (serve (next_client s) m s1) as [s2 r2]. cbn [fst] in *. cbn. rewrite Et, En. split; [|lia].
  apply set_eq. intros x. specialize (Hfresh x).
  destruct (decide (x = next_client s)) as [->|]; set_solver by lia.
Qed.

(** So none is dropped. *)
Lemma in_turn_all ms e s :
  (∀ t m u f n, preserves (tables_are u f n) (serve t m)) →
  at_limit (tcp_max_inflight cfg) (tcp_inflight s) = false → (∀ t, t ∈ tcp_inflight s → t < next_client s) →
  in_turn ms (stream_end e) s = foldr (λ m k, serve_one m;; k) (stream_end e) ms s
  ∧ tcp_inflight (in_turn ms (stream_end e) s).1 = tcp_inflight s.
Proof.
  intros Htab. revert s. induction ms as [|m ms IH]; intros s Hlim Hfresh; cbn [in_turn foldr].
  - split; [done|]. unfold stream_end. by destruct (is_read_error e).
  - unfold mbind, M_bind, gets. rewrite Hlim. destruct (serve_one_tables m s Htab Hfresh) as [Et En].
    destruct (serve_one m s) as [s1 [[]|e1]]; [|done]. cbn [fst] in *. rewrite <- Et. apply IH; [by rewrite Et|].
    intros t. rewrite Et. intros Ht%Hfresh. lia.
Qed.
End in_turn.

(** C27: The TCP loop serves a pipelined connection: on a stream of
    length-prefixed messages, each within [max_message_size], handling the
    connection is serving exactly those messages, in order, each run to its end
    before the next is read, and then, however serving or reading ended, closing
    the writer; a message that finds [max_inflight] requests in flight is dropped
    and ends it.  When requests leave the table of requests in flight alone,
    none is dropped and the table is as before.  One turn more than the stream
    has bytes is enough. *)
Theorem tcp_client_serves_all `{Dnslib} (cfg : TcpServerConfig) (serve : nat → bytes → M SrvSt ())
    (close : M SrvSt ()) (ms : list bytes) (e : exn) (fuel : nat) (s : SrvSt) :
  (0 < max_message_size cfg < 65536)%Z →
  Forall (λ m, (len m ≤ max_message_size cfg)%Z) ms →
  length (mjoin (frame <$> ms)) < fuel →
  _handle_client fuel cfg serve close (mkStream (mjoin (frame <$> ms)) e) s
    = try_finally_do (in_turn cfg serve ms (stream_end e)) close s
  ∧ ((∀ t m u f n, preserves (tables_are u f n) (serve t m)) →
     at_limit (tcp_max_inflight cfg) (tcp_inflight s) = false → (∀ t, t ∈ tcp_inflight s → t < next_client s) →
     in_turn cfg serve ms (stream_end e) s = foldr (λ m k, serve_one serve m;; k) (stream_end e) ms s
     ∧ tcp_inflight (in_turn cfg serve ms (stream_end e) s).1 = tcp_inflight s).
Proof.
  intros Hmax Hms Hfuel. split; [|by apply in_turn_all].
  unfold _handle_client, try_finally_do. by rewrite client_loop_in_turn.
Qed.

(** A task that echoes its request on connection 3; closing is recorded on
    connection 4. *)
Lemma tcp_client_serves_all_witness :
  tcp_written (_handle_client 8 server_example.tcfg (λ _ data, tcp_write 3 data) (tcp_write 4 [])
    (mkStream (mjoin (frame <$> [[Byte.x05]; [Byte.x06; Byte.x07]])) IncompleteReadError)
    (srv_of handler_example.h0)).1 = [(3, [Byte.x05]); (3, [Byte.x06; Byte.x07]); (4, [])].
Proof.
  rewrite (proj1 (tcp_client_serves_all server_example.tcfg (λ _ data, tcp_write 3 data) (tcp_write 4 [])
    [[Byte.x05]; [Byte.x06; Byte.x07]] IncompleteReadError 8 (srv_of handler_example.h0)
    ltac:(split; reflexivity) ltac:(repeat constructor; vm_compute; discriminate)
    ltac:(vm_compute; repeat constructor))).
  vm_compute. reflexivity.
Defined.

(** C28: Load shedding: in every state the servers reach, each keeps at most
    its [max_inflight] request tasks, whatever arrives and however requests
    and handler tasks interleave (a limit of 0 or less is no limit). *)
Theorem inflight_bounded `{Dnslib} (ucfg : UdpServerConfig) (tcfg : TcpServerConfig) (hcfg : HandlerConfig)
    (h : HSt) (s : SrvSt) :
  rtc (srv_step ucfg tcfg hcfg) (srv_of h) s →
  ((0 < udp_max_inflight ucfg)%Z → (Z.of_nat (size (udp_inflight s)) ≤ udp_max_inflight ucfg)%Z)
  ∧ ((0 < tcp_max_inflight tcfg)%Z → (Z.of_nat (size (tcp_inflight s)) ≤ tcp_max_inflight tcfg)%Z).
Proof.
  intros Hr. assert (srv_ok ucfg tcfg (srv_of h)) as Hok.
  { split; intros ?; cbn; rewrite size_empty; lia. }
  revert Hok. generalize dependent (srv_of h). intros s0 Hr Hok.
  induction Hr as [s0|s0 s1 s2 Hstep _ IH]; [done|]. apply IH. by eapply srv_step_ok.
Qed.

Lemma inflight_bounded_witness :
  (Z.of_nat (size (udp_inflight (datagram_received server_example.ucfg (srv_of handler_example.h0)).1)) ≤ 256)%Z.
Proof.
  apply (inflight_bounded server_example.ucfg server_example.tcfg handler_example.cfg handler_example.h0).
  - apply rtc_once. apply step_datagram.
  - reflexivity.
Defined.

(** A datagram that arrives when [max_inflight] requests are in flight is
    dropped: no task is created and two drop counters go up; otherwise it gets
    a task of its own, which its done callback removes again. *)
Theorem datagram_received_correct `{Dnslib} (cfg : UdpServerConfig) (s : SrvSt) :
  (∀ t, t ∈ udp_inflight s → t < next_client s) →
  let s' := (datagram_received cfg s).1 in
  if decide (0 < udp_max_inflight cfg ≤ Z.of_nat (size (udp_inflight s)))%Z then
    (datagram_received cfg s).2 = Ret None ∧ udp_inflight s' = udp_inflight s
    ∧ (∀ k, k = "dropped_total" ∨ k = "dropped_max_inflight_total" →
         count_opt (h_metrics (s_h s')) k = (count_opt (h_metrics (s_h s)) k + onm (h_metrics (s_h s)) 1)%Z)
  else
    (datagram_received cfg s).2 = Ret (Some (next_client s))
    ∧ udp_inflight s' = {[next_client s]} ∪ udp_inflight s ∧ (next_client s ∉ udp_inflight s)
    ∧ udp_inflight (udp_task_done (next_client s) s').1 = udp_inflight s.
Proof.
  intros Hfresh s'. assert (next_client s ∉ udp_inflight s) as Hnew by (intros Ht%Hfresh; lia).
  unfold s', datagram_received, drop_max_inflight, mbind, M_bind, get_state, at_limit.
  case_decide as Hl.
  - rewrite (proj2 (Z.ltb_lt _ _)), (proj2 (Z.leb_le _ _)) by lia. split; [done|]. split; [done|].
    intros k Hk. cbn. rewrite !count_opt_inc, onm_inc.
    destruct Hk as [->| ->]; repeat case_decide; (lia || done).
  - destruct (0 <? udp_max_inflight cfg)%Z eqn:E1, (udp_max_inflight cfg <=? Z.of_nat (size (udp_inflight s)))%Z eqn:E2;
      zbool; [lia|..]; cbn; (do 3 (split; [done|])); set_solver.
Qed.

Lemma datagram_received_correct_witness :
  (datagram_received server_example.ucfg (srv_of handler_example.h0)).2 = Ret (Some 0).
Proof.
  pose proof (datagram_received_correct server_example.ucfg (srv_of handler_example.h0)) as Hd.
  rewrite decide_False in Hd by (intros [_ Hle]; vm_compute in Hle; by apply Hle).
  apply Hd. intros t Ht. by apply not_elem_of_empty in Ht.
Defined.

(** ** A shared response object *)

(** A UDP and a TCP client wait for the same resolution; both resume on its
    result, the UDP client first. *)
Module shared_response.
Import handler_example server_example.
Definition request_tcp : DNSRecord := mkDNSRecord 9 0 0 () [q] [] [] [].
Definition tcp_data : bytes := default [] (dns_pack request_tcp).
Definition s1 : SrvSt := (_handle_datagram_begin ucfg_small cfg data a 1 2 (srv_of h0)).1.
Definition s2 : SrvSt := (_handle_request_begin tcfg cfg tcp_data 7 3 4 s1).1.
Definition s3 : SrvSt :=
  (in_handler (λ h, (task_resume cc 0 up 5 6 (task_begin 0 h), Ret ())) s2).1.
Definition s4 : SrvSt :=
  (_handle_datagram_resume ucfg_small cfg (mkWaiting request key "a.com" "A" 0) a (Ret (Some 0)) 7 s3).1.
Definition s5 : SrvSt :=
  (_handle_request_resume tcfg cfg (mkWaiting request_tcp key "a.com" "A" 0) 7 (Ret (Some 0)) 8 s4).1.
End shared_response.

(** The UDP reply truncates the object both clients were given, so the TCP
    client, whose limit the full answer respects, is written a reply with the
    TC bit set and no records. *)
Lemma tcp_joiner_gets_truncated_answer :
  h_heap (s_h shared_response.s3) !! 0 = Some handler_example.answer
  ∧ (len handler_example.wire ≤ max_message_size server_example.tcfg)%Z
  ∧ tcp_written shared_response.s5 =
    [(7, frame (default [] (dns_pack (set_id 9 server_example.truncated))))].
Proof. vm_compute. split; [reflexivity|]. split; [discriminate|reflexivity]. Qed.
