(* ===== verification/Net.v ===== *)
(** * The servers on the event loop ([src/resilientdns/dns/server.py])

    The composition of both servers with the handler: datagrams and TCP
    connections arrive, their request tasks start, wait for a resolution and
    reply, connections go on to their next request, and in between the
    handler's own tasks take their steps, in any order.  [NetWorld] is the
    state of the servers together with the request tasks and connections that
    are suspended; [run_net] is one step of the event loop.

    A request task that is cancelled, by [stop] or with the resolution it
    waits for, gets [CancelledError] where it is suspended and ends without a
    reply; [NCancelNew] and [NCancelWaiting] may strike at any time.  A TCP task
    that has written its reply may still wait in [drain]: its connection goes on
    only with [NWake], or ends when that wait is cancelled ([NCancelDrain]).
    That a cancelled request also cancels the resolution it awaits is left to a
    separate event of the handler, which may follow or not. *)
From S2P Require Import Prelude PyString OrderedDict Metrics Dns Framing Cache SingleFlight Handler HandlerProps System Servers.
From stdpp Require Import base list strings gmap sets.
From Stdlib.Strings Require Import Byte.

(** Who a reply goes to: the address of a datagram, or a connection. *)
Inductive client : Type := Udp (a : addr) | Tcp (conn : nat).
#[global] Instance client_eq_dec : EqDecision client.
Proof. solve_decision. Defined.

Section net.
Context `{Dnslib}.

(** A request task as it was created. *)
Record client_task := mkClientTask { ct_id : nat; ct_client : client; ct_data : bytes }.

(** A TCP connection: reading its next request, awaiting the task of one, or
    closed. *)
Inductive conn_state : Type :=
| CReading (st : stream)
| CServing (t : nat) (st : stream)
| CClosed.

Record NetWorld := mkNetWorld {
  n_srv : SrvSt;
  n_created : list client_task;                  (** created, not yet run *)
  n_waiting : list (client_task * waiting);      (** suspended in [handle] *)
  n_conns : list conn_state;
  n_ended : list (nat * bool);                   (** ended tasks; cancelled or not *)
  n_jobs : list (CacheKey * nat);
  n_log : list (CacheKey * bytes);               (** answers of the upstream *)
  n_recv : list (client * bytes);                (** requests that were accepted *)
}.

Definition net_new (m : option Metrics) : NetWorld :=
  mkNetWorld (mkSrvSt (handler_new m) true ∅ ∅ 0 [] []) [] [] [] [] [] [] [].

Definition with_srv (s : SrvSt) (n : NetWorld) : NetWorld :=
  mkNetWorld s (n_created n) (n_waiting n) (n_conns n) (n_ended n) (n_jobs n) (n_log n) (n_recv n).
Definition with_tasks (created : list client_task) (waiting : list (client_task * waiting))
    (ended : list (nat * bool)) (n : NetWorld) : NetWorld :=
  mkNetWorld (n_srv n) created waiting (n_conns n) ended (n_jobs n) (n_log n) (n_recv n).
Definition with_conns (conns : list conn_state) (n : NetWorld) : NetWorld :=
  mkNetWorld (n_srv n) (n_created n) (n_waiting n) conns (n_ended n) (n_jobs n) (n_log n) (n_recv n).
(** A request accepted as task [t]. *)
Definition accept_task (t : nat) (c : client) (data : bytes) (n : NetWorld) : NetWorld :=
  mkNetWorld (n_srv n) (n_created n ++ [mkClientTask t c data]) (n_waiting n) (n_conns n) (n_ended n)
    (n_jobs n) (n_log n) (n_recv n ++ [(c, data)]).

(** The handler as [System] sees it. *)
Definition call_of (w : waiting) : call :=
  mkCall (wt_request w) (wt_key w) (wt_qname w) (wt_qtype_name w) (wt_task w).
Definition sys (n : NetWorld) : World :=
  mkWorld (s_h (n_srv n)) (call_of <$> (n_waiting n).*2) (n_jobs n) [] (n_log n).
(** ... and what a step of it leaves. *)
Definition of_sys (w : World) (n : NetWorld) : NetWorld :=
  let s := n_srv n in
  mkNetWorld (mkSrvSt (w_h w) (udp_transport s) (udp_inflight s) (tcp_inflight s) (next_client s)
                (udp_sent s) (tcp_written s))
    (n_created n) (n_waiting n) (n_conns n) (n_ended n) (w_jobs w) (w_log w) (n_recv n).

Inductive net_event : Type :=
| NDatagram (data : bytes) (a : addr)
| NConnect (st : stream)
| NRead (c : nat)
| NBegin (i : nat) (now_fresh now_stale : Z)
| NResume (i : nat) (now : Z)
| NCancelNew (i : nat)
| NCancelWaiting (i : nat)
| NCallback (t : nat)
| NWake (c : nat)
| NCancelDrain (c : nat)
| NHandler (ev : event)
| NStopUdp
| NStopTcp.

(** Events of the handler's own tasks; requests come from the servers. *)
Definition own_event (ev : event) : bool :=
  match ev with EvRequest _ _ _ | EvCallResume _ _ => false | _ => true end.

Context (ucfg : UdpServerConfig) (tcfg : TcpServerConfig) (cc : CacheConfig) (hcfg : HandlerConfig).

Definition request_begin (ct : client_task) (now_fresh now_stale : Z) : M SrvSt (option waiting) :=
  match ct_client ct with
  | Udp a => _handle_datagram_begin ucfg hcfg (ct_data ct) a now_fresh now_stale
  | Tcp c => _handle_request_begin tcfg hcfg (ct_data ct) c now_fresh now_stale
  end.
Definition request_resume (ct : client_task) (w : waiting) (result : res (option nat)) (now : Z) : M SrvSt () :=
  match ct_client ct with
  | Udp a => _handle_datagram_resume ucfg hcfg w a result now
  | Tcp c => _handle_request_resume tcfg hcfg w c result now
  end.

(** One step of the event loop; an event that is not enabled changes
    nothing. *)
Definition run_net (ev : net_event) (n : NetWorld) : NetWorld :=
  let s := n_srv n in
  match ev with
  | NDatagram data a =>
      match datagram_received ucfg s with
      | (s', Ret (Some t)) => accept_task t (Udp a) data (with_srv s' n)
      | (s', _) => with_srv s' n
      end
  | NConnect st => with_conns (n_conns n ++ [CReading st]) n
  | NRead c =>
      match n_conns n !! c with
      | Some (CReading st) =>
          match tcp_read_request tcfg st s with
          | (s', Ret (Some (t, data, st'))) =>
              accept_task t (Tcp c) data (with_conns (<[c := CServing t st']> (n_conns n)) (with_srv s' n))
          | (s', _) => with_conns (<[c := CClosed]> (n_conns n)) (with_srv s' n)
          end
      | _ => n
      end
  | NBegin i now_fresh now_stale =>
      match n_created n !! i with
      | None => n
      | Some ct =>
          match request_begin ct now_fresh now_stale s with
          | (s', Ret (Some w)) =>
              with_srv s' (with_tasks (delete i (n_created n)) (n_waiting n ++ [(ct, w)]) (n_ended n) n)
          | (s', Ret None) =>
              with_srv s' (with_tasks (delete i (n_created n)) (n_waiting n) (n_ended n ++ [(ct_id ct, false)]) n)
          | (s', Raise e) =>
              with_srv s' (with_tasks (delete i (n_created n)) (n_waiting n) (n_ended n ++ [(ct_id ct, true)]) n)
          end
      end
  | NResume i now =>
      match n_waiting n !! i with
      | None => n
      | Some (ct, w) =>
          match task_result_of (wt_task w) (s_h s) with
          | None => n
          | Some r =>
              let '(s', res) := request_resume ct w r now s in
              with_srv s' (with_tasks (n_created n) (delete i (n_waiting n))
                (n_ended n ++ [(ct_id ct, match res with Ret _ => false | Raise _ => true end)]) n)
          end
      end
  | NCancelNew i =>
      match n_created n !! i with
      | None => n
      | Some ct => with_tasks (delete i (n_created n)) (n_waiting n) (n_ended n ++ [(ct_id ct, true)]) n
      end
  | NCancelWaiting i =>
      match n_waiting n !! i with
      | None => n
      | Some (ct, _) => with_tasks (n_created n) (delete i (n_waiting n)) (n_ended n ++ [(ct_id ct, true)]) n
      end
  | NCallback t =>
      if bool_decide (t ∈ (n_ended n).*1)
      then with_srv (udp_task_done t (tcp_task_done t s).1).1 n else n
  | NWake c =>
      match n_conns n !! c with
      | Some (CServing t st) =>
          if bool_decide ((t, false) ∈ n_ended n) then with_conns (<[c := CReading st]> (n_conns n)) n
          else if bool_decide ((t, true) ∈ n_ended n) then with_conns (<[c := CClosed]> (n_conns n)) n
          else n
      | _ => n
      end
  | NCancelDrain c =>
      match n_conns n !! c with
      | Some (CServing t _) =>
          if bool_decide ((t, false) ∈ n_ended n) then with_conns (<[c := CClosed]> (n_conns n)) n else n
      | _ => n
      end
  | NHandler ev => if own_event ev then of_sys (run_event cc hcfg ev (sys n)) n else n
  | NStopUdp => with_srv (udp_cancel_tasks s).1 n
  | NStopTcp => with_srv (tcp_cancel_tasks s).1 n
  end.

Definition run_nets (evs : list net_event) (n : NetWorld) : NetWorld :=
  foldl (λ n ev, run_net ev n) n evs.
End net.
