(* ===== verification/NetProps.v ===== *)
(** * The invariant of the servers on the event loop

    Every step keeps the handler's invariant, in which task results may have
    been truncated, and every reply sent to a client answers one of that
    client's requests that had no reply yet. *)
From S2P Require Import Prelude PyString OrderedDict Metrics Dns Framing Cache CacheEvict CacheProps SingleFlight Handler HandlerProps System SystemProps SystemOutcomes Servers ServerProps Net.
From stdpp Require Import base list strings gmap sets relations.
From Stdlib.Strings Require Import Byte.

Section net_props.
Context `{DnslibLaws}.
Context (ucfg : UdpServerConfig) (tcfg : TcpServerConfig) (cc : CacheConfig) (hcfg : HandlerConfig).
Context (Hcc : cache_config_ok cc).
Implicit Types (s : SrvSt) (n : NetWorld) (c : client) (log : list (CacheKey * bytes)).

(** ** Truncating in place *)

#[local] Abbreviation inv log := (handler_ok true cc hcfg log).

Lemma truncate_inv log o h :
  inv log h → inv log (with_heap (alter truncate o (h_heap h)) (h_next h) h).
Proof.
  intros [? ? ? ? Hheap Hres ?]. split; try done.
  - intros o'. cbn. rewrite lookup_alter. intros Ho. apply Hheap.
    case_decide; [|done]. subst. by destruct (h_heap h !! o'); destruct Ho.
  - intros t k o' Ht. destruct (Hres t k o' Ht) as (r & Hr & Hu). cbn. rewrite lookup_alter.
    case_decide; [|by eauto]. subst. rewrite Hr. eauto using derived_truncate.
Qed.

(** ** Replies *)

(** What was sent to a client. *)
Definition replies (c : client) s : list bytes :=
  match c with
  | Udp a => (filter (λ p, p.2 = a) (udp_sent s)).*1
  | Tcp i => (filter (λ p, p.1 = i) (tcp_written s)).*2
  end.

(** [wire] answers the request [data]: over UDP a datagram within the limit,
    truncated or not; over TCP one length-prefixed message. *)
Definition reply_ok (c : client) log (data wire : bytes) : Prop :=
  ∃ req r0, dns_parse data = Some req ∧ answers_request true log req r0 ∧
  match c with
  | Udp _ => ∃ r, dns_parse wire = Some r ∧ (r = r0 ∨ r = truncate r0)
      ∧ ((0 < max_udp_payload ucfg)%Z → (len wire ≤ max_udp_payload ucfg)%Z)
  | Tcp _ => ∃ m, wire = frame m ∧ dns_parse m = Some r0 ∧ (len m < 65536)%Z
      ∧ ((0 < max_message_size tcfg)%Z → (len m ≤ max_message_size tcfg)%Z)
  end.

(** What a step for client [c] does to the servers: the handler's invariant
    and its tasks stay, and at most one reply is sent, to [c]. *)
Definition effect (c : client) log (data : bytes) s s' : Prop :=
  inv log (s_h s') ∧ (∀ t k, has_task t k (s_h s) → has_task t k (s_h s'))
  ∧ (∀ c', c' ≠ c → replies c' s' = replies c' s)
  ∧ (replies c s' = replies c s ∨ ∃ w, replies c s' = replies c s ++ [w] ∧ reply_ok c log data w).

Lemma effect_refl c log data s : inv log (s_h s) → effect c log data s s.
Proof. intros Hh. split; [done|]. split; [done|]. split; [done|]. by left. Qed.

Lemma effect_trans c log data s1 s2 s3 :
  (∀ c', replies c' s2 = replies c' s1) → (∀ t k, has_task t k (s_h s1) → has_task t k (s_h s2)) →
  effect c log data s2 s3 → effect c log data s1 s3.
Proof.
  intros Hr Ht (Hh & Ht' & Hne & Hc). split; [done|]. split; [auto|]. split.
  - intros c' Hne'. by rewrite Hne, Hr.
  - by rewrite Hr in Hc.
Qed.

(** Counting leaves the servers as they are. *)
Lemma inc2_inv log k1 k2 h : k1 ≠ "cache_entries" → k2 ≠ "cache_entries" →
  inv log h → inv log (with_metrics (inc_opt k2 (inc_opt k1 (h_metrics h))) h).
Proof.
  intros Hk1 Hk2 Hh. pose proof (minc_inv true cc hcfg log k1 Hk1 h Hh) as Hh1.
  exact (minc_inv true cc hcfg log k2 Hk2 _ Hh1).
Qed.

Lemma effect_inc2 c log data k1 k2 s s' : k1 ≠ "cache_entries" → k2 ≠ "cache_entries" →
  effect c log data s s' → effect c log data s (with_metrics (inc_opt k2 (inc_opt k1 (h_metrics (s_h s')))) s').
Proof.
  intros Hk1 Hk2 (Hi & Ht & Hrest). split; [by apply inc2_inv|]. split; [|by destruct c].
  intros t k Hh. by apply (has_task_sf t k (s_h s')), Ht.
Qed.

Lemma replies_sent c s w a :
  replies c (sent s w a) = replies c s ++ (if decide (c = Udp a) then [w] else []).
Proof.
  destruct c as [a'|i]; cbn; [|by rewrite app_nil_r]. rewrite filter_app, fmap_app. f_equal. cbn.
  unfold filter, list_filter. repeat case_decide; cbn; congruence.
Qed.

Lemma udp_reply_effect log o a s r req data :
  inv log (s_h s) → h_heap (s_h s) !! o = Some r → dns_parse data = Some req → answers_request true log req r →
  effect (Udp a) log data s (udp_reply ucfg o a s).1.
Proof.
  intros Hh Ho Hp Ha. destruct (dns_pack r) as [w|] eqn:Hw.
  2: { unfold udp_reply, mbind, M_bind, gets. destruct (udp_transport s); [|by apply effect_refl]. cbn [when].
       rewrite pack_obj_run, Ho. cbn [mbind option_bind]. rewrite Hw. by apply effect_refl. }
  rewrite (udp_reply_run ucfg o a s r w) by done. destruct (udp_transport s); [|by apply effect_refl]. cbn [negb].
  assert (∀ s' w' r', s_h s' = s_h s ∨ s' = truncated_at o s → (∀ c', replies c' s' = replies c' s) →
    dns_pack r' = Some w' → r' = r ∨ r' = truncate r →
    ((0 < max_udp_payload ucfg)%Z → (len w' ≤ max_udp_payload ucfg)%Z) →
    effect (Udp a) log data s (sent s' w' a)) as Hsent.
  { intros s' w' r' Hs' Hrep Hw' Hr' Hlen. split; [|split; [|split]].
    - cbn. destruct Hs' as [-> | ->]; [done|by apply truncate_inv].
    - intros t k Ht. destruct Hs' as [E | ->]; [cbn; by rewrite E|by apply (has_task_sf t k (s_h s))].
    - intros c' Hne. by rewrite replies_sent, decide_False, app_nil_r, Hrep by done.
    - right. exists w'. rewrite replies_sent, decide_True, Hrep by done. split; [done|].
      exists req, r. split; [done|]. split; [done|]. exists r'. split; [by apply parse_pack|done]. }
  destruct (0 <? max_udp_payload ucfg)%Z eqn:E0, (max_udp_payload ucfg <? len w)%Z eqn:E1; cbn [andb]; zbool;
    try (apply (Hsent s w r); auto; lia).
  assert (effect (Udp a) log data s (truncated_at o s)) as Htr.
  { split; [by apply truncate_inv|]. split; [intros t k; by apply has_task_sf|]. split; [done|by left]. }
  change (clear_sections (set_tc 1 r)) with (truncate r).
  destruct (dns_pack (truncate r)) as [w'|] eqn:Hw'; [|done].
  destruct (max_udp_payload ucfg <? len w')%Z eqn:E2; zbool.
  - by apply (effect_inc2 _ _ _ "dropped_total" "dropped_oversize_total" s (truncated_at o s)).
  - apply (Hsent (truncated_at o s) w' (truncate r)); auto.
Qed.

Lemma tcp_reply_effect log o i s r req data :
  inv log (s_h s) → h_heap (s_h s) !! o = Some r → dns_parse data = Some req → answers_request true log req r →
  effect (Tcp i) log data s (tcp_reply tcfg o i s).1.
Proof.
  intros Hh Ho Hp Ha. destruct (dns_pack r) as [w|] eqn:Hw.
  2: { unfold tcp_reply, mbind, M_bind. rewrite pack_obj_run, Ho. cbn [mbind option_bind]. rewrite Hw.
       by apply effect_refl. }
  rewrite (tcp_reply_run tcfg o i s r w) by done.
  destruct ((0 <? max_message_size tcfg) && (max_message_size tcfg <? len w))%Z eqn:E.
  { by apply (effect_inc2 _ _ _ "dropped_total" "dropped_oversize_total" s s); [..|apply effect_refl]. }
  destruct (len w <? 65536)%Z eqn:E2; zbool; [|by apply effect_refl].
  split; [done|]. split; [done|]. split.
  - intros [a'|j] Hne; [done|]. cbn. rewrite filter_app, filter_cons_False by (cbn; congruence).
    by rewrite app_nil_r.
  - right. exists (frame w). split.
    + cbn. by rewrite filter_app, filter_cons_True, filter_nil, fmap_app by done.
    + exists req, r. split; [done|]. split; [done|]. exists w. split; [done|]. split; [by apply parse_pack|].
      split; [done|]. intros Hpos. apply andb_false_iff in E as [E|E]; zbool; lia.
Qed.

(** ** Requests *)

(** What [request_begin] gives. *)
Definition begun log ct s (sr : SrvSt * res (option waiting)) : Prop :=
  effect (ct_client ct) log (ct_data ct) s sr.1
  ∧ match sr.2 with
    | Ret (Some w) => dns_parse (ct_data ct) = Some (wt_request w) ∧ call_ok (s_h sr.1) (call_of w)
        ∧ replies (ct_client ct) sr.1 = replies (ct_client ct) s
    | _ => True
    end.

(** The body of both request coroutines up to [handle]'s suspension. *)
Definition begin_body req nf ns (reply : nat → M SrvSt ()) : M SrvSt (option waiting) :=
  try_except
    (out ← in_handler (handle_begin hcfg req nf ns);
     match out with
     | HReturn o => reply o;; mret None
     | HAwait key qname qtype_name t => mret (Some (mkWaiting req key qname qtype_name t))
     end) is_Exception (λ _, mret None).

Lemma try_none {A} (m : M SrvSt ()) s :
  (∃ r, try_except (m;; mret (None : option A)) is_Exception (λ _, mret None) s = ((m s).1, r) ∧ ∀ a, r ≠ Ret (Some a)).
Proof.
  unfold try_except, mbind, M_bind. destruct (m s) as [s' [[]|e]]; cbn; [by eexists|].
  destruct (is_Exception e); by eexists.
Qed.

Lemma begin_body_ok log ct req nf ns reply s :
  (∀ o r s1, inv log (s_h s1) → h_heap (s_h s1) !! o = Some r → answers_request true log req r →
     effect (ct_client ct) log (ct_data ct) s1 (reply o s1).1) →
  dns_parse (ct_data ct) = Some req → inv log (s_h s) → begun log ct s (begin_body req nf ns reply s).
Proof.
  intros Hreply Hp Hh. unfold begun, begin_body.
  pose proof (handle_begin_inv true cc hcfg log req nf ns _ Hh) as Hi.
  pose proof (handle_begin_ok true cc hcfg log req nf ns _ Hh) as Hb. unfold begin_ok in Hb.
  pose proof (λ t k, handle_begin_task t k hcfg req nf ns (s_h s)) as Ht.
  assert (∀ f, try_except (in_handler (handle_begin hcfg req nf ns) ≫= f) is_Exception (λ _, mret (None : option waiting)) s =
    match (in_handler (handle_begin hcfg req nf ns) s).2 with
    | Ret out => try_except (f out) is_Exception (λ _, mret None) (in_handler (handle_begin hcfg req nf ns) s).1
    | Raise e => try_except (raise e) is_Exception (λ _, mret None) (in_handler (handle_begin hcfg req nf ns) s).1
    end) as Hbind.
  { intros f. unfold try_except, mbind, M_bind. by destruct (in_handler _ s) as [s' [|]]. }
  rewrite Hbind, in_handler_run. clear Hbind. cbn [fst snd].
  destruct (handle_begin hcfg req nf ns (s_h s)) as [h' [[o|key qn qt t]|e]]; cbn [fst snd] in *; [| |done].
  - destruct Hb as (r & Hr & Ha). set (s1 := mkSrvSt h' _ _ _ _ _ _).
    destruct (try_none (A := waiting) (reply o) s1) as (x & -> & Hx). cbn [fst snd].
    split; [|by destruct x as [[w|]|]; [destruct (Hx w)|..]].
    eapply (effect_trans _ _ _ s s1); [done|done|]. by apply (Hreply o r).
  - cbn. split; [|done]. by apply (effect_trans _ _ _ s (mkSrvSt h' (udp_transport s) (udp_inflight s) (tcp_inflight s)
      (next_client s) (udp_sent s) (tcp_written s))); [..|apply effect_refl].
Qed.

Lemma malformed_begun log ct s : inv log (s_h s) → begun log ct s ((drop_malformed;; mret (None : option waiting)) s).
Proof.
  intros Hh. split; [|done].
  by apply (effect_inc2 _ _ _ "malformed_total" "dropped_malformed_total" s s); [..|apply effect_refl].
Qed.

Lemma request_begin_ok log ct nf ns s :
  inv log (s_h s) → begun log ct s (request_begin ucfg tcfg hcfg ct nf ns s).
Proof.
  intros Hh. unfold request_begin, _handle_datagram_begin, _handle_request_begin.
  destruct ct as [id c data]. cbn [ct_client ct_data].
  destruct c as [a|i], (dns_parse data) as [req|] eqn:Ep; try (by apply malformed_begun).
  - apply (begin_body_ok log (mkClientTask id (Udp a) data) req nf ns (λ o, udp_reply ucfg o a)); [|done..].
    intros o r s1 ???. by apply (udp_reply_effect log o a s1 r req).
  - apply (begin_body_ok log (mkClientTask id (Tcp i) data) req nf ns (λ o, tcp_reply tcfg o i)); [|done..].
    intros o r s1 ???. by apply (tcp_reply_effect log o i s1 r req).
Qed.

Lemma resume_body_ok log ct w result now reply s :
  (∀ o r s1, inv log (s_h s1) → h_heap (s_h s1) !! o = Some r → answers_request true log (wt_request w) r →
     effect (ct_client ct) log (ct_data ct) s1 (reply o s1).1) →
  resume_ok true log (wt_request w) result
    (handle_resume hcfg (wt_request w) (wt_key w) (wt_qname w) (wt_qtype_name w) result now (s_h s)) →
  inv log (s_h s) →
  effect (ct_client ct) log (ct_data ct) s
    (try_except (o ← in_handler (handle_resume hcfg (wt_request w) (wt_key w) (wt_qname w) (wt_qtype_name w) result now);
                 reply o) is_Exception (λ _, mret ()) s).1.
Proof.
  intros Hreply Hr Hh. unfold resume_ok in Hr.
  pose proof (handle_resume_inv true cc hcfg log (wt_request w) (wt_key w) (wt_qname w) (wt_qtype_name w) result now _ Hh) as Hi.
  pose proof (λ t k, handle_resume_task t k hcfg (wt_request w) (wt_key w) (wt_qname w) (wt_qtype_name w) result now (s_h s)) as Ht.
  unfold try_except, mbind, M_bind. rewrite in_handler_run.
  destruct (handle_resume _ _ _ _ _ _ _ _) as [h' [o|e]]; cbn [fst snd] in *; set (s1 := mkSrvSt h' _ _ _ _ _ _).
  - destruct Hr as (r & Hr & Ha). pose proof (Hreply o r s1 Hi Hr Ha) as He.
    assert (effect (ct_client ct) log (ct_data ct) s (reply o s1).1) as Hs by (by apply (effect_trans _ _ _ s s1)).
    destruct (reply o s1) as [s2 [[]|e]]; cbn in *; [done|]. by destruct (is_Exception e).
  - assert (effect (ct_client ct) log (ct_data ct) s s1) as Hs
      by (by apply (effect_trans _ _ _ s s1); [..|apply effect_refl]).
    by destruct (is_Exception e).
Qed.

Lemma request_resume_ok log ct w result now s :
  dns_parse (ct_data ct) = Some (wt_request w) →
  resume_ok true log (wt_request w) result
    (handle_resume hcfg (wt_request w) (wt_key w) (wt_qname w) (wt_qtype_name w) result now (s_h s)) →
  inv log (s_h s) →
  effect (ct_client ct) log (ct_data ct) s (request_resume ucfg tcfg hcfg ct w result now s).1.
Proof.
  intros Hp Hr Hh. unfold request_resume, _handle_datagram_resume, _handle_request_resume.
  destruct ct as [id [a|i] data]; cbn [ct_client ct_data] in *.
  - apply (resume_body_ok log (mkClientTask id (Udp a) data) w result now (λ o, udp_reply ucfg o a)); [|done..].
    intros o r s1 ???. by apply (udp_reply_effect log o a s1 r (wt_request w)).
  - apply (resume_body_ok log (mkClientTask id (Tcp i) data) w result now (λ o, tcp_reply tcfg o i)); [|done..].
    intros o r s1 ???. by apply (tcp_reply_effect log o i s1 r (wt_request w)).
Qed.

(** ** The invariant *)

Definition requests_of (c : client) (l : list (client * bytes)) : list bytes := (filter (λ p, p.1 = c) l).*2.
Definition task_request (ct : client_task) : client * bytes := (ct_client ct, ct_data ct).

(** The replies to [c] answer distinct requests of [c], apart from the ones
    that [tasks] still work on. *)
Definition tally log (tasks : list client_task) (recv : list (client * bytes)) s (c : client) : Prop :=
  ∃ reqs, reqs ++ requests_of c (task_request <$> tasks) ⊆+ requests_of c recv
          ∧ Forall2 (reply_ok c log) reqs (replies c s).

Record net_ok n : Prop := {
  no_sys : world_ok true cc hcfg (sys n);
  no_waiting : Forall (λ p, dns_parse (ct_data p.1) = Some (wt_request p.2)) (n_waiting n);
  no_tally : ∀ c, tally (n_log n) (n_created n ++ (n_waiting n).*1) (n_recv n) (n_srv n) c;
}.

Lemma requests_of_app c l l' : requests_of c (l ++ l') = requests_of c l ++ requests_of c l'.
Proof. unfold requests_of. by rewrite filter_app, fmap_app. Qed.
#[local] Instance requests_of_proper c : Proper ((≡ₚ) ==> (≡ₚ)) (requests_of c).
Proof. intros l l' Hl. unfold requests_of. by rewrite Hl. Qed.
Lemma requests_of_cons c x l :
  requests_of c (x :: l) = (if decide (x.1 = c) then [x.2] else []) ++ requests_of c l.
Proof. unfold requests_of, filter. cbn. by case_decide. Qed.

Lemma tally_perm log tasks tasks' recv s s' c :
  tasks ≡ₚ tasks' → replies c s' = replies c s → tally log tasks recv s c → tally log tasks' recv s' c.
Proof. intros Hp E (reqs & Hs & Hr). exists reqs. split; [by rewrite <- Hp|by rewrite E]. Qed.

Lemma tally_accept log ct tasks recv s c :
  tally log tasks recv s c → tally log (ct :: tasks) (recv ++ [task_request ct]) s c.
Proof.
  intros (reqs & Hs & Hr). exists reqs. split; [|done]. rewrite requests_of_app. cbn [fmap list_fmap].
  rewrite !requests_of_cons. change (requests_of c []) with (@nil bytes). rewrite app_nil_r.
  rewrite (Permutation_app_comm (if decide _ then _ else _)), app_assoc. by apply submseteq_skips_r.
Qed.

(** A task that ends: its request is answered, or never will be. *)
Lemma tally_settle log ct tasks recv s s' c :
  effect (ct_client ct) log (ct_data ct) s s' → tally log (ct :: tasks) recv s c → tally log tasks recv s' c.
Proof.
  intros (_ & _ & Hne & Hc) (reqs & Hs & Hr). cbn [fmap list_fmap] in Hs. rewrite requests_of_cons in Hs.
  unfold task_request at 1 in Hs. cbn [fst] in Hs.
  assert (reqs ++ requests_of c (task_request <$> tasks) ⊆+ requests_of c recv) as Hs0.
  { etrans; [|exact Hs]. apply submseteq_skips_l. by apply submseteq_inserts_l. }
  destruct (decide (ct_client ct = c)) as [<-|Hn].
  - destruct Hc as [E|(w & E & Hw)]; [exists reqs; by rewrite E|].
    exists (reqs ++ [ct_data ct]). rewrite E, <- app_assoc. split; [done|].
    apply Forall2_app; [done|]. by constructor.
  - exists reqs. rewrite Hne by done. done.
Qed.

Lemma reply_ok_log c log log' data w : reply_ok c log data w → reply_ok c (log ++ log') data w.
Proof.
  intros (req & r0 & Hp & [Hid Ha] & Hc). exists req, r0. split; [done|]. split; [|done]. split; [done|].
  destruct (questions req); [done|]. destruct Ha; auto using derived_log.
Qed.

Lemma tally_log log log' tasks recv s c : tally log tasks recv s c → tally (log ++ log') tasks recv s c.
Proof.
  intros (reqs & Hs & Hr). exists reqs. split; [done|]. eapply Forall2_impl; [exact Hr|].
  intros d w. apply reply_ok_log.
Qed.

(** ** Steps *)

Lemma net_inv n : net_ok n → inv (n_log n) (s_h (n_srv n)).
Proof. intros Hn. apply (wo_h _ _ _ _ (no_sys _ Hn)). Qed.

(** A step of the servers that sends nothing. *)
Lemma quiet_step s' n :
  inv (n_log n) (s_h s') → (∀ t k, has_task t k (s_h (n_srv n)) → has_task t k (s_h s')) →
  (∀ c, replies c s' = replies c (n_srv n)) → net_ok n → net_ok (with_srv s' n).
Proof.
  intros Hi Ht Hr [Hs Hw Hc]. split; [|done|].
  - by apply (world_step_h true cc hcfg (s_h s') (sys n)).
  - intros c. eapply tally_perm; [done|apply Hr|apply Hc].
Qed.

Lemma same_handler_step s' n :
  s_h s' = s_h (n_srv n) → (∀ c, replies c s' = replies c (n_srv n)) → net_ok n → net_ok (with_srv s' n).
Proof. intros E Hr Hn. apply quiet_step; rewrite ?E; auto. by apply net_inv. Qed.

Lemma drop_step k1 k2 s' n :
  k1 ≠ "cache_entries" → k2 ≠ "cache_entries" →
  s' = with_metrics (inc_opt k2 (inc_opt k1 (h_metrics (s_h (n_srv n))))) (n_srv n) → net_ok n → net_ok (with_srv s' n).
Proof.
  intros Hk1 Hk2 -> Hn. apply quiet_step; [|..|done].
  - by apply inc2_inv, net_inv.
  - intros t k. by apply has_task_sf.
  - by intros [].
Qed.

Lemma with_conns_ok conns n : net_ok n → net_ok (with_conns conns n).
Proof. by intros [Hs Hw Hc]. Qed.

Lemma accept_ok t c data n : net_ok n → net_ok (accept_task t c data n).
Proof.
  intros [Hs Hw Hc]. split; [done|done|]. intros c'. cbn.
  eapply (tally_perm _ (mkClientTask t c data :: n_created n ++ (n_waiting n).*1)); [|done|].
  - rewrite <- app_assoc. cbn. by rewrite Permutation_middle.
  - by apply (tally_accept _ (mkClientTask t c data)).
Qed.

(** What reading a request does: nothing, a counted drop, or a new task. *)
Lemma tcp_read_effect st s :
  let '(s', r) := tcp_read_request tcfg st s in
  s' = s ∨ (∃ k, k ≠ "cache_entries" ∧ s' = dropped k s) ∨ (∃ f m, s' = set_tcp_inflight f m s).
Proof.
  unfold tcp_read_request, try_except, mbind, M_bind, lift_res, get_state.
  destruct (readexactly 2 st) as [[lb st1]|e]; [|destruct (is_read_error e); by left].
  cbn [fst snd]. destruct (_ && _)%Z; [right; left; by exists "dropped_oversize_total"|].
  destruct (readexactly (from_bytes lb) st1) as [[data rest]|e]; [|destruct (is_read_error e); by left].
  destruct (at_limit _ _); [right; left; by exists "dropped_max_inflight_total"|]. right; right. by eexists _, _.
Qed.

Lemma datagram_effect s :
  let '(s', r) := datagram_received ucfg s in
  (s' = dropped "dropped_max_inflight_total" s ∧ r = Ret None)
  ∨ (∃ f m, s' = set_udp_inflight f m s ∧ r = Ret (Some (next_client s))).
Proof.
  unfold datagram_received, mbind, M_bind, get_state. destruct (at_limit _ _); [by left|]. right. by eexists _, _.
Qed.

Lemma datagram_step data a n : net_ok n → net_ok (run_net ucfg tcfg cc hcfg (NDatagram data a) n).
Proof.
  intros Hn. cbn [run_net]. pose proof (datagram_effect (n_srv n)) as He.
  destruct (datagram_received ucfg (n_srv n)) as [s' r]. destruct He as [[-> ->]|(f & m & -> & ->)].
  - by apply (drop_step "dropped_total" "dropped_max_inflight_total").
  - apply accept_ok. apply same_handler_step; [done|by intros []|done].
Qed.

Lemma read_step (c : nat) n : net_ok n → net_ok (run_net ucfg tcfg cc hcfg (NRead c) n).
Proof.
  intros Hn. cbn [run_net]. destruct (n_conns n !! c) as [[st| |]|]; [|done..].
  pose proof (tcp_read_effect st (n_srv n)) as He. destruct (tcp_read_request tcfg st (n_srv n)) as [s' r].
  assert (net_ok (with_srv s' n)) as Hs.
  { destruct He as [-> |[(k & Hk & ->)|(f & m & ->)]].
    - by apply same_handler_step.
    - by apply (drop_step "dropped_total" k).
    - apply same_handler_step; [done|by intros []|done]. }
  destruct r as [[[[t data] st']|]|e]; [|by apply with_conns_ok..]. apply accept_ok. by apply with_conns_ok.
Qed.

(** Ending a task. *)
Lemma settle_step ct created waiting ended s' n :
  n_created n ++ (n_waiting n).*1 ≡ₚ ct :: created ++ waiting.*1 →
  waiting ⊆ n_waiting n →
  effect (ct_client ct) (n_log n) (ct_data ct) (n_srv n) s' → net_ok n →
  net_ok (with_srv s' (with_tasks created waiting ended n)).
Proof.
  intros Hp Hsub Heff [Hs Hw Hc]. pose proof Heff as (Hi & Ht & _). split.
  - destruct Hs as [Hh Hcalls Hout]. split; [done| |done]. cbn.
    apply (calls_ok_step (s_h (n_srv n))); [apply Hh|done|].
    rewrite Forall_forall in *. intros x (w & -> & (p & -> & Hpw)%list_elem_of_fmap)%list_elem_of_fmap.
    apply Hcalls. apply list_elem_of_fmap_2, list_elem_of_fmap_2. by apply Hsub.
  - rewrite Forall_forall in *. intros p Hpw. by apply Hw, Hsub.
  - intros c. eapply tally_settle; [exact Heff|]. eapply tally_perm; [exact Hp|done|apply Hc].
Qed.

Lemma begin_step i nf ns n : net_ok n → net_ok (run_net ucfg tcfg cc hcfg (NBegin i nf ns) n).
Proof.
  intros Hn. cbn [run_net]. destruct (n_created n !! i) as [ct|] eqn:Ei; [|done].
  destruct (request_begin_ok (n_log n) ct nf ns (n_srv n) (net_inv n Hn)) as [Heff Hw].
  destruct (request_begin ucfg tcfg hcfg ct nf ns (n_srv n)) as [s' r]. cbn [fst snd] in *.
  pose proof (delete_Permutation _ _ _ Ei) as Hperm.
  assert (∀ ended, net_ok (with_srv s' (with_tasks (delete i (n_created n)) (n_waiting n) ended n))) as Hend.
  { intros ended. apply (settle_step ct); [|done..].
    exact (Permutation_app_tail _ Hperm). }
  destruct r as [[w|]|e]; [|apply Hend..].
  destruct Hw as (Hp & Hcall & Hrep). destruct Heff as (Hi & Ht & Hne & _). destruct Hn as [Hs Hwt Hc]. split.
  - destruct Hs as [Hh Hcalls Hout]. split; [done| |done]. cbn. rewrite !fmap_app. apply Forall_app. split.
    + by apply (calls_ok_step (s_h (n_srv n))); [apply Hh|..].
    + by apply Forall_singleton.
  - cbn. apply Forall_app. split; [done|]. by apply Forall_singleton.
  - intros c. cbn. eapply tally_perm; [| |apply Hc].
    + etrans; [exact (Permutation_app_tail _ Hperm)|]. rewrite fmap_app. cbn. rewrite app_assoc.
      by rewrite <- Permutation_cons_append.
    + destruct (decide (c = ct_client ct)) as [-> |?]; [done|by apply Hne].
Qed.

Lemma waiting_perm i n p : n_waiting n !! i = Some p →
  n_created n ++ (n_waiting n).*1 ≡ₚ p.1 :: n_created n ++ (delete i (n_waiting n)).*1
  ∧ delete i (n_waiting n) ⊆ n_waiting n.
Proof.
  intros Hi. pose proof (delete_Permutation _ _ _ Hi) as Hperm. split.
  - etrans; [apply Permutation_app_head, (fmap_Permutation fst), Hperm|]. cbn. by rewrite Permutation_middle.
  - intros x Hx. rewrite Hperm. by apply elem_of_cons; right.
Qed.

(** A waiting request whose task is done goes on. *)
Lemma waiting_resume i now n ct w r :
  net_ok n → n_waiting n !! i = Some (ct, w) → task_result_of (wt_task w) (s_h (n_srv n)) = Some r →
  effect (ct_client ct) (n_log n) (ct_data ct) (n_srv n) (request_resume ucfg tcfg hcfg ct w r now (n_srv n)).1.
Proof.
  intros Hn Ei Er.
  assert (w_calls (sys n) !! i = Some (call_of w)) as Hci by (cbn; by rewrite !list_lookup_fmap, Ei).
  pose proof (waiting_call_ok true cc hcfg i now (sys n) (call_of w) r (no_sys _ Hn) Hci Er) as Hr.
  pose proof (proj1 (Forall_lookup _ _) (no_waiting _ Hn) i _ Ei) as Hp.
  by apply request_resume_ok; [..|apply net_inv].
Qed.

Lemma resume_step i now n : net_ok n → net_ok (run_net ucfg tcfg cc hcfg (NResume i now) n).
Proof.
  intros Hn. cbn [run_net]. destruct (n_waiting n !! i) as [[ct w]|] eqn:Ei; [|done].
  destruct (task_result_of (wt_task w) (s_h (n_srv n))) as [r|] eqn:Er; [|done].
  destruct (waiting_perm i n _ Ei) as [Hperm Hsub].
  pose proof (waiting_resume i now n ct w r Hn Ei Er) as Heff.
  destruct (request_resume ucfg tcfg hcfg ct w r now (n_srv n)) as [s' x]. by apply (settle_step ct).
Qed.

Lemma cancel_step ct created waiting ended n :
  n_created n ++ (n_waiting n).*1 ≡ₚ ct :: created ++ waiting.*1 → waiting ⊆ n_waiting n →
  net_ok n → net_ok (with_tasks created waiting ended n).
Proof.
  intros Hp Hsub Hn. apply (settle_step ct created waiting ended (n_srv n) n Hp Hsub); [|done].
  by apply effect_refl, net_inv.
Qed.

Lemma own_event_run ev (w : World) : own_event ev = true →
  w_calls (run_event cc hcfg ev w) = w_calls w ∧ w_out (run_event cc hcfg ev w) = w_out w
  ∧ ∃ log', w_log (run_event cc hcfg ev w) = w_log w ++ log'.
Proof.
  intros Hown. assert (w_log w = w_log w ++ []) as Hnil by (by rewrite app_nil_r).
  destruct ev; try discriminate; cbn [run_event]; repeat case_match; cbn; eauto.
Qed.

Lemma handler_step ev n : own_event ev = true → net_ok n → net_ok (of_sys (run_event cc hcfg ev (sys n)) n).
Proof.
  intros Hown [Hs Hw Hc]. destruct (own_event_run ev (sys n) Hown) as (Hcalls & Hout & log' & Hlog).
  pose proof (run_event_ok true cc hcfg Hcc ev (sys n) Hs) as Hs'. split; [|done|].
  - destruct Hs' as [Hh Hca _]. split; [done| |constructor]. rewrite Hcalls in Hca. done.
  - intros c. cbn. rewrite Hlog. apply tally_log. eapply tally_perm; [done| |apply Hc]. by destruct c.
Qed.

Lemma run_net_ok ev n : net_ok n → net_ok (run_net ucfg tcfg cc hcfg ev n).
Proof.
  intros Hn. destruct ev as [data a|st|c|i nf ns|i now|i|i|t|c|c|ev| |].
  - by apply datagram_step.
  - by apply with_conns_ok.
  - by apply read_step.
  - by apply begin_step.
  - by apply resume_step.
  - cbn [run_net]. destruct (n_created n !! i) as [ct|] eqn:Ei; [|done]. apply (cancel_step ct); [|done..].
    exact (Permutation_app_tail _ (delete_Permutation _ _ _ Ei)).
  - cbn [run_net]. destruct (n_waiting n !! i) as [[ct w]|] eqn:Ei; [|done].
    destruct (waiting_perm i n _ Ei) as [Hperm Hsub]. by apply (cancel_step ct).
  - cbn [run_net]. case_bool_decide; [|done]. apply same_handler_step; [done|by intros []|done].
  - cbn [run_net]. repeat case_match; try done; by apply with_conns_ok.
  - cbn [run_net]. repeat case_match; try done; by apply with_conns_ok.
  - cbn [run_net]. destruct (own_event ev) eqn:Eo; [by apply handler_step|done].
  - apply same_handler_step; [done|by intros []|done].
  - apply same_handler_step; [done|by intros []|done].
Qed.

Lemma run_nets_ok evs n : net_ok n → net_ok (run_nets ucfg tcfg cc hcfg evs n).
Proof. revert n. induction evs as [|ev evs IH]; intros n Hn; [done|]. apply IH. by apply run_net_ok. Qed.

Lemma net_new_ok m : count_opt m "cache_entries" = 0%Z → net_ok (net_new m).
Proof.
  intros Hm. split; [|constructor|].
  - split; [by apply handler_new_ok|constructor|constructor].
  - intros c. exists []. split; [by apply submseteq_nil_l|]. by destruct c.
Qed.

(** ** Requests in flight *)

(** Every step of the loop is a step of the servers. *)
Lemma run_net_srv ev n :
  rtc (srv_step ucfg tcfg hcfg) (n_srv n) (n_srv (run_net ucfg tcfg cc hcfg ev n)).
Proof.
  assert (∀ s', srv_step ucfg tcfg hcfg (n_srv n) s' → rtc (srv_step ucfg tcfg hcfg) (n_srv n) s') as Hone
    by (intros; by apply rtc_once).
  destruct ev as [data a|st|c|i nf ns|i now|i|i|t|c|c|ev| |]; cbn [run_net].
  - pose proof (step_datagram ucfg tcfg hcfg (n_srv n)) as Hst.
    destruct (datagram_received ucfg (n_srv n)) as [s' [[t|]|e]]; by apply Hone.
  - done.
  - destruct (n_conns n !! c) as [[st| |]|]; [|done..].
    pose proof (step_tcp_read ucfg tcfg hcfg (n_srv n) st) as Hst.
    destruct (tcp_read_request tcfg st (n_srv n)) as [s' [[[[t data] st']|]|e]]; by apply Hone.
  - destruct (n_created n !! i) as [ct|]; [|done].
    assert (srv_step ucfg tcfg hcfg (n_srv n) (request_begin ucfg tcfg hcfg ct nf ns (n_srv n)).1) as Hst.
    { unfold request_begin. destruct (ct_client ct); [apply step_udp_begin|apply step_tcp_begin]. }
    destruct (request_begin ucfg tcfg hcfg ct nf ns (n_srv n)) as [s' [[w|]|e]]; by apply Hone.
  - destruct (n_waiting n !! i) as [[ct w]|]; [|done]. destruct (task_result_of _ _) as [r|]; [|done].
    assert (srv_step ucfg tcfg hcfg (n_srv n) (request_resume ucfg tcfg hcfg ct w r now (n_srv n)).1) as Hst.
    { unfold request_resume. destruct (ct_client ct); [apply step_udp_resume|apply step_tcp_resume]. }
    destruct (request_resume ucfg tcfg hcfg ct w r now (n_srv n)) as [s' x]. by apply Hone.
  - by destruct (n_created n !! i).
  - by destruct (n_waiting n !! i) as [[]|].
  - case_bool_decide; [|done]. eapply rtc_l; [apply step_tcp_done|]. apply rtc_once, step_udp_done.
  - by repeat case_match.
  - by repeat case_match.
  - destruct (own_event ev); [|done]. apply Hone.
    exact (step_handler ucfg tcfg hcfg (n_srv n) (λ _, (w_h (run_event cc hcfg ev (sys n)), Ret ()))).
  - apply Hone, step_udp_stop.
  - apply Hone, step_tcp_stop.
Qed.

Lemma run_nets_srv_ok evs n : srv_ok ucfg tcfg (n_srv n) → srv_ok ucfg tcfg (n_srv (run_nets ucfg tcfg cc hcfg evs n)).
Proof.
  revert n. induction evs as [|ev evs IH]; intros n Hn; [done|]. apply IH.
  eapply (rtc_ind_r (srv_ok ucfg tcfg)); [exact Hn| |apply run_net_srv].
  intros s s' _ Hstep. by eapply srv_step_ok.
Qed.
End net_props.
