(* ===== verification/NetOrder.v ===== *)
(** * Connections on the event loop

    A TCP connection has at most one request task at a time, whatever else
    runs in between, and its replies follow the order of its requests. *)
From S2P Require Import Prelude PyString OrderedDict Metrics Dns Framing Cache CacheEvict CacheProps SingleFlight Handler HandlerProps System SystemProps SystemOutcomes Servers ServerProps Net NetProps.
From stdpp Require Import base list strings gmap sets relations.
From Stdlib.Strings Require Import Byte.

Section net_order.
Context `{DnslibLaws}.
Context (ucfg : UdpServerConfig) (tcfg : TcpServerConfig) (cc : CacheConfig) (hcfg : HandlerConfig).
Context (Hcc : cache_config_ok cc).
Implicit Types (s : SrvSt) (n : NetWorld) (log : list (CacheKey * bytes)) (c : nat) (tasks : list client_task)
  (ended : list (nat * bool)) (conns : list conn_state) (recv : list (client * bytes)).
#[local] Abbreviation effect := (effect ucfg tcfg cc hcfg).
#[local] Abbreviation reply_ok := (reply_ok ucfg tcfg).

(** The tasks of a connection. *)
Definition mine c tasks : list client_task := filter (λ ct, ct_client ct = Tcp c) tasks.

(** What a connection's state says about its task. *)
Definition conn_ok tasks ended c (st : option conn_state) : Prop :=
  match st with
  | Some (CServing t _) => (t ∈ ended.*1 ∧ mine c tasks = []) ∨ ∃ ct, ct_id ct = t ∧ mine c tasks = [ct]
  | _ => mine c tasks = []
  end.

(** The replies so far answer, in order, some of the requests before the one
    being served. *)
Definition in_order log tasks recv s c : Prop :=
  ∃ settled reqs, requests_of (Tcp c) recv = settled ++ (ct_data <$> mine c tasks)
    ∧ reqs `sublist_of` settled ∧ Forall2 (reply_ok (Tcp c) log) reqs (replies (Tcp c) s).

Record tcp_inv log tasks ended conns recv s : Prop := {
  ti_ids : NoDup ((ct_id <$> tasks) ++ ended.*1);
  ti_bound : Forall (λ t, t < next_client s) ((ct_id <$> tasks) ++ ended.*1);
  ti_conns : ∀ c, conn_ok tasks ended c (conns !! c);
  ti_order : ∀ c, in_order log tasks recv s c;
}.

(** ** The list of tasks *)

Lemma mine_cons c ct tasks :
  mine c (ct :: tasks) = (if decide (ct_client ct = Tcp c) then [ct] else []) ++ mine c tasks.
Proof. unfold mine, filter. cbn. by case_decide. Qed.

Lemma mine_requests c tasks : requests_of (Tcp c) (task_request <$> tasks) = ct_data <$> mine c tasks.
Proof.
  induction tasks as [|ct tasks IH]; [done|]. cbn [fmap list_fmap]. rewrite requests_of_cons, mine_cons, fmap_app, IH.
  cbn. by case_decide.
Qed.

Lemma one_task c tasks ended st : conn_ok tasks ended c st → length (mine c tasks) ≤ 1.
Proof.
  unfold conn_ok. destruct st as [[|t st|]|]; [intros ->; cbn; lia| |intros ->; cbn; lia..].
  intros [[_ ->]|(ct & _ & ->)]; cbn; lia.
Qed.

(** A connection's state fixes its tasks, so their order in the list does not
    matter. *)
Lemma mine_perm c tasks tasks' ended st : tasks ≡ₚ tasks' → conn_ok tasks ended c st → mine c tasks' = mine c tasks.
Proof.
  intros Hp Hc. assert (mine c tasks ≡ₚ mine c tasks') as Hm by (unfold mine; by rewrite Hp).
  assert (mine c tasks = [] ∨ ∃ ct, mine c tasks = [ct]) as [E|[ct E]].
  { unfold conn_ok in Hc. destruct st as [[| |]|]; naive_solver. }
  - rewrite E in *. symmetry in Hm. by apply Permutation_nil_r in Hm.
  - rewrite E in *. symmetry in Hm. by apply Permutation_singleton_r in Hm.
Qed.

Lemma tcp_perm log tasks tasks' ended conns recv s s' :
  tasks ≡ₚ tasks' → (∀ c, replies (Tcp c) s' = replies (Tcp c) s) → next_client s' = next_client s →
  tcp_inv log tasks ended conns recv s → tcp_inv log tasks' ended conns recv s'.
Proof.
  intros Hp Hr Hn [Hid Hb Hc Ho].
  assert (∀ c, mine c tasks' = mine c tasks) as Hm by (intros c; by eapply mine_perm).
  split.
  - by rewrite <- Hp.
  - by rewrite <- Hp, Hn.
  - intros c. unfold conn_ok. rewrite Hm. apply Hc.
  - intros c. unfold in_order. rewrite Hm, Hr. apply Ho.
Qed.

Lemma tcp_log log log' tasks ended conns recv s :
  tcp_inv log tasks ended conns recv s → tcp_inv (log ++ log') tasks ended conns recv s.
Proof.
  intros [Hid Hb Hc Ho]. split; [done..|]. intros c. destruct (Ho c) as (settled & reqs & Hs & Hsub & Hr).
  exists settled, reqs. split; [done|]. split; [done|]. eapply Forall2_impl; [exact Hr|]. intros d w. apply reply_ok_log.
Qed.

(** A task ends. *)
Lemma tcp_settle log ct b tasks ended conns recv s s' :
  effect (ct_client ct) log (ct_data ct) s s' → next_client s' = next_client s →
  tcp_inv log (ct :: tasks) ended conns recv s → tcp_inv log tasks (ended ++ [(ct_id ct, b)]) conns recv s'.
Proof.
  intros (_ & _ & Hne & Hre) Hn [Hid Hb Hc Ho].
  assert (ct_id <$> ct :: tasks = ct_id ct :: (ct_id <$> tasks)) as Ecs by done. rewrite Ecs in *. clear Ecs.
  assert ((ct_id ct :: (ct_id <$> tasks)) ++ ended.*1 ≡ₚ (ct_id <$> tasks) ++ (ended ++ [(ct_id ct, b)]).*1) as Hp.
  { rewrite fmap_app, app_assoc. cbn. by rewrite <- Permutation_cons_append. }
  split.
  - by rewrite <- Hp.
  - rewrite Hn. by rewrite <- Hp.
  - intros c. specialize (Hc c). unfold conn_ok in *. rewrite mine_cons in Hc. rewrite fmap_app.
    destruct (conns !! c) as [[st|t st|]|]; case_decide; cbn [app] in Hc; try done.
    + left. destruct Hc as [[_ [=]]|(ct' & <- & [= -> E])]. split; [set_solver|done].
    + destruct Hc as [[Ht E]|Hc]; [left; split; [set_solver|done]|by right].
  - intros c. destruct (Ho c) as (settled & reqs & Hs & Hsub & Hr). unfold in_order. rewrite mine_cons in Hs.
    destruct (decide (ct_client ct = Tcp c)) as [E|Hn']; cbn [app fmap list_fmap] in Hs.
    + assert (mine c tasks = []) as Hm.
      { specialize (Hc c). unfold conn_ok in Hc. rewrite mine_cons, decide_True in Hc by done. cbn [app] in Hc.
        destruct (conns !! c) as [[| |]|]; naive_solver. }
      rewrite Hm in *. rewrite <- E in *. exists (settled ++ [ct_data ct]). destruct Hre as [-> |(w & -> & Hw)].
      * exists reqs. split; [by rewrite app_nil_r|]. split; [by apply sublist_inserts_r|done].
      * exists (reqs ++ [ct_data ct]). split; [by rewrite app_nil_r|]. split; [by apply sublist_app|].
        apply Forall2_app; [done|]. by constructor.
    + exists settled, reqs. rewrite Hne by congruence. done.
Qed.

Lemma fresh_id log tasks ended conns recv s : tcp_inv log tasks ended conns recv s →
  next_client s ∉ (ct_id <$> tasks) ++ ended.*1.
Proof. intros [_ Hb _ _] Hin. rewrite Forall_forall in Hb. specialize (Hb _ Hin). lia. Qed.

Lemma requests_of_snoc c recv (c' : client) data :
  requests_of (Tcp c) (recv ++ [(c', data)]) =
  requests_of (Tcp c) recv ++ (if decide (c' = Tcp c) then [data] else []).
Proof. rewrite requests_of_app. f_equal. unfold requests_of, filter. cbn. by case_decide. Qed.

(** A new task, of a datagram or of a connection that was reading. *)
Lemma tcp_accept log tasks ended conns conns' recv s s' cl data :
  next_client s' = S (next_client s) → (∀ c, replies (Tcp c) s' = replies (Tcp c) s) →
  (∀ c, cl = Tcp c → (∃ st, conns !! c = Some (CReading st))
                     ∧ ∃ st', conns' !! c = Some (CServing (next_client s) st')) →
  (∀ c, cl ≠ Tcp c → conns' !! c = conns !! c) →
  tcp_inv log tasks ended conns recv s →
  tcp_inv log (mkClientTask (next_client s) cl data :: tasks) ended conns' (recv ++ [(cl, data)]) s'.
Proof.
  intros Hn Hr Hcl Hother Hinv. pose proof (fresh_id _ _ _ _ _ _ Hinv) as Hfresh. destruct Hinv as [Hid Hb Hc Ho].
  assert (∀ c, cl = Tcp c → mine c tasks = []) as Hnone.
  { intros c E. destruct (Hcl c E) as [[st Est] _]. specialize (Hc c). by rewrite Est in Hc. }
  split.
  - cbn. by constructor.
  - cbn. constructor; [lia|]. eapply Forall_impl; [exact Hb|]. intros t Ht. cbn in Ht. lia.
  - intros c. unfold conn_ok. rewrite mine_cons. cbn [ct_client]. case_decide as E.
    + destruct (Hcl c E) as [_ [st' ->]]. right. exists (mkClientTask (next_client s) cl data).
      by rewrite (Hnone c E).
    + rewrite Hother by done. apply Hc.
  - intros c. destruct (Ho c) as (settled & reqs & Hs & Hsub & Hre). exists settled, reqs.
    rewrite requests_of_snoc, mine_cons, Hr. cbn [ct_client]. case_decide as E; cbn [app fmap list_fmap].
    + rewrite Hs, (Hnone c E). cbn [fmap list_fmap]. by rewrite app_nil_r.
    + by rewrite app_nil_r.
Qed.

(** A connection without a task changes its state. *)
Lemma tcp_conn log tasks ended conns conns' recv s :
  (∀ c, conns' !! c = conns !! c ∨ (mine c tasks = [] ∧ ∀ t st, conns' !! c ≠ Some (CServing t st))) →
  tcp_inv log tasks ended conns recv s → tcp_inv log tasks ended conns' recv s.
Proof.
  intros Hcs [Hid Hb Hc Ho]. split; [done|done| |done]. intros c.
  destruct (Hcs c) as [-> |[E Hn]]; [apply Hc|]. unfold conn_ok.
  destruct (conns' !! c) as [[|t st|]|]; try done. by destruct (Hn t st).
Qed.

(** ** Steps *)

Definition tasks_of n : list client_task := n_created n ++ (n_waiting n).*1.
Definition order_ok n : Prop :=
  tcp_inv (n_log n) (tasks_of n) (n_ended n) (n_conns n) (n_recv n) (n_srv n).

(** The names of tasks are handed out by the servers only. *)
Lemma begin_next ct nf ns s : next_client (request_begin ucfg tcfg hcfg ct nf ns s).1 = next_client s.
Proof.
  unfold request_begin. destruct (ct_client ct).
  - by apply (udp_begin_tables (udp_inflight s) (tcp_inflight s) (next_client s)).
  - by apply (tcp_begin_tables (udp_inflight s) (tcp_inflight s) (next_client s)).
Qed.
Lemma resume_next ct w r now s : next_client (request_resume ucfg tcfg hcfg ct w r now s).1 = next_client s.
Proof.
  unfold request_resume. destruct (ct_client ct).
  - by apply (udp_resume_tables (udp_inflight s) (tcp_inflight s) (next_client s)).
  - by apply (tcp_resume_tables (udp_inflight s) (tcp_inflight s) (next_client s)).
Qed.

Lemma srv_order s' n :
  (∀ c, replies (Tcp c) s' = replies (Tcp c) (n_srv n)) → next_client s' = next_client (n_srv n) →
  order_ok n → order_ok (with_srv s' n).
Proof. intros Hr Hn. by apply tcp_perm. Qed.

(** A task that ends, from either list. *)
Lemma settle_order ct b created waiting s' n :
  tasks_of n ≡ₚ ct :: created ++ waiting.*1 →
  effect (ct_client ct) (n_log n) (ct_data ct) (n_srv n) s' → next_client s' = next_client (n_srv n) →
  order_ok n → order_ok (with_srv s' (with_tasks created waiting (n_ended n ++ [(ct_id ct, b)]) n)).
Proof.
  intros Hp Heff Hn Ho. apply (tcp_settle _ ct b _ _ _ _ (n_srv n)); [done|done|].
  by apply (tcp_perm _ (tasks_of n) _ _ _ _ (n_srv n)).
Qed.

Lemma datagram_order data a n : order_ok n → order_ok (run_net ucfg tcfg cc hcfg (NDatagram data a) n).
Proof.
  intros Ho. cbn [run_net]. unfold datagram_received, mbind, M_bind, get_state.
  destruct (at_limit _ _); [by apply srv_order|].
  pose proof (tcp_accept (n_log n) (tasks_of n) (n_ended n) (n_conns n) (n_conns n) (n_recv n) (n_srv n)
    (set_udp_inflight ({[next_client (n_srv n)]} ∪ udp_inflight (n_srv n)) (S (next_client (n_srv n))) (n_srv n))
    (Udp a) data eq_refl (λ c, eq_refl) ltac:(done) ltac:(done) Ho) as Hacc.
  refine (tcp_perm _ _ _ _ _ _ _ _ _ (λ c, eq_refl) eq_refl Hacc). unfold tasks_of. cbn.
  rewrite <- app_assoc. cbn. by rewrite Permutation_middle.
Qed.

Lemma read_order c n : order_ok n → order_ok (run_net ucfg tcfg cc hcfg (NRead c) n).
Proof.
  intros Ho. cbn [run_net]. destruct (n_conns n !! c) as [[st| |]|] eqn:Ec; [|done..].
  assert (mine c (tasks_of n) = []) as Hm by (pose proof (ti_conns _ _ _ _ _ _ Ho c) as Hc; by rewrite Ec in Hc).
  assert (∀ s', (∀ c, replies (Tcp c) s' = replies (Tcp c) (n_srv n)) → next_client s' = next_client (n_srv n) →
    order_ok (with_conns (<[c := CClosed]> (n_conns n)) (with_srv s' n))) as Hclose.
  { intros s' Hr Hn. refine (tcp_conn _ _ _ (n_conns n) _ _ _ _ (srv_order s' n Hr Hn Ho)). intros c'. cbn.
    destruct (decide (c = c')) as [<-|?]; [|left; by rewrite list_lookup_insert_ne].
    right. split; [done|]. intros t st'. by rewrite list_lookup_insert_eq by (by eapply lookup_lt_Some). }
  destruct (tcp_read_cases tcfg st (n_srv n)) as [(m & ->)|[(e & -> & _)|(data & rest & -> & _)]]; [by apply Hclose..|].
  pose proof (tcp_accept (n_log n) (tasks_of n) (n_ended n) (n_conns n)
    (<[c := CServing (next_client (n_srv n)) rest]> (n_conns n)) (n_recv n) (n_srv n)
    (set_tcp_inflight ({[next_client (n_srv n)]} ∪ tcp_inflight (n_srv n)) (S (next_client (n_srv n))) (n_srv n))
    (Tcp c) data eq_refl (λ c, eq_refl)) as Hacc.
  assert (order_ok (accept_task (next_client (n_srv n)) (Tcp c) data
    (with_conns (<[c := CServing (next_client (n_srv n)) rest]> (n_conns n))
      (with_srv (set_tcp_inflight ({[next_client (n_srv n)]} ∪ tcp_inflight (n_srv n))
         (S (next_client (n_srv n))) (n_srv n)) n)))) as Hgoal; [|done].
  refine (tcp_perm _ _ _ _ _ _ _ _ _ (λ c, eq_refl) eq_refl (Hacc _ _ Ho)).
  - unfold tasks_of. cbn. rewrite <- app_assoc. cbn. by rewrite Permutation_middle.
  - intros c' [= <-]. split; [by exists st|]. exists rest. rewrite list_lookup_insert_eq; [done|by eapply lookup_lt_Some].
  - intros c' Hne. rewrite list_lookup_insert_ne; [done|congruence].
Qed.

Lemma begin_order i nf ns n : net_ok ucfg tcfg cc hcfg n → order_ok n →
  order_ok (run_net ucfg tcfg cc hcfg (NBegin i nf ns) n).
Proof.
  intros Hn Ho. cbn [run_net]. destruct (n_created n !! i) as [ct|] eqn:Ei; [|done].
  destruct (request_begin_ok ucfg tcfg cc hcfg (n_log n) ct nf ns (n_srv n)) as [Heff Hw]; [by eapply net_inv|].
  pose proof (begin_next ct nf ns (n_srv n)) as Hnext.
  destruct (request_begin ucfg tcfg hcfg ct nf ns (n_srv n)) as [s' r]. cbn [fst snd] in *.
  pose proof (Permutation_app_tail (n_waiting n).*1 (delete_Permutation _ _ _ Ei)) as Hperm.
  destruct r as [[w|]|e]; [|by apply settle_order..].
  destruct Hw as (_ & _ & Hrep). destruct Heff as (_ & _ & Hne & _).
  refine (tcp_perm _ (tasks_of n) _ _ _ _ (n_srv n) _ _ _ Hnext Ho).
  - etrans; [exact Hperm|]. unfold tasks_of. cbn. rewrite fmap_app, app_assoc. cbn. by rewrite <- Permutation_cons_append.
  - intros c. destruct (decide (Tcp c = ct_client ct)) as [-> |?]; [done|by apply Hne].
Qed.

Lemma resume_order i now n : net_ok ucfg tcfg cc hcfg n → order_ok n →
  order_ok (run_net ucfg tcfg cc hcfg (NResume i now) n).
Proof.
  intros Hn Ho. cbn [run_net]. destruct (n_waiting n !! i) as [[ct w]|] eqn:Ei; [|done].
  destruct (task_result_of (wt_task w) (s_h (n_srv n))) as [r|] eqn:Er; [|done].
  destruct (waiting_perm i n _ Ei) as [Hperm _].
  pose proof (waiting_resume ucfg tcfg cc hcfg i now n ct w r Hn Ei Er) as Heff.
  pose proof (resume_next ct w r now (n_srv n)) as Hnext.
  destruct (request_resume ucfg tcfg hcfg ct w r now (n_srv n)) as [s' x]. by apply (settle_order ct).
Qed.

Lemma served_order c t st b cs n :
  order_ok n → n_conns n !! c = Some (CServing t st) → (t, b) ∈ n_ended n → (∀ t st, cs ≠ CServing t st) →
  order_ok (with_conns (<[c := cs]> (n_conns n)) n).
Proof.
  intros Ho Ec Hin Hcs. refine (tcp_conn _ _ _ (n_conns n) _ _ _ _ Ho). intros c'. cbn [n_conns with_conns].
  destruct (decide (c = c')) as [<-|?]; [right|left; by rewrite list_lookup_insert_ne]. split.
  - apply (list_elem_of_fmap_2 fst) in Hin. cbn in Hin. pose proof (ti_conns _ _ _ _ _ _ Ho c) as Hc. rewrite Ec in Hc.
      destruct Hc as [[_ ?]|(ct & <- & Hm)]; [done|].
      pose proof (ti_ids _ _ _ _ _ _ Ho) as Hid. apply NoDup_app in Hid as (_ & Hdis & _).
      destruct (Hdis (ct_id ct)); [|done]. apply list_elem_of_fmap_2.
      assert (ct ∈ mine c (tasks_of n)) as Hin' by (rewrite Hm; set_solver).
      by apply list_elem_of_filter in Hin' as [_ ?].
  - intros t' st'. rewrite list_lookup_insert_eq by (by eapply lookup_lt_Some). intros [= ->]. by apply (Hcs t' st').
Qed.

Lemma wake_order c n : order_ok n →
  order_ok (run_net ucfg tcfg cc hcfg (NWake c) n) ∧ order_ok (run_net ucfg tcfg cc hcfg (NCancelDrain c) n).
Proof.
  intros Ho. cbn [run_net]. destruct (n_conns n !! c) as [[|t st|]|] eqn:Ec; try done.
  split; repeat (case_bool_decide; [by eapply served_order|]); done.
Qed.

Lemma cancel_order ct created waiting n :
  tasks_of n ≡ₚ ct :: created ++ waiting.*1 → net_ok ucfg tcfg cc hcfg n → order_ok n →
  order_ok (with_tasks created waiting (n_ended n ++ [(ct_id ct, true)]) n).
Proof.
  intros Hp Hn Ho. apply (settle_order ct true created waiting (n_srv n) n); [done| |done|done].
  apply effect_refl. by eapply net_inv.
Qed.

Lemma run_net_order ev n : net_ok ucfg tcfg cc hcfg n → order_ok n → order_ok (run_net ucfg tcfg cc hcfg ev n).
Proof.
  intros Hn Ho. destruct ev as [data a|st|c|i nf ns|i now|i|i|t|c|c|ev| |].
  - by apply datagram_order.
  - refine (tcp_conn _ _ _ (n_conns n) _ _ _ _ Ho). intros c. cbn.
    destruct (decide (c < length (n_conns n))); [left; by rewrite lookup_app_l|right]. split.
    + pose proof (ti_conns _ _ _ _ _ _ Ho c) as Hc. by rewrite lookup_ge_None_2 in Hc by lia.
    + intros t st'. rewrite lookup_app_r by lia. by destruct (c - length (n_conns n)) as [|[|]].
  - by apply read_order.
  - by apply begin_order.
  - by apply resume_order.
  - cbn [run_net]. destruct (n_created n !! i) as [ct|] eqn:Ei; [|done]. apply cancel_order; [|done..].
    exact (Permutation_app_tail _ (delete_Permutation _ _ _ Ei)).
  - cbn [run_net]. destruct (n_waiting n !! i) as [[ct w]|] eqn:Ei; [|done].
    destruct (waiting_perm i n _ Ei) as [Hperm _]. by apply cancel_order.
  - cbn [run_net]. case_bool_decide; [by apply srv_order|done].
  - by apply wake_order.
  - by apply wake_order.
  - cbn [run_net]. destruct (own_event ev) eqn:Eo; [|done].
    destruct (own_event_run cc hcfg ev (sys n) Eo) as (_ & _ & log' & Hlog).
    unfold order_ok, of_sys. cbn [n_log n_ended n_conns n_recv n_srv]. rewrite Hlog. apply tcp_log.
    by apply (tcp_perm _ (tasks_of n) _ _ _ _ (n_srv n)).
  - by apply srv_order.
  - by apply srv_order.
Qed.

Lemma run_nets_order evs n : net_ok ucfg tcfg cc hcfg n → order_ok n → order_ok (run_nets ucfg tcfg cc hcfg evs n).
Proof.
  revert n. induction evs as [|ev evs IH]; intros n Hn Ho; [done|]. apply IH; [by apply run_net_ok|by apply run_net_order].
Qed.

Lemma net_new_order m : order_ok (net_new m).
Proof.
  split; [constructor|constructor|done|]. intros c. exists [], []. split; [done|]. split; [done|constructor].
Qed.
End net_order.
