(* ===== verification/NetTheorems.v ===== *)
(** * Properties of the servers on the event loop

    What the clients of both servers receive, over every interleaving of
    datagrams, connections, resolutions, cancellations, refreshes and the
    servers' stop. *)
From S2P Require Import Prelude PyString OrderedDict Metrics Dns Framing Cache CacheProps SingleFlight Handler HandlerProps HandlerTheorems System SystemProps SystemTheorems Servers ServerProps ServerTheorems Net NetProps NetOrder.
From stdpp Require Import base list strings gmap sets.
From Stdlib.Strings Require Import Byte.

(** A datagram and a connection ask the same question: both wait for one
    resolution, and both are answered. *)
Module net_example.
Import handler_example server_example.
Definition st : stream := mkStream (frame (default [] (dns_pack system_example.request2))) IncompleteReadError.
Definition evs : list net_event :=
  [ NDatagram data a; NConnect st; NRead 0; NBegin 0 1 2; NBegin 0 3 4; NHandler (EvTaskBegin 0);
    NHandler (EvTaskResume 0 up 5 6); NResume 1 7; NResume 0 8; NCallback 0; NCallback 1; NWake 0; NRead 0 ].
Definition big : UdpServerConfig := mkUdpServerConfig "127.0.0.1" 5353 256 65535.
Definition n_end : NetWorld := run_nets big tcfg cc cfg evs (net_new (Some metrics_new)).
End net_example.

(** C3: What the clients receive: over every interleaving, the replies sent to
    an address or a connection answer distinct requests that came from it (so
    never more replies than requests), each with the transaction id of its
    request and an answer the upstream gave for the very question, an error
    reply, or, since the UDP server truncates records that requests share, such
    a reply cut down to its header and question; over UDP within the payload
    limit, over TCP as one length-prefixed message within the message limit. *)
Theorem clients_correct `{DnslibLaws} (ucfg : UdpServerConfig) (tcfg : TcpServerConfig) (cc : CacheConfig)
    (hcfg : HandlerConfig) (evs : list net_event) (m : option Metrics) (c : client) :
  cache_config_ok cc → count_opt m "cache_entries" = 0%Z →
  let n := run_nets ucfg tcfg cc hcfg evs (net_new m) in
  ∃ reqs, reqs ⊆+ requests_of c (n_recv n)
    ∧ Forall2 (reply_ok ucfg tcfg c (n_log n)) reqs (replies c (n_srv n)).
Proof.
  intros Hcc Hm n. pose proof (run_nets_ok ucfg tcfg cc hcfg Hcc evs _ (net_new_ok ucfg tcfg cc hcfg Hcc m Hm)) as Hn.
  destruct (no_tally _ _ _ _ _ Hn c) as (reqs & Hs & Hr). exists reqs. split; [|done].
  etrans; [|exact Hs]. by apply submseteq_inserts_r.
Qed.

Lemma clients_correct_witness :
  length (replies (Udp server_example.a) (n_srv net_example.n_end)) = 1
  ∧ ∃ reqs, length reqs = 1 ∧ reqs ⊆+ requests_of (Udp server_example.a) (n_recv net_example.n_end).
Proof.
  split; [vm_compute; reflexivity|].
  destruct (clients_correct net_example.big server_example.tcfg handler_example.cc handler_example.cfg net_example.evs
    (Some metrics_new) (Udp server_example.a) system_example.cc_ok) as (reqs & Hs & Hr).
  - reflexivity.
  - exists reqs. split; [|exact Hs]. apply Forall2_length in Hr. rewrite Hr. vm_compute. reflexivity.
Defined.

(** C18: Replies on a connection are in order: over every interleaving, a TCP
    connection has at most one request in work, and the messages written to
    it answer a subsequence of its requests, in the order they were read. *)
Theorem tcp_replies_in_order `{DnslibLaws} (ucfg : UdpServerConfig) (tcfg : TcpServerConfig) (cc : CacheConfig)
    (hcfg : HandlerConfig) (evs : list net_event) (m : option Metrics) (c : nat) :
  cache_config_ok cc → count_opt m "cache_entries" = 0%Z →
  let n := run_nets ucfg tcfg cc hcfg evs (net_new m) in
  length (requests_of (Tcp c) (task_request <$> n_created n ++ (n_waiting n).*1)) ≤ 1
  ∧ ∃ reqs, reqs `sublist_of` requests_of (Tcp c) (n_recv n)
      ∧ Forall2 (reply_ok ucfg tcfg (Tcp c) (n_log n)) reqs (replies (Tcp c) (n_srv n)).
Proof.
  intros Hcc Hm n.
  pose proof (run_nets_order ucfg tcfg cc hcfg Hcc evs _ (net_new_ok ucfg tcfg cc hcfg Hcc m Hm)
    (net_new_order ucfg tcfg m)) as [_ _ Hc Ho].
  split.
  - rewrite mine_requests, length_fmap. eapply one_task, Hc.
  - destruct (Ho c) as (settled & reqs & Hs & Hsub & Hr). exists reqs. split; [|done].
    fold n in Hs. rewrite Hs. by apply sublist_inserts_r.
Qed.

Lemma tcp_replies_in_order_witness :
  length (replies (Tcp 0) (n_srv net_example.n_end)) = 1
  ∧ ∃ reqs, length reqs = 1 ∧ reqs `sublist_of` requests_of (Tcp 0) (n_recv net_example.n_end).
Proof.
  split; [vm_compute; reflexivity|].
  destruct (tcp_replies_in_order net_example.big server_example.tcfg handler_example.cc handler_example.cfg net_example.evs
    (Some metrics_new) 0 system_example.cc_ok) as (_ & reqs & Hs & Hr).
  - reflexivity.
  - exists reqs. split; [|exact Hs]. apply Forall2_length in Hr. rewrite Hr. vm_compute. reflexivity.
Defined.

(** After the replies the connection reads on and, its stream having ended, is
    closed; no request is left in work or in flight. *)
Lemma net_example_ends :
  n_conns net_example.n_end = [CClosed] ∧ n_created net_example.n_end = [] ∧ n_waiting net_example.n_end = []
  ∧ udp_inflight (n_srv net_example.n_end) = ∅ ∧ tcp_inflight (n_srv net_example.n_end) = ∅.
Proof. vm_compute. done. Qed.
