(* ===== verification/Warmup.v ===== *)
(** * The warmup list ([src/resilientdns/refresh_warmup.py])

    A warmup file has one [name type] pair per line; blank lines and lines
    that start with [#] are skipped.  The text of the file is an argument:
    reading it is left to the operating system. *)
From S2P Require Import Prelude PyString OrderedDict Metrics Dns Cache SingleFlight Handler HandlerProps.
From stdpp Require Import base list strings gmap sets pretty.
From Stdlib Require Import Ascii.

Section warmup.
Context `{Dnslib}.

Definition _normalize_qname (qname : string) : string := lower (rstrip_dots (strip qname)).

Definition _parse_qtype (token : string) : option Z :=
  if isdigit token then
    let qtype_id := int_of_digits token in
    if QTYPE_forward qtype_id then Some qtype_id else None
  else QTYPE_reverse (upper token).

(** One turn of the loop: [items] and [invalid] so far. *)
Definition parse_line (acc : list CacheKey * Z) (raw_line : string) : list CacheKey * Z :=
  let '(items, invalid) := acc in
  let line := strip raw_line in
  if negb (truthy line) || starts_with_hash line then (items, invalid)
  else match str_split line with
       | [qname_raw; qtype_raw] =>
           let qname := _normalize_qname qname_raw in
           if negb (truthy qname) then (items, invalid + 1)%Z
           else match _parse_qtype qtype_raw with
                | None => (items, invalid + 1)%Z
                | Some qtype_id => (items ++ [(qname, qtype_id, CLASS_IN)], invalid)
                end
       | _ => (items, invalid + 1)%Z
       end.

Definition parse_warmup_source (text : string) : list CacheKey * Z :=
  foldl parse_line ([], 0%Z) (splitlines text).

(** The loop that calls [enqueue_fn]; [n] is [enqueued]. *)
Fixpoint enqueue_items (enqueue_fn : CacheKey → string → M HSt bool) (n : Z) (items : list CacheKey)
    : M HSt Z :=
  match items with
  | [] => mret n
  | item :: items =>
      ok ← enqueue_fn item "warmup";
      enqueue_items enqueue_fn (if (ok : bool) then n + 1 else n)%Z items
  end.

Definition enqueue_warmup_file (text : string) (enqueue_fn : CacheKey → string → M HSt bool) (limit : Z)
    : M HSt (Z * Z * Z) :=
  let '(items, invalid) := parse_warmup_source text in
  let loaded := (if (0 <? limit)%Z then Z.min (len items) limit else 0)%Z in
  minc_by "cache_refresh_warmup_loaded_total" loaded;;
  minc_by "cache_refresh_warmup_invalid_lines_total" invalid;;
  enqueued ← enqueue_items enqueue_fn 0 (take (Z.to_nat loaded) items);
  mret (loaded, invalid, enqueued).
End warmup.

(** ** Lemmas on text *)

Definition no_space (s : string) : Prop := Forall (λ c, is_space c = false) (chars s).
Definition no_break (s : string) : Prop := Forall (λ c, is_linebreak c = false) (chars s).
Definition nl : ascii := ascii_of_nat 10.
Definition sp : ascii := ascii_of_nat 32.
Definition hash : ascii := ascii_of_nat 35.

Lemma space_break c : is_space c = false → is_linebreak c = false.
Proof. destruct c as [[] [] [] [] [] [] [] []]; vm_compute; congruence. Qed.

Lemma no_space_break s : no_space s → no_break s.
Proof. unfold no_space, no_break. intros Hs. eapply Forall_impl; [exact Hs|]. apply space_break. Qed.

(** Text made of lines that end in a newline. *)
Definition unlines (ls : list string) : string :=
  unchars (mjoin ((λ l, chars l ++ [nl]) <$> ls)).

Lemma splitlines_go_line cur l rest :
  Forall (λ c, is_linebreak c = false) l →
  splitlines_go cur (l ++ nl :: rest) = unchars (reverse cur ++ l) :: splitlines_go [] rest.
Proof.
  revert cur. induction l as [|c l IH]; intros cur Hl; cbn.
  - rewrite app_nil_r. f_equal. by destruct rest.
  - apply Forall_cons in Hl as [Hc Hl]. rewrite Hc, IH by done.
    by rewrite reverse_cons, <- app_assoc.
Qed.

Lemma splitlines_unlines ls : Forall no_break ls → splitlines (unlines ls) = ls.
Proof.
  unfold splitlines, unlines. rewrite chars_unchars.
  induction ls as [|l ls IH]; intros Hls; [done|]. apply Forall_cons in Hls as [Hl Hls].
  assert (mjoin ((λ l, chars l ++ [nl]) <$> l :: ls) =
          chars l ++ nl :: mjoin ((λ l, chars l ++ [nl]) <$> ls)) as ->.
  { cbn. by rewrite <- app_assoc. }
  rewrite splitlines_go_line by done. rewrite IH by done. cbn. by rewrite unchars_chars.
Qed.

Lemma split_go_token sep cur l c rest :
  Forall (λ c, sep c = false) l → sep c = true → reverse cur ++ l ≠ [] →
  split_go sep cur (l ++ c :: rest) = unchars (reverse cur ++ l) :: split_go sep [] rest.
Proof.
  revert cur. induction l as [|x l IH]; intros cur Hl Hc Hne; cbn.
  - rewrite Hc, app_nil_r in *. destruct cur; [done|]. done.
  - apply Forall_cons in Hl as [Hx Hl]. rewrite Hx. rewrite IH; try done.
    + by rewrite reverse_cons, <- app_assoc.
    + rewrite reverse_cons, <- app_assoc. cbn. by destruct (reverse cur).
Qed.

Lemma split_go_last sep cur l :
  Forall (λ c, sep c = false) l → reverse cur ++ l ≠ [] →
  split_go sep cur l = [unchars (reverse cur ++ l)].
Proof.
  revert cur. induction l as [|x l IH]; intros cur Hl Hne; cbn.
  - rewrite app_nil_r in *. by destruct cur.
  - apply Forall_cons in Hl as [Hx Hl]. rewrite Hx, IH; [|done|].
    + by rewrite reverse_cons, <- app_assoc.
    + rewrite reverse_cons, <- app_assoc. cbn. by destruct (reverse cur).
Qed.

(** Two words with a space between. *)
Definition two_words (a b : string) : string := unchars (chars a ++ sp :: chars b).

Lemma chars_nil s : chars s = [] → s = "".
Proof. by destruct s. Qed.

Lemma str_split_two a b :
  no_space a → no_space b → a ≠ "" → b ≠ "" → str_split (two_words a b) = [a; b].
Proof.
  intros Ha Hb Hna Hnb. unfold str_split, two_words. rewrite chars_unchars.
  rewrite split_go_token; [|done|done|by intros ?%chars_nil].
  rewrite split_go_last; [|done|by intros ?%chars_nil]. cbn. by rewrite !unchars_chars.
Qed.

Lemma strip_id (l : list ascii) c1 c2 l' :
  l = c1 :: l' → last l = Some c2 → is_space c1 = false → is_space c2 = false →
  strip (unchars l) = unchars l.
Proof.
  intros -> Hlast H1 H2. unfold strip. rewrite chars_unchars. cbn [drop_while]. rewrite H1.
  f_equal. unfold rstrip_while. apply last_Some in Hlast as [l0 ->].
  rewrite reverse_snoc. cbn [drop_while]. by rewrite H2, <- reverse_snoc, reverse_involutive.
Qed.

Lemma no_space_first s : no_space s → s ≠ "" → ∃ c l, chars s = c :: l ∧ is_space c = false.
Proof.
  unfold no_space. intros Hs Hne. destruct (chars s) as [|c l] eqn:E; [by apply chars_nil in E|].
  apply Forall_cons in Hs as [? _]. eauto.
Qed.
Lemma no_space_last s : no_space s → s ≠ "" → ∃ c l, chars s = l ++ [c] ∧ is_space c = false.
Proof.
  unfold no_space. intros Hs Hne. destruct (last (chars s)) as [c|] eqn:E.
  - apply last_Some in E as [l E]. exists c, l. split; [done|]. rewrite E in Hs.
    apply Forall_app in Hs as [_ Hs]. by apply Forall_inv in Hs.
  - by apply last_None, chars_nil in E.
Qed.

Lemma strip_two a b :
  no_space a → no_space b → a ≠ "" → b ≠ "" → strip (two_words a b) = two_words a b.
Proof.
  intros Ha Hb Hna Hnb. destruct (no_space_first a Ha Hna) as (c1 & l1 & E1 & H1).
  destruct (no_space_last b Hb Hnb) as (c2 & l2 & E2 & H2). unfold two_words.
  apply (strip_id _ c1 c2 (l1 ++ sp :: chars b)); [by rewrite E1| |done|done].
  rewrite E2. change (sp :: l2 ++ [c2]) with ((sp :: l2) ++ [c2]). by rewrite app_assoc, last_snoc.
Qed.

Lemma strip_token a : no_space a → a ≠ "" → strip a = a.
Proof.
  intros Ha Hna. destruct (no_space_first a Ha Hna) as (c1 & l1 & E1 & H1).
  destruct (no_space_last a Ha Hna) as (c2 & l2 & E2 & H2). rewrite <- (unchars_chars a).
  apply (strip_id _ c1 c2 l1); [done|by rewrite E2, last_snoc|done|done].
Qed.

(** ** Properties *)

(** The lines of a warmup file that carry no error. *)
Inductive wline : Type :=
| WBlank
| WComment (text : string)
| WEntry (name qtype : string).
Definition render (l : wline) : string :=
  match l with
  | WBlank => ""
  | WComment text => String hash text
  | WEntry name qtype => two_words name qtype
  end.

Section parse.
Context `{Dnslib}.

(** What an entry line means: the key a query for the name would have. *)
Definition wline_item (l : wline) : option CacheKey :=
  match l with
  | WEntry name qtype => (λ t, (normalize name, t, CLASS_IN)) <$> _parse_qtype qtype
  | _ => None
  end.

(** Lines as the documentation describes them: names and types are words, a
    name does not start with [#] and is not the root, a type is known. *)
Definition wline_ok (l : wline) : Prop :=
  match l with
  | WBlank => True
  | WComment text => no_break text
  | WEntry name qtype =>
      no_space name ∧ no_space qtype ∧ qtype ≠ "" ∧ normalize name ≠ ""
      ∧ starts_with_hash name = false ∧ is_Some (_parse_qtype qtype)
  end.

Lemma drop_while_snoc {A} (p : A → bool) l c :
  p c = false → drop_while p (l ++ [c]) = drop_while p l ++ [c].
Proof. intros Hc. induction l as [|x l IH]; cbn; [by rewrite Hc|]. by destruct (p x). Qed.

Lemma strip_comment text : starts_with_hash (strip (String hash text)) = true.
Proof.
  unfold strip, starts_with_hash. rewrite chars_unchars. cbn [chars drop_while].
  change (is_space hash) with false. cbn iota. unfold rstrip_while.
  rewrite reverse_cons, drop_while_snoc by done. by rewrite reverse_app.
Qed.

Lemma normalize_nonempty name : normalize name ≠ "" → name ≠ "".
Proof. by intros Hn ->. Qed.

Lemma parse_line_ok l items invalid :
  wline_ok l →
  parse_line (items, invalid) (render l) =
  (items ++ match wline_item l with Some k => [k] | None => [] end, invalid).
Proof.
  destruct l as [|text|name qtype]; cbn [wline_ok render wline_item]; intros Hok.
  - by rewrite app_nil_r.
  - unfold parse_line. rewrite strip_comment, orb_true_r. by rewrite app_nil_r.
  - destruct Hok as (Hn & Hq & Hqne & Hnorm & Hhash & [t Ht]).
    pose proof (normalize_nonempty _ Hnorm) as Hne. unfold parse_line. rewrite strip_two by done.
    destruct (no_space_first name Hn Hne) as (c1 & l1 & E1 & H1).
    assert (truthy (two_words name qtype) = true) as -> by (unfold two_words; rewrite E1; done).
    assert (starts_with_hash (two_words name qtype) = false) as ->.
    { revert Hhash. unfold starts_with_hash, two_words. rewrite chars_unchars, E1. done. }
    cbn [negb orb]. rewrite str_split_two by done.
    unfold _normalize_qname. rewrite strip_token by done. fold (normalize name).
    assert (truthy (normalize name) = true) as -> by (by destruct (normalize name)).
    cbn [negb]. by rewrite Ht.
Qed.

Lemma render_no_break l : wline_ok l → no_break (render l).
Proof.
  destruct l as [|text|name qtype]; cbn.
  - constructor.
  - intros Ht. unfold no_break. cbn [chars]. by constructor.
  - intros (Hn & Hq & _). unfold no_break, two_words. rewrite chars_unchars.
    apply Forall_app; split; [by apply no_space_break|]. constructor; [done|by apply no_space_break].
Qed.

Lemma parse_lines_ok ls items :
  Forall wline_ok ls → foldl parse_line (items, 0%Z) (render <$> ls) = (items ++ omap wline_item ls, 0%Z).
Proof.
  intros Hls. revert items. induction Hls as [|l ls Hl Hls IH]; intros items; [by rewrite app_nil_r|].
  cbn [fmap list_fmap foldl]. rewrite parse_line_ok by done. rewrite IH, <- app_assoc. f_equal. f_equal.
  cbn. by destruct (wline_item l).
Qed.
End parse.

(** C34: The warmup format round-trips: a file of entry, comment and blank
    lines parses to exactly its entries, in order, with no invalid line, each
    as the cache key that a query for that name and type in class IN has. *)
Theorem warmup_roundtrip `{Dnslib} (ls : list wline) :
  Forall wline_ok ls →
  parse_warmup_source (unlines (render <$> ls)) = (omap wline_item ls, 0%Z)
  ∧ ∀ k q, k ∈ omap wline_item ls → q_qname q = k.1.1 → q_qtype q = k.1.2 → q_qclass q = k.2 → key_of q = k.
Proof.
  intros Hls. split.
  - unfold parse_warmup_source. rewrite splitlines_unlines.
    + by rewrite parse_lines_ok.
    + apply Forall_fmap. eapply Forall_impl; [exact Hls|]. intros l. apply render_no_break.
  - intros k q (l & _ & Hl)%list_elem_of_omap Hn Ht Hc. unfold key_of. rewrite Hn, Ht, Hc.
    destruct l as [| |name qtype]; [done..|]. cbn in Hl. destruct (_parse_qtype qtype); [|done].
    injection Hl as <-. cbn [fst snd]. by rewrite normalize_idemp.
Qed.

Lemma warmup_roundtrip_witness :
  parse_warmup_source (H0 := toy.toy_dnslib)
    (unlines (render <$> [WComment " popular"; WEntry "Example.COM." "aaaa"; WBlank; WEntry "a.b" "16"])) =
  ([("example.com", 28, 1); ("a.b", 16, 1)]%Z, 0%Z).
Proof.
  refine (proj1 (warmup_roundtrip (H0 := toy.toy_dnslib)
    [WComment " popular"; WEntry "Example.COM." "aaaa"; WBlank; WEntry "a.b" "16"] _)).
  repeat apply List.Forall_cons; [..|constructor]; cbn [wline_ok]; unfold no_break, no_space;
    repeat split; first [vm_compute; repeat constructor; fail | by vm_compute | eexists; reflexivity].
Defined.

(** ** Enqueueing *)

Section enqueue.
Context `{Dnslib}.
Implicit Types (h : HSt) (cfg : HandlerConfig).

(** [keys] were queued as warmup jobs, up to the registry. *)
Definition warmed h (keys : list CacheKey) h' : Prop :=
  ∃ m, h' = with_metrics m (with_queue (refresh_queue h ++ ((λ k, (k, "warmup")) <$> keys))
              (list_to_set keys ∪ queued_keys h) (inflight_keys h) h).

Lemma enqueue_items_run cfg n items h :
  ∃ keys h', enqueue_items (enqueue_refresh cfg) n items h = (h', Ret (n + len keys)%Z)
    ∧ warmed h keys h' ∧ NoDup keys ∧ keys `sublist_of` items
    ∧ (∀ k, k ∈ keys → k ∉ queued_keys h ∪ inflight_keys h)
    ∧ (queue_full cfg (refresh_queue h') = false → ∀ k, k ∈ items → k ∈ queued_keys h' ∪ inflight_keys h').
Proof.
  revert n h. induction items as [|k items IH]; intros n h.
  - exists [], h. rewrite len_nil, Z.add_0_r. split; [done|]. split.
    { exists (h_metrics h). destruct h. unfold with_queue, with_metrics, HSt_metrics. cbn.
      f_equal; [by rewrite app_nil_r|set_solver]. }
    split; [constructor|]. split; [constructor|]. split; [set_solver|]. intros _ k. set_solver.
  - cbn [enqueue_items]. unfold mbind, M_bind.
    destruct (enqueue_refresh_cases cfg k "warmup" h) as [(m & -> & Hdrop)|(Hnq & Hni & Hnf & ->)].
    + destruct (IH n (with_metrics m h)) as (keys & h' & -> & [m' ->] & Hnd & Hsub & Hnew & Hall).
      exists keys. eexists. split; [done|]. split; [by exists m'|]. split; [done|].
      split; [by constructor|]. split; [done|]. intros Hf k' [->|Hk']%elem_of_cons; [|by apply Hall].
      destruct Hdrop as [?|[?|Hfull]]; [cbn; set_solver..|].
      exfalso. revert Hf. apply not_false_iff_true. revert Hfull. unfold queue_full. cbn.
      destruct (_ <=? 0)%Z; [done|]. rewrite len_app. pose proof (len_nonneg ((λ k, (k, "warmup")) <$> keys)).
      intros ?. zbool. apply Z.leb_le. lia.
    + set (h1 := with_metrics _ (with_queue _ _ _ h)).
      destruct (IH (n + 1)%Z h1) as (keys & h' & -> & [m' ->] & Hnd & Hsub & Hnew & Hall).
      exists (k :: keys). eexists. split; [by rewrite len_cons; do 2 f_equal; lia|]. split; [|split; [|split; [|split]]].
      * exists m'. unfold with_queue, with_metrics, HSt_metrics. cbn.
        f_equal; [by rewrite <- app_assoc|set_solver].
      * constructor; [|done]. intros Hk%Hnew. apply Hk. cbn. set_solver.
      * by constructor.
      * intros k' [->|Hk']%elem_of_cons; [set_solver|]. specialize (Hnew _ Hk'). cbn in Hnew. set_solver.
      * intros Hf k' [->|Hk']%elem_of_cons; [cbn; set_solver|by apply Hall].
Qed.
End enqueue.

(** Loading a warmup file into the handler: the first [limit] entries of
    the file are loaded, and of them exactly the queued ones are reported; those
    are distinct, were neither queued nor in flight before, and follow the file's
    order; when the queue has room left afterwards, every loaded key is queued or
    in flight.  The call returns how many entries it loaded, how many lines were
    invalid and how many keys it queued. *)
Lemma enqueue_warmup_file_spec `{Dnslib} (cfg : HandlerConfig) (text : string) (limit : Z) (h : HSt) :
  let '(items, invalid) := parse_warmup_source text in
  let loaded := take (Z.to_nat limit) items in
  ∃ keys h', enqueue_warmup_file text (enqueue_refresh cfg) limit h =
               (h', Ret (len loaded, invalid, len keys))
    ∧ refresh_queue h' = refresh_queue h ++ ((λ k, (k, "warmup")) <$> keys)
    ∧ queued_keys h' = list_to_set keys ∪ queued_keys h ∧ inflight_keys h' = inflight_keys h
    ∧ NoDup keys ∧ keys `sublist_of` loaded
    ∧ (∀ k, k ∈ keys → k ∉ queued_keys h ∪ inflight_keys h)
    ∧ (queue_full cfg (refresh_queue h') = false →
         ∀ k, k ∈ loaded → k ∈ queued_keys h' ∪ inflight_keys h').
Proof.
  unfold enqueue_warmup_file. destruct (parse_warmup_source text) as [items invalid].
  set (n := (if (0 <? limit)%Z then Z.min (len items) limit else 0)%Z).
  assert (take (Z.to_nat n) items = take (Z.to_nat limit) items ∧ n = len (take (Z.to_nat limit) items)) as [Ht Hn].
  { unfold n, len. rewrite length_take. destruct (0 <? limit)%Z eqn:E; zbool.
    - split; [|lia]. destruct (Z.le_ge_cases limit (Z.of_nat (length items))).
      + by rewrite Z.min_r by lia.
      + rewrite Z.min_l, Nat2Z.id by lia. rewrite !take_ge; [done|lia..].
    - replace (Z.to_nat limit) with 0 by lia. split; [done|lia]. }
  unfold mbind, M_bind. cbn [minc_by modify].
  set (h1 := with_metrics _ (with_metrics _ h)).
  destruct (enqueue_items_run cfg 0 (take (Z.to_nat n) items) h1)
    as (keys & h' & -> & [m ->] & Hnd & Hsub & Hnew & Hall).
  rewrite Ht in *. exists keys. eexists. split; [by rewrite Z.add_0_l, <- Hn|]. done.
Qed.
