(* ===== verification/Decimal.v ===== *)
(** * Decimal text

    [str(n)] and [int(s)]: the digits of a number and the number of its
    digits. *)
From S2P Require Import Prelude PyString Warmup.
From stdpp Require Import base list strings pretty.
From Stdlib Require Import Ascii.

Definition digits (l : list ascii) : Prop := Forall (λ c, is_digit c = true) l.

Lemma pretty_N_char_digit x :
  is_digit (pretty_N_char x) = true ∧ ((x < 10)%N → Z.of_nat (code (pretty_N_char x)) = (48 + Z.of_N x)%Z).
Proof.
  destruct x as [|p]; [done|].
  do 4 (destruct p as [p|p|]; try (split; [reflexivity|intros Hx; first [reflexivity|lia]])).
Qed.

Lemma pretty_N_go_digits x s : digits (chars s) → digits (chars (pretty_N_go x s)).
Proof.
  revert s. induction x as [x IH] using (well_founded_induction N.lt_wf_0). intros s Hs.
  destruct (decide (x = 0%N)) as [->|Hx]; [by rewrite pretty_N_go_0|].
  rewrite pretty_N_go_step by lia. apply IH; [apply N.div_lt; lia|].
  constructor; [apply pretty_N_char_digit|done].
Qed.

Lemma pretty_N_go_value x s :
  int_of_digits (pretty_N_go x s) =
  foldl (λ n c, (10 * n + (Z.of_nat (code c) - 48))%Z) (Z.of_N x) (chars s).
Proof.
  revert s. induction x as [x IH] using (well_founded_induction N.lt_wf_0). intros s.
  destruct (decide (x = 0%N)) as [->|Hx]; [by rewrite pretty_N_go_0|].
  rewrite pretty_N_go_step by lia. rewrite IH by (apply N.div_lt; lia). cbn [String.list_ascii_of_string foldl].
  f_equal. destruct (pretty_N_char_digit (x mod 10)) as [_ Hc].
  assert (x mod 10 < 10)%N as Hm by (apply N.mod_lt; lia).
  rewrite (Hc Hm). pose proof (N.div_mod x 10 ltac:(lia)). lia.
Qed.

Lemma pretty_Z_digits n : (0 ≤ n)%Z → digits (chars (pretty n)) ∧ int_of_digits (pretty n) = n.
Proof.
  intros Hn. destruct n as [|p|p]; [by repeat constructor| |lia].
  assert (pretty (Z.pos p) = pretty_N_go (N.pos p) "") as -> by done.
  split; [apply pretty_N_go_digits; constructor|by rewrite pretty_N_go_value].
Qed.

Lemma chars_app a b : chars (a +:+ b) = chars a ++ chars b.
Proof. induction a as [|c a IH]; cbn; [done|]. by rewrite <- IH. Qed.

Lemma pretty_ne n : (0 ≤ n)%Z → pretty n ≠ "".
Proof.
  intros Hn E. destruct (pretty_Z_digits n Hn) as [_ Hv]. rewrite E in Hv. cbn in Hv. by subst.
Qed.

Lemma digits_no_space s : digits (chars s) → no_space s.
Proof.
  intros Hs. eapply Forall_impl; [exact Hs|]. intros c. unfold is_digit, is_space, PyString.between.
  rewrite andb_true_iff, !Nat.leb_le. intros [Hlo Hhi].
  rewrite orb_false_iff, !andb_false_iff, !Nat.leb_gt. lia.
Qed.

Lemma no_space_dec s : forallb (λ c, negb (is_space c)) (chars s) = true → no_space s.
Proof.
  rewrite forallb_forall. intros Hs. apply Forall_forall. intros c Hc%list_elem_of_In%Hs. by apply negb_true_iff.
Qed.
