(* ===== verification/Upstream.v ===== *)
(** * The UDP and TCP upstream forwarders
      ([src/resilientdns/upstream/udp_forwarder.py] and
       [src/resilientdns/upstream/tcp_forwarder.py])

    Each [query] is cut at its suspensions: [.._begin] decides whether the
    query runs at all, [.._end] is the rest.  What the network does is an
    argument: what a socket call gives, whether a connection is still usable,
    and, for each TCP connection, the bytes it delivers.

    The locks guard code without a suspension ([_inflight_lock]) or the whole
    of each access to the pool ([_pool_lock], with writers closed while it is
    held), so every access to the counter and to the pool is one step. *)
From S2P Require Import Prelude PyFloat Metrics Framing.
From stdpp Require Import base list strings gmap sets.

(** ** Inflight limit, common to both forwarders *)

Record UpstreamUdpConfig := mkUpstreamUdpConfig {
  uu_host : string; uu_port : Z; uu_timeout_s : float; uu_max_workers : Z; uu_max_inflight : Z }.

Record UdpFwd := mkUdpFwd {
  uf_metrics : option Metrics;
  uf_closed : bool;
  uf_inflight : Z;
  uf_socks : Z;                      (** sockets that are open *)
}.
#[global] Instance UdpFwd_metrics : HasMetrics UdpFwd := {|
  metrics_of := uf_metrics;
  with_metrics m s := mkUdpFwd m (uf_closed s) (uf_inflight s) (uf_socks s) |}.

Definition udp_fwd_new (m : option Metrics) : UdpFwd := mkUdpFwd m false 0 0.

(** [query] up to the executor: [false] is an early [return None]. *)
Definition udp_query_begin (cfg : UpstreamUdpConfig) : M UdpFwd bool :=
  s ← get_state;
  if uf_closed s then mret false
  else if (0 <? uu_max_inflight cfg)%Z then
    if (uu_max_inflight cfg <=? uf_inflight s)%Z then
      minc "dropped_total";; minc "dropped_max_inflight_total";; mret false
    else modify (λ s, mkUdpFwd (uf_metrics s) (uf_closed s) (uf_inflight s + 1) (uf_socks s));; mret true
  else mret true.

(** The [finally] of [query]. *)
Definition udp_query_end (cfg : UpstreamUdpConfig) : M UdpFwd () :=
  when (0 <? uu_max_inflight cfg)%Z
    (modify (λ s, mkUdpFwd (uf_metrics s) (uf_closed s) (uf_inflight s - 1) (uf_socks s))).

Definition is_TimeoutError (e : exn) : bool :=
  match e with TimeoutError => true | _ => false end.

(** What the socket calls of one query do: [socket()], [settimeout()], and
    [sendto] with [recvfrom] on the query. *)
Record socket_calls := mkSocketCalls {
  so_create : res unit;
  so_settimeout : res unit;
  so_exchange : bytes → res bytes;
}.

Definition sock_open : M UdpFwd () :=
  modify (λ s, mkUdpFwd (uf_metrics s) (uf_closed s) (uf_inflight s) (uf_socks s + 1)).
Definition sock_close : M UdpFwd () :=
  modify (λ s, mkUdpFwd (uf_metrics s) (uf_closed s) (uf_inflight s) (uf_socks s - 1)).

Definition _query_blocking (sock : socket_calls) (wire : bytes) : M UdpFwd (option bytes) :=
  minc "upstream_requests_total";;
  lift_res (so_create sock);;
  sock_open;;
  lift_res (so_settimeout sock);;
  try_finally_do
    (try_except
       (try_except
          (data ← lift_res (so_exchange sock wire); mret (Some data))
          is_TimeoutError
          (λ _, minc "upstream_udp_errors_total";; minc "upstream_udp_timeouts_total";; mret None))
       is_Exception
       (λ _, minc "upstream_udp_errors_total";; mret None))
    sock_close.

Definition udp_query (cfg : UpstreamUdpConfig) (sock : socket_calls) (wire : bytes)
    : M UdpFwd (option bytes) :=
  go ← udp_query_begin cfg;
  if (go : bool) then
    try_finally_do (_query_blocking sock wire) (udp_query_end cfg)
  else mret None.

Definition udp_close : M UdpFwd () :=
  modify (λ s, mkUdpFwd (uf_metrics s) true (uf_inflight s) (uf_socks s)).

(** ** TCP *)

Record UpstreamTcpConfig := mkUpstreamTcpConfig {
  ut_host : string; ut_port : Z; connect_timeout_s : float; ut_read_timeout_s : float;
  ut_max_message_size : Z; pool_max_conns : Z; pool_idle_timeout_s : Z; ut_max_inflight : Z }.

Record _PooledConnection := mkPooled { pc_conn : nat; last_used_s : Z }.

(** Connections are numbered; [tf_streams] is what is left to read on each,
    [tf_closed_conns] those whose writer was closed, [tf_written] what was
    written. *)
Record TcpFwd := mkTcpFwd {
  tf_metrics : option Metrics;
  _pool : list _PooledConnection;
  tf_closed : bool;
  tf_inflight : Z;
  tf_streams : gmap nat stream;
  tf_closed_conns : gset nat;
  tf_written : list (nat * bytes);   (** connection, bytes *)
}.
#[global] Instance TcpFwd_metrics : HasMetrics TcpFwd := {|
  metrics_of := tf_metrics;
  with_metrics m s := mkTcpFwd m (_pool s) (tf_closed s) (tf_inflight s) (tf_streams s) (tf_closed_conns s)
                        (tf_written s) |}.

Definition tcp_fwd_new (m : option Metrics) : TcpFwd := mkTcpFwd m [] false 0 ∅ ∅ [].

Definition set_pool (p : list _PooledConnection) (s : TcpFwd) : TcpFwd :=
  mkTcpFwd (tf_metrics s) p (tf_closed s) (tf_inflight s) (tf_streams s) (tf_closed_conns s) (tf_written s).
Definition set_inflight (n : Z) (s : TcpFwd) : TcpFwd :=
  mkTcpFwd (tf_metrics s) (_pool s) (tf_closed s) n (tf_streams s) (tf_closed_conns s) (tf_written s).
Definition set_stream (c : nat) (st : stream) (s : TcpFwd) : TcpFwd :=
  mkTcpFwd (tf_metrics s) (_pool s) (tf_closed s) (tf_inflight s) (<[c := st]> (tf_streams s)) (tf_closed_conns s)
    (tf_written s).

Definition _close_writer (c : nat) : M TcpFwd () :=
  modify (λ s, mkTcpFwd (tf_metrics s) (_pool s) (tf_closed s) (tf_inflight s) (tf_streams s)
                 ({[c]} ∪ tf_closed_conns s) (tf_written s)).

(** [for conn in conns: await self._close_writer(conn.writer)] *)
Fixpoint close_all (conns : list _PooledConnection) : M TcpFwd () :=
  match conns with
  | [] => mret ()
  | conn :: conns => _close_writer (pc_conn conn);; close_all conns
  end.

Definition tcp_close : M TcpFwd () :=
  modify (λ s, mkTcpFwd (tf_metrics s) (_pool s) true (tf_inflight s) (tf_streams s) (tf_closed_conns s)
                 (tf_written s));;
  conns ← gets _pool;
  modify (set_pool []);;
  close_all conns.

(** The loop of [_acquire_from_pool]: the last connection is tried first.
    [usable c]: the writer is not closing and the reader not at its end;
    [rev] is the pool from its last element on.  The source suspends in
    [_close_writer] between two connections, with [self._pool_lock] held: every
    other reader or writer of the pool waits for that lock, and the loop reads
    nothing that the others change, so it is one step here. *)
Fixpoint acquire_loop (cfg : UpstreamTcpConfig) (usable : nat → bool) (now : Z)
    (rev : list _PooledConnection) : M TcpFwd (option nat) :=
  match rev with
  | [] => mret None
  | conn :: rev =>
      modify (set_pool (reverse rev));;
      if negb (usable (pc_conn conn)) then
        _close_writer (pc_conn conn);; acquire_loop cfg usable now rev
      else if (pool_idle_timeout_s cfg <=? 0)%Z then
        _close_writer (pc_conn conn);; acquire_loop cfg usable now rev
      else if (pool_idle_timeout_s cfg <? now - last_used_s conn)%Z then
        _close_writer (pc_conn conn);; acquire_loop cfg usable now rev
      else
        minc "upstream_tcp_reuses_total";; mret (Some (pc_conn conn))
  end.

Definition _acquire_from_pool (cfg : UpstreamTcpConfig) (usable : nat → bool) (now : Z)
    : M TcpFwd (option nat) :=
  s ← get_state;
  if tf_closed s || (pool_max_conns cfg <=? 0)%Z then mret None
  else acquire_loop cfg usable now (reverse (_pool s)).

Definition _release_to_pool (cfg : UpstreamTcpConfig) (usable : nat → bool) (now : Z) (c : nat) : M TcpFwd () :=
  s ← get_state;
  if tf_closed s || (pool_max_conns cfg <=? 0)%Z then _close_writer c
  else if negb (usable c) then _close_writer c
  else if (pool_max_conns cfg <=? len (_pool s))%Z then _close_writer c
  else modify (λ s, set_pool (_pool s ++ [mkPooled c now]) s).

(** Whether and how a query goes on. *)
Inductive query_start : Type :=
| QReturnNone            (** early [return None] *)
| QConnect               (** no pooled connection: [open_connection] *)
| QUse (c : nat).        (** a pooled connection *)

Definition tcp_query_begin (cfg : UpstreamTcpConfig) (usable : nat → bool) (now : Z) : M TcpFwd query_start :=
  s ← get_state;
  if tf_closed s then mret QReturnNone
  else if (0 <? ut_max_inflight cfg)%Z && (ut_max_inflight cfg <=? tf_inflight s)%Z then
    minc "dropped_total";; minc "dropped_max_inflight_total";; mret QReturnNone
  else
    when (0 <? ut_max_inflight cfg)%Z (modify (λ s, set_inflight (tf_inflight s + 1) s));;
    minc "upstream_requests_total";;
    conn ← _acquire_from_pool cfg usable now;
    match conn with
    | Some c => mret (QUse c)
    | None => mret QConnect
    end.

(** The outer [finally]. *)
Definition tcp_query_finally (cfg : UpstreamTcpConfig) (error_for_metrics : bool) : M TcpFwd () :=
  when error_for_metrics (minc "upstream_tcp_errors_total");;
  when (0 <? ut_max_inflight cfg)%Z (modify (λ s, set_inflight (tf_inflight s - 1) s)).

(** [open_connection] gave [r]: the connection, or the end of the query. *)
Definition tcp_query_connect (cfg : UpstreamTcpConfig) (r : res nat) : M TcpFwd (option nat) :=
  match r with
  | Ret c => mret (Some c)
  | Raise TimeoutError => minc "upstream_tcp_timeouts_total";; tcp_query_finally cfg true;; mret None
  | Raise e =>
      if is_Exception e then minc "upstream_tcp_connect_errors_total";; tcp_query_finally cfg true;; mret None
      else tcp_query_finally cfg false;; raise e
  end.

(** [writer.write(b)] on connection [c]. *)
Definition write_conn (c : nat) (b : bytes) : M TcpFwd () :=
  modify (λ s, mkTcpFwd (tf_metrics s) (_pool s) (tf_closed s) (tf_inflight s) (tf_streams s) (tf_closed_conns s)
                 (tf_written s ++ [(c, b)])).

(** [await wait_for(reader.readexactly(n), ...)] on connection [c]. *)
Definition read_conn (c : nat) (n : Z) : M TcpFwd bytes :=
  s ← get_state;
  match tf_streams s !! c with
  | None => raise IncompleteReadError
  | Some st =>
      match readexactly n st with
      | Ret (d, st') => modify (set_stream c st');; mret d
      | Raise e => raise e
      end
  end.

(** A read with its two [except] clauses: [None] is an error, counted. *)
Definition read_or_count (c : nat) (n : Z) : M TcpFwd (option bytes) :=
  try_except
    (try_except
       (d ← read_conn c n; mret (Some d))
       is_TimeoutError (λ _, minc "upstream_tcp_timeouts_total";; mret None))
    is_Exception (λ _, minc "upstream_tcp_protocol_errors_total";; mret None).

Definition oversize : M TcpFwd () :=
  minc "dropped_total";; minc "dropped_oversize_total";; minc "upstream_tcp_protocol_errors_total".

(** The inner [try]: the result and [errored].  [drain] is what
    [writer.drain()] gives.  An exception that is no [Exception] leaves it with
    [errored] still false. *)
Definition exchange (cfg : UpstreamTcpConfig) (c : nat) (wire : bytes) (drain : res unit)
    : M TcpFwd (option bytes * bool) :=
  try_except
    (prefix ← lift_res (to_bytes2 (len wire));
     write_conn c (prefix ++ wire);;
     lift_res drain;;
     length_bytes ← read_or_count c 2;
     match length_bytes with
     | None => mret (None, true)
     | Some lb =>
         let msg_len := from_bytes lb in
         if ((0 <? ut_max_message_size cfg) && (ut_max_message_size cfg <? msg_len))%Z then
           oversize;; mret (None, true)
         else
           data ← read_or_count c msg_len;
           match data with
           | None => mret (None, true)
           | Some d =>
               if ((0 <? ut_max_message_size cfg) && (ut_max_message_size cfg <? len d))%Z then
                 oversize;; mret (None, true)
               else mret (Some d, false)
           end
     end) is_Exception
    (λ _, minc "upstream_tcp_protocol_errors_total";; mret (None, true)).

(** The exchange with both [finally] blocks. *)
Definition tcp_query_end (cfg : UpstreamTcpConfig) (usable : nat → bool) (now : Z) (c : nat) (wire : bytes)
    (drain : res unit) : M TcpFwd (option bytes) := λ s,
  match exchange cfg c wire drain s with
  | (s', Ret (r, errored)) =>
      ((if (errored : bool) then _close_writer c else _release_to_pool cfg usable now c);;
       tcp_query_finally cfg errored;;
       mret r) s'
  | (s', Raise e) =>
      (_release_to_pool cfg usable now c;; tcp_query_finally cfg false;; raise e) s'
  end.

(** [query], when nothing else runs in between. *)
Definition tcp_query (cfg : UpstreamTcpConfig) (usable : nat → bool) (now now_release : Z) (wire : bytes)
    (conn : res nat) (drain : res unit) : M TcpFwd (option bytes) :=
  start ← tcp_query_begin cfg usable now;
  match start with
  | QReturnNone => mret None
  | QUse c => tcp_query_end cfg usable now_release c wire drain
  | QConnect =>
      c ← tcp_query_connect cfg conn;
      match c with
      | None => mret None
      | Some c => tcp_query_end cfg usable now_release c wire drain
      end
  end.
