(* ===== verification/UpstreamProps.v ===== *)
(** * Properties of the upstream forwarders

    The UDP forwarder's outcomes and counters; for the TCP forwarder, the
    ownership of connections and the inflight count over every interleaving
    of queries, and what an exchange does to its connection. *)
From S2P Require Import Prelude Metrics Framing Upstream.
From stdpp Require Import base list strings gmap sets relations.
From Stdlib.Strings Require Import Byte.

(** ** UDP *)

(** What [query] gives for what the socket calls do: a socket that cannot be
    created or set up raises, a failed exchange is no answer. *)
Definition udp_outcome (sock : socket_calls) (wire : bytes) : res (option bytes) :=
  match so_create sock, so_settimeout sock, so_exchange sock wire with
  | Raise e, _, _ | Ret _, Raise e, _ => Raise e
  | Ret _, Ret _, Ret d => Ret (Some d)
  | Ret _, Ret _, Raise e => if is_Exception e then Ret None else Raise e
  end.

(** The failed exchange that is counted, if any. *)
Definition udp_failure (sock : socket_calls) (wire : bytes) : option exn :=
  match so_create sock, so_settimeout sock, so_exchange sock wire with
  | Ret _, Ret _, Raise e => if is_Exception e then Some e else None
  | _, _, _ => None
  end.

Definition udp_failure_counts (f : option exn) (k : string) : Z :=
  match f with
  | None => 0
  | Some e => if bool_decide (k = "upstream_udp_errors_total"
                 ∨ is_TimeoutError e = true ∧ k = "upstream_udp_timeouts_total") then 1 else 0
  end.

(** The registry after the socket calls. *)
Definition udp_metrics (f : option exn) (m : option Metrics) : option Metrics :=
  let m := inc_opt "upstream_requests_total" m in
  match f with
  | None => m
  | Some e =>
      let m := inc_opt "upstream_udp_errors_total" m in
      if is_TimeoutError e then inc_opt "upstream_udp_timeouts_total" m else m
  end.

(** Sockets left open: one whose [settimeout] raised. *)
Definition udp_leak (sock : socket_calls) : Z :=
  match so_create sock, so_settimeout sock with Ret _, Raise _ => 1 | _, _ => 0 end.

Lemma query_blocking_run sock wire s :
  _query_blocking sock wire s =
  (mkUdpFwd (udp_metrics (udp_failure sock wire) (uf_metrics s)) (uf_closed s) (uf_inflight s)
     (uf_socks s + udp_leak sock), udp_outcome sock wire).
Proof.
  destruct s as [m cl n k], sock as [c t x].
  unfold _query_blocking, udp_failure, udp_outcome, udp_leak, mbind, M_bind, try_finally_do, try_except, lift_res.
  cbn [so_create so_settimeout so_exchange].
  assert (k + 0 = k)%Z as E0 by lia. assert (k + 1 - 1 = k + 0)%Z as E1 by lia.
  destruct c as [[]|e]; [|by cbn; rewrite E0]. destruct t as [[]|e]; [|done].
  destruct (x wire) as [d|[]]; cbn; by rewrite E1.
Qed.

Lemma udp_metrics_requests f m :
  count_opt (udp_metrics f m) "upstream_requests_total" =
  (count_opt m "upstream_requests_total" + onm m 1)%Z.
Proof. unfold udp_metrics. destruct f as [e|]; [destruct (is_TimeoutError e)|]; counts; lia. Qed.

Lemma udp_metrics_errors f m k :
  k = "upstream_udp_errors_total" ∨ k = "upstream_udp_timeouts_total" →
  count_opt (udp_metrics f m) k = (count_opt m k + onm m (udp_failure_counts f k))%Z.
Proof.
  assert (onm m 0 = 0%Z) as Ho0 by (by destruct m).
  intros [->| ->]; unfold udp_metrics; destruct f as [e|]; cbn; try destruct (is_TimeoutError e); counts;
    try case_bool_decide; try naive_solver; rewrite ?Ho0; lia.
Qed.

(** A UDP query: closed, it returns nothing and does nothing; at the
    inflight limit it is dropped and counted; otherwise it asks the socket
    once and returns exactly what the socket received, turning a timeout or
    error of the exchange into no answer, with the request and the failure
    counted, and raising what the creation of the socket raises.  In every
    case, an escaping cancellation included, the inflight count is restored,
    and the socket is closed unless its [settimeout] raised. *)
Theorem udp_query_correct (cfg : UpstreamUdpConfig) (sock : socket_calls) (wire : bytes) (s : UdpFwd) :
  let s' := (udp_query cfg sock wire s).1 in
  let r := (udp_query cfg sock wire s).2 in
  let cnt m k := count_opt m k in
  uf_inflight s' = uf_inflight s ∧ uf_closed s' = uf_closed s ∧
  if uf_closed s then r = Ret None ∧ s' = s
  else if decide (0 < uu_max_inflight cfg ≤ uf_inflight s)%Z then
    r = Ret None
    ∧ cnt (uf_metrics s') "dropped_total" = (cnt (uf_metrics s) "dropped_total" + onm (uf_metrics s) 1)%Z
    ∧ cnt (uf_metrics s') "upstream_requests_total" = cnt (uf_metrics s) "upstream_requests_total"
    ∧ uf_socks s' = uf_socks s
  else
    r = udp_outcome sock wire
    ∧ uf_socks s' = (uf_socks s + udp_leak sock)%Z
    ∧ cnt (uf_metrics s') "upstream_requests_total" =
        (cnt (uf_metrics s) "upstream_requests_total" + onm (uf_metrics s) 1)%Z
    ∧ ∀ k, k = "upstream_udp_errors_total" ∨ k = "upstream_udp_timeouts_total" →
        cnt (uf_metrics s') k = (cnt (uf_metrics s) k + onm (uf_metrics s) (udp_failure_counts (udp_failure sock wire) k))%Z.
Proof.
  intros s' r cnt. unfold s', r, cnt, udp_query, udp_query_begin, udp_query_end.
  unfold mbind, M_bind, get_state, try_finally_do.
  destruct s as [m cl n k]. cbn [uf_closed uf_inflight uf_metrics]. destruct cl; [done|].
  pose proof (udp_metrics_requests (udp_failure sock wire) m).
  pose proof (udp_metrics_errors (udp_failure sock wire) m).
  destruct (0 <? uu_max_inflight cfg)%Z eqn:E0; [destruct (uu_max_inflight cfg <=? n)%Z eqn:E1|]; zbool.
  - rewrite decide_True by lia. cbn. counts. do 3 (split; [done|]). split; [lia|]. split; [lia|done].
  - rewrite decide_False by lia. cbn -[_query_blocking]. rewrite query_blocking_run. cbn.
    split; [lia|]. by split.
  - rewrite decide_False by lia. cbn -[_query_blocking]. rewrite query_blocking_run. cbn. by split.
Qed.

(** ** TCP: the pool *)

Definition pool_ids (p : list _PooledConnection) : list nat := pc_conn <$> p.

(** The registry is not part of ownership. *)
Lemma close_all_run conns s :
  close_all conns s =
  (mkTcpFwd (tf_metrics s) (_pool s) (tf_closed s) (tf_inflight s) (tf_streams s)
     (list_to_set (pool_ids conns) ∪ tf_closed_conns s) (tf_written s), Ret ()).
Proof.
  revert s. induction conns as [|c conns IH]; intros s.
  - destruct s. cbn. unfold mret, M_ret. do 2 f_equal. set_solver.
  - cbn [close_all]. unfold mbind, M_bind, _close_writer, modify. rewrite IH. cbn. do 2 f_equal. set_solver.
Qed.

(** Acquiring closes a run of unusable or idle connections from the end of
    the pool and takes the first good one after them. *)
Lemma acquire_loop_run cfg usable now rev s :
  ∃ dropped rest r m, acquire_loop cfg usable now rev s =
    (mkTcpFwd m (match rev with [] => _pool s | _ => reverse rest end) (tf_closed s) (tf_inflight s)
       (tf_streams s) (list_to_set (pool_ids dropped) ∪ tf_closed_conns s) (tf_written s), Ret r)
  ∧ match r with
    | Some c => ∃ t, rev = dropped ++ mkPooled c t :: rest ∧ usable c = true
                     ∧ (now - t ≤ pool_idle_timeout_s cfg)%Z
    | None => rev = dropped ∧ rest = []
    end.
Proof.
  revert s. induction rev as [|[c t] rev IH]; intros s.
  - exists [], [], None, (tf_metrics s). split; [|done]. destruct s. cbn. unfold mret, M_ret.
    do 2 f_equal. set_solver.
  - cbn [acquire_loop pc_conn last_used_s]. unfold mbind, M_bind, modify.
    assert (∀ s1, s1 = (_close_writer c (set_pool (reverse rev) s)).1 →
      ∃ dropped rest r m, acquire_loop cfg usable now rev s1 =
        (mkTcpFwd m (reverse rest) (tf_closed s) (tf_inflight s)
           (tf_streams s) (list_to_set (pool_ids (mkPooled c t :: dropped)) ∪ tf_closed_conns s) (tf_written s), Ret r)
      ∧ match r with
        | Some c => ∃ t, rev = dropped ++ mkPooled c t :: rest ∧ usable c = true
                         ∧ (now - t ≤ pool_idle_timeout_s cfg)%Z
        | None => rev = dropped ∧ rest = []
        end) as Hnext.
    { intros s1 ->. destruct (IH (_close_writer c (set_pool (reverse rev) s)).1)
        as (dropped & rest & r & m & -> & Hr). exists dropped, rest, r, m. split; [|done]. cbn.
      do 2 f_equal; [|set_solver]. destruct rev; [|done]. destruct r as [c'|].
      - destruct Hr as (t' & Hr & _). by destruct dropped.
      - by destruct Hr as [_ ->]. }
    destruct (negb (usable c)) eqn:Eu; [|destruct (pool_idle_timeout_s cfg <=? 0)%Z;
      [|destruct (pool_idle_timeout_s cfg <? now - t)%Z eqn:Ei]].
    1-3: destruct (Hnext _ eq_refl) as (dropped & rest & r & m & E & Hr);
      cbn in E |- *; rewrite E; exists (mkPooled c t :: dropped), rest, r, m; (split; [done|]);
      destruct r as [c'|]; [destruct Hr as (t' & -> & ?); by exists t'|by destruct Hr as [-> ->]].
    zbool. exists [], rev, (Some c), (inc_opt "upstream_tcp_reuses_total" (tf_metrics s)). split.
    + cbn. unfold mret, M_ret. do 2 f_equal. set_solver.
    + by exists t.
Qed.

(** ** TCP: interleaved queries *)

(** The forwarder, the number of queries that are connecting, and the
    connections that queries use. *)
Record TcpSys := mkTcpSys { ts : TcpFwd; connecting : nat; in_use : list nat }.
Definition owned (w : TcpSys) : list nat := in_use w ++ pool_ids (_pool (ts w)).

Inductive tcp_step (cfg : UpstreamTcpConfig) (w : TcpSys) : TcpSys → Prop :=
| tstep_begin usable now s' :
    tcp_query_begin cfg usable now (ts w) = (s', Ret QReturnNone) →
    tcp_step cfg w (mkTcpSys s' (connecting w) (in_use w))
| tstep_begin_connect usable now s' :
    tcp_query_begin cfg usable now (ts w) = (s', Ret QConnect) →
    tcp_step cfg w (mkTcpSys s' (S (connecting w)) (in_use w))
| tstep_begin_use usable now s' c :
    tcp_query_begin cfg usable now (ts w) = (s', Ret (QUse c)) →
    tcp_step cfg w (mkTcpSys s' (connecting w) (c :: in_use w))
| tstep_connected n c st :
    connecting w = S n → c ∉ owned w → c ∉ tf_closed_conns (ts w) →
    tcp_step cfg w (mkTcpSys (set_stream c st (tcp_query_connect cfg (Ret c) (ts w)).1) n (c :: in_use w))
| tstep_connect_fails n e :
    connecting w = S n →
    tcp_step cfg w (mkTcpSys (tcp_query_connect cfg (Raise e) (ts w)).1 n (in_use w))
| tstep_end i c usable now wire drain :
    in_use w !! i = Some c →
    tcp_step cfg w (mkTcpSys (tcp_query_end cfg usable now c wire drain (ts w)).1 (connecting w) (delete i (in_use w)))
| tstep_deliver c st : tcp_step cfg w (mkTcpSys (set_stream c st (ts w)) (connecting w) (in_use w))
| tstep_close : tcp_step cfg w (mkTcpSys (tcp_close (ts w)).1 (connecting w) (in_use w)).

Record tcp_ok (cfg : UpstreamTcpConfig) (w : TcpSys) : Prop := {
  to_owned : NoDup (owned w);
  to_open : ∀ c, c ∈ owned w → c ∉ tf_closed_conns (ts w);
  to_pool : (len (_pool (ts w)) ≤ Z.max 0 (pool_max_conns cfg))%Z;
  to_closed : tf_closed (ts w) = true → _pool (ts w) = [];
  to_count : tf_inflight (ts w) =
    if (0 <? ut_max_inflight cfg)%Z then Z.of_nat (connecting w + length (in_use w)) else 0%Z;
  to_limit : (0 < ut_max_inflight cfg → tf_inflight (ts w) ≤ ut_max_inflight cfg)%Z;
}.

Section pool.
Context (cfg : UpstreamTcpConfig).

(** Acquiring, on a pool of distinct open connections. *)
Lemma acquire_run usable now s :
  ∃ p dropped r m, _acquire_from_pool cfg usable now s =
    (mkTcpFwd m p (tf_closed s) (tf_inflight s) (tf_streams s)
       (list_to_set dropped ∪ tf_closed_conns s) (tf_written s), Ret r)
  ∧ match r with
    | Some c => ∃ l, pool_ids (_pool s) = pool_ids p ++ c :: l ∧ dropped = reverse l
    | None => _pool s = p ∧ dropped = [] ∨ p = [] ∧ dropped = reverse (pool_ids (_pool s))
    end.
Proof.
  unfold _acquire_from_pool, mbind, M_bind, get_state.
  destruct (tf_closed s || _)%Z.
  { exists (_pool s), [], None, (tf_metrics s). split; [|by left]. destruct s. cbn. unfold mret, M_ret.
    do 2 f_equal. set_solver. }
  destruct (acquire_loop_run cfg usable now (reverse (_pool s)) s) as (dropped & rest & r & m & -> & Hr).
  exists (reverse rest), (pool_ids dropped), r, m. split.
  - do 2 f_equal. destruct (reverse (_pool s)) eqn:E; [|done].
    assert (_pool s = []) as -> by (by apply (f_equal reverse) in E; rewrite reverse_involutive in E).
    destruct r as [c|]; [|by destruct Hr as [_ ->]]. destruct Hr as (t & Hr & _). by destruct dropped.
  - destruct r as [c|].
    + destruct Hr as (t & Hr & _). exists (pool_ids (reverse dropped)).
      apply (f_equal reverse) in Hr. rewrite reverse_involutive, reverse_app, reverse_cons in Hr.
      rewrite Hr. unfold pool_ids. rewrite !fmap_app, <- app_assoc. split; [done|].
      by rewrite fmap_reverse, reverse_involutive.
    + destruct Hr as [Hr ->]. right. split; [done|]. rewrite <- Hr. unfold pool_ids. by rewrite fmap_reverse.
Qed.

(** Everything but the registry and what is left to read. *)
Definition same_pool (s s' : TcpFwd) : Prop :=
  _pool s' = _pool s ∧ tf_closed s' = tf_closed s ∧ tf_inflight s' = tf_inflight s
  ∧ tf_closed_conns s' = tf_closed_conns s.

Section exchange_frame.
Context (s0 : TcpFwd).
Lemma minc_same k : preserves (same_pool s0) (minc k).
Proof. by intros s Hs. Qed.
Lemma read_conn_same c n : preserves (same_pool s0) (read_conn c n).
Proof.
  unfold read_conn. solve_preserves. apply preserves_modify. by intros ? ?.
Qed.
Lemma write_conn_same c b : preserves (same_pool s0) (write_conn c b).
Proof. by intros s Hs. Qed.
#[local] Hint Resolve minc_same read_conn_same write_conn_same : rdns.
Lemma exchange_same c wire drain : preserves (same_pool s0) (exchange cfg c wire drain).
Proof. unfold exchange, read_or_count, oversize. solve_preserves. Qed.
End exchange_frame.

(** The count after a query has ended. *)
Definition dec (n : Z) : Z := if (0 <? ut_max_inflight cfg)%Z then (n - 1)%Z else n.

Lemma query_finally_run b s :
  ∃ m, tcp_query_finally cfg b s = (set_inflight (dec (tf_inflight s)) (with_metrics m s), Ret ()).
Proof.
  unfold tcp_query_finally, dec, mbind, M_bind.
  destruct s. destruct b, (0 <? ut_max_inflight cfg)%Z; cbn; eexists; reflexivity.
Qed.

Lemma release_cases usable now c s :
  (_release_to_pool cfg usable now c s = _close_writer c s) ∨
  (_release_to_pool cfg usable now c s = (set_pool (_pool s ++ [mkPooled c now]) s, Ret ())
   ∧ (len (_pool s) < pool_max_conns cfg)%Z ∧ tf_closed s = false ∧ usable c = true).
Proof.
  unfold _release_to_pool, mbind, M_bind, get_state. destruct (tf_closed s) eqn:Ec; [by left|]. cbn [orb].
  destruct (pool_max_conns cfg <=? 0)%Z eqn:E0; [by left|].
  destruct (usable c) eqn:Eu; cbn [negb]; [|by left].
  destruct (pool_max_conns cfg <=? len (_pool s))%Z eqn:E1; [by left|]. right. zbool. done.
Qed.

(** A query that ends has closed its connection or pooled it. *)
Lemma query_end_cases usable now c wire drain s :
  let s' := (tcp_query_end cfg usable now c wire drain s).1 in
  tf_closed s' = tf_closed s ∧ tf_inflight s' = dec (tf_inflight s) ∧
  ((_pool s' = _pool s ∧ tf_closed_conns s' = {[c]} ∪ tf_closed_conns s) ∨
   (_pool s' = _pool s ++ [mkPooled c now] ∧ tf_closed_conns s' = tf_closed_conns s
    ∧ (len (_pool s) < pool_max_conns cfg)%Z ∧ tf_closed s = false)).
Proof.
  unfold tcp_query_end. pose proof (exchange_same s c wire drain s ltac:(done)) as Hs.
  destruct (exchange cfg c wire drain s) as [s1 [[r errored]|e]]; cbn [fst] in Hs;
    destruct Hs as (Hp & Hcl & Hn & Hcc); unfold mbind, M_bind.
  - destruct errored.
    + cbn [_close_writer modify]. match goal with |- context [tcp_query_finally cfg ?b ?s2] =>
        destruct (query_finally_run b s2) as [m ->] end.
      cbn. rewrite Hp, Hcl, Hn, Hcc. split; [done|]. split; [done|]. by left.
    + destruct (release_cases usable now c s1) as [->|(-> & Hlt & Hc & _)]; cbn [_close_writer modify];
        match goal with |- context [tcp_query_finally cfg ?b ?s2] =>
          destruct (query_finally_run b s2) as [m ->] end; cbn; rewrite Hp, Hcl, Hn, Hcc in *;
        (split; [done|]); (split; [done|]); [by left|by right].
  - destruct (release_cases usable now c s1) as [->|(-> & Hlt & Hc & _)]; cbn [_close_writer modify];
      match goal with |- context [tcp_query_finally cfg ?b ?s2] =>
        destruct (query_finally_run b s2) as [m ->] end; cbn; rewrite Hp, Hcl, Hn, Hcc in *;
      (split; [done|]); (split; [done|]); [by left|by right].
Qed.

(** A query that begins. *)
Lemma query_begin_cases usable now s s' r :
  tcp_query_begin cfg usable now s = (s', Ret r) →
  tf_closed s' = tf_closed s ∧
  ((r = QReturnNone ∧ same_pool s s') ∨
   (tf_closed s = false
    ∧ tf_inflight s' = (tf_inflight s + if 0 <? ut_max_inflight cfg then 1 else 0)%Z
    ∧ (0 < ut_max_inflight cfg → tf_inflight s < ut_max_inflight cfg)%Z
    ∧ ∃ dropped, tf_closed_conns s' = list_to_set dropped ∪ tf_closed_conns s
      ∧ ((r = QConnect ∧ (_pool s' = _pool s ∧ dropped = [] ∨
                          _pool s' = [] ∧ dropped = reverse (pool_ids (_pool s)))) ∨
         ∃ c l, r = QUse c ∧ pool_ids (_pool s) = pool_ids (_pool s') ++ c :: l ∧ dropped = reverse l))).
Proof.
  unfold tcp_query_begin, mbind, M_bind, get_state. destruct (tf_closed s) eqn:Ecl.
  { intros [= <- <-]. split; [done|]. by left. }
  destruct (0 <? ut_max_inflight cfg)%Z eqn:E0; cbn [andb when];
    [destruct (ut_max_inflight cfg <=? tf_inflight s)%Z eqn:E1|].
  { intros [= <- <-]. split; [done|]. by left. }
  all: unfold modify, mret, M_ret; rewrite minc_run;
    match goal with |- context [_acquire_from_pool _ ?u ?n ?s1] =>
      destruct (acquire_run u n s1) as (p & dropped & r' & m & -> & Hr) end;
    intros Hret; zbool; (split; [by destruct r'; simplify_eq|]); right; (split; [done|]);
    destruct r' as [c|]; simplify_eq; cbn in *; (split; [lia|]); (split; [lia|]);
    exists dropped; (split; [done|]); [right; naive_solver|left; naive_solver].
Qed.

Lemma owned_split (u p p' l : list nat) c :
  p = p' ++ c :: l → NoDup (u ++ p) →
  NoDup (c :: u ++ p') ∧ (∀ x, x ∈ c :: u ++ p' → x ∈ u ++ p ∧ x ∉ l).
Proof.
  intros -> Hnd.
  assert (u ++ p' ++ c :: l ≡ₚ (c :: u ++ p') ++ l) as Hp.
  { rewrite app_assoc. by rewrite <- Permutation_middle. }
  rewrite Hp in Hnd. apply NoDup_app in Hnd as (Hnd & Hdis & _). split; [done|].
  intros x Hx. split; [|by apply Hdis]. rewrite Hp. apply elem_of_app. by left.
Qed.

Lemma begin_use_ok w usable now s' c :
  tcp_query_begin cfg usable now (ts w) = (s', Ret (QUse c)) → tcp_ok cfg w →
  tcp_ok cfg (mkTcpSys s' (connecting w) (c :: in_use w)).
Proof.
  intros Hb [Hnd Hopen Hpool Hcl Hcount Hlim].
  destruct (query_begin_cases _ _ _ _ _ Hb) as (Ecl & [[? _]|(Hc & Hn & Hl & dropped & Hcc & [[? _]|H])]);
    [done..|]. destruct H as (c' & l & [= <-] & Hids & ->).
  destruct (owned_split (in_use w) _ _ l c Hids Hnd) as [Hnd' Hin]. split; cbn.
  - exact Hnd'.
  - intros x Hx. destruct (Hin x Hx) as [Ho Hl']. rewrite Hcc. specialize (Hopen x Ho). set_solver.
  - apply (f_equal length) in Hids. unfold pool_ids in Hids. rewrite length_app, !length_fmap in Hids.
    unfold len in *. lia.
  - rewrite Ecl, Hc. done.
  - rewrite Hn, Hcount. destruct (_ <? _)%Z; lia.
  - rewrite Hn. intros Hpos. specialize (Hl Hpos). destruct (_ <? _)%Z; lia.
Qed.

Lemma begin_connect_ok w usable now s' :
  tcp_query_begin cfg usable now (ts w) = (s', Ret QConnect) → tcp_ok cfg w →
  tcp_ok cfg (mkTcpSys s' (S (connecting w)) (in_use w)).
Proof.
  intros Hb [Hnd Hopen Hpool Hcl Hcount Hlim].
  destruct (query_begin_cases _ _ _ _ _ Hb) as (Ecl & [[? _]|(Hc & Hn & Hl & dropped & Hcc & [[_ Hp]|H])]);
    [done| |by destruct H as (? & ? & ? & _)].
  unfold owned in *. apply NoDup_app in Hnd as (Hu & Hdis & Hpn).
  split; unfold owned; cbn; destruct Hp as [[Hp ->]|[Hp ->]]; rewrite ?Hp.
  - by apply NoDup_app.
  - cbn. by rewrite app_nil_r.
  - rewrite Hcc. intros x Hx. specialize (Hopen x Hx). set_solver.
  - rewrite Hcc. cbn. rewrite app_nil_r. intros x Hx. specialize (Hdis x Hx). specialize (Hopen x).
    set_solver.
  - done.
  - rewrite len_nil. lia.
  - rewrite Ecl, Hc. done.
  - done.
  - rewrite Hn, Hcount. destruct (_ <? _)%Z; lia.
  - rewrite Hn, Hcount. destruct (_ <? _)%Z; lia.
  - rewrite Hn. intros Hpos. specialize (Hl Hpos). destruct (_ <? _)%Z; lia.
  - rewrite Hn. intros Hpos. specialize (Hl Hpos). destruct (_ <? _)%Z; lia.
Qed.

Lemma query_end_ok w i c usable now wire drain :
  in_use w !! i = Some c → tcp_ok cfg w →
  tcp_ok cfg (mkTcpSys (tcp_query_end cfg usable now c wire drain (ts w)).1 (connecting w) (delete i (in_use w))).
Proof.
  intros Hi [Hnd Hopen Hpool Hcl Hcount Hlim].
  destruct (query_end_cases usable now c wire drain (ts w)) as (Ecl & Hn & Hcase).
  assert (in_use w ≡ₚ c :: delete i (in_use w)) as Hperm by (by apply delete_Permutation).
  revert Hperm. generalize (delete i (in_use w)) as u'. intros u' Hperm.
  pose proof (Permutation_length Hperm) as Hlen. cbn in Hlen. unfold owned in *. rewrite Hperm in Hnd.
  assert (∀ x, x ∈ c :: u' ++ pool_ids (_pool (ts w)) →
    x ∈ in_use w ++ pool_ids (_pool (ts w))) as Hsub.
  { intros x. rewrite Hperm. done. }
  cbn in Hnd. apply NoDup_cons in Hnd as [Hnew Hnd].
  split; unfold owned; cbn [ts connecting in_use].
  - destruct Hcase as [[-> _]|(-> & _)]; [done|]. unfold pool_ids. rewrite fmap_app, app_assoc. cbn.
    apply NoDup_app. split; [done|]. split; [|apply NoDup_singleton].
    intros x Hx ->%list_elem_of_singleton. done.
  - intros x Hx. destruct Hcase as [[Hp ->]|(Hp & -> & _)]; rewrite Hp in Hx.
    + assert (x ≠ c) by (intros ->; done). specialize (Hopen x (Hsub x ltac:(by right))). set_solver.
    + apply Hopen, Hsub. unfold pool_ids in *. rewrite fmap_app in Hx. cbn in Hx. set_solver.
  - destruct Hcase as [[-> _]|(-> & _ & Hlt & _)]; [done|]. rewrite len_app, len_cons, len_nil. lia.
  - rewrite Ecl. intros Hc. destruct Hcase as [[-> _]|(_ & _ & _ & ?)]; [by apply Hcl|congruence].
  - rewrite Hn. unfold dec. rewrite Hcount. destruct (_ <? _)%Z; lia.
  - rewrite Hn. unfold dec. intros Hpos. specialize (Hlim Hpos). destruct (_ <? _)%Z; lia.
Qed.

Lemma connect_fail_run e s :
  same_pool (set_inflight (dec (tf_inflight s)) s) (tcp_query_connect cfg (Raise e) s).1.
Proof.
  unfold tcp_query_connect, mbind, M_bind. destruct e; cbn [is_Exception]; rewrite ?minc_run;
    match goal with |- context [tcp_query_finally cfg ?b ?s2] => destruct (query_finally_run b s2) as [m ->] end;
    done.
Qed.

Lemma tcp_step_ok w w' : tcp_step cfg w w' → tcp_ok cfg w → tcp_ok cfg w'.
Proof.
  intros Hstep Hok. pose proof Hok as [Hnd Hopen Hpool Hcl Hcount Hlim].
  destruct Hstep as [usable now s' Hb|usable now s' Hb|usable now s' c Hb|n c st Hn Hfr Hfc|n e Hn
    |i c usable now wire drain Hi|c st|].
  - destruct (query_begin_cases _ _ _ _ _ Hb) as (Ecl & [[_ (Hp & _ & Hi & Hcc)]|(_ & _ & _ & d & _ & [[? _]|H])]);
      [|done|by destruct H as (? & ? & ? & _)].
    split; unfold owned in *; cbn; rewrite ?Hp, ?Hi, ?Hcc, ?Ecl; done.
  - by apply (begin_connect_ok w usable now).
  - by apply (begin_use_ok w usable now).
  - split; unfold owned in *; cbn; try done.
    + by constructor.
    + intros x [->|Hx]%elem_of_cons; [done|by apply Hopen].
    + rewrite Hcount, Hn. destruct (_ <? _)%Z; lia.
  - destruct (connect_fail_run e (ts w)) as (Hp & Hc & Hi & Hcc).
    cbn [set_inflight _pool tf_closed tf_inflight tf_closed_conns] in Hp, Hc, Hi, Hcc.
    split; unfold owned in *; cbn [ts connecting in_use]; rewrite ?Hp, ?Hc, ?Hi, ?Hcc; try done.
    + unfold dec. rewrite Hcount, Hn. destruct (_ <? _)%Z; lia.
    + unfold dec. intros Hpos. specialize (Hlim Hpos). destruct (_ <? _)%Z; lia.
  - by apply query_end_ok.
  - by split.
  - unfold tcp_close, mbind, M_bind, modify, gets. rewrite close_all_run.
    split; unfold owned in *; cbn; try done.
    + rewrite app_nil_r. by apply NoDup_app in Hnd as [? _].
    + rewrite app_nil_r. intros x Hx. apply NoDup_app in Hnd as (_ & Hdis & _).
      specialize (Hdis x Hx). specialize (Hopen x). set_solver.
    + rewrite len_nil. lia.
Qed.
End pool.
