(* ===== verification/UpstreamTheorems.v ===== *)
(** * The TCP forwarder's properties *)
From S2P Require Import Prelude PyFloat Metrics Framing Upstream UpstreamProps.
From stdpp Require Import base list strings gmap sets relations.
From Stdlib.Strings Require Import Byte.

Module upstream_example.
Definition cfg : UpstreamTcpConfig :=
  mkUpstreamTcpConfig "1.1.1.1" 53 (float_of_Z 2) (float_of_Z 2) 65535 4 (30 * SECOND) 2.
Definition f0 : TcpFwd := tcp_fwd_new (Some metrics_new).
Definition w0 : TcpSys := mkTcpSys f0 0 [].
Definition query : bytes := [Byte.x01].
Definition old_answer : bytes := [Byte.x0a; Byte.x0b].
Definition new_answer : bytes := [Byte.x0c].
Definition f_read : TcpFwd := set_stream 0 (mkStream (frame old_answer) IncompleteReadError) f0.
Definition usable : nat → bool := λ _, true.
(** A first query on connection 0 that is cancelled while it waits for the
    answer, which arrives afterwards. *)
Definition f_cancelled : TcpFwd :=
  (tcp_query cfg usable 0 1 query (Ret 0) (Ret ())
     (set_stream 0 (mkStream [] CancelledError) f0)).1.
Definition f_late : TcpFwd :=
  set_stream 0 (mkStream (frame old_answer ++ frame new_answer) IncompleteReadError) f_cancelled.
End upstream_example.

(** C29: Connection ownership: over every interleaving of queries, connects,
    failures, cancellations and [close], a connection belongs to at most one
    query or one place in the pool, none of them is closed, the pool holds at
    most [pool_max_conns] connections and none after [close], and the inflight
    count is exactly the number of running queries and at most
    [max_inflight]. *)
Theorem tcp_pool_sound (cfg : UpstreamTcpConfig) (m : option Metrics) (w : TcpSys) :
  rtc (tcp_step cfg) (mkTcpSys (tcp_fwd_new m) 0 []) w →
  NoDup (in_use w ++ pool_ids (_pool (ts w)))
  ∧ (∀ c, c ∈ in_use w ++ pool_ids (_pool (ts w)) → c ∉ tf_closed_conns (ts w))
  ∧ (len (_pool (ts w)) ≤ Z.max 0 (pool_max_conns cfg))%Z
  ∧ (tf_closed (ts w) = true → _pool (ts w) = [])
  ∧ ((0 < ut_max_inflight cfg)%Z →
       tf_inflight (ts w) = Z.of_nat (connecting w + length (in_use w))
       ∧ (tf_inflight (ts w) ≤ ut_max_inflight cfg)%Z).
Proof.
  intros Hr. assert (tcp_ok cfg w) as [Hnd Hopen Hpool Hcl Hcount Hlim].
  { remember (mkTcpSys (tcp_fwd_new m) 0 []) as w0 eqn:E.
    assert (tcp_ok cfg w0) as Hok.
    { subst. split; cbn; [constructor|set_solver|rewrite len_nil; lia|done|by destruct (_ <? _)%Z|lia]. }
    clear E. induction Hr as [w0|w0 w1 w2 Hstep _ IH]; [done|]. apply IH. by eapply tcp_step_ok. }
  split; [done|]. split; [done|]. split; [done|]. split; [done|]. intros Hpos. split; [|by apply Hlim].
  by rewrite Hcount, (proj2 (Z.ltb_lt _ _)).
Qed.

Lemma tcp_pool_sound_witness :
  (len (_pool (ts (mkTcpSys (tcp_close upstream_example.f0).1 0 []))) ≤ Z.max 0 4)%Z.
Proof.
  destruct (tcp_pool_sound upstream_example.cfg (Some metrics_new)
    (mkTcpSys (tcp_close upstream_example.f0).1 0 [])) as (_ & _ & Hlen & _).
  - apply rtc_once. exact (tstep_close upstream_example.cfg upstream_example.w0).
  - exact Hlen.
Defined.

(** ** One exchange *)

Section exchange.
Context (cfg : UpstreamTcpConfig).

Lemma read_conn_run c n s st d st' :
  tf_streams s !! c = Some st → readexactly n st = Ret (d, st') →
  read_conn c n s = (set_stream c st' s, Ret d).
Proof. intros Hs Hr. unfold read_conn, mbind, M_bind, get_state. rewrite Hs, Hr. done. Qed.

Lemma exchange_frame c wire m rest e s :
  (len wire < 65536)%Z → tf_streams s !! c = Some (mkStream (frame m ++ rest) e) → (len m < 65536)%Z →
  (0 < ut_max_message_size cfg → len m ≤ ut_max_message_size cfg)%Z →
  ∃ s', exchange cfg c wire (Ret ()) s = (s', Ret (Some m, false))
    ∧ tf_streams s' !! c = Some (mkStream rest e) ∧ tf_written s' = tf_written s ++ [(c, frame wire)].
Proof.
  intros Hw Hs Hm Hmax. pose proof (len_nonneg wire).
  destruct (to_bytes2_spec (len wire)) as (b & Eb & _); [lia|].
  destruct (frame_read m rest e Hm) as (lb & E1 & E2 & Hv).
  unfold exchange, read_or_count, mbind, M_bind, try_except, lift_res. rewrite Eb.
  cbn [write_conn modify].
  match goal with |- context [read_conn c 2 ?s1] => rewrite (read_conn_run c 2 s1 _ _ _ Hs E1) end.
  cbn [fst snd mret M_ret].
  assert (((0 <? ut_max_message_size cfg) && (ut_max_message_size cfg <? len m))%Z = false) as Hno.
  { destruct (0 <? ut_max_message_size cfg)%Z eqn:E0; [|done]. zbool. apply Z.ltb_ge. by apply Hmax. }
  unfold mret, M_ret. rewrite Hv, Hno. rewrite Hv in E2.
  rewrite (read_conn_run c (len m) _ (mkStream (m ++ rest) e) _ _ (lookup_insert_eq _ _ _) E2).
  rewrite Hno. eexists. split; [done|]. cbn. split; [apply lookup_insert_eq|].
  unfold frame. by rewrite Eb.
Qed.

(** The exchange does not touch the error counter, and returns no answer only
    as an error. *)
Definition errors_are (x : Z) (b : Z) (s : TcpFwd) : Prop :=
  count_opt (tf_metrics s) "upstream_tcp_errors_total" = x ∧ onm (tf_metrics s) 1 = b.
Lemma minc_errors x b k :
  k ≠ "upstream_tcp_errors_total" → preserves (errors_are x b) (minc k).
Proof. intros Hk s [Hx Hb]. split; cbn; [by rewrite count_opt_inc, decide_False, Z.add_0_r|by rewrite onm_inc]. Qed.
Lemma read_conn_errors x b c n : preserves (errors_are x b) (read_conn c n).
Proof. unfold read_conn. solve_preserves. apply preserves_modify. by intros ? ?. Qed.
Lemma write_conn_errors x b c d : preserves (errors_are x b) (write_conn c d).
Proof. by intros s Hs. Qed.
#[local] Hint Resolve read_conn_errors write_conn_errors : rdns.
#[local] Hint Extern 1 (preserves _ (minc _)) => (by apply minc_errors) : rdns.
Lemma exchange_errors x b c wire drain : preserves (errors_are x b) (exchange cfg c wire drain).
Proof. unfold exchange, read_or_count, oversize. solve_preserves. Qed.

Lemma exchange_none c wire drain s s' errored :
  exchange cfg c wire drain s = (s', Ret (None, errored)) → errored = true.
Proof.
  unfold exchange, try_except. unfold mbind, M_bind, oversize, lift_res, mret, M_ret.
  intros Hx. repeat (case_match; simplify_eq; try done).
Qed.
End exchange.

(** C30: What a TCP query does to its connection: when the upstream's framed
    answer arrives, the query returns exactly that message and leaves the
    connection positioned after it; when the query returns no answer, it has
    closed the connection, which never reaches the pool, and counted one
    error. *)
Theorem tcp_query_end_correct (cfg : UpstreamTcpConfig) (usable : nat → bool) (now : Z) (c : nat)
    (wire : bytes) (drain : res unit) (s : TcpFwd) :
  let r := tcp_query_end cfg usable now c wire drain s in
  (∀ m rest e, (len wire < 65536)%Z → drain = Ret () →
     tf_streams s !! c = Some (mkStream (frame m ++ rest) e) → (len m < 65536)%Z →
     (0 < ut_max_message_size cfg → len m ≤ ut_max_message_size cfg)%Z →
     r.2 = Ret (Some m) ∧ tf_streams r.1 !! c = Some (mkStream rest e))
  ∧ (r.2 = Ret None →
     _pool r.1 = _pool s ∧ tf_closed_conns r.1 = {[c]} ∪ tf_closed_conns s
     ∧ count_opt (tf_metrics r.1) "upstream_tcp_errors_total" =
         (count_opt (tf_metrics s) "upstream_tcp_errors_total" + onm (tf_metrics s) 1)%Z).
Proof.
  intros r. unfold r, tcp_query_end. split.
  - intros m rest e Hw -> Hs Hm Hmax. destruct (exchange_frame cfg c wire m rest e s Hw Hs Hm Hmax) as (s' & -> & Hst & _).
    unfold mbind, M_bind.
    destruct (release_cases cfg usable now c s') as [->|(-> & _)]; cbn [_close_writer modify];
      match goal with |- context [tcp_query_finally cfg ?b ?s2] =>
        destruct (query_finally_run cfg b s2) as [m' ->] end; done.
  - pose proof (exchange_errors cfg (count_opt (tf_metrics s) "upstream_tcp_errors_total") (onm (tf_metrics s) 1)
      c wire drain s ltac:(done)) as He.
    pose proof (exchange_same cfg s c wire drain s ltac:(done)) as Hp.
    destruct (exchange cfg c wire drain s) as [s' [[[d|] errored]|e]] eqn:Ex; unfold mbind, M_bind.
    + destruct errored; [|destruct (release_cases cfg usable now c s') as [->|(-> & _)]];
        cbn [_close_writer modify];
        match goal with |- context [tcp_query_finally cfg ?b ?s2] =>
          destruct (query_finally_run cfg b s2) as [m' ->] end; done.
    + apply exchange_none in Ex as ->. intros _. cbn [_close_writer modify].
      unfold tcp_query_finally, mbind, M_bind. cbn [when]. rewrite minc_run.
      destruct He as [He1 He2], Hp as (Hp & _ & _ & Hcc). cbn [fst] in *.
      destruct (0 <? ut_max_inflight cfg)%Z; cbn; rewrite Hp, Hcc; (split; [done|]); (split; [done|]);
        rewrite count_opt_inc, decide_True by done; lia.
    + destruct (release_cases cfg usable now c s') as [->|(-> & _)]; cbn [_close_writer modify];
        match goal with |- context [tcp_query_finally cfg ?b ?s2] =>
          destruct (query_finally_run cfg b s2) as [m' ->] end; done.
Qed.

Lemma tcp_query_end_correct_witness :
  (tcp_query_end upstream_example.cfg upstream_example.usable 1 0 upstream_example.query (Ret ())
     upstream_example.f_read).2 = Ret (Some upstream_example.old_answer).
Proof.
  destruct (tcp_query_end_correct upstream_example.cfg upstream_example.usable 1 0 upstream_example.query (Ret ())
    upstream_example.f_read) as [Hframe _].
  apply (Hframe upstream_example.old_answer [] IncompleteReadError);
    [vm_compute; reflexivity|reflexivity|vm_compute; reflexivity|vm_compute; reflexivity|].
  intros _. vm_compute. discriminate.
Defined.

(** ** A cancelled query leaves its answer behind *)

(** Cancellation leaves the exchange with [errored] still false, so the
    connection goes back to the pool with an answer outstanding, and the next
    query that takes it returns the previous query's answer. *)
Lemma cancelled_query_poisons_pool :
  pool_ids (_pool upstream_example.f_cancelled) = [0]
  ∧ (tcp_query upstream_example.cfg upstream_example.usable 2 3 upstream_example.query (Ret 1) (Ret ())
       upstream_example.f_late).2 = Ret (Some upstream_example.old_answer).
Proof. split; vm_compute; reflexivity. Qed.
