(* ===== verification/UpstreamMatch.v ===== *)
(** * Whose answer a pooled connection delivers

    The TCP forwarder reads one length-prefixed message per query and does not
    look into it, so that the answer it returns is the answer to its own query
    depends on the pool: a connection that is used again must have nothing left
    to read and nothing outstanding.  This file adds the upstream server to the
    queries of [tcp_step]: the server on a connection answers the messages
    written on it one by one and in order, its bytes arrive in pieces or not at
    all, and connections fail at any point. *)
From S2P Require Import Prelude Metrics Framing Upstream UpstreamProps UpstreamTheorems.
From stdpp Require Import base list strings gmap sets relations.
From Stdlib.Strings Require Import Byte.

(** The entries of connection [c] in a log of bytes. *)
Definition on (c : nat) (l : list (nat * bytes)) : list bytes := (filter (λ p, p.1 = c) l).*2.
Arguments on : simpl never.

Lemma on_app c l1 l2 : on c (l1 ++ l2) = on c l1 ++ on c l2.
Proof. unfold on. by rewrite filter_app, fmap_app. Qed.
Lemma on_one c b : on c [(c, b)] = [b].
Proof. unfold on. by rewrite filter_cons_True. Qed.
Lemma on_other c c' b : c ≠ c' → on c [(c', b)] = [].
Proof. intros Hne. unfold on. rewrite filter_cons_False; [done|]. cbn. congruence. Qed.

(** ** The upstream server and its network *)

(** A query that has ended: its connection, what had been written there before
    it, the query and its result. *)
Record Ended := mkEnded {
  en_conn : nat; en_before : list bytes; en_wire : bytes; en_result : res (option bytes) }.

(** The forwarder, the bytes that have arrived, and the ended queries. *)
Record MSys := mkMSys { m_sys : TcpSys; m_arrived : list (nat * bytes); m_ended : list Ended }.

(** What a query that has begun does next. *)
Definition begun (r : query_start) (s : TcpFwd) (w : TcpSys) : TcpSys :=
  match r with
  | QReturnNone => mkTcpSys s (connecting w) (in_use w)
  | QConnect => mkTcpSys s (S (connecting w)) (in_use w)
  | QUse c => mkTcpSys s (connecting w) (c :: in_use w)
  end.

(** Steps that neither read nor write. *)
Inductive local_step (cfg : UpstreamTcpConfig) (w : TcpSys) : TcpSys → Prop :=
| lstep_begin usable now s r :
    tcp_query_begin cfg usable now (ts w) = (s, Ret r) → local_step cfg w (begun r s w)
| lstep_connect_fails n e :
    connecting w = S n →
    local_step cfg w (mkTcpSys (tcp_query_connect cfg (Raise e) (ts w)).1 n (in_use w))
| lstep_close : local_step cfg w (mkTcpSys (tcp_close (ts w)).1 (connecting w) (in_use w)).

(** [serv c qs]: the answer the server on connection [c] gives to the last of
    the messages [qs]. *)
Definition answers (serv : nat → list bytes → bytes) (c : nat) (qs : list bytes) : bytes :=
  concat (imap (λ i _, frame (serv c (take (S i) qs))) qs).

(** [more] arrives on [c] when [qs] have been written there. *)
Definition arrives (serv : nat → list bytes → bytes) (w : MSys) (c : nat) (qs : list bytes) (more : bytes) : Prop :=
  concat (on c (m_arrived w)) ++ more `prefix_of` answers serv c qs.

(** What is left to read on [c], and [more]. *)
Definition feed (c : nat) (more : bytes) (e : exn) (s : TcpFwd) : TcpFwd :=
  set_stream c (mkStream (match tf_streams s !! c with Some st => st_data st | None => [] end ++ more) e) s.

Inductive match_step (cfg : UpstreamTcpConfig) (serv : nat → list bytes → bytes) (w : MSys) : MSys → Prop :=
| mstep_local s' :
    local_step cfg (m_sys w) s' → match_step cfg serv w (mkMSys s' (m_arrived w) (m_ended w))
| mstep_connected n c e :
    connecting (m_sys w) = S n → c ∉ owned (m_sys w) → c ∉ tf_closed_conns (ts (m_sys w)) →
    match_step cfg serv w
      (mkMSys (mkTcpSys (set_stream c (mkStream [] e) (tcp_query_connect cfg (Ret c) (ts (m_sys w))).1) n
                 (c :: in_use (m_sys w))) (m_arrived w) (m_ended w))
| mstep_late c more e :
    arrives serv w c (on c (tf_written (ts (m_sys w)))) more →
    match_step cfg serv w
      (mkMSys (mkTcpSys (feed c more e (ts (m_sys w))) (connecting (m_sys w)) (in_use (m_sys w)))
         (m_arrived w ++ [(c, more)]) (m_ended w))
| mstep_end i c usable now wire drain more e :
    in_use (m_sys w) !! i = Some c →
    is_Exception e = true → (∀ e', drain = Raise e' → is_Exception e' = true) →
    arrives serv w c (on c (tf_written (ts (m_sys w))) ++ [frame wire]) more →
    let r := tcp_query_end cfg usable now c wire drain (feed c more e (ts (m_sys w))) in
    match_step cfg serv w
      (mkMSys (mkTcpSys r.1 (connecting (m_sys w)) (delete i (in_use (m_sys w))))
         (m_arrived w ++ [(c, more)])
         (m_ended w ++ [mkEnded c (on c (tf_written (ts (m_sys w)))) wire r.2])).

Definition match_init (m : option Metrics) : MSys := mkMSys (mkTcpSys (tcp_fwd_new m) 0 []) [] [].

Lemma answers_snoc serv c qs q :
  answers serv c (qs ++ [q]) = answers serv c qs ++ frame (serv c (qs ++ [q])).
Proof.
  unfold answers. rewrite imap_app, concat_app. cbn [imap concat]. rewrite app_nil_r, Nat.add_0_r.
  rewrite (take_ge (qs ++ [q])) by (rewrite length_app; cbn; lia). f_equal. f_equal. apply imap_ext.
  intros i x Hi%lookup_lt_Some. f_equal. f_equal. by rewrite take_app_le by lia.
Qed.

(** ** One exchange *)

Section exchange_match.
Context (cfg : UpstreamTcpConfig).

(** A connection other than the one an operation works on. *)
Definition untouched (c : nat) (s s' : TcpFwd) : Prop :=
  ∀ c', c' ≠ c → tf_streams s' !! c' = tf_streams s !! c' ∧ on c' (tf_written s') = on c' (tf_written s).

Section frame_rule.
Context (c : nat) (s0 : TcpFwd).
Lemma minc_untouched k : preserves (untouched c s0) (minc k).
Proof. by intros s Hs. Qed.
Lemma read_conn_untouched n : preserves (untouched c s0) (read_conn c n).
Proof.
  unfold read_conn. solve_preserves. apply preserves_modify. intros s2 Hs c' Hc'.
  cbn. rewrite lookup_insert_ne by done. by apply Hs.
Qed.
Lemma write_conn_untouched b : preserves (untouched c s0) (write_conn c b).
Proof.
  intros s Hs c' Hc'. cbn. rewrite on_app, on_other, app_nil_r by done. by apply Hs.
Qed.
#[local] Hint Resolve minc_untouched read_conn_untouched write_conn_untouched : rdns.
Lemma exchange_untouched wire drain : preserves (untouched c s0) (exchange cfg c wire drain).
Proof. unfold exchange, read_or_count, oversize. solve_preserves. Qed.
End frame_rule.

(** Reading from a piece of a framed message. *)
Lemma read_length a more e :
  (len a < 65536)%Z → more `prefix_of` frame a →
  readexactly 2 (mkStream more e) = Raise e
  ∨ ∃ lb more', readexactly 2 (mkStream more e) = Ret (lb, mkStream more' e)
      ∧ more = lb ++ more' ∧ frame a = lb ++ a ∧ more' `prefix_of` a ∧ from_bytes lb = len a.
Proof.
  intros Ha Hp. pose proof (len_nonneg a).
  destruct (to_bytes2_spec (len a)) as (lb & E & Hl & Hv); [lia|].
  assert (frame a = lb ++ a) as Hf by (unfold frame; by rewrite E).
  destruct (Z.le_gt_cases 2 (len more)) as [Hle|Hlt].
  2:{ left. unfold readexactly. cbn [st_data]. by rewrite (proj2 (Z.leb_gt _ _)) by lia. }
  right. rewrite Hf in Hp. destruct Hp as [k Hk].
  assert (more = lb ++ drop 2 more) as Hm.
  { apply (f_equal (take 2)) in Hk. rewrite take_app_le in Hk by lia. rewrite take_app_le in Hk by (unfold len in Hle; lia).
    rewrite take_ge in Hk by lia. rewrite Hk. by rewrite take_drop. }
  exists lb, (drop 2 more). split; [rewrite Hm at 1; by apply (readexactly_app 2)|].
  split; [done|]. split; [done|]. split; [|done]. exists k. rewrite Hm, <- app_assoc in Hk.
  by apply app_inv_head in Hk.
Qed.

Lemma read_body a more e :
  more `prefix_of` a →
  readexactly (len a) (mkStream more e) = Raise e
  ∨ (readexactly (len a) (mkStream more e) = Ret (a, mkStream [] e) ∧ more = a).
Proof.
  intros Hp. pose proof (prefix_length _ _ Hp). destruct (decide (length more = length a)) as [E|E].
  - right. assert (more = a) as ->.
    { apply prefix_length_eq; [done|lia]. }
    split; [|done]. rewrite <- (app_nil_r a) at 2. by apply readexactly_app.
  - left. unfold readexactly. cbn [st_data]. by rewrite (proj2 (Z.leb_gt _ _)) by (unfold len; lia).
Qed.

Lemma read_or_count_fails c n s st :
  tf_streams s !! c = Some st → is_Exception (st_end st) = true → readexactly n st = Raise (st_end st) →
  ∃ s', read_or_count c n s = (s', Ret None).
Proof.
  intros Hs He Hr. unfold read_or_count, read_conn, try_except, mbind, M_bind, get_state. rewrite Hs, Hr.
  destruct (st_end st); try discriminate He; cbn; eexists; reflexivity.
Qed.
Lemma read_or_count_reads c n s st d st' :
  tf_streams s !! c = Some st → readexactly n st = Ret (d, st') →
  read_or_count c n s = (set_stream c st' s, Ret (Some d)).
Proof.
  intros Hs Hr. unfold read_or_count, try_except, mbind, M_bind. by rewrite (read_conn_run _ _ _ _ _ _ Hs Hr).
Qed.

Lemma exchange_match c wire drain more e a s :
  is_Exception e = true → (∀ e', drain = Raise e' → is_Exception e' = true) → (len a < 65536)%Z →
  more `prefix_of` frame a → tf_streams s !! c = Some (mkStream more e) →
  ∃ s', exchange cfg c wire drain s = (s', Ret (None, true))
    ∨ (exchange cfg c wire drain s = (s', Ret (Some a, false)) ∧ more = frame a
       ∧ tf_streams s' !! c = Some (mkStream [] e) ∧ tf_written s' = tf_written s ++ [(c, frame wire)]).
Proof.
  intros He Hdrain Ha Hp Hs. unfold exchange, try_except, mbind, M_bind, lift_res.
  destruct (to_bytes2 (len wire)) as [b|e'] eqn:Eb.
  2:{ unfold to_bytes2 in Eb. destruct (_ && _); [done|]. injection Eb as <-. eexists. by left. }
  cbn [write_conn modify]. destruct drain as [[]|e'].
  2:{ rewrite (Hdrain e' eq_refl). eexists. by left. }
  destruct (read_length a more e Ha Hp) as [Hf|(lb & more' & Hr & -> & Hfr & Hp' & Hv)].
  { destruct (read_or_count_fails c 2 (write_conn c (b ++ wire) s).1 _ Hs He Hf) as [s' Hx]. cbn in Hx.
    rewrite Hx. eexists. by left. }
  pose proof (read_or_count_reads c 2 (write_conn c (b ++ wire) s).1 _ _ _ Hs Hr) as Hx. cbn in Hx.
  rewrite Hx, Hv. destruct (_ && _)%Z eqn:Eo; [eexists; by left|]. clear Hx.
  assert (tf_streams (set_stream c (mkStream more' e) (write_conn c (b ++ wire) s).1) !! c = Some (mkStream more' e)) as Hs'
    by (cbn; apply lookup_insert_eq).
  destruct (read_body a more' e Hp') as [Hf|[Hr' ->]].
  { destruct (read_or_count_fails c (len a) _ _ Hs' He Hf) as [s' Hx]. cbn in Hx. rewrite Hx. eexists. by left. }
  pose proof (read_or_count_reads c (len a) _ _ _ _ Hs' Hr') as Hx. cbn in Hx. rewrite Hx, Eo.
  eexists. right. split; [done|]. split; [by rewrite Hfr|]. cbn. split; [apply lookup_insert_eq|].
  unfold frame. by rewrite Eb.
Qed.
End exchange_match.

(** ** The invariant *)

Section matching.
Context (cfg : UpstreamTcpConfig) (serv : nat → list bytes → bytes).
Hypothesis serv_fits : ∀ c qs, (len (serv c qs) < 65536)%Z.

(** Reads and writes of the network are left alone. *)
Definition same_io (s s' : TcpFwd) : Prop := tf_streams s' = tf_streams s ∧ tf_written s' = tf_written s.

(** A connection that a query uses or the pool holds has delivered the answers
    to all that was written on it, and they have been read. *)
Definition settled (w : MSys) (c : nat) : Prop :=
  let s := ts (m_sys w) in
  concat (on c (m_arrived w)) = answers serv c (on c (tf_written s))
  ∧ (∀ st, tf_streams s !! c = Some st → st_data st = []).

(** A connection that was not made yet. *)
Definition unused (w : MSys) (c : nat) : Prop :=
  on c (tf_written (ts (m_sys w))) = [] ∧ concat (on c (m_arrived w)) = [].

Definition answered (r : Ended) : Prop :=
  en_result r = Ret None ∨ en_result r = Ret (Some (serv (en_conn r) (en_before r ++ [frame (en_wire r)]))).

Record match_ok (w : MSys) : Prop := {
  mo_tcp : tcp_ok cfg (m_sys w);
  mo_settled : ∀ c, c ∈ owned (m_sys w) → settled w c;
  mo_unused : ∀ c, c ∉ owned (m_sys w) → c ∉ tf_closed_conns (ts (m_sys w)) → unused w c;
  mo_ended : ∀ r, r ∈ m_ended w → answered r;
}.

(** A step that keeps the network and only drops connections by closing
    them. *)
Definition narrows (w w' : TcpSys) : Prop :=
  (∀ c, c ∈ owned w' → c ∈ owned w)
  ∧ (∀ c, c ∉ owned w' → c ∉ tf_closed_conns (ts w') → (c ∉ owned w) ∧ (c ∉ tf_closed_conns (ts w))).

Lemma narrow_ok w s' :
  match_ok w → tcp_ok cfg s' → same_io (ts (m_sys w)) (ts s') → narrows (m_sys w) s' →
  match_ok (mkMSys s' (m_arrived w) (m_ended w)).
Proof.
  intros [_ Hse Hun He] Ht [Es Ew] [Hin Hout]. split; cbn [m_sys m_arrived m_ended]; [done| | |done].
  - intros c Hc. unfold settled. cbn [m_sys m_arrived]. rewrite Es, Ew. by apply Hse, Hin.
  - intros c Hc Hcl. unfold unused. cbn [m_sys m_arrived]. rewrite Ew. by apply Hun; apply Hout.
Qed.

Lemma local_tcp_step w w' : local_step cfg w w' → tcp_step cfg w w'.
Proof.
  intros [usable now s r Hb|n e Hn|].
  - destruct r; [by eapply tstep_begin|by eapply tstep_begin_connect|by eapply tstep_begin_use].
  - by apply tstep_connect_fails.
  - apply tstep_close.
Qed.

Lemma connect_fails_io e s : same_io s (tcp_query_connect cfg (Raise e) s).1.
Proof.
  unfold tcp_query_connect, mbind, M_bind. destruct e; cbn [is_Exception]; rewrite ?minc_run;
    match goal with |- context [tcp_query_finally cfg ?b ?s2] =>
      destruct (query_finally_run cfg b s2) as [m ->] end; done.
Qed.
Lemma close_io s : same_io s (tcp_close s).1.
Proof. unfold tcp_close, mbind, M_bind, modify, gets. by rewrite close_all_run. Qed.
Lemma begin_io usable now s : same_io s (tcp_query_begin cfg usable now s).1.
Proof.
  unfold tcp_query_begin, mbind, M_bind, get_state. destruct (tf_closed s); [done|].
  destruct (_ && _); [done|]. destruct (0 <? ut_max_inflight cfg)%Z; cbn [when]; unfold modify, mret, M_ret;
    rewrite minc_run;
    match goal with |- context [_acquire_from_pool _ ?u ?n ?s1] =>
      destruct (acquire_run cfg u n s1) as (p & dropped & r' & m & -> & _) end; by destruct r'.
Qed.

Lemma begin_narrows w usable now s' r :
  tcp_query_begin cfg usable now (ts w) = (s', Ret r) → narrows w (begun r s' w).
Proof.
  intros Hb. unfold narrows, owned.
  destruct (query_begin_cases _ _ _ _ _ _ Hb)
    as (_ & [[-> (Hp & _ & _ & Hcc)]|(_ & _ & _ & d & Hcc & [[-> Hd]|(c & l & -> & Hids & ->)])]); cbn.
  - rewrite Hp, Hcc. done.
  - destruct Hd as [[-> ->]|[-> ->]]; rewrite Hcc; cbn; rewrite ?app_nil_r; set_solver.
  - rewrite Hids, Hcc. set_solver.
Qed.

Lemma local_narrows w w' : local_step cfg w w' → same_io (ts w) (ts w') ∧ narrows w w'.
Proof.
  intros [usable now s r Hb|n e Hn|].
  - split; [|by apply (begin_narrows w usable now)].
    pose proof (begin_io usable now (ts w)) as Hio. rewrite Hb in Hio. by destruct r.
  - split; [apply connect_fails_io|]. destruct (connect_fail_run cfg e (ts w)) as (Hp & _ & _ & Hcc).
    unfold narrows, owned. cbn [ts in_use]. rewrite Hp, Hcc. done.
  - split; [apply close_io|]. unfold narrows, owned, tcp_close, mbind, M_bind, modify, gets. cbn [ts in_use].
    rewrite close_all_run. cbn. rewrite app_nil_r. set_solver.
Qed.

(** ** The end of a query *)

Lemma query_end_match usable now c wire drain more e a s :
  is_Exception e = true → (∀ e', drain = Raise e' → is_Exception e' = true) → (len a < 65536)%Z →
  more `prefix_of` frame a → tf_streams s !! c = Some (mkStream more e) →
  let r := tcp_query_end cfg usable now c wire drain s in
  untouched c s r.1
  ∧ ((r.2 = Ret None ∧ _pool r.1 = _pool s ∧ tf_closed_conns r.1 = {[c]} ∪ tf_closed_conns s)
     ∨ (r.2 = Ret (Some a) ∧ more = frame a
        ∧ tf_streams r.1 !! c = Some (mkStream [] e) ∧ tf_written r.1 = tf_written s ++ [(c, frame wire)])).
Proof.
  intros He Hd Ha Hp Hs r. unfold r, tcp_query_end.
  pose proof (exchange_untouched cfg c s wire drain s ltac:(done)) as Hun.
  pose proof (exchange_same cfg s c wire drain s ltac:(done)) as (Hpool & _ & _ & Hcc).
  destruct (exchange_match cfg c wire drain more e a s He Hd Ha Hp Hs) as (s' & [Hx|(Hx & -> & Hst & Hw)]);
    rewrite Hx in *; cbn [fst] in Hun, Hpool, Hcc; unfold mbind, M_bind.
  - cbn [_close_writer modify]. match goal with |- context [tcp_query_finally cfg ?b ?s2] =>
      destruct (query_finally_run cfg b s2) as [m ->] end.
    split; [exact Hun|]. left. cbn. by rewrite Hpool, Hcc.
  - destruct (release_cases cfg usable now c s') as [->|(-> & _)]; cbn [_close_writer modify];
      match goal with |- context [tcp_query_finally cfg ?b ?s2] =>
        destruct (query_finally_run cfg b s2) as [m ->] end;
      (split; [exact Hun|]); right; done.
Qed.

Lemma untouched_settled w c' sys' arr ended :
  settled w c' → tf_streams (ts sys') !! c' = tf_streams (ts (m_sys w)) !! c' →
  on c' (tf_written (ts sys')) = on c' (tf_written (ts (m_sys w))) →
  on c' arr = on c' (m_arrived w) → settled (mkMSys sys' arr ended) c'.
Proof. unfold settled. cbn [m_sys m_arrived]. intros Hs -> -> ->. exact Hs. Qed.

Lemma untouched_unused w c' sys' arr ended :
  unused w c' → on c' (tf_written (ts sys')) = on c' (tf_written (ts (m_sys w))) →
  concat (on c' arr) = concat (on c' (m_arrived w)) → unused (mkMSys sys' arr ended) c'.
Proof. unfold unused. cbn [m_sys m_arrived]. intros Hs -> ->. exact Hs. Qed.

(** Where the connection of an ended query is. *)
Lemma ended_owned w i c usable now wire drain s' :
  in_use w !! i = Some c → same_pool (ts w) s' →
  let w' := mkTcpSys (tcp_query_end cfg usable now c wire drain s').1 (connecting w) (delete i (in_use w)) in
  ∀ c', c' ≠ c → (c' ∈ owned w' ↔ c' ∈ owned w)
    ∧ (c' ∈ tf_closed_conns (ts w') ↔ c' ∈ tf_closed_conns (ts w)).
Proof.
  intros Hi (Hp & _ & _ & Hcc) w' c' Hne. unfold w', owned. cbn [ts in_use].
  assert (in_use w ≡ₚ c :: delete i (in_use w)) as Hperm by (by apply delete_Permutation).
  revert Hperm. generalize (delete i (in_use w)). intros u Hperm.
  assert (c' ∈ in_use w ↔ c' ∈ u) as Hu by (rewrite Hperm; set_solver).
  destruct (query_end_cases cfg usable now c wire drain s') as (_ & _ & [[-> ->]|(-> & -> & _)]);
    rewrite Hp, Hcc; unfold pool_ids; rewrite ?fmap_app; cbn; set_solver.
Qed.

Lemma arrives_frame w c wire more :
  settled w c → arrives serv w c (on c (tf_written (ts (m_sys w))) ++ [frame wire]) more →
  more `prefix_of` frame (serv c (on c (tf_written (ts (m_sys w))) ++ [frame wire])).
Proof.
  intros [Hse _] Ha. unfold arrives in Ha. rewrite Hse, answers_snoc in Ha. by apply prefix_app_inv in Ha.
Qed.

Section ending.
Context (w : MSys) (i c : nat) (usable : nat → bool) (now : Z) (wire : bytes) (drain : res unit)
  (more : bytes) (e : exn).
Hypothesis Hw : match_ok w.
Hypothesis Hi : in_use (m_sys w) !! i = Some c.
Hypothesis He : is_Exception e = true.
Hypothesis Hd : ∀ e', drain = Raise e' → is_Exception e' = true.
Hypothesis Harr : arrives serv w c (on c (tf_written (ts (m_sys w))) ++ [frame wire]) more.

Definition end_run : TcpFwd * res (option bytes) :=
  tcp_query_end cfg usable now c wire drain (feed c more e (ts (m_sys w))).
Definition end_sys : TcpSys := mkTcpSys end_run.1 (connecting (m_sys w)) (delete i (in_use (m_sys w))).

Lemma end_c_settled : settled w c.
Proof.
  apply (mo_settled _ Hw), elem_of_app. left. by eapply list_elem_of_lookup_2.
Qed.

Lemma end_cases :
  let a := serv c (on c (tf_written (ts (m_sys w))) ++ [frame wire]) in
  untouched c (feed c more e (ts (m_sys w))) end_run.1
  ∧ ((end_run.2 = Ret None ∧ c ∈ tf_closed_conns end_run.1)
     ∨ (end_run.2 = Ret (Some a) ∧ more = frame a ∧ tf_streams end_run.1 !! c = Some (mkStream [] e)
        ∧ tf_written end_run.1 = tf_written (ts (m_sys w)) ++ [(c, frame wire)])).
Proof.
  intros a. pose proof (arrives_frame w c wire more end_c_settled Harr) as Hp.
  destruct end_c_settled as [Hcon Hst].
  assert (tf_streams (feed c more e (ts (m_sys w))) !! c = Some (mkStream more e)) as Hs1.
  { cbn. rewrite lookup_insert_eq. do 2 f_equal.
    destruct (tf_streams (ts (m_sys w)) !! c) as [st|] eqn:E; [by rewrite (Hst st eq_refl)|done]. }
  destruct (query_end_match usable now c wire drain more e a _ He Hd (serv_fits _ _) Hp Hs1)
    as [Hunt [(Hr & _ & Hcl)|Hcase]]; (split; [exact Hunt|]).
  - left. split; [exact Hr|]. unfold end_run. rewrite Hcl. set_solver.
  - by right.
Qed.

Lemma end_tcp : tcp_ok cfg end_sys.
Proof.
  apply (query_end_ok cfg (mkTcpSys (feed c more e (ts (m_sys w))) (connecting (m_sys w)) (in_use (m_sys w)))); [done|].
  apply (tcp_step_ok cfg (m_sys w)); [apply tstep_deliver|apply (mo_tcp _ Hw)].
Qed.

Lemma end_others c' :
  c' ≠ c → tf_streams end_run.1 !! c' = tf_streams (ts (m_sys w)) !! c'
    ∧ on c' (tf_written end_run.1) = on c' (tf_written (ts (m_sys w)))
    ∧ on c' (m_arrived w ++ [(c, more)]) = on c' (m_arrived w).
Proof.
  intros Hne. destruct end_cases as [Hunt _]. destruct (Hunt c' Hne) as [-> ->].
  cbn. rewrite lookup_insert_ne by done. by rewrite on_app, on_other, app_nil_r by done.
Qed.

Lemma end_settled ended c' :
  c' ∈ owned end_sys → settled (mkMSys end_sys (m_arrived w ++ [(c, more)]) ended) c'.
Proof.
  intros Hc'. destruct (decide (c' = c)) as [->|Hne].
  - destruct end_cases as [_ [(_ & Hcl)|(_ & Hm & Hs' & Hwr)]]; [by destruct (to_open _ _ end_tcp c Hc')|].
    unfold settled. cbn [m_sys m_arrived ts end_sys]. rewrite Hwr, Hs'. cbn.
    rewrite !on_app, !on_one, concat_app, (proj1 end_c_settled), answers_snoc, Hm.
    cbn. rewrite app_nil_r. split; [done|]. by intros st [= <-].
  - destruct (end_others c' Hne) as (H1 & H2 & H3). apply (untouched_settled w); [|done..].
    destruct (ended_owned (m_sys w) i c usable now wire drain (feed c more e (ts (m_sys w))) Hi ltac:(done) c' Hne)
      as [Ho _]. apply (mo_settled _ Hw), Ho, Hc'.
Qed.

Lemma end_unused ended c' :
  c' ∉ owned end_sys → c' ∉ tf_closed_conns end_run.1 →
  unused (mkMSys end_sys (m_arrived w ++ [(c, more)]) ended) c'.
Proof.
  intros Hc' Hcl'. destruct (decide (c' = c)) as [->|Hne].
  - exfalso. unfold end_sys, owned, end_run in *.
    destruct (query_end_cases cfg usable now c wire drain (feed c more e (ts (m_sys w))))
      as (_ & _ & [[_ Hcl]|(Hpl & _)]).
    + apply Hcl'. rewrite Hcl. set_solver.
    + apply Hc'. cbn [ts in_use]. rewrite Hpl. unfold pool_ids. rewrite fmap_app. set_solver.
  - destruct (end_others c' Hne) as (_ & H2 & H3). apply (untouched_unused w); [|done|by rewrite H3].
    destruct (ended_owned (m_sys w) i c usable now wire drain (feed c more e (ts (m_sys w))) Hi ltac:(done) c' Hne)
      as [Ho Hcl]. apply (mo_unused _ Hw); [by rewrite <- Ho|by rewrite <- Hcl].
Qed.

Lemma end_ok :
  match_ok (mkMSys end_sys (m_arrived w ++ [(c, more)])
    (m_ended w ++ [mkEnded c (on c (tf_written (ts (m_sys w)))) wire end_run.2])).
Proof.
  split; cbn [m_sys m_arrived m_ended].
  - apply end_tcp.
  - intros c' Hc'. by apply end_settled.
  - intros c' Hc' Hcl'. by apply end_unused.
  - intros x [Hx| ->%list_elem_of_singleton]%elem_of_app; [by apply (mo_ended _ Hw)|].
    unfold answered. cbn. destruct end_cases as [_ [(-> & _)|(-> & _)]]; [by left|by right].
Qed.
End ending.

Lemma connected_ok w n c e :
  connecting (m_sys w) = S n → c ∉ owned (m_sys w) → c ∉ tf_closed_conns (ts (m_sys w)) → match_ok w →
  match_ok (mkMSys (mkTcpSys (set_stream c (mkStream [] e) (tcp_query_connect cfg (Ret c) (ts (m_sys w))).1) n
    (c :: in_use (m_sys w))) (m_arrived w) (m_ended w)).
Proof.
  intros Hn Hfr Hcl Hok. destruct (mo_unused _ Hok c Hfr Hcl) as [Hw Ha]. split; cbn [m_sys m_arrived m_ended].
  - apply (tcp_step_ok cfg (m_sys w)); [by apply tstep_connected|apply (mo_tcp _ Hok)].
  - intros c' [->|Hc']%elem_of_cons.
    + unfold settled. cbn. rewrite Hw, Ha, lookup_insert_eq. split; [done|]. by intros st [= <-].
    + apply (untouched_settled w); [by apply (mo_settled _ Hok)| |done..].
      cbn. by rewrite lookup_insert_ne by (intros ->; done).
  - intros c' Hc' Hcl'. apply (untouched_unused w); [|done..]. apply (mo_unused _ Hok); [|done].
    intros Ho. apply Hc'. unfold owned. cbn [in_use ts]. apply elem_of_cons. by right.
  - apply (mo_ended _ Hok).
Qed.

(** Nothing is outstanding on a connection that can still be used. *)
Lemma late_nothing w c more :
  match_ok w → arrives serv w c (on c (tf_written (ts (m_sys w)))) more →
  c ∈ owned (m_sys w) ∨ c ∉ tf_closed_conns (ts (m_sys w)) → more = [].
Proof.
  intros Hok Harr Hc. unfold arrives in Harr.
  assert (concat (on c (m_arrived w)) = answers serv c (on c (tf_written (ts (m_sys w))))) as E.
  { destruct (decide (c ∈ owned (m_sys w))) as [Ho|Ho]; [apply (mo_settled _ Hok c Ho)|].
    destruct (mo_unused _ Hok c Ho ltac:(by destruct Hc)) as [-> ->]. done. }
  rewrite E in Harr. rewrite <- (app_nil_r (answers _ _ _)) in Harr at 2.
  by apply prefix_app_inv, prefix_nil_inv in Harr.
Qed.

Lemma late_ok w c more e :
  arrives serv w c (on c (tf_written (ts (m_sys w)))) more → match_ok w →
  match_ok (mkMSys (mkTcpSys (feed c more e (ts (m_sys w))) (connecting (m_sys w)) (in_use (m_sys w)))
    (m_arrived w ++ [(c, more)]) (m_ended w)).
Proof.
  intros Harr Hok. pose proof (late_nothing w c more Hok Harr) as Hno. split; cbn [m_sys m_arrived m_ended].
  - apply (tcp_step_ok cfg (m_sys w)); [apply tstep_deliver|apply (mo_tcp _ Hok)].
  - intros c' Hc'. change (c' ∈ owned (m_sys w)) in Hc'. destruct (mo_settled _ Hok c' Hc') as [Hcon Hst].
    destruct (decide (c' = c)) as [->|Hne].
    + unfold settled. cbn. rewrite lookup_insert_eq, on_app, on_one, concat_app, (Hno (or_introl Hc')). cbn.
      rewrite !app_nil_r. split; [done|]. intros st [= <-]. cbn.
      destruct (tf_streams (ts (m_sys w)) !! c) as [st|] eqn:E; [by apply Hst|done].
    + apply (untouched_settled w); [done| |done|].
      * cbn. by rewrite lookup_insert_ne by done.
      * by rewrite on_app, on_other, app_nil_r.
  - intros c' Hc' Hcl'. apply (untouched_unused w); [by apply (mo_unused _ Hok)|done|].
    rewrite on_app, concat_app. destruct (decide (c' = c)) as [->|Hne].
    + rewrite on_one, (Hno (or_intror Hcl')). cbn. by rewrite app_nil_r.
    + by rewrite on_other, app_nil_r.
  - apply (mo_ended _ Hok).
Qed.

Lemma match_step_ok w w' : match_step cfg serv w w' → match_ok w → match_ok w'.
Proof.
  intros [s' Hl|n c e Hn Hfr Hcl|c more e Harr|i c usable now wire drain more e Hi He Hd Harr r] Hok.
  - destruct (local_narrows _ _ Hl) as [Hio Hnar]. apply narrow_ok; [done| |done..].
    apply (tcp_step_ok cfg (m_sys w)); [by apply local_tcp_step|apply (mo_tcp _ Hok)].
  - by apply connected_ok.
  - by apply late_ok.
  - by apply end_ok.
Qed.
End matching.

Lemma match_init_ok cfg serv m : match_ok cfg serv (match_init m).
Proof.
  split; cbn; [|set_solver|done|set_solver].
  split; cbn; [constructor|set_solver|rewrite len_nil; lia|done|by destruct (_ <? _)%Z|lia].
Qed.

(** ** Concrete runs *)

Module match_example.
Import upstream_example.
(** A server that answers with the number of the query on its connection. *)
Definition serv (c : nat) (qs : list bytes) : bytes := [byte_of_Z (len qs `mod` 256)].
Definition w0 : MSys := match_init (Some metrics_new).
(** A query that connects as connection 7, gets its answer and pools the
    connection; a second one that finds it there. *)
Definition begin (w : MSys) : MSys :=
  let s := tcp_query_begin cfg usable 0 (ts (m_sys w)) in
  match s.2 with Ret r => mkMSys (begun r s.1 (m_sys w)) (m_arrived w) (m_ended w) | Raise _ => w end.
Definition w1 : MSys := begin w0.
Definition w2 : MSys :=
  mkMSys (mkTcpSys (set_stream 7 (mkStream [] TimeoutError) (tcp_query_connect cfg (Ret 7) (ts (m_sys w1))).1) 0 [7])
    [] [].
Definition finish (more : bytes) (w : MSys) : MSys :=
  let r := tcp_query_end cfg usable 1 7 query (Ret ()) (feed 7 more TimeoutError (ts (m_sys w))) in
  mkMSys (mkTcpSys r.1 (connecting (m_sys w)) (delete 0 (in_use (m_sys w)))) (m_arrived w ++ [(7, more)])
    (m_ended w ++ [mkEnded 7 (on 7 (tf_written (ts (m_sys w)))) query r.2]).
Definition w3 : MSys := finish (frame [Byte.x01]) w2.
Definition w4 : MSys := begin w3.
Definition w5 : MSys := finish (frame [Byte.x02]) w4.
End match_example.

Lemma example_run : rtc (match_step upstream_example.cfg match_example.serv) match_example.w0 match_example.w5.
Proof.
  apply (rtc_l _ _ match_example.w1); [apply mstep_local; refine (lstep_begin _ _ upstream_example.usable 0 _ QConnect _); reflexivity|].
  apply (rtc_l _ _ match_example.w2).
  { refine (mstep_connected _ _ match_example.w1 0 7 TimeoutError eq_refl _ _);
      refine (bool_decide_unpack _ _); vm_compute; exact I. }
  assert (∀ e' : exn, Ret () = Raise e' → is_Exception e' = true) as Hd by (intros e' He; discriminate He).
  apply (rtc_l _ _ match_example.w3).
  { refine (mstep_end _ _ match_example.w2 0 7 upstream_example.usable 1 upstream_example.query (Ret ()) _ TimeoutError
      eq_refl eq_refl Hd _). exists []. vm_compute. reflexivity. }
  apply (rtc_l _ _ match_example.w4).
  { apply mstep_local. refine (lstep_begin _ _ upstream_example.usable 0 _ (QUse 7) _). vm_compute. reflexivity. }
  apply rtc_once.
  refine (mstep_end _ _ match_example.w4 0 7 upstream_example.usable 1 upstream_example.query (Ret ()) _ TimeoutError
    eq_refl eq_refl Hd _). exists []. vm_compute. reflexivity.
Qed.

(** C7: Answers are never mixed up: over every interleaving of queries,
    connects, failures at any point and [close], with an upstream server whose
    bytes arrive in any pieces and as late as they like, a query over a new or
    a pooled connection that returns a message returns the server's answer to
    that very query (and otherwise returns no answer), and a connection that
    waits in the pool has nothing left to read and no answer outstanding.
    Cancellation is excluded: [cancelled_query_poisons_pool]. *)
Theorem tcp_answers_matched (cfg : UpstreamTcpConfig) (serv : nat → list bytes → bytes) (m : option Metrics)
    (w : MSys) :
  (∀ c qs, (len (serv c qs) < 65536)%Z) → rtc (match_step cfg serv) (match_init m) w →
  (∀ r, r ∈ m_ended w →
     en_result r = Ret None ∨ en_result r = Ret (Some (serv (en_conn r) (en_before r ++ [frame (en_wire r)]))))
  ∧ (∀ c, c ∈ pool_ids (_pool (ts (m_sys w))) →
     concat (on c (m_arrived w)) = answers serv c (on c (tf_written (ts (m_sys w))))
     ∧ ∀ st, tf_streams (ts (m_sys w)) !! c = Some st → st_data st = []).
Proof.
  intros Hfit Hr. assert (match_ok cfg serv w) as [_ Hse _ He].
  { remember (match_init m) as w0 eqn:E. assert (match_ok cfg serv w0) as Hok by (subst; apply match_init_ok).
    clear E. induction Hr as [w0|w0 w1 w2 Hstep _ IH]; [done|]. apply IH. by eapply match_step_ok. }
  split; [exact He|]. intros c Hc. apply Hse, elem_of_app. by right.
Qed.

(** Two queries, the second over the first's connection. *)
Lemma tcp_answers_matched_witness :
  length (m_ended match_example.w5) = 2
  ∧ ∀ r, r ∈ m_ended match_example.w5 →
    en_result r = Ret None
    ∨ en_result r = Ret (Some (match_example.serv (en_conn r) (en_before r ++ [frame (en_wire r)]))).
Proof.
  split; [vm_compute; reflexivity|].
  refine (proj1 (tcp_answers_matched upstream_example.cfg match_example.serv (Some metrics_new) match_example.w5 _ example_run)).
  intros c qs. vm_compute. reflexivity.
Defined.

Lemma example_results :
  en_result <$> m_ended match_example.w5 = [Ret (Some [Byte.x01]); Ret (Some [Byte.x02])].
Proof. vm_compute. reflexivity. Qed.
