(* ===== verification/Base64.v ===== *)
(** * Base64, as the relay protocol carries DNS messages

    [base64.b64encode] and [base64.b64decode(..., validate=True)] on ASCII
    text: four characters per three bytes, the last group padded with [=].
    The decoder refuses characters outside the alphabet and wrong padding. *)
From S2P Require Import Prelude PyString Framing.
From stdpp Require Import base list strings.
From Stdlib Require Import Ascii.
From Stdlib.Strings Require Import Byte.

Definition b64_alphabet : list ascii :=
  chars "ABCDEFGHIJKLMNOPQRSTUVWXYZabcdefghijklmnopqrstuvwxyz0123456789+/".
Definition pad : ascii := ascii_of_nat 61.

Definition b64_char (n : Z) : ascii := default pad (b64_alphabet !! Z.to_nat n).
Fixpoint index_of (c : ascii) (l : list ascii) : option Z :=
  match l with
  | [] => None
  | x :: l => if Ascii.eqb x c then Some 0%Z else Z.succ <$> index_of c l
  end.
Definition b64_val (c : ascii) : option Z := index_of c b64_alphabet.

(** Three bytes as a 24-bit number, in four 6-bit digits. *)
Definition enc3 (x y z : Z) : list ascii :=
  [ b64_char (Z.shiftr x 2);
    b64_char (Z.lor (Z.shiftl (Z.land x 3) 4) (Z.shiftr y 4));
    b64_char (Z.lor (Z.shiftl (Z.land y 15) 2) (Z.shiftr z 6));
    b64_char (Z.land z 63) ].

Fixpoint b64encode_chars (b : bytes) : list ascii :=
  match b with
  | [] => []
  | [x] => take 2 (enc3 (byte_to_Z x) 0 0) ++ [pad; pad]
  | [x; y] => take 3 (enc3 (byte_to_Z x) (byte_to_Z y) 0) ++ [pad]
  | x :: y :: z :: b => enc3 (byte_to_Z x) (byte_to_Z y) (byte_to_Z z) ++ b64encode_chars b
  end.
Definition b64encode (b : bytes) : string := unchars (b64encode_chars b).

(** The bytes of four digits. *)
Definition dec1 (a b : Z) : Byte.byte := byte_of_Z (Z.lor (Z.shiftl a 2) (Z.shiftr b 4)).
Definition dec2 (b c : Z) : Byte.byte := byte_of_Z (Z.lor (Z.land (Z.shiftl b 4) 255) (Z.shiftr c 2)).
Definition dec3 (c d : Z) : Byte.byte := byte_of_Z (Z.lor (Z.land (Z.shiftl c 6) 255) d).

(** One group, the last of the text or not. *)
Definition decode_group (last : bool) (c0 c1 c2 c3 : ascii) : option bytes :=
  match b64_val c0, b64_val c1 with
  | Some a, Some b =>
      match b64_val c2, b64_val c3 with
      | Some c, Some d => Some [dec1 a b; dec2 b c; dec3 c d]
      | Some c, None => if last && bool_decide (c3 = pad) then Some [dec1 a b; dec2 b c] else None
      | None, _ => if last && bool_decide (c2 = pad) && bool_decide (c3 = pad) then Some [dec1 a b] else None
      end
  | _, _ => None
  end.

Fixpoint b64decode_chars (l : list ascii) : option bytes :=
  match l with
  | [] => Some []
  | c0 :: c1 :: c2 :: c3 :: l =>
      g ← decode_group (match l with [] => true | _ => false end) c0 c1 c2 c3;
      r ← b64decode_chars l;
      Some (g ++ r)
  | _ => None
  end.
Definition b64decode (s : string) : res bytes :=
  match b64decode_chars (chars s) with
  | Some b => Ret b
  | None => Raise (ValueError "invalid base64")
  end.

(** ** The round trip *)

Lemma b64_val_char n : (0 ≤ n < 64)%Z → b64_val (b64_char n) = Some n.
Proof.
  intros Hn. assert (n = Z.of_nat (Z.to_nat n)) as E by lia. rewrite E.
  assert (Z.to_nat n < 64) as Hlt by lia. generalize dependent (Z.to_nat n). clear.
  intros k _ Hk. do 64 (destruct k as [|k]; [reflexivity|]). lia.
Qed.
Lemma b64_val_pad : b64_val pad = None.
Proof. reflexivity. Qed.

Lemma byte_range b : (0 ≤ byte_to_Z b < 256)%Z.
Proof. unfold byte_to_Z. pose proof (Byte.to_N_bounded b). lia. Qed.

Lemma byte_of_to b : byte_of_Z (byte_to_Z b) = b.
Proof. unfold byte_of_Z, byte_to_Z. by rewrite N2Z.id, Byte.of_to_N. Qed.

(** Disjoint bits add up. *)
Lemma lor_shiftl_add a b k : (0 ≤ k)%Z → (0 ≤ b < 2 ^ k)%Z → Z.lor (Z.shiftl a k) b = (a * 2 ^ k + b)%Z.
Proof.
  intros Hk Hb. rewrite <- Z.add_nocarry_lor; [by rewrite Z.shiftl_mul_pow2|].
  apply Z.bits_inj'. intros n Hn. rewrite Z.land_spec, Z.shiftl_spec, Z.bits_0 by done.
  destruct (Z.lt_ge_cases n k).
  - by rewrite (Z.testbit_neg_r a) by lia.
  - rewrite (proj1 (Z.bounded_iff_bits_nonneg k b ltac:(lia) ltac:(lia))) by lia. apply andb_false_r.
Qed.

Section group.
Context (x y z : Z) (Hx : (0 ≤ x < 256)%Z) (Hy : (0 ≤ y < 256)%Z) (Hz : (0 ≤ z < 256)%Z).
Lemma digit0 : Z.shiftr x 2 = (x / 4)%Z.
Proof. by rewrite Z.shiftr_div_pow2. Qed.
Lemma digit1 : Z.lor (Z.shiftl (Z.land x 3) 4) (Z.shiftr y 4) = (x mod 4 * 16 + y / 16)%Z.
Proof.
  change 3%Z with (Z.ones 2). rewrite Z.land_ones, Z.shiftr_div_pow2 by lia.
  rewrite lor_shiftl_add; [done|lia|]. change (2 ^ 4)%Z with 16%Z.
  split; [apply Z.div_pos; lia|apply Z.div_lt_upper_bound; lia].
Qed.
Lemma digit2 : Z.lor (Z.shiftl (Z.land y 15) 2) (Z.shiftr z 6) = (y mod 16 * 4 + z / 64)%Z.
Proof.
  change 15%Z with (Z.ones 4). rewrite Z.land_ones, Z.shiftr_div_pow2 by lia.
  rewrite lor_shiftl_add; [done|lia|]. change (2 ^ 6)%Z with 64%Z.
  split; [apply Z.div_pos; lia|apply Z.div_lt_upper_bound; lia].
Qed.
Lemma digit3 : Z.land z 63 = (z mod 64)%Z.
Proof. change 63%Z with (Z.ones 6). by rewrite Z.land_ones. Qed.
End group.

Lemma dec1_eq a b : (0 ≤ b < 64)%Z → dec1 a b = byte_of_Z (a * 4 + b / 16).
Proof.
  intros Hb. unfold dec1. rewrite Z.shiftr_div_pow2 by lia. change (2 ^ 4)%Z with 16%Z.
  rewrite lor_shiftl_add; [done|lia|]. split; [apply Z.div_pos; lia|apply Z.div_lt_upper_bound; lia].
Qed.
Lemma low_bits a k : (0 ≤ k ≤ 8)%Z → Z.land (Z.shiftl a k) 255 = Z.shiftl (a mod 2 ^ (8 - k)) k.
Proof.
  intros Hk. change 255%Z with (Z.ones 8). rewrite Z.land_ones, !Z.shiftl_mul_pow2 by lia.
  replace (2 ^ 8)%Z with (2 ^ (8 - k) * 2 ^ k)%Z by (rewrite <- Z.pow_add_r by lia; f_equal; lia).
  rewrite Z.mul_mod_distr_r; [done|..]; apply Z.pow_nonzero; lia.
Qed.
Lemma dec2_eq b c : (0 ≤ c < 64)%Z → dec2 b c = byte_of_Z (b mod 16 * 16 + c / 4).
Proof.
  intros Hc. unfold dec2. rewrite low_bits, Z.shiftr_div_pow2 by lia. change (2 ^ 2)%Z with 4%Z.
  rewrite lor_shiftl_add; [done|lia|]. split; [apply Z.div_pos; lia|apply Z.div_lt_upper_bound; lia].
Qed.
Lemma dec3_eq c d : (0 ≤ d < 64)%Z → dec3 c d = byte_of_Z (c mod 4 * 64 + d).
Proof. intros Hd. unfold dec3. rewrite low_bits, lor_shiftl_add by lia. done. Qed.

(** The digits of a group are in range. *)
Lemma digits_range x y z :
  (0 ≤ x < 256)%Z → (0 ≤ y < 256)%Z → (0 ≤ z < 256)%Z →
  (0 ≤ x / 4 < 64 ∧ 0 ≤ x mod 4 * 16 + y / 16 < 64 ∧ 0 ≤ y mod 16 * 4 + z / 64 < 64 ∧ 0 ≤ z mod 64 < 64)%Z.
Proof. intros. Z.to_euclidean_division_equations. lia. Qed.

Lemma enc3_digits x y z :
  (0 ≤ x < 256)%Z → (0 ≤ y < 256)%Z → (0 ≤ z < 256)%Z →
  enc3 x y z = [b64_char (x / 4); b64_char (x mod 4 * 16 + y / 16); b64_char (y mod 16 * 4 + z / 64);
                b64_char (z mod 64)].
Proof. intros. unfold enc3. by rewrite digit0, digit1, digit2, digit3. Qed.

Lemma dec_digits x y z :
  (0 ≤ x < 256)%Z → (0 ≤ y < 256)%Z → (0 ≤ z < 256)%Z →
  dec1 (x / 4) (x mod 4 * 16 + y / 16) = byte_of_Z x
  ∧ dec2 (x mod 4 * 16 + y / 16) (y mod 16 * 4 + z / 64) = byte_of_Z y
  ∧ dec3 (y mod 16 * 4 + z / 64) (z mod 64) = byte_of_Z z.
Proof.
  intros Hx Hy Hz. destruct (digits_range x y z Hx Hy Hz) as (? & ? & ? & ?).
  rewrite dec1_eq, dec2_eq, dec3_eq by lia.
  repeat split; f_equal; Z.to_euclidean_division_equations; lia.
Qed.

(** Decoding gives back what was encoded. *)
Lemma b64_group_full last x y z :
  match enc3 (byte_to_Z x) (byte_to_Z y) (byte_to_Z z) with
  | [c0; c1; c2; c3] => decode_group last c0 c1 c2 c3 = Some [x; y; z]
  | _ => False
  end.
Proof.
  pose proof (byte_range x) as Hx. pose proof (byte_range y) as Hy. pose proof (byte_range z) as Hz.
  rewrite enc3_digits by done. destruct (digits_range _ _ _ Hx Hy Hz) as (? & ? & ? & ?).
  destruct (dec_digits _ _ _ Hx Hy Hz) as (E1 & E2 & E3).
  unfold decode_group. rewrite !b64_val_char by done. by rewrite E1, E2, E3, !byte_of_to.
Qed.

Lemma b64_last_one x : b64decode_chars (b64encode_chars [x]) = Some [x].
Proof.
  pose proof (byte_range x) as Hx. cbn [b64encode_chars]. rewrite enc3_digits by (done || lia).
  destruct (digits_range _ 0 0 Hx) as (? & ? & _); [lia..|].
  destruct (dec_digits _ 0 0 Hx) as (E1 & _); [lia..|].
  cbn [take app b64decode_chars decode_group]. unfold decode_group.
  rewrite !b64_val_char, b64_val_pad by done. cbn. by rewrite E1, byte_of_to.
Qed.

Lemma b64_last_two x y : b64decode_chars (b64encode_chars [x; y]) = Some [x; y].
Proof.
  pose proof (byte_range x) as Hx. pose proof (byte_range y) as Hy.
  cbn [b64encode_chars]. rewrite enc3_digits by (done || lia).
  destruct (digits_range _ _ 0 Hx Hy) as (? & ? & ? & _); [lia|].
  destruct (dec_digits _ _ 0 Hx Hy) as (E1 & E2 & _); [lia|].
  cbn [take app b64decode_chars]. unfold decode_group.
  rewrite !b64_val_char, b64_val_pad by done. cbn. by rewrite E1, E2, !byte_of_to.
Qed.

Lemma b64_roundtrip_chars n b : length b < n → b64decode_chars (b64encode_chars b) = Some b.
Proof.
  revert b. induction n as [|n IH]; intros b Hn; [lia|].
  destruct b as [|x [|y [|z b]]]; [done|apply b64_last_one|apply b64_last_two|].
  change (b64encode_chars (x :: y :: z :: b)) with
    (enc3 (byte_to_Z x) (byte_to_Z y) (byte_to_Z z) ++ b64encode_chars b).
  pose proof (λ last, b64_group_full last x y z) as Hg. unfold enc3 in *. cbn [app b64decode_chars].
  rewrite Hg, IH by (cbn in Hn; lia). done.
Qed.

Lemma b64_roundtrip b : b64decode (b64encode b) = Ret b.
Proof. unfold b64decode, b64encode. rewrite chars_unchars. by rewrite (b64_roundtrip_chars (S (length b))) by lia. Qed.
