(* ===== verification/Relay.v ===== *)
(** * The relay upstream ([src/resilientdns/relay_types.py],
      [relay_forwarder.py] and [relay_startup_check.py])

    The wire types of the relay protocol, the forwarder's [query] and the
    startup check.  The HTTP exchange is an argument: what [aiohttp] gives for
    a request.  So is the decoding of a body, [raw.decode("utf-8")] followed by
    [json.loads], into a JSON value or one of its two failures. *)
From S2P Require Import Prelude PyString OrderedDict Metrics Base64.
From stdpp Require Import base list strings pretty.
From Stdlib Require Import Ascii.

(** ** JSON *)

Inductive json : Type :=
| JNull
| JBool (b : bool)
| JInt (z : Z)
| JFloat (text : string)
| JStr (s : string)
| JList (l : list json)
| JObj (fields : list (string * json)).

(** [isinstance(v, int)], which holds of [True] and [False] too. *)
Definition as_int (j : json) : option Z :=
  match j with JInt z => Some z | JBool b => Some (Z.b2z b) | _ => None end.
Definition as_str (j : json) : option string :=
  match j with JStr s => Some s | _ => None end.
Definition as_bool (j : json) : option bool :=
  match j with JBool b => Some b | _ => None end.
Definition as_list (j : json) : option (list json) :=
  match j with JList l => Some l | _ => None end.
Definition as_obj (j : json) : option (list (string * json)) :=
  match j with JObj d => Some d | _ => None end.

(** What decoding a response body gives. *)
Inductive decoded : Type := DecOk (j : json) | DecBadUtf8 | DecBadJson.

(** [json.dumps] of a string: quote, backslash and everything outside the
    printable ASCII range are escaped. *)
Definition dquote : string := String (ascii_of_nat 34) "".
Definition backslash : string := String (ascii_of_nat 92) "".
Definition hex_digit (n : nat) : ascii :=
  if n <? 10 then ascii_of_nat (48 + n) else ascii_of_nat (87 + n).
Definition json_escape (c : ascii) : string :=
  let n := code c in
  if n =? 34 then backslash +:+ dquote
  else if n =? 92 then backslash +:+ backslash
  else if n =? 10 then backslash +:+ "n"
  else if n =? 13 then backslash +:+ "r"
  else if n =? 9 then backslash +:+ "t"
  else if n =? 12 then backslash +:+ "f"
  else if n =? 8 then backslash +:+ "b"
  else if (n <? 32) || (126 <? n) then
    backslash +:+ "u00" +:+ String (hex_digit (n / 16)) (String (hex_digit (n mod 16)) "")
  else String c "".
Definition json_str (s : string) : string :=
  dquote +:+ String.concat "" (json_escape <$> chars s) +:+ dquote.

(** ** Limits and configuration *)

Record RelayLimits := mkRelayLimits {
  max_items : Z;
  max_request_bytes : Z;
  per_item_max_wire_bytes : Z;
  max_response_bytes : Z;
}.
Definition RelayLimits_default : RelayLimits := mkRelayLimits 32 65536 4096 262144.
Definition as_dict (l : RelayLimits) : list (string * Z) :=
  [("max_items", max_items l); ("max_request_bytes", max_request_bytes l);
   ("per_item_max_wire_bytes", per_item_max_wire_bytes l); ("max_response_bytes", max_response_bytes l)].

Record RelayConfig := mkRelayConfig {
  base_url : string;
  api_version : Z;
  auth_token : option string;
  startup_check : string;
  limits : RelayLimits;
}.

(** [s.rstrip("/")] *)
Definition rstrip_slash (s : string) : string := unchars (rstrip_while (λ c, code c =? 47) (chars s)).
Definition info_url (c : RelayConfig) : string :=
  rstrip_slash (base_url c) +:+ "/v" +:+ pretty (api_version c) +:+ "/info".
Definition dns_url (c : RelayConfig) : string :=
  rstrip_slash (base_url c) +:+ "/v" +:+ pretty (api_version c) +:+ "/dns".

(** [validate_limits]: the first limit that is not positive. *)
Fixpoint check_positive (l : list (string * Z)) : res unit :=
  match l with
  | [] => Ret ()
  | (name, value) :: l =>
      if (value <=? 0)%Z then Raise (ValueError (name +:+ " must be > 0")) else check_positive l
  end.
Definition validate_limits (l : RelayLimits) : res unit := check_positive (as_dict l).

Definition validate_startup_check (value : string) : res unit :=
  if bool_decide (value ∈ ["require"; "warn"; "off"]) then Ret ()
  else Raise (ValueError "relay_startup_check must be 'require', 'warn', or 'off'").

(** ** Requests and responses *)

Record RelayDnsItemRequest := mkItemRequest { ir_id : string; q_b64 : string }.
Record RelayDnsRequest := mkRelayRequest {
  rq_v : Z; rq_id : string; rq_items : list RelayDnsItemRequest }.

(** [json.dumps(payload.to_dict())] *)
Definition item_dumps (i : RelayDnsItemRequest) : string :=
  "{" +:+ json_str "id" +:+ ": " +:+ json_str (ir_id i) +:+ ", "
      +:+ json_str "q" +:+ ": " +:+ json_str (q_b64 i) +:+ "}".
Definition request_dumps (r : RelayDnsRequest) : string :=
  "{" +:+ json_str "v" +:+ ": " +:+ pretty (rq_v r) +:+ ", "
      +:+ json_str "id" +:+ ": " +:+ json_str (rq_id r) +:+ ", "
      +:+ json_str "items" +:+ ": [" +:+ String.concat ", " (item_dumps <$> rq_items r) +:+ "]}".

Record RelayDnsItemResponse := mkItemResponse {
  it_id : string; it_ok : bool; a_b64 : option string; err : option string }.
Record RelayDnsResponse := mkRelayResponse {
  rs_v : Z; rs_id : string; rs_items : list RelayDnsItemResponse }.

Definition verr {A} (msg : string) : res A := Raise (ValueError msg).

(** One item of [from_dict]. *)
Definition parse_item (j : json) : res RelayDnsItemResponse :=
  match as_obj j with
  | None => verr "item must be an object"
  | Some item =>
      match od_get "id" item with
      | None => verr "item missing field: id"
      | Some jid =>
          match od_get "ok" item with
          | None => verr "item missing field: ok"
          | Some jok =>
              match as_str jid with
              | None => verr "item field 'id' must be a string"
              | Some item_id =>
                  match as_bool jok with
                  | None => verr "item field 'ok' must be a bool"
                  | Some true =>
                      match od_get "a" item ≫= as_str with
                      | None => verr "ok item missing field: a"
                      | Some payload => Ret (mkItemResponse item_id true (Some payload) None)
                      end
                  | Some false =>
                      match od_get "err" item ≫= as_str with
                      | None => verr "error item missing field: err"
                      | Some e => Ret (mkItemResponse item_id false None (Some e))
                      end
                  end
              end
          end
      end
  end.

Fixpoint parse_items (l : list json) : res (list RelayDnsItemResponse) :=
  match l with
  | [] => Ret []
  | j :: l =>
      match parse_item j with
      | Raise e => Raise e
      | Ret i => match parse_items l with Raise e => Raise e | Ret r => Ret (i :: r) end
      end
  end.

Definition from_dict (j : json) : res RelayDnsResponse :=
  match as_obj j with
  | None => verr "response must be an object"
  | Some data =>
      match od_get "v" data, od_get "id" data, od_get "items" data with
      | None, _, _ => verr "missing field: v"
      | _, None, _ => verr "missing field: id"
      | _, _, None => verr "missing field: items"
      | Some jv, Some jid, Some jitems =>
          match as_int jv with
          | None => verr "field 'v' must be an int"
          | Some v =>
              match as_str jid with
              | None => verr "field 'id' must be a string"
              | Some request_id =>
                  match as_list jitems with
                  | None => verr "field 'items' must be a list"
                  | Some items =>
                      match parse_items items with
                      | Raise e => Raise e
                      | Ret parsed => Ret (mkRelayResponse v request_id parsed)
                      end
                  end
              end
          end
      end
  end.

(** ** The forwarder *)

Record RelayFwd := mkRelayFwd { rf_metrics : option Metrics; rf_closed : bool }.
#[global] Instance RelayFwd_metrics : HasMetrics RelayFwd := {|
  metrics_of := rf_metrics; with_metrics m s := mkRelayFwd m (rf_closed s) |}.

(** What the session gives for a POST: an exception, or a status and the
    outcome of reading the body. *)
Definition http_post := string → string → list (string * string) → res (Z * res bytes).
(** Decoding of a body. *)
Definition decoder := bytes → decoded.

Definition relay_headers (cfg : RelayConfig) : list (string * string) :=
  [("Content-Type", "application/json"); ("Accept", "application/json"); ("Accept-Encoding", "gzip")] ++
  match auth_token cfg with
  | Some t => if truthy t then [("Authorization", "Bearer " +:+ t)] else []
  | None => []
  end.

Definition is_ClientError (e : exn) : bool := match e with ClientError => true | _ => false end.
Definition is_Timeout (e : exn) : bool := match e with TimeoutError => true | _ => false end.

Definition _parse_json (dec : decoder) (raw : bytes) : M RelayFwd json :=
  match dec raw with
  | DecBadUtf8 => raise UnicodeDecodeError
  | DecBadJson => minc "upstream_relay_client_errors_total";; raise (ValueError "relay response invalid JSON")
  | DecOk (JObj d) => mret (JObj d)
  | DecOk _ =>
      minc "upstream_relay_protocol_errors_total";; raise (ValueError "relay response must be an object")
  end.

Definition _parse_response (j : json) : M RelayFwd RelayDnsResponse :=
  try_except (lift_res (from_dict j)) is_ValueError
    (λ e, minc "upstream_relay_protocol_errors_total";; raise e).

(** [async with self._session.post(...)]: the body, or [None] for an early
    return. *)
Definition relay_fetch (cfg : RelayConfig) (post : http_post) (body : string) : M RelayFwd (option bytes) :=
  try_except
    (try_except
       (sr ← lift_res (post (dns_url cfg) body (relay_headers cfg));
        let '(status, body_read) := sr in
        if (status =? 200)%Z then raw ← lift_res body_read; mret (Some raw)
        else
          minc "upstream_relay_client_errors_total";;
          (if ((400 <=? status) && (status <? 500))%Z then minc "upstream_relay_http_4xx_total"
           else when ((500 <=? status) && (status <? 600))%Z (minc "upstream_relay_http_5xx_total"));;
          mret None)
       is_Timeout
       (λ e, minc "upstream_relay_timeouts_total";; minc "upstream_relay_client_errors_total";; raise e))
    is_ClientError
    (λ _, minc "upstream_relay_client_errors_total";; mret None).

Definition find_item (id : string) (items : list RelayDnsItemResponse) : option RelayDnsItemResponse :=
  List.find (λ i, bool_decide (it_id i = id)) items.

(** The rest of [query], on the body of a 200 response. *)
Definition relay_answer (cfg : RelayConfig) (dec : decoder) (raw : bytes) : M RelayFwd (option bytes) :=
  if (max_response_bytes (limits cfg) <? len raw)%Z then
    minc "upstream_relay_client_errors_total";;
    raise (ValueError "relay response exceeds max_response_bytes")
  else
    data ← _parse_json dec raw;
    response ← _parse_response data;
    if negb (rs_v response =? 1)%Z then
      minc "upstream_relay_protocol_errors_total";; raise (ValueError "relay response version mismatch")
    else
      match find_item "0" (rs_items response) with
      | None =>
          minc "upstream_relay_protocol_errors_total";; raise (ValueError "relay response missing item")
      | Some item =>
          if it_ok item then
            match a_b64 item with
            | None =>
                minc "upstream_relay_protocol_errors_total";;
                raise (ValueError "relay response missing payload")
            | Some a =>
                try_except (d ← lift_res (b64decode a); mret (Some d)) is_ValueError
                  (λ _, minc "upstream_relay_protocol_errors_total";;
                        raise (ValueError "relay response payload invalid base64"))
            end
          else mret None
      end.

Definition drop_oversize_relay : M RelayFwd () :=
  minc "dropped_total";; minc "dropped_oversize_total".

Definition relay_body (request_id : string) (wire : bytes) : string :=
  request_dumps (mkRelayRequest 1 request_id [mkItemRequest "0" (b64encode wire)]).

(** [query] up to the POST: the body to post, or [None] for an early
    [return None]. *)
Definition relay_query_begin (cfg : RelayConfig) (wire_query : bytes) (request_id : string)
    : M RelayFwd (option string) :=
  s ← get_state;
  if rf_closed s then mret None
  else if (per_item_max_wire_bytes (limits cfg) <? len wire_query)%Z then
    drop_oversize_relay;; mret None
  else
    let body := relay_body request_id wire_query in
    if (max_request_bytes (limits cfg) <? len (chars body))%Z then
      drop_oversize_relay;; mret None
    else
      minc "upstream_requests_total";;
      minc "upstream_relay_requests_total";;
      mret (Some body).

(** The POST and the rest. *)
Definition relay_query_end (cfg : RelayConfig) (post : http_post) (dec : decoder) (body : string)
    : M RelayFwd (option bytes) :=
  raw ← relay_fetch cfg post body;
  match raw with
  | None => mret None
  | Some raw => relay_answer cfg dec raw
  end.

(** [query], when nothing else runs in between. *)
Definition relay_query (cfg : RelayConfig) (post : http_post) (dec : decoder) (wire_query : bytes)
    (request_id : string) : M RelayFwd (option bytes) :=
  body ← relay_query_begin cfg wire_query request_id;
  match body with
  | None => mret None
  | Some body => relay_query_end cfg post dec body
  end.

Definition relay_close : M RelayFwd () := modify (λ s, mkRelayFwd (rf_metrics s) true).

(** ** The startup check *)

Definition rerr {A} (msg : string) : res A := Raise (RelayStartupCheckError msg).

Definition limit_fields : list string :=
  ["max_items"; "max_request_bytes"; "per_item_max_wire_bytes"; "max_response_bytes"].

(** The values of the required fields, in order. *)
Fixpoint parse_limit_values (data : list (string * json)) (keys : list string) : res (list Z) :=
  match keys with
  | [] => Ret []
  | key :: keys =>
      match od_get key data ≫= as_int with
      | None => rerr ("relay /info limit '" +:+ key +:+ "' must be an int")
      | Some value =>
          if (value <=? 0)%Z then rerr ("relay /info limit '" +:+ key +:+ "' must be > 0")
          else match parse_limit_values data keys with
               | Raise e => Raise e
               | Ret vs => Ret (value :: vs)
               end
      end
  end.

Definition _parse_limits (data : list (string * json)) : res RelayLimits :=
  let missing := filter (λ key, od_in key data = false) limit_fields in
  match missing with
  | _ :: _ => rerr ("relay /info missing limits fields: " +:+ String.concat ", " missing)
  | [] =>
      match parse_limit_values data limit_fields with
      | Ret [a; b; c; d] => Ret (mkRelayLimits a b c d)
      | Ret _ => rerr ""
      | Raise e => Raise e
      end
  end.

Definition mismatch (name : string) (client relay : Z) : list string :=
  if (relay <? client)%Z
  then [name +:+ " (client=" +:+ pretty client +:+ ", relay=" +:+ pretty relay +:+ ")"] else [].

Definition _check_limit_compatibility (client relay : RelayLimits) : res unit :=
  let mismatches :=
    mismatch "max_items" (max_items client) (max_items relay) ++
    mismatch "max_request_bytes" (max_request_bytes client) (max_request_bytes relay) ++
    mismatch "per_item_max_wire_bytes" (per_item_max_wire_bytes client) (per_item_max_wire_bytes relay) ++
    mismatch "max_response_bytes" (max_response_bytes client) (max_response_bytes relay) in
  match mismatches with
  | [] => Ret ()
  | _ => rerr ("relay limits incompatible: " +:+ String.concat ", " mismatches)
  end.

(** What the session gives for a GET. *)
Definition http_get := string → list (string * string) → res (Z * res bytes).

Definition info_headers (cfg : RelayConfig) : list (string * string) :=
  [("Accept", "application/json"); ("Accept-Encoding", "gzip")] ++
  match auth_token cfg with
  | Some t => if truthy t then [("Authorization", "Bearer " +:+ t)] else []
  | None => []
  end.

(** The body of the [/info] response. *)
Definition fetch_info (cfg : RelayConfig) (get : http_get) : res bytes :=
  match (match get (info_url cfg) (info_headers cfg) with
         | Raise e => Raise e
         | Ret (status, body) =>
             if (status =? 401)%Z || (status =? 403)%Z
             then rerr "relay auth failed: missing or invalid Authorization token"
             else if negb (status =? 200)%Z then rerr ("relay /info returned HTTP " +:+ pretty status)
             else body
         end) with
  | Raise TimeoutError => rerr "relay /info timeout or unreachable"
  | Raise ClientError => rerr "relay /info request failed"
  | r => r
  end.

Definition check_relay_startup (cfg : RelayConfig) (get : http_get) (dec : decoder) (client : RelayLimits)
    : res unit :=
  match fetch_info cfg get with
  | Raise e => Raise e
  | Ret raw =>
      if (max_response_bytes client <? len raw)%Z then
        rerr ("relay /info response exceeds max_response_bytes (client=" +:+
              pretty (max_response_bytes client) +:+ " bytes)")
      else
        match dec raw with
        | DecBadUtf8 => Raise UnicodeDecodeError
        | DecBadJson => rerr "relay /info returned invalid JSON"
        | DecOk j =>
            match as_obj j with
            | None => rerr "relay /info returned non-object JSON"
            | Some data =>
                match od_get "v" data ≫= as_int with
                | None => rerr "relay /info missing integer field 'v'"
                | Some v =>
                    if negb (v =? api_version cfg)%Z then
                      rerr ("relay API version mismatch (client=" +:+ pretty (api_version cfg) +:+
                            ", relay=" +:+ pretty v +:+ ")")
                    else
                      match od_get "limits" data ≫= as_obj with
                      | None => rerr "relay /info missing 'limits' object"
                      | Some l =>
                          match _parse_limits l with
                          | Raise e => Raise e
                          | Ret relay => _check_limit_compatibility client relay
                          end
                      end
                end
            end
        end
  end.

Definition run_relay_startup_check (cfg : RelayConfig) (get : http_get) (dec : decoder)
    (client : RelayLimits) (mode : string) : res unit :=
  if bool_decide (mode = "off") then Ret ()
  else
    match check_relay_startup cfg get dec client with
    | Ret _ => Ret ()
    | Raise (RelayStartupCheckError msg) =>
        if bool_decide (mode = "warn") then Ret ()
        else Raise (SystemExit ("Relay startup check failed: " +:+ msg))
    | Raise e => Raise e
    end.
