(* ===== verification/Asks.v ===== *)
(** * What the tasks of the handler ask the upstream

    A task of the handler asks the upstream about the key it resolves, over
    every interleaving: the request of a client whose question has that key, or
    a question made from the key.  Steps of servers and handler never touch a
    running task; they only add tasks that have not started. *)
From S2P Require Import Prelude PyString OrderedDict Metrics Dns Framing Cache SingleFlight Handler HandlerProps System SystemProps SystemOutcomes Servers ServerProps Net NetProps.
From stdpp Require Import base list strings gmap sets.

Section asks.
Context `{Dnslib}.
Implicit Types (h : HSt) (key : CacheKey) (p : coro).

Definition asks_for key (req : DNSRecord) : Prop :=
  (∃ q qs, questions req = q :: qs ∧ key_of q = key)
  ∨ dns_question key.1.1 (_qtype_mapping key.1.2).2 (class_name key.2) = Some req.

(** [wire] is a message that asks for [key]. *)
Definition asks key (wire : bytes) : Prop := ∃ req, dns_pack req = Some wire ∧ asks_for key req.

Definition names key (qname qtype_name : string) : Prop :=
  qname = key.1.1 ∧ qtype_name = (_qtype_mapping key.1.2).2.

Definition coro_asks p : Prop :=
  match p with
  | CResolve request key _ _ => asks_for key request
  | CResolveQuery wire _ key _ _ | CRefreshQuery wire _ key _ _ _ => asks key wire
  | CRefresh key qname qtype_name _ => names key qname qtype_name
  end.

Definition not_started p : bool :=
  match p with CResolve _ _ _ _ | CRefresh _ _ _ _ => true | _ => false end.

Definition tasks_ask h : Prop :=
  ∀ t k p, loop_tasks (h_sf h) !! t = Some (mkTask k (Running p)) → coro_asks p.

(** [h] has the tasks of [h0], and new ones that ask for their keys. *)
Definition grown h0 h : Prop :=
  sf_ok (h_sf h) ∧ ∀ t,
    loop_tasks (h_sf h) !! t = loop_tasks (h_sf h0) !! t
    ∨ (loop_tasks (h_sf h0) !! t = None
       ∧ ∃ k p, loop_tasks (h_sf h) !! t = Some (mkTask k (Running p)) ∧ coro_asks p ∧ not_started p = true).

Lemma grown_refl h : sf_ok (h_sf h) → grown h h.
Proof. intros Hok. split; [done|]. by left. Qed.
Lemma grown_asks h0 h : grown h0 h → tasks_ask h0 → tasks_ask h.
Proof.
  intros [_ Hg] Ha t k p Ht. destruct (Hg t) as [E|(_ & k' & p' & E & Hp & _)].
  - rewrite E in Ht. by apply (Ha t k).
  - by simplify_eq.
Qed.

(** ** The handler's steps *)

Section growth.
Context (h0 : HSt) (cfg : HandlerConfig).
#[local] Abbreviation inv := (grown h0).

Lemma grown_sf h h' : h_sf h' = h_sf h → inv h → inv h'.
Proof. unfold grown. by intros ->. Qed.
Lemma minc_grown x : preserves inv (minc x).
Proof. intros h Hh. by apply (grown_sf h). Qed.
Lemma modify_grown f : (∀ h, h_sf (f h) = h_sf h) → preserves inv (modify f).
Proof. intros Hf h Hh. apply (grown_sf h); [apply Hf|done]. Qed.
Lemma in_cache_grown {A} (m : M CacheSt A) : preserves inv (in_cache m).
Proof. intros h Hh. apply (grown_sf h); [|done]. by destruct (in_cache_run m h) as (? & ? & ->). Qed.
Lemma alloc_grown r : preserves inv (alloc r).
Proof. intros h Hh. by apply (grown_sf h). Qed.
Lemma with_txid_grown request o : preserves inv (_with_txid request o).
Proof. intros h Hh. by apply (grown_sf h). Qed.

Lemma create_grown k p : coro_asks p → not_started p = true → preserves inv (in_sf (get_or_create k p)).
Proof.
  intros Hp Hs h [Hok Hg]. destruct (in_sf_get_run k p h) as (m & f & t' & l & -> & _ & Hspec).
  destruct (Hspec Hok) as (Hok' & _ & _ & Hf & Hl). split; [done|]. intros t. cbn. destruct l.
  - destruct (Hl eq_refl) as (Hnone & -> & _). destruct (decide (t = t')) as [->|Hne].
    + right. rewrite lookup_insert_eq. split; [|by eauto].
      destruct (Hg t') as [E|(E & _)]; [by rewrite <- E|done].
    + rewrite lookup_insert_ne by done. apply Hg.
  - destruct (Hf eq_refl) as [-> _]. apply Hg.
Qed.

#[local] Hint Resolve minc_grown in_cache_grown alloc_grown with_txid_grown : rdns.
#[local] Hint Extern 1 (preserves _ (modify _)) => (by apply modify_grown) : rdns.
#[local] Hint Extern 2 (preserves _ (in_sf (get_or_create _ _))) => (by apply create_grown) : rdns.

Lemma enqueue_refresh_grown key reason : preserves inv (enqueue_refresh cfg key reason).
Proof. unfold enqueue_refresh. solve_preserves. Qed.
#[local] Hint Resolve enqueue_refresh_grown : rdns.

Lemma serve_stale_grown request stale key qname qtype_name :
  names key qname qtype_name → preserves inv (serve_stale cfg request stale key qname qtype_name).
Proof. intros Hn. unfold serve_stale, _schedule_refresh, reply_cached. solve_preserves. Qed.

Lemma handle_begin_grown request now_fresh now_stale :
  preserves inv (handle_begin cfg request now_fresh now_stale).
Proof.
  unfold handle_begin. destruct (questions request) as [|q qs] eqn:Eq; [unfold error_reply; solve_preserves|].
  cbn [_qtype_mapping]. fold (key_of q).
  assert (names (key_of q) (normalize (q_qname q)) (_qtype_mapping (q_qtype q)).2) as Hn by done.
  assert (asks_for (key_of q) request) as Ha by (left; eauto).
  pose proof (λ stale, serve_stale_grown request stale _ _ _ Hn) as Hs. cbn in Hs.
  unfold reply_cached. solve_preserves.
Qed.

Lemma handle_resume_grown request key qname qtype_name r now :
  names key qname qtype_name → preserves inv (handle_resume cfg request key qname qtype_name r now).
Proof.
  intros Hn. unfold handle_resume, error_reply. pose proof (λ s, serve_stale_grown request s _ _ _ Hn) as Hs.
  solve_preserves.
Qed.

Lemma scan_tick_grown now : preserves inv (_refresh_scan_tick cfg now).
Proof.
  assert (∀ es n, preserves inv (scan_entries cfg now n es)) as Hs.
  { induction es as [|[key e] es IH]; intros n; cbn [scan_entries]; solve_preserves. }
  unfold _refresh_scan_tick. solve_preserves.
Qed.

Lemma worker_begin_grown now : preserves inv (_refresh_worker_begin cfg now).
Proof.
  assert (∀ key, preserves inv (_refresh_via_worker_begin cfg now key)) as Hw.
  { intros [[qname qtype] qclass]. unfold _refresh_via_worker_begin. destruct (negb _); [solve_preserves|].
    apply preserves_bind; [solve_preserves|]. intros [e|]; [|solve_preserves]. destruct (negb _); [solve_preserves|].
    destruct (dns_question _ _ _) as [request|] eqn:Er; [|solve_preserves].
    apply preserves_bind; [|solve_preserves]. apply create_grown; [by right|done]. }
  unfold _refresh_worker_begin, worker_finally. solve_preserves.
Qed.
Lemma worker_resume_grown key r : preserves inv (_refresh_worker_resume key r).
Proof. unfold _refresh_worker_resume, worker_finally. destruct r as [[]|[]]; cbn [is_Exception]; solve_preserves. Qed.

(** A wake-up of the task table leaves the tasks. *)
Lemma cleanup_grown k t h :
  (k, t) ∈ cleanups (h_sf h) → inv h → inv (with_sf (_cleanup k t (h_sf h)) h).
Proof. intros Hin [Hok Hg]. split; [by apply cleanup_ok|exact Hg]. Qed.
End growth.

(** The call that waits is named by its key. *)
Lemma handle_begin_names cfg request now_fresh now_stale h h' key qname qtype_name t :
  handle_begin cfg request now_fresh now_stale h = (h', Ret (HAwait key qname qtype_name t)) →
  names key qname qtype_name.
Proof.
  unfold handle_begin. destruct (questions request) as [|q qs]; [done|]. cbn [_qtype_mapping].
  unfold mbind, M_bind, mret, M_ret. intros Hb. repeat (case_match; simplify_eq; try done).
Qed.

(** ** Steps of a task *)

(** All other tasks are kept; the task itself asks for its key. *)
Definition task_moved (t : nat) h0 h : Prop :=
  (∀ t', t' ≠ t → loop_tasks (h_sf h) !! t' = loop_tasks (h_sf h0) !! t')
  ∧ (∀ k p, loop_tasks (h_sf h) !! t = Some (mkTask k (Running p)) → coro_asks p).

Lemma task_moved_asks t h0 h : task_moved t h0 h → tasks_ask h0 → tasks_ask h.
Proof.
  intros [Hne Ht] Ha t' k p E. destruct (decide (t' = t)) as [->|Hne']; [by apply (Ht k)|].
  rewrite Hne in E by done. by apply (Ha t' k).
Qed.

Lemma finish_moved t m h0 h : h_sf (m h).1 = h_sf h0 → task_moved t h0 (finish t m h).
Proof.
  intros Hsf. unfold finish. destruct (m h) as [h' r]. cbn in Hsf. unfold finish_task. rewrite Hsf.
  destruct (loop_tasks (h_sf h0) !! t) as [[k' [p'|r']]|] eqn:E; split; cbn; rewrite ?Hsf; try done.
  - intros t' Hne. by rewrite lookup_insert_ne.
  - intros k p. rewrite lookup_insert_eq. done.
  - intros k p. by rewrite E.
  - intros k p. by rewrite E.
Qed.

Lemma advance_moved t p h0 h :
  coro_asks p → h_sf h = h_sf h0 → task_moved t h0 (with_sf (advance_task t p (h_sf h)) h).
Proof.
  intros Hp ->. split; cbn.
  - intros t' Hne. by rewrite lookup_alter_ne.
  - intros k p'. rewrite lookup_alter_eq. by destruct (loop_tasks (h_sf h0) !! t) as [[]|]; intros [= _ <-].
Qed.

Lemma unmoved t h : tasks_ask h → task_moved t h h.
Proof. intros Ha. split; [done|]. intros k p. apply Ha. Qed.

Lemma task_begin_moved t h : tasks_ask h → task_moved t h (task_begin t h).
Proof.
  intros Ha. unfold task_begin.
  destruct (loop_tasks (h_sf h) !! t) as [[k [[]|]]|] eqn:E; try (by apply unmoved); specialize (Ha _ _ _ E); cbn in Ha.
  - unfold _resolve_upstream_begin. runM. destruct (dns_pack request) as [wire|] eqn:Ep; cbn.
    + apply advance_moved; [|done]. by exists request.
    + by apply (finish_moved t (raise OtherException)).
  - unfold _refresh_once_begin. destruct Ha as [-> ->].
    destruct (dns_question _ _ _) as [req|] eqn:Eq; runM; [destruct (dns_pack req) as [wire|] eqn:Ep|]; cbn.
    + apply (advance_moved t _ h (mark_inflight refresh_key h)); [|done]. exists req. split; [done|by right].
    + by apply (finish_moved t (try_finally (raise OtherException) (unmark_inflight refresh_key))
        h (mark_inflight refresh_key h)).
    + by apply (finish_moved t (try_finally (lift_res (Ret None)) (unmark_inflight refresh_key))
        h (mark_inflight refresh_key h)).
Qed.

Lemma task_cancel_moved t h : tasks_ask h → task_moved t h (task_cancel t h).
Proof.
  intros Ha. unfold task_cancel.
  destruct (loop_tasks (h_sf h) !! t) as [[k [[]|]]|]; try (by apply unmoved); by apply finish_moved.
Qed.

Lemma task_resume_moved cc t up now now_evict h :
  tasks_ask h → task_moved t h (task_resume cc t up now now_evict h).
Proof.
  intros Ha. unfold task_resume.
  destruct (loop_tasks (h_sf h) !! t) as [[k [[]|]]|]; try (by apply unmoved); apply finish_moved.
  - apply query_and_store_sf.
  - unfold try_finally. rewrite <- (query_and_store_sf cc up now now_evict wire request_id key h).
    by destruct (query_and_store _ _ _ _ _ _ _ h).
Qed.

(** ** The servers' steps *)

Section servers.
Context (h0 : HSt) (ucfg : UdpServerConfig) (tcfg : TcpServerConfig) (hcfg : HandlerConfig).
#[local] Abbreviation sinv := (λ s : SrvSt, grown h0 (s_h s)).

Lemma in_handler_grown {A} (m : M HSt A) : preserves (grown h0) m → preserves sinv (in_handler m).
Proof. intros Hm. unfold in_handler. by apply (preserves_zoom _ _ _ _ (grown h0)). Qed.
Lemma srv_minc_grown x : preserves sinv (minc x).
Proof. intros s Hs. exact (grown_sf h0 (s_h s) _ eq_refl Hs). Qed.
Lemma srv_modify_grown f : (∀ s, s_h (f s) = s_h s) → preserves sinv (modify f).
Proof. intros Hf s Hs. cbn. by rewrite Hf. Qed.
#[local] Hint Resolve in_handler_grown srv_minc_grown handle_begin_grown : rdns.
#[local] Hint Extern 1 (preserves _ (modify _)) => (by apply srv_modify_grown) : rdns.

Lemma truncate_obj_grown o : preserves sinv (truncate_obj o).
Proof. apply in_handler_grown. by apply modify_grown. Qed.
#[local] Hint Resolve truncate_obj_grown : rdns.
Lemma udp_reply_grown o a : preserves sinv (udp_reply ucfg o a).
Proof. unfold udp_reply, pack_obj, drop_oversize, sendto. solve_preserves. Qed.
Lemma tcp_reply_grown o c : preserves sinv (tcp_reply tcfg o c).
Proof. unfold tcp_reply, pack_obj, drop_oversize, tcp_write. solve_preserves. Qed.
#[local] Hint Resolve udp_reply_grown tcp_reply_grown : rdns.

Lemma request_begin_grown ct nf ns : preserves sinv (request_begin ucfg tcfg hcfg ct nf ns).
Proof.
  unfold request_begin, _handle_datagram_begin, _handle_request_begin, drop_malformed. solve_preserves.
Qed.
Lemma request_resume_grown ct w r now :
  names (wt_key w) (wt_qname w) (wt_qtype_name w) → preserves sinv (request_resume ucfg tcfg hcfg ct w r now).
Proof.
  intros Hn. unfold request_resume, _handle_datagram_resume, _handle_request_resume.
  pose proof (in_handler_grown _ (handle_resume_grown h0 hcfg (wt_request w) _ _ _ r now Hn)). solve_preserves.
Qed.
Lemma datagram_received_grown : preserves sinv (datagram_received ucfg).
Proof. unfold datagram_received, drop_max_inflight. solve_preserves. Qed.
Lemma tcp_read_request_grown st : preserves sinv (tcp_read_request tcfg st).
Proof. unfold tcp_read_request, drop_max_inflight, drop_oversize. solve_preserves. Qed.
End servers.

Lemma request_begin_names ucfg tcfg hcfg ct nf ns s s' w :
  request_begin ucfg tcfg hcfg ct nf ns s = (s', Ret (Some w)) → names (wt_key w) (wt_qname w) (wt_qtype_name w).
Proof.
  unfold request_begin, _handle_datagram_begin, _handle_request_begin, try_except, in_handler, zoom.
  unfold mbind, M_bind, mret, M_ret. intros Hb.
  repeat (case_match; simplify_eq; try done); by eapply handle_begin_names.
Qed.

(** ** The event loop *)

Definition net_h (n : NetWorld) : HSt := s_h (n_srv n).
Definition net_named (n : NetWorld) : Prop :=
  Forall (λ x, names (wt_key x.2) (wt_qname x.2) (wt_qtype_name x.2)) (n_waiting n).

(** Steps of a task of the handler. *)
Definition task_event (ev : net_event) : option nat :=
  match ev with
  | NHandler (EvTaskBegin t | EvTaskResume t _ _ _ | EvTaskCancel t) => Some t
  | _ => None
  end.

Section net.
Context (ucfg : UdpServerConfig) (tcfg : TcpServerConfig) (cc : CacheConfig) (hcfg : HandlerConfig).

Lemma handler_event_grown ev (n : NetWorld) :
  sf_ok (h_sf (net_h n)) → task_event (NHandler ev) = None → own_event ev = true →
  grown (net_h n) (w_h (run_event cc hcfg ev (sys n))).
Proof.
  intros Hok Ht Ho. pose proof (grown_refl _ Hok) as Hr. change (net_h n) with (w_h (sys n)) in *.
  destruct ev as [request nf ns|t|t up now ne|t|k t|i now|now|now|j|key reason| |k]; try discriminate; cbn [run_event].
  - case_decide; [by apply cleanup_grown|done].
  - by apply scan_tick_grown.
  - pose proof (worker_begin_grown (w_h (sys n)) hcfg now _ Hr) as Hw.
    by destruct (_refresh_worker_begin hcfg now (w_h (sys n))) as [h' [[[key [t|]]|]|e]].
  - destruct (w_jobs (sys n) !! j) as [[key t]|]; [|done].
    destruct (task_result_of t (w_h (sys n))) as [r|]; [|done]. by apply worker_resume_grown.
  - by apply enqueue_refresh_grown.
  - by apply in_cache_grown.
  - case_bool_decide; [by apply minc_grown|done].
Qed.

Lemma run_net_grown ev n :
  sf_ok (h_sf (net_h n)) → net_named n → task_event ev = None →
  grown (net_h n) (net_h (run_net ucfg tcfg cc hcfg ev n)) ∧ net_named (run_net ucfg tcfg cc hcfg ev n).
Proof.
  intros Hok Hn Ht. pose proof (grown_refl _ Hok) as Hr. unfold net_named in *.
  destruct ev as [data a|st|c|i nf ns|i now|i|i|t|c|c|ev| |]; cbn [run_net].
  - pose proof (datagram_received_grown (net_h n) ucfg (n_srv n) Hr) as Hd.
    by destruct (datagram_received ucfg (n_srv n)) as [s' [[t|]|e]].
  - done.
  - destruct (n_conns n !! c) as [[st| |]|]; [|done..].
    pose proof (tcp_read_request_grown (net_h n) tcfg st (n_srv n) Hr) as Hd.
    by destruct (tcp_read_request tcfg st (n_srv n)) as [s' [[[[t data] st']|]|e]].
  - destruct (n_created n !! i) as [ct|]; [|done].
    pose proof (request_begin_grown (net_h n) ucfg tcfg hcfg ct nf ns (n_srv n) Hr) as Hd.
    destruct (request_begin ucfg tcfg hcfg ct nf ns (n_srv n)) as [s' [[w|]|e]] eqn:E; [|done..].
    split; [done|]. cbn. apply Forall_app. split; [done|]. apply Forall_singleton. by eapply request_begin_names.
  - destruct (n_waiting n !! i) as [[ct w]|] eqn:Ei; [|done]. destruct (task_result_of _ _) as [r|]; [|done].
    pose proof (proj1 (Forall_lookup _ _) Hn i _ Ei) as Hw.
    pose proof (request_resume_grown (net_h n) ucfg tcfg hcfg ct w r now Hw (n_srv n) Hr) as Hd.
    destruct (request_resume ucfg tcfg hcfg ct w r now (n_srv n)) as [s' x]. split; [done|]. by apply Forall_delete.
  - by destruct (n_created n !! i).
  - destruct (n_waiting n !! i) as [[ct w]|]; [|done]. split; [done|]. by apply Forall_delete.
  - by case_bool_decide.
  - by repeat case_match.
  - by repeat case_match.
  - destruct (own_event ev) eqn:Eo; [|done]. split; [by apply handler_event_grown|done].
  - done.
  - done.
Qed.

(** A step of task [t]. *)
Lemma run_net_moved ev n t :
  tasks_ask (net_h n) → task_event ev = Some t →
  task_moved t (net_h n) (net_h (run_net ucfg tcfg cc hcfg ev n))
  ∧ n_waiting (run_net ucfg tcfg cc hcfg ev n) = n_waiting n.
Proof.
  intros Ha Ht. destruct ev as [| | | | | | | | | |ev| |]; try discriminate.
  destruct ev as [|t'|t' up now ne|t'| | | | | | | |]; try discriminate; injection Ht as ->; split; try done.
  - by apply task_begin_moved.
  - by apply task_resume_moved.
  - by apply task_cancel_moved.
Qed.
End net.
End asks.
