(* ===== verification/Forward.v ===== *)
(** * The upstream forwarders behind one interface

    [main.py] gives the handler one of three forwarders; the handler only calls
    its [query] ([dns/handler.py], [_query_upstream]).  The class [Forwarder]
    is what the handler relies on: [query] runs until it is suspended or has
    returned, and goes on when what it waits for has happened.  The laws say
    that a forwarder touches nothing of the handler but the counters of the
    registry they share.

    [request_id] is a keyword argument: the UDP and the TCP forwarder do not
    take it and raise [TypeError] when it is given, the relay forwarder
    requires it. *)
From S2P Require Import Prelude Metrics Dns Framing Cache SingleFlight Handler HandlerProps System Upstream UpstreamProps UpstreamTheorems UpstreamMatch Relay.
From stdpp Require Import base list strings gmap sets.

(** Where a call of [query] is: suspended, or returned, leaving [rest] behind
    (a thread that goes on although nobody waits for it). *)
Inductive fq (Q : Type) : Type :=
| FSuspended (q : Q)
| FReturned (r : res (option bytes)) (rest : option Q).
Arguments FSuspended {Q} q.
Arguments FReturned {Q} r rest.

Definition returned {Q} (r : res (option bytes)) : fq Q := FReturned r None.

(** Configuration [C], state [F], suspended queries [Q], and what happens
    outside, [I]. *)
Class Forwarder (C F Q I : Type) `{HasMetrics F} := {
  fw_call : C → I → bytes → option string → F → F * fq Q;    (** [query(wire)], [query(wire, request_id=...)] *)
  fw_resume : C → I → Q → F → F * fq Q;
  fw_close : F → F;
  fw_outside : I → F → F;                                    (** nothing of the program runs *)
}.

(** A registry in which only forwarders counted. *)
Definition count_keys (ks : list string) (m : option Metrics) : option Metrics :=
  foldl (λ m k, inc_opt k m) m ks.
Definition counted (m m' : option Metrics) : Prop :=
  ∃ ks, ks ⊆ upstream_counters ∧ m' = count_keys ks m.

Class ForwarderLaws (C F Q I : Type) `{Forwarder C F Q I} : Prop := {
  fw_call_counts c i wire rid f : counted (metrics_of f) (metrics_of (fw_call c i wire rid f).1);
  fw_resume_counts c i q f : counted (metrics_of f) (metrics_of (fw_resume c i q f).1);
  fw_close_counts f : metrics_of (fw_close f) = metrics_of f;
  fw_outside_counts i f : metrics_of (fw_outside i f) = metrics_of f;
}.

(** ** Counting *)

Lemma counted_same m : counted m m.
Proof. exists []. split; [apply list_subseteq_nil|done]. Qed.

Section counting.
Context {F : Type} `{HasMetrics F, !HasMetricsLaws F} (m0 : option Metrics).

Definition counted_from (f : F) : Prop := counted m0 (metrics_of f).

Lemma counted_refl f : m0 = metrics_of f → counted_from f.
Proof. unfold counted_from. intros ->. apply counted_same. Qed.
Lemma counted_minc k : bool_decide (k ∈ upstream_counters) = true → preserves counted_from (minc k).
Proof.
  intros Hk f (ks & Hks & E). apply bool_decide_eq_true in Hk. exists (ks ++ [k]). split; [set_solver|].
  rewrite minc_run. cbn [fst]. rewrite metrics_of_with. unfold count_keys. by rewrite foldl_app, E.
Qed.
Lemma counted_modify (g : F → F) : (∀ f, metrics_of (g f) = metrics_of f) → preserves counted_from (modify g).
Proof. intros Hg f Hf. unfold counted_from. cbn. by rewrite Hg. Qed.
End counting.

#[export] Hint Extern 1 (preserves (counted_from _) (minc _)) => (apply counted_minc; vm_compute; reflexivity) : rdns.
#[export] Hint Extern 1 (preserves (counted_from _) (modify _)) => (apply counted_modify; by intros ?) : rdns.

Lemma counted_run {F A} `{HasMetrics F, !HasMetricsLaws F} (m : M F A) f :
  preserves (counted_from (metrics_of f)) m → counted (metrics_of f) (metrics_of (m f).1).
Proof. intros Hm. apply Hm. by apply counted_refl. Qed.

(** The result of an operation as the result of the query. *)
Definition finish_query {F Q} (r : F * res (option bytes)) : F * fq Q := (r.1, returned r.2).

(** ** UDP *)

(** A query awaits its thread; a thread whose query was cancelled goes on. *)
Inductive udp_susp : Type := UAwait (wire : bytes) | UThread (wire : bytes).
(** The thread has run, or the query is cancelled; a thread that has not
    started then never runs. *)
Inductive udp_input : Type := UDone (sock : socket_calls) | UCancel (started : bool).

Definition udp_call (cfg : UpstreamUdpConfig) (i : udp_input) (wire : bytes) (request_id : option string)
    (f : UdpFwd) : UdpFwd * fq udp_susp :=
  match request_id with
  | Some _ => (f, returned (Raise TypeError))
  | None =>
      match udp_query_begin cfg f with
      | (f', Ret true) => (f', FSuspended (UAwait wire))
      | (f', Ret false) => (f', returned (Ret None))
      | (f', Raise e) => (f', returned (Raise e))
      end
  end.

Definition udp_resume (cfg : UpstreamUdpConfig) (i : udp_input) (q : udp_susp) (f : UdpFwd)
    : UdpFwd * fq udp_susp :=
  match i, q with
  | UDone sock, UAwait wire =>
      finish_query (try_finally_do (_query_blocking sock wire) (udp_query_end cfg) f)
  | UDone sock, UThread wire => finish_query (_query_blocking sock wire f)
  | UCancel started, UAwait wire =>
      ((udp_query_end cfg f).1,
       FReturned (Raise CancelledError) (if started then Some (UThread wire) else None))
  | UCancel _, UThread _ => (f, FSuspended q)
  end.

#[global] Instance udp_forwarder : Forwarder UpstreamUdpConfig UdpFwd udp_susp udp_input := {|
  fw_call := udp_call; fw_resume := udp_resume; fw_close f := (udp_close f).1; fw_outside _ f := f |}.

(** ** TCP *)

(** The forwarder and what has arrived on its connections. *)
Record TcpNet := mkTcpNet { tn_fwd : TcpFwd; tn_arrived : list (nat * bytes) }.
#[global] Instance TcpNet_metrics : HasMetrics TcpNet := {|
  metrics_of f := tf_metrics (tn_fwd f);
  with_metrics m f := mkTcpNet (with_metrics m (tn_fwd f)) (tn_arrived f) |}.

Inductive tcp_susp : Type := TConnecting (wire : bytes) | TExchange (wire : bytes) (c : nat).
(** The readings of the clock and of the connections' state, what
    [open_connection] and [drain] give, the bytes that arrive and how a read
    ends for which they are not enough. *)
Record tcp_input := mkTcpInput {
  ti_usable : nat → bool; ti_now : Z; ti_conn : res nat; ti_drain : res unit; ti_more : bytes; ti_end : exn }.

Definition tcp_call (cfg : UpstreamTcpConfig) (i : tcp_input) (wire : bytes) (request_id : option string)
    (f : TcpFwd) : TcpFwd * fq tcp_susp :=
  match request_id with
  | Some _ => (f, returned (Raise TypeError))
  | None =>
      match tcp_query_begin cfg (ti_usable i) (ti_now i) f with
      | (f', Ret QReturnNone) => (f', returned (Ret None))
      | (f', Ret QConnect) => (f', FSuspended (TConnecting wire))
      | (f', Ret (QUse c)) => (f', FSuspended (TExchange wire c))
      | (f', Raise e) => (f', returned (Raise e))
      end
  end.

Definition tcp_resume (cfg : UpstreamTcpConfig) (i : tcp_input) (q : tcp_susp) (f : TcpFwd)
    : TcpFwd * fq tcp_susp :=
  match q with
  | TConnecting wire =>
      match tcp_query_connect cfg (ti_conn i) f with
      | (f', Ret (Some c)) => (set_stream c (mkStream [] (ti_end i)) f', FSuspended (TExchange wire c))
      | (f', Ret None) => (f', returned (Ret None))
      | (f', Raise e) => (f', returned (Raise e))
      end
  | TExchange wire c =>
      finish_query (tcp_query_end cfg (ti_usable i) (ti_now i) c wire (ti_drain i) (feed c (ti_more i) (ti_end i) f))
  end.

(** Bytes arrive on a connection that is read. *)
Definition arrived (i : tcp_input) (q : tcp_susp) : list (nat * bytes) :=
  match q with TConnecting _ => [] | TExchange _ c => [(c, ti_more i)] end.
(** ... and on one that nobody reads. *)
Definition tcp_outside (i : tcp_input) (f : TcpNet) : TcpNet :=
  match ti_conn i with
  | Ret c => mkTcpNet (feed c (ti_more i) (ti_end i) (tn_fwd f)) (tn_arrived f ++ [(c, ti_more i)])
  | Raise _ => f
  end.

#[global] Instance tcp_forwarder : Forwarder UpstreamTcpConfig TcpNet tcp_susp tcp_input := {|
  fw_call cfg i wire rid f :=
    let r := tcp_call cfg i wire rid (tn_fwd f) in (mkTcpNet r.1 (tn_arrived f), r.2);
  fw_resume cfg i q f :=
    let r := tcp_resume cfg i q (tn_fwd f) in (mkTcpNet r.1 (tn_arrived f ++ arrived i q), r.2);
  fw_close f := mkTcpNet (tcp_close (tn_fwd f)).1 (tn_arrived f);
  fw_outside := tcp_outside |}.

(** ** Relay *)

(** The body a query has posted. *)
Inductive relay_susp : Type := RPost (body : string).
Record relay_input := mkRelayInput { ri_post : http_post; ri_dec : decoder }.

Definition relay_call (cfg : RelayConfig) (i : relay_input) (wire : bytes) (request_id : option string)
    (f : RelayFwd) : RelayFwd * fq relay_susp :=
  match request_id with
  | None => (f, returned (Raise TypeError))
  | Some rid =>
      match relay_query_begin cfg wire rid f with
      | (f', Ret (Some body)) => (f', FSuspended (RPost body))
      | (f', Ret None) => (f', returned (Ret None))
      | (f', Raise e) => (f', returned (Raise e))
      end
  end.

Definition relay_resume (cfg : RelayConfig) (i : relay_input) (q : relay_susp) (f : RelayFwd)
    : RelayFwd * fq relay_susp :=
  match q with RPost body => finish_query (relay_query_end cfg (ri_post i) (ri_dec i) body f) end.

#[global] Instance relay_forwarder : Forwarder RelayConfig RelayFwd relay_susp relay_input := {|
  fw_call := relay_call; fw_resume := relay_resume; fw_close f := (relay_close f).1; fw_outside _ f := f |}.

(** ** The laws *)

#[global] Instance UdpFwd_metrics_laws : HasMetricsLaws UdpFwd.
Proof. split; [done|by intros []|done]. Qed.
#[global] Instance TcpFwd_metrics_laws : HasMetricsLaws TcpFwd.
Proof. split; [done|by intros []|done]. Qed.
#[global] Instance TcpNet_metrics_laws : HasMetricsLaws TcpNet.
Proof. split; [done|by intros [[]]|done]. Qed.
#[global] Instance RelayFwd_metrics_laws : HasMetricsLaws RelayFwd.
Proof. split; [done|by intros []|done]. Qed.

Section udp_laws.
Context (m0 : option Metrics) (cfg : UpstreamUdpConfig).
Lemma udp_begin_counted : preserves (counted_from m0) (udp_query_begin cfg).
Proof. unfold udp_query_begin. solve_preserves. Qed.
Lemma udp_end_counted : preserves (counted_from m0) (udp_query_end cfg).
Proof. unfold udp_query_end. solve_preserves. Qed.
Lemma query_blocking_counted sock wire : preserves (counted_from m0) (_query_blocking sock wire).
Proof. unfold _query_blocking, sock_open, sock_close. solve_preserves. Qed.
End udp_laws.

#[global] Instance udp_forwarder_laws : ForwarderLaws UpstreamUdpConfig UdpFwd udp_susp udp_input.
Proof.
  split.
  - intros cfg i wire [rid|] f; cbn; [apply counted_same|].
    pose proof (counted_run _ f (udp_begin_counted (uf_metrics f) cfg)) as Hc. unfold udp_call.
    by destruct (udp_query_begin cfg f) as [f' [[]|e]].
  - intros cfg [sock|st] [wire|wire] f; cbn [fw_resume udp_forwarder]; unfold udp_resume, finish_query; cbn [fst].
    + apply (counted_run (F := UdpFwd) _ f). apply preserves_try_finally_do; [apply query_blocking_counted|apply udp_end_counted].
    + apply (counted_run (F := UdpFwd) _ f), query_blocking_counted.
    + apply (counted_run (F := UdpFwd) _ f), udp_end_counted.
    + apply counted_same.
  - done.
  - done.
Qed.

Section tcp_laws.
Context (m0 : option Metrics) (cfg : UpstreamTcpConfig).
Lemma acquire_loop_counted usable now rev : preserves (counted_from m0) (acquire_loop cfg usable now rev).
Proof. induction rev as [|conn rev IH]; cbn [acquire_loop]; unfold _close_writer; solve_preserves. Qed.
#[local] Hint Resolve acquire_loop_counted : rdns.
Lemma tcp_begin_counted usable now : preserves (counted_from m0) (tcp_query_begin cfg usable now).
Proof. unfold tcp_query_begin, _acquire_from_pool. solve_preserves. Qed.
Lemma tcp_finally_counted b : preserves (counted_from m0) (tcp_query_finally cfg b).
Proof. unfold tcp_query_finally. solve_preserves. Qed.
#[local] Hint Resolve tcp_finally_counted : rdns.
Lemma tcp_connect_counted r : preserves (counted_from m0) (tcp_query_connect cfg r).
Proof. unfold tcp_query_connect. solve_preserves. Qed.
Lemma exchange_counted c wire drain : preserves (counted_from m0) (exchange cfg c wire drain).
Proof. unfold exchange, read_or_count, read_conn, oversize, write_conn. solve_preserves. Qed.
Lemma release_counted usable now c : preserves (counted_from m0) (_release_to_pool cfg usable now c).
Proof. unfold _release_to_pool, _close_writer. solve_preserves. Qed.
Lemma close_writer_counted c : preserves (counted_from m0) (_close_writer c).
Proof. unfold _close_writer. solve_preserves. Qed.
#[local] Hint Resolve release_counted close_writer_counted : rdns.
Lemma tcp_end_counted usable now c wire drain : preserves (counted_from m0) (tcp_query_end cfg usable now c wire drain).
Proof.
  intros f Hf. unfold tcp_query_end. pose proof (exchange_counted c wire drain f Hf) as He.
  destruct (exchange cfg c wire drain f) as [f' [[r errored]|e]]; cbn [fst] in He.
  - revert f' He. change (preserves (counted_from m0)
      ((if errored then _close_writer c else _release_to_pool cfg usable now c);; tcp_query_finally cfg errored;; mret r)).
    solve_preserves.
  - revert f' He. change (preserves (counted_from m0)
      (_release_to_pool cfg usable now c;; tcp_query_finally cfg false;; raise (A := option bytes) e)).
    solve_preserves.
Qed.
Lemma close_all_counted conns : preserves (counted_from m0) (close_all conns).
Proof. induction conns; cbn [close_all]; solve_preserves. Qed.
End tcp_laws.

#[global] Instance tcp_forwarder_laws : ForwarderLaws UpstreamTcpConfig TcpNet tcp_susp tcp_input.
Proof.
  split.
  - intros cfg i wire [rid|] [f arr]; cbn; [apply counted_same|].
    pose proof (counted_run _ f (tcp_begin_counted (tf_metrics f) cfg (ti_usable i) (ti_now i))) as Hc. unfold tcp_call.
    by destruct (tcp_query_begin cfg (ti_usable i) (ti_now i) f) as [f' [[]|e]].
  - intros cfg i [wire|wire c] [f arr]; cbn.
    + pose proof (counted_run _ f (tcp_connect_counted (tf_metrics f) cfg (ti_conn i))) as Hc.
      by destruct (tcp_query_connect cfg (ti_conn i) f) as [f' [[c|]|e]].
    + exact (counted_run _ (feed c (ti_more i) (ti_end i) f) (tcp_end_counted _ cfg _ _ _ _ _)).
  - intros [f arr]. cbn. unfold tcp_close, mbind, M_bind, modify, gets. by rewrite close_all_run.
  - intros i [f arr]. cbn. unfold tcp_outside. by destruct (ti_conn i).
Qed.

Section relay_laws.
Context (m0 : option Metrics) (cfg : RelayConfig).
Lemma relay_begin_counted wire rid : preserves (counted_from m0) (relay_query_begin cfg wire rid).
Proof. unfold relay_query_begin, drop_oversize_relay. solve_preserves. Qed.
Lemma relay_end_counted post dec body : preserves (counted_from m0) (relay_query_end cfg post dec body).
Proof.
  unfold relay_query_end, relay_fetch, relay_answer, _parse_json, _parse_response. solve_preserves.
Qed.
End relay_laws.

#[global] Instance relay_forwarder_laws : ForwarderLaws RelayConfig RelayFwd relay_susp relay_input.
Proof.
  split.
  - intros cfg i wire [rid|] f; cbn; [|apply counted_same].
    pose proof (counted_run _ f (relay_begin_counted (rf_metrics f) cfg wire rid)) as Hc. unfold relay_call.
    by destruct (relay_query_begin cfg wire rid f) as [f' [[body|]|e]].
  - intros cfg i [body] f. cbn [fw_resume relay_forwarder]. unfold relay_resume, finish_query. cbn [fst]. apply (counted_run (F := RelayFwd) _ f), relay_end_counted.
  - done.
  - done.
Qed.
