(* ===== verification/Stack.v ===== *)
(** * The whole stack: servers, handler and forwarder

    [Net] runs the servers and the handler with upstream answers that come from
    anywhere.  Here the answers come from a forwarder: a task of the handler
    calls [query] of the forwarder ([_query_upstream] in [dns/handler.py]), the
    query is suspended in the forwarder while servers, other tasks and other
    queries go on, and its result resumes the task.  Both write to the one
    metrics registry of [main.py].

    [_query_upstream] calls [query] with the keyword argument and, after a
    [TypeError], without it. *)
From S2P Require Import Prelude PyString OrderedDict Metrics Dns Framing Cache SingleFlight Handler HandlerProps System Servers Net Forward.
From stdpp Require Import base list strings gmap sets.

Section stack.
Context `{Dnslib} {C F Q I : Type} `{Forwarder C F Q I}.

(** A suspended query: the task that awaits it, and whether it was called with
    the keyword argument. *)
Record query := mkQuery { qu_task : nat; qu_kw : bool; qu_wire : bytes; qu_susp : Q }.

(** The registry lives in the handler's state alone. *)
Record Stack := mkStack {
  k_net : NetWorld;
  k_fwd : F;
  k_queries : list query;
  k_threads : list (bytes * Q);      (** left behind by queries that were cancelled *)
}.

Definition stack_new (m : option Metrics) (f : F) : Stack := mkStack (net_new m) (with_metrics None f) [] [].

Definition stack_h (k : Stack) : HSt := s_h (n_srv (k_net k)).
Definition with_net (n : NetWorld) (k : Stack) : Stack := mkStack n (k_fwd k) (k_queries k) (k_threads k).
Definition add_query (q : query) (k : Stack) : Stack :=
  mkStack (k_net k) (k_fwd k) (q :: k_queries k) (k_threads k).
Definition add_rest (wire : bytes) (rest : option Q) (k : Stack) : Stack :=
  mkStack (k_net k) (k_fwd k) (k_queries k) (((λ q, (wire, q)) <$> option_list rest) ++ k_threads k).

Definition with_registry (m : option Metrics) (n : NetWorld) : NetWorld :=
  let s := n_srv n in
  with_srv (mkSrvSt (with_metrics m (s_h s)) (udp_transport s) (udp_inflight s) (tcp_inflight s) (next_client s)
              (udp_sent s) (tcp_written s)) n.

(** A step of the forwarder, on the shared registry. *)
Definition run_fwd (step : F → F * fq Q) (k : Stack) : Stack * fq Q :=
  let r := step (with_metrics (h_metrics (stack_h k)) (k_fwd k)) in
  (mkStack (with_registry (metrics_of r.1) (k_net k)) (with_metrics None r.1) (k_queries k) (k_threads k), r.2).

(** What task [t] asks the upstream, when it awaits it. *)
Definition task_query (t : nat) (h : HSt) : option (bytes * string) :=
  match loop_tasks (h_sf h) !! t with
  | Some (mkTask _ (Running (CResolveQuery wire rid _ _ _)))
  | Some (mkTask _ (Running (CRefreshQuery wire rid _ _ _ _))) => Some (wire, rid)
  | _ => None
  end.

(** [query] as the task sees it, when the call that counts, with ([kw]) or
    without the keyword, gave [r]. *)
Definition call_result (kw : bool) (r : res (option bytes)) : upstream := λ _ request_id,
  match request_id with
  | Some _ => if kw then r else Raise TypeError
  | None => r
  end.

Context (fcfg : C) (ucfg : UdpServerConfig) (tcfg : TcpServerConfig) (cc : CacheConfig) (hcfg : HandlerConfig).
#[local] Abbreviation net_step := (run_net ucfg tcfg cc hcfg).

Definition resume_task (t : nat) (up : upstream) (now now_evict : Z) (k : Stack) : Stack :=
  with_net (net_step (NHandler (EvTaskResume t up now now_evict)) (k_net k)) k.

(** The call is suspended, or the task goes on with its result. *)
Definition settle (t : nat) (kw : bool) (wire : bytes) (now now_evict : Z) (ko : Stack * fq Q) : Stack :=
  match ko.2 with
  | FSuspended q => add_query (mkQuery t kw wire q) ko.1
  | FReturned r rest => resume_task t (call_result kw r) now now_evict (add_rest wire rest ko.1)
  end.

(** ... unless it raised [TypeError] and is called again. *)
Definition settle_kw (t : nat) (kw : bool) (wire : bytes) (i : I) (now now_evict : Z) (ko : Stack * fq Q) : Stack :=
  match ko.2, kw with
  | FReturned (Raise TypeError) rest, true =>
      settle t false wire now now_evict (run_fwd (fw_call fcfg i wire None) (add_rest wire rest ko.1))
  | _, _ => settle t kw wire now now_evict ko
  end.

(** [KTask] runs a task up to its suspension in the forwarder, [KQuery] lets a
    suspended query go on (or cancels it), [KThread] a thread that nobody
    awaits; [i2] is for the second call. *)
Inductive stack_event : Type :=
| KNet (ev : net_event)
| KTask (t : nat) (i i2 : I) (now now_evict : Z)
| KQuery (j : nat) (i i2 : I) (now now_evict : Z)
| KThread (j : nat) (i : I)
| KOutside (i : I)
| KClose.

(** Steps of [Net] that are not the forwarder's business; a task is cancelled
    here before it calls the forwarder. *)
Definition net_only (ev : net_event) (h : HSt) : bool :=
  match ev with
  | NHandler (EvTaskBegin _ | EvTaskResume _ _ _ _ | EvCount _) => false
  | NHandler (EvTaskCancel t) => bool_decide (task_query t h = None)
  | _ => true
  end.

Definition run_stack (ev : stack_event) (k : Stack) : Stack :=
  match ev with
  | KNet ev => if net_only ev (stack_h k) then with_net (net_step ev (k_net k)) k else k
  | KTask t i i2 now now_evict =>
      match task_query t (stack_h k) with
      | Some _ => k
      | None =>
          let k := with_net (net_step (NHandler (EvTaskBegin t)) (k_net k)) k in
          match task_query t (stack_h k) with
          | None => k
          | Some (wire, rid) =>
              settle_kw t true wire i2 now now_evict (run_fwd (fw_call fcfg i wire (Some rid)) k)
          end
      end
  | KQuery j i i2 now now_evict =>
      match k_queries k !! j with
      | None => k
      | Some q =>
          let k := mkStack (k_net k) (k_fwd k) (delete j (k_queries k)) (k_threads k) in
          settle_kw (qu_task q) (qu_kw q) (qu_wire q) i2 now now_evict (run_fwd (fw_resume fcfg i (qu_susp q)) k)
      end
  | KThread j i =>
      match k_threads k !! j with
      | None => k
      | Some (wire, q) =>
          let k := mkStack (k_net k) (k_fwd k) (k_queries k) (delete j (k_threads k)) in
          let ko := run_fwd (fw_resume fcfg i q) k in
          match ko.2 with
          | FSuspended q => add_rest wire (Some q) ko.1
          | FReturned _ rest => add_rest wire rest ko.1
          end
      end
  | KOutside i => mkStack (k_net k) (fw_outside i (k_fwd k)) (k_queries k) (k_threads k)
  | KClose => mkStack (k_net k) (fw_close (k_fwd k)) (k_queries k) (k_threads k)
  end.

Definition run_stacks (evs : list stack_event) (k : Stack) : Stack :=
  foldl (λ k ev, run_stack ev k) k evs.
End stack.
