(* ===== verification/StackProps.v ===== *)
(** * Properties of the whole stack

    The stack refines [Net]: the forwarder's answers are among those [Net]
    allows, and its counters are [EvCount] events.  What a forwarder
    [guarantee]s of its answers (the TCP forwarder, say, that they come from
    its server and belong to the query) holds of every answer that handler,
    cache and clients ever see. *)
From S2P Require Import Prelude PyString OrderedDict Metrics Dns Framing Cache CacheProps SingleFlight Handler HandlerProps System SystemProps SystemOutcomes Servers ServerProps Net NetProps Asks Forward Stack.
From stdpp Require Import base list strings gmap sets.

(** ** What a forwarder guarantees *)

Section guarantee.
Context {C F Q I : Type} `{Forwarder C F Q I}.

(** The outcome of a step of the query [wire] when [l] are the others. *)
Definition promised (inv : F → list (bytes * Q) → Prop) (answer : bytes → bytes → Prop) (wire : bytes)
    (l : list (bytes * Q)) (r : F * fq Q) : Prop :=
  match r.2 with
  | FSuspended q => inv r.1 ((wire, q) :: l)
  | FReturned x rest =>
      inv r.1 (((λ q, (wire, q)) <$> option_list rest) ++ l) ∧ ∀ b, x = Ret (Some b) → answer wire b
  end.

(** [answer wire b]: [b] is a right answer to [wire].  [ga_permits] (of a step
    of one query among others) and [ga_late] say what may happen outside, [ga_inv f l] holds of the forwarder
    and the queries (and threads) [l] suspended in it. *)
Record guarantee (fcfg : C) (answer : bytes → bytes → Prop) := mkGuarantee {
  ga_inv : F → list (bytes * Q) → Prop;
  ga_permits : I → Q → F → list (bytes * Q) → Prop;
  ga_late : I → F → Prop;
  ga_perm f l l' : l ≡ₚ l' → ga_inv f l → ga_inv f l';
  ga_metrics m f l : ga_inv f l → ga_inv (with_metrics m f) l;
  ga_call_ok i wire rid f l : ga_inv f l → promised ga_inv answer wire l (fw_call fcfg i wire rid f);
  ga_resume_ok m i wire q f l :
    ga_inv f ((wire, q) :: l) → ga_permits i q f l →
    promised ga_inv answer wire l (fw_resume fcfg i q (with_metrics m f));
  ga_outside_ok i f l : ga_inv f l → ga_late i f → ga_inv (fw_outside i f) l;
  ga_close_ok f l : ga_inv f l → ga_inv (fw_close f) l;
}.
End guarantee.
Arguments ga_inv {C F Q I _ _ fcfg answer} _ _ _.
Arguments ga_permits {C F Q I _ _ fcfg answer} _ _ _ _ _.
Arguments ga_late {C F Q I _ _ fcfg answer} _ _ _.

Section stack_props.
Context `{DnslibLaws} {C F Q I : Type} `{ForwarderLaws C F Q I} `{!HasMetricsLaws F}.
Context (fcfg : C) (ucfg : UdpServerConfig) (tcfg : TcpServerConfig) (cc : CacheConfig) (hcfg : HandlerConfig).
Implicit Types (n : NetWorld) (k : @Stack _ F Q).
#[local] Abbreviation stack := (@Stack _ F Q).
#[local] Abbreviation net_step := (run_net ucfg tcfg cc hcfg).
#[local] Abbreviation nets := (run_nets ucfg tcfg cc hcfg).
#[local] Abbreviation step := (run_stack fcfg ucfg tcfg cc hcfg).

(** ** Counting in the shared registry *)

Lemma run_nets_app evs evs' n : nets (evs ++ evs') n = nets evs' (nets evs n).
Proof. unfold run_nets. by rewrite foldl_app. Qed.

Lemma count_step x n :
  x ∈ upstream_counters → net_step (NHandler (EvCount x)) n = with_registry (inc_opt x (h_metrics (net_h n))) n.
Proof. intros Hx. cbn [run_net own_event run_event]. by rewrite bool_decide_eq_true_2. Qed.

Lemma count_steps ks n :
  ks ⊆ upstream_counters →
  nets ((λ x, NHandler (EvCount x)) <$> ks) n = with_registry (count_keys ks (h_metrics (net_h n))) n.
Proof.
  revert n. induction ks as [|x ks IH]; intros n Hks.
  - destruct n as [[[]]]. done.
  - cbn [fmap list_fmap]. unfold run_nets in *. cbn [foldl]. rewrite count_step by set_solver.
    rewrite IH by set_solver. done.
Qed.

(** A step of the forwarder, as events of [Net]. *)
Lemma run_fwd_net (g : F → F * fq Q) k :
  (∀ f, counted (metrics_of f) (metrics_of (g f).1)) →
  ∃ evs, k_net (run_fwd g k).1 = nets evs (k_net k).
Proof.
  intros Hg. unfold run_fwd. cbn [fst k_net].
  destruct (Hg (with_metrics (h_metrics (stack_h k)) (k_fwd k))) as (ks & Hks & ->).
  exists ((λ x, NHandler (EvCount x)) <$> ks). rewrite count_steps by done.
  by rewrite metrics_of_with.
Qed.

(** ** Refinement *)

Definition reaches n n' : Prop := ∃ evs, n' = nets evs n.

Lemma reaches_refl n : reaches n n.
Proof. by exists []. Qed.
Lemma reaches_step n n' ev : reaches n n' → reaches n (net_step ev n').
Proof. intros [evs ->]. exists (evs ++ [ev]). unfold run_nets. by rewrite foldl_app. Qed.
Lemma reaches_trans n1 n2 n3 : reaches n1 n2 → reaches n2 n3 → reaches n1 n3.
Proof. intros [evs ->] [evs' ->]. exists (evs ++ evs'). by rewrite run_nets_app. Qed.

Lemma run_fwd_reaches n (g : F → F * fq Q) k :
  (∀ f, counted (metrics_of f) (metrics_of (g f).1)) → reaches n (k_net k) → reaches n (k_net (run_fwd g k).1).
Proof. intros Hg Hn. eapply reaches_trans; [exact Hn|]. by apply run_fwd_net. Qed.

Lemma settle_reaches n t kw wire now ne (ko : stack * fq Q) :
  reaches n (k_net ko.1) → reaches n (k_net (settle ucfg tcfg cc hcfg t kw wire now ne ko)).
Proof.
  intros Hn. unfold settle. destruct ko.2; [done|]. by apply (reaches_step n (k_net ko.1)).
Qed.

Lemma settle_kw_reaches n t kw wire i now ne (ko : stack * fq Q) :
  reaches n (k_net ko.1) → reaches n (k_net (settle_kw fcfg ucfg tcfg cc hcfg t kw wire i now ne ko)).
Proof.
  intros Hn. unfold settle_kw. destruct ko.2 as [q|[r|[]] rest], kw; try by apply settle_reaches.
  apply settle_reaches, run_fwd_reaches; [intros f; apply fw_call_counts|done].
Qed.

Lemma run_stack_reaches n ev k : reaches n (k_net k) → reaches n (k_net (step ev k)).
Proof.
  intros Hn. destruct ev as [ev|t i i2 now ne|j i i2 now ne|j i|i|]; cbn [run_stack].
  - destruct (net_only _ _); [by apply reaches_step|done].
  - destruct (task_query t _); [done|]. set (k1 := with_net _ k).
    assert (reaches n (k_net k1)) as Hk1 by (by apply reaches_step).
    destruct (task_query t (stack_h k1)) as [[wire rid]|]; [|done].
    apply settle_kw_reaches, run_fwd_reaches; [intros f; apply fw_call_counts|done].
  - destruct (k_queries k !! j) as [q|]; [|done].
    apply settle_kw_reaches, run_fwd_reaches; [intros f; apply fw_resume_counts|done].
  - destruct (k_threads k !! j) as [[wire q]|]; [|done]. cbn zeta.
    match goal with |- context [run_fwd ?g ?k1] =>
      pose proof (run_fwd_reaches n g k1 (λ f, fw_resume_counts fcfg i q f) Hn) as Hr end.
    by destruct (snd _).
  - done.
  - done.
Qed.

Lemma run_stacks_reaches n evs k :
  reaches n (k_net k) → reaches n (k_net (run_stacks fcfg ucfg tcfg cc hcfg evs k)).
Proof. revert k. induction evs as [|ev evs IH]; intros k Hn; [done|]. apply IH. by apply run_stack_reaches. Qed.

(** ** Tasks and their queries *)

Lemma task_query_grown t h0 h : grown h0 h → task_query t h = task_query t h0.
Proof.
  intros [_ Hg]. unfold task_query. destruct (Hg t) as [->|(-> & k & p & -> & _ & Hs)]; [done|].
  by destruct p.
Qed.
Lemma task_query_moved t t' h0 h : task_moved t' h0 h → t ≠ t' → task_query t h = task_query t h0.
Proof. intros [Hm _] Hne. unfold task_query. by rewrite Hm. Qed.
Lemma task_query_sf t h h' : h_sf h' = h_sf h → task_query t h' = task_query t h.
Proof. unfold task_query. by intros ->. Qed.

Lemma finish_no_query t m h : h_sf (m h).1 = h_sf h → task_query t (finish t m h) = None.
Proof.
  intros Hsf. unfold finish. destruct (m h) as [h' r]. cbn in Hsf. unfold finish_task, task_query. rewrite Hsf.
  destruct (loop_tasks (h_sf h) !! t) as [[k' [p'|r']]|] eqn:E; cbn.
  - by rewrite lookup_insert_eq.
  - by rewrite ?Hsf, E.
  - by rewrite ?Hsf, E.
Qed.

Lemma task_resume_no_query t up now ne h : task_query t (task_resume cc t up now ne h) = None.
Proof.
  unfold task_resume. destruct (loop_tasks (h_sf h) !! t) as [[k [[]|]]|] eqn:E;
    try (unfold task_query; by rewrite E); apply finish_no_query.
  - apply query_and_store_sf.
  - unfold try_finally. rewrite <- (query_and_store_sf cc up now ne wire request_id key h).
    by destruct (query_and_store _ _ _ _ _ _ _ h).
Qed.
Lemma task_cancel_no_query t h : task_query t (task_cancel t h) = None.
Proof.
  unfold task_cancel. destruct (loop_tasks (h_sf h) !! t) as [[k [[]|]]|] eqn:E;
    try (unfold task_query; by rewrite E); by apply finish_no_query.
Qed.

(** ** The invariant *)

Context (Hcc : cache_config_ok cc).
Context {answer : bytes → bytes → Prop} (g : guarantee fcfg answer).

(** Every answer that reached a task was a right answer to a query for its
    key. *)
Definition log_ok n : Prop := ∀ key b, (key, b) ∈ n_log n → ∃ wire, asks key wire ∧ answer wire b.

(** Of the tasks: they ask for their keys, and a task awaits the upstream
    exactly when [qs] holds its query. *)
Record tasks_ok (qs : list (nat * bytes)) n : Prop := {
  tk_net : net_ok ucfg tcfg cc hcfg n;
  tk_asks : tasks_ask (net_h n);
  tk_named : net_named n;
  tk_log : log_ok n;
  tk_nodup : NoDup qs.*1;
  tk_query : ∀ t wire, (t, wire) ∈ qs → ∃ rid, task_query t (net_h n) = Some (wire, rid);
  tk_awaits : ∀ t, is_Some (task_query t (net_h n)) → t ∈ qs.*1;
}.

Definition asked (qs : list (@query Q)) : list (nat * bytes) := (λ q, (qu_task q, qu_wire q)) <$> qs.

Definition suspended (qs : list (@query Q)) (threads : list (bytes * Q)) : list (bytes * Q) :=
  ((λ q, (qu_wire q, qu_susp q)) <$> qs) ++ threads.

Definition stack_ok k : Prop :=
  tasks_ok (asked (k_queries k)) (k_net k) ∧ ga_inv g (k_fwd k) (suspended (k_queries k) (k_threads k)).

(** What may happen outside at an event. *)
Definition permitted (ev : @stack_event _ I) k : Prop :=
  match ev with
  | KQuery j i _ _ _ => ∀ q, k_queries k !! j = Some q →
      ga_permits g i (qu_susp q) (k_fwd k) (suspended (delete j (k_queries k)) (k_threads k))
  | KThread j i => ∀ x, k_threads k !! j = Some x →
      ga_permits g i x.2 (k_fwd k) (suspended (k_queries k) (delete j (k_threads k)))
  | KOutside i => ga_late g i (k_fwd k)
  | _ => True
  end.

Lemma net_sf_ok n : net_ok ucfg tcfg cc hcfg n → sf_ok (h_sf (net_h n)).
Proof. intros Hn. apply (ho_sf _ _ _ _ _ (net_inv _ _ _ _ _ Hn)). Qed.

(** A step that leaves the tasks that are running. *)
Lemma net_event_log ev n :
  (∀ t up now ne, ev ≠ NHandler (EvTaskResume t up now ne)) → n_log (net_step ev n) = n_log n.
Proof.
  intros Hne. destruct ev as [data a|st|c|i nf ns|i now|i|i|t|c|c|ev| |]; cbn [run_net];
    try (by repeat case_match).
  destruct ev; try (by cbn; repeat case_match). by destruct (Hne t up now now_evict).
Qed.

Lemma tasks_ok_grown qs ev n :
  task_event ev = None → tasks_ok qs n → tasks_ok qs (net_step ev n).
Proof.
  intros Hev [Hn Ha Hna Hl Hnd Hq Haw].
  destruct (run_net_grown ucfg tcfg cc hcfg ev n (net_sf_ok n Hn) Hna Hev) as [Hg Hna'].
  pose proof (λ t, task_query_grown t _ _ Hg) as Et. split; [by apply run_net_ok|by eapply grown_asks|done| |done| |].
  - intros key b. rewrite net_event_log; [apply Hl|]. by intros t up now ne ->.
  - intros t' wire Hin. rewrite Et. by apply Hq.
  - intros t. rewrite Et. apply Haw.
Qed.

(** A step of task [t] that is in none of the queries. *)
Lemma tasks_ok_moved qs ev n t :
  task_event ev = Some t → (∀ t up now ne, ev ≠ NHandler (EvTaskResume t up now ne)) →
  task_query t (net_h n) = None → task_query t (net_h (net_step ev n)) = None →
  tasks_ok qs n → tasks_ok qs (net_step ev n).
Proof.
  intros Hev Hne Hno Hno' [Hn Ha Hna Hl Hnd Hq Haw].
  destruct (run_net_moved ucfg tcfg cc hcfg ev n t Ha Hev) as [Hm Hw].
  assert (∀ t', task_query t' (net_h (net_step ev n)) = task_query t' (net_h n)) as Et.
  { intros t'. destruct (decide (t' = t)) as [->|Hne']; [by rewrite Hno, Hno'|by eapply task_query_moved]. }
  split; [by apply run_net_ok|by eapply task_moved_asks|unfold net_named; by rewrite Hw| |done| |].
  - intros key b. rewrite net_event_log by done. apply Hl.
  - intros t' wire Hin. rewrite Et. by apply Hq.
  - intros t'. rewrite Et. apply Haw.
Qed.

(** The registry is none of the tasks' business. *)
Lemma tasks_ok_registry qs n ks :
  ks ⊆ upstream_counters → tasks_ok qs n → tasks_ok qs (with_registry (count_keys ks (h_metrics (net_h n))) n).
Proof.
  intros Hks. rewrite <- count_steps by done. revert n. induction ks as [|x ks IH]; intros n Hn; [done|].
  apply IH; [set_solver|]. by apply tasks_ok_grown.
Qed.

Lemma call_result_answer kw r wire rid b :
  upstream_result (call_result kw r) wire rid = Ret (Some b) → r = Ret (Some b).
Proof.
  unfold upstream_result, call_result. destruct kw; [|by destruct r as [|[]]].
  destruct r as [x|e]; [done|]. by destruct e.
Qed.

Lemma tasks_ok_perm qs qs' n : qs ≡ₚ qs' → tasks_ok qs n → tasks_ok qs' n.
Proof.
  intros Hp [Hn Ha Hna Hl Hnd Hq Haw]. split; [done..|by rewrite <- Hp| |].
  - intros t wire Hin. apply Hq. by rewrite Hp.
  - intros t Ht. rewrite <- Hp. by apply Haw.
Qed.

(** Task [t] has its answer. *)
Lemma tasks_ok_resume t wire qs n kw r now ne :
  (∀ b, r = Ret (Some b) → answer wire b) → tasks_ok ((t, wire) :: qs) n →
  tasks_ok qs (net_step (NHandler (EvTaskResume t (call_result kw r) now ne)) n).
Proof.
  intros Hr [Hn Ha Hna Hl Hnd Hq Haw]. set (ev := NHandler _).
  destruct (run_net_moved ucfg tcfg cc hcfg ev n t Ha eq_refl) as [Hm Hw].
  apply NoDup_cons in Hnd as [Hnew Hnd]. cbn in Hnew.
  split; [by apply run_net_ok|by eapply task_moved_asks|unfold net_named; by rewrite Hw| |done| |].
  - intros key b [Hin|Hin]%elem_of_app; [by apply Hl|]. unfold task_log in Hin.
    destruct (Hq t wire ltac:(by left)) as [rid Hrid]. unfold task_query in Hrid. cbn in Hin. fold (net_h n) in Hin.
    destruct (loop_tasks (h_sf (net_h n)) !! t) as [[k [[]|]]|] eqn:E; try discriminate Hrid; injection Hrid as -> ->;
      apply list_elem_of_fmap in Hin as (b' & [= -> ->] & Hin); unfold answers in Hin;
      destruct (upstream_result _ _ _) as [[b1|]|e] eqn:Eu; try (by apply elem_of_nil in Hin);
      apply list_elem_of_singleton in Hin as ->; exists wire; (split; [by apply (Ha t _ _ E)|]);
      by apply Hr; apply call_result_answer in Eu.
  - intros t' wire' Hin. rewrite (task_query_moved t' t _ _ Hm).
    + apply Hq. by right.
    + intros ->. apply Hnew. apply list_elem_of_fmap. by exists (t, wire').
  - intros t' Ht'. destruct (decide (t' = t)) as [->|Hne].
    + cbn in Ht'. unfold net_h, of_sys in Ht'. cbn in Ht'. rewrite task_resume_no_query in Ht'. by destruct Ht'.
    + rewrite (task_query_moved t' t _ _ Hm Hne) in Ht'. apply Haw in Ht'. cbn in Ht'. set_solver.
Qed.

(** Task [t] has begun, and calls the forwarder. *)
Lemma tasks_ok_begin t wire rid qs n :
  task_query t (net_h n) = None → task_query t (net_h (net_step (NHandler (EvTaskBegin t)) n)) = Some (wire, rid) →
  tasks_ok qs n → tasks_ok ((t, wire) :: qs) (net_step (NHandler (EvTaskBegin t)) n).
Proof.
  intros Hno Hyes [Hn Ha Hna Hl Hnd Hq Haw]. set (ev := NHandler _) in *.
  destruct (run_net_moved ucfg tcfg cc hcfg ev n t Ha eq_refl) as [Hm Hw].
  assert (∀ t', t' ∈ qs.*1 → t' ≠ t) as Hfresh.
  { intros t' ([t1 w1] & -> & Hin)%list_elem_of_fmap. cbn. intros ->. destruct (Hq _ _ Hin) as [rid' E]. congruence. }
  split; [by apply run_net_ok|by eapply task_moved_asks|unfold net_named; by rewrite Hw|exact Hl| | |].
  - apply NoDup_cons. split; [|done]. cbn. intros Hin. by apply (Hfresh t).
  - intros t' wire' [[= -> ->]|Hin]%elem_of_cons; [by exists rid|].
    rewrite (task_query_moved t' t _ _ Hm); [by apply Hq|]. apply Hfresh, list_elem_of_fmap. by exists (t', wire').
  - intros t' Ht'. cbn. destruct (decide (t' = t)) as [->|Hne]; [by left|]. right. apply Haw.
    by rewrite <- (task_query_moved t' t _ _ Hm Hne).
Qed.

(** ** Steps of the stack *)

(** The query of task [t] has taken a step in the forwarder. *)
Definition stepped (t : nat) (wire : bytes) (ko : stack * fq Q) : Prop :=
  tasks_ok ((t, wire) :: asked (k_queries ko.1)) (k_net ko.1)
  ∧ promised (ga_inv g) answer wire (suspended (k_queries ko.1) (k_threads ko.1)) (k_fwd ko.1, ko.2).

Lemma run_fwd_tasks qs (f : F → F * fq Q) k :
  (∀ x, counted (metrics_of x) (metrics_of (f x).1)) →
  tasks_ok qs (k_net k) → tasks_ok qs (k_net (run_fwd f k).1).
Proof.
  intros Hf Hk. unfold run_fwd. cbn [fst k_net].
  destruct (Hf (with_metrics (h_metrics (stack_h k)) (k_fwd k))) as (ks & Hks & ->).
  rewrite metrics_of_with. by apply tasks_ok_registry.
Qed.

(** The forwarder's state is stored without the registry. *)
Lemma promised_fwd wire l (r : F * fq Q) :
  promised (ga_inv g) answer wire l r → promised (ga_inv g) answer wire l (with_metrics None r.1, r.2).
Proof.
  unfold promised. cbn [fst snd]. destruct r.2; [apply ga_metrics|]. intros [Hi Ha]. split; [by apply ga_metrics|done].
Qed.

Lemma call_stepped t wire i rid k :
  tasks_ok ((t, wire) :: asked (k_queries k)) (k_net k) →
  ga_inv g (k_fwd k) (suspended (k_queries k) (k_threads k)) →
  stepped t wire (run_fwd (fw_call fcfg i wire rid) k).
Proof.
  intros Ht Hi. split; [apply (run_fwd_tasks ((t, wire) :: asked (k_queries k))); [intros x; apply fw_call_counts|done]|].
  apply promised_fwd. by apply ga_call_ok, ga_metrics.
Qed.

Lemma settle_ok t kw wire now ne ko :
  stepped t wire ko → stack_ok (settle ucfg tcfg cc hcfg t kw wire now ne ko).
Proof.
  intros [Ht Hp]. unfold settle. unfold promised in Hp. cbn [fst snd] in Hp. destruct ko.2 as [q|r rest].
  - split; [exact Ht|exact Hp].
  - destruct Hp as [Hi Ha]. split.
    + by apply (tasks_ok_resume t wire (asked (k_queries ko.1))).
    + eapply ga_perm; [|exact Hi]. unfold suspended. cbn.
      rewrite !app_assoc. by rewrite (Permutation_app_comm (_ <$> option_list rest)).
Qed.

Lemma settle_kw_ok t kw wire i now ne ko :
  stepped t wire ko → stack_ok (settle_kw fcfg ucfg tcfg cc hcfg t kw wire i now ne ko).
Proof.
  intros Hs. unfold settle_kw. destruct ko.2 as [q|[r|e] rest] eqn:Eo; try by apply settle_ok.
  destruct e; try (by apply settle_ok). destruct kw; [|by apply settle_ok]. apply settle_ok.
  destruct Hs as [Ht Hp]. unfold promised in Hp. rewrite Eo in Hp. cbn [fst snd] in Hp. destruct Hp as [Hi _].
  apply call_stepped; [exact Ht|]. eapply ga_perm; [|exact Hi]. unfold suspended. cbn.
  rewrite !app_assoc. by rewrite (Permutation_app_comm (_ <$> option_list rest)).
Qed.

(** The query at [j] goes on. *)
Lemma query_stepped j i q k :
  k_queries k !! j = Some q →
  ga_permits g i (qu_susp q) (k_fwd k) (suspended (delete j (k_queries k)) (k_threads k)) → stack_ok k →
  stepped (qu_task q) (qu_wire q)
    (run_fwd (fw_resume fcfg i (qu_susp q)) (mkStack (k_net k) (k_fwd k) (delete j (k_queries k)) (k_threads k))).
Proof.
  intros Eq Hp [Ht Hi]. apply delete_Permutation in Eq. split.
  - apply (run_fwd_tasks ((qu_task q, qu_wire q) :: asked (delete j (k_queries k)))); [intros x; apply fw_resume_counts|].
    eapply tasks_ok_perm; [|exact Ht]. unfold asked. by rewrite Eq at 1.
  - apply promised_fwd. apply ga_resume_ok; [|exact Hp].
    eapply ga_perm; [|exact Hi]. unfold suspended. cbn [k_queries k_threads]. by rewrite Eq at 1.
Qed.

Lemma query_step_ok j i i2 now ne k :
  permitted (KQuery j i i2 now ne) k → stack_ok k → stack_ok (step (KQuery j i i2 now ne) k).
Proof.
  intros Hp Hk. cbn [run_stack permitted] in *. destruct (k_queries k !! j) as [q|] eqn:Eq; [|done].
  apply settle_kw_ok, query_stepped; [done|by apply Hp|done].
Qed.

Lemma thread_step_ok j i k :
  permitted (KThread j i) k → stack_ok k → stack_ok (step (KThread j i) k).
Proof.
  intros Hp [Ht Hi]. cbn [run_stack permitted] in *. destruct (k_threads k !! j) as [[wire q]|] eqn:Eq; [|done].
  specialize (Hp _ eq_refl). apply delete_Permutation in Eq. cbn zeta.
  set (k1 := mkStack _ _ _ _). set (ko := run_fwd _ k1).
  assert (tasks_ok (asked (k_queries k)) (k_net ko.1)) as Ht'
    by (apply (run_fwd_tasks (asked (k_queries k))); [intros x; apply fw_resume_counts|done]).
  assert (promised (ga_inv g) answer wire (suspended (k_queries k) (delete j (k_threads k))) (k_fwd ko.1, ko.2)) as Hpr.
  { apply promised_fwd. apply ga_resume_ok; [|done]. eapply ga_perm; [|exact Hi]. unfold suspended.
    rewrite Eq at 1. by rewrite <- Permutation_middle. }
  unfold promised in Hpr. cbn [fst snd] in Hpr.
  destruct ko.2 as [q'|r rest]; (split; [exact Ht'|]).
  - eapply ga_perm; [|exact Hpr]. unfold suspended. cbn. by rewrite <- Permutation_middle.
  - destruct Hpr as [Hpr _]. eapply ga_perm; [|exact Hpr]. unfold suspended. cbn.
    rewrite !app_assoc. by rewrite (Permutation_app_comm (_ <$> option_list rest)).
Qed.

Lemma task_step_ok t i i2 now ne k : stack_ok k → stack_ok (step (KTask t i i2 now ne) k).
Proof.
  intros [Ht Hi]. cbn [run_stack]. destruct (task_query t (stack_h k)) as [x|] eqn:Eno; [done|].
  set (k1 := with_net _ k). destruct (task_query t (stack_h k1)) as [[wire rid]|] eqn:Eyes.
  - apply settle_kw_ok, call_stepped; [|exact Hi]. by eapply tasks_ok_begin.
  - split; [|exact Hi]. by apply (tasks_ok_moved _ (NHandler (EvTaskBegin t)) _ t).
Qed.

Lemma net_step_ok ev k : stack_ok k → stack_ok (step (KNet ev) k).
Proof.
  intros [Ht Hi]. cbn [run_stack]. destruct (net_only ev (stack_h k)) eqn:Eo; [|done]. split; [|exact Hi].
  destruct (task_event ev) as [t|] eqn:Et; [|by apply tasks_ok_grown].
  destruct ev as [| | | | | | | | | |ev| |]; try discriminate.
  destruct ev as [|t'|t' up now ne|t'| | | | | | | |]; try discriminate. injection Et as ->.
  cbn in Eo. apply bool_decide_eq_true in Eo.
  apply (tasks_ok_moved _ (NHandler (EvTaskCancel t)) _ t); [done..| |done]. apply task_cancel_no_query.
Qed.

Lemma run_stack_ok ev k : permitted ev k → stack_ok k → stack_ok (step ev k).
Proof.
  destruct ev as [ev|t i i2 now ne|j i i2 now ne|j i|i|]; intros Hp Hk.
  - by apply net_step_ok.
  - by apply task_step_ok.
  - by apply query_step_ok.
  - by apply thread_step_ok.
  - destruct Hk as [Ht Hi]. split; [done|]. by apply ga_outside_ok.
  - destruct Hk as [Ht Hi]. split; [done|]. by apply ga_close_ok.
Qed.

(** Along a run whose events are all permitted. *)
Fixpoint run_permitted (evs : list (@stack_event _ I)) k : Prop :=
  match evs with
  | [] => True
  | ev :: evs => permitted ev k ∧ run_permitted evs (step ev k)
  end.

Lemma run_stacks_ok evs k :
  run_permitted evs k → stack_ok k → stack_ok (run_stacks fcfg ucfg tcfg cc hcfg evs k).
Proof.
  revert k. induction evs as [|ev evs IH]; intros k; [done|]. intros [Hp Hps] Hk. apply IH; [done|]. by apply run_stack_ok.
Qed.

Lemma stack_new_ok m f :
  count_opt m "cache_entries" = 0%Z → ga_inv g f [] → stack_ok (stack_new m f).
Proof.
  intros Hm Hf. split; [|by apply ga_metrics]. split; cbn.
  - by apply net_new_ok.
  - intros t k p Ht. discriminate Ht.
  - constructor.
  - intros key b Hin. by apply elem_of_nil in Hin.
  - constructor.
  - intros t wire Hin. by apply elem_of_nil in Hin.
  - intros t [x Ht]. discriminate Ht.
Qed.
End stack_props.
