(* ===== verification/Guarantees.v ===== *)
(** * What each forwarder guarantees of its answers *)
From S2P Require Import Prelude Metrics Dns Framing Cache SingleFlight Handler HandlerProps System Upstream UpstreamProps UpstreamTheorems UpstreamMatch Base64 Relay Forward StackProps.
From stdpp Require Import base list strings gmap sets relations.

(** ** TCP: the answer of the server to this very query *)

Section tcp.
Context (cfg : UpstreamTcpConfig) (serv : nat → list bytes → bytes).
Hypothesis serv_fits : ∀ c qs, (len (serv c qs) < 65536)%Z.

Definition tcp_answer (wire b : bytes) : Prop := ∃ c qs, b = serv c (qs ++ [frame wire]).

Definition susp_wire (q : tcp_susp) : bytes := match q with TConnecting wire | TExchange wire _ => wire end.
Definition susp_conn (q : tcp_susp) : option nat := match q with TConnecting _ => None | TExchange _ c => Some c end.

(** The queries as [TcpSys] counts them. *)
Definition conns_of (l : list (bytes * tcp_susp)) : list nat := omap susp_conn l.*2.
Definition connecting_of (l : list (bytes * tcp_susp)) : nat := length l - length (conns_of l).

Definition tcp_world (f : TcpNet) (l : list (bytes * tcp_susp)) : MSys :=
  mkMSys (mkTcpSys (tn_fwd f) (connecting_of l) (conns_of l)) (tn_arrived f) [].

Definition tcp_inv (f : TcpNet) (l : list (bytes * tcp_susp)) : Prop :=
  Forall (λ x, susp_wire x.2 = x.1) l ∧ match_ok cfg serv (tcp_world f l).

(** A connection that is opened is a new one; what arrives on a connection are
    the server's answers in order; reads and writes that fail raise an
    [Exception]. *)
Definition tcp_permits (i : tcp_input) (q : tcp_susp) (f : TcpNet) (l : list (bytes * tcp_susp)) : Prop :=
  match q with
  | TConnecting _ => ∀ c, ti_conn i = Ret c →
      (c ∉ owned (m_sys (tcp_world f l))) ∧ (c ∉ tf_closed_conns (tn_fwd f))
  | TExchange wire c =>
      is_Exception (ti_end i) = true ∧ (∀ e, ti_drain i = Raise e → is_Exception e = true)
      ∧ arrives serv (tcp_world f l) c (on c (tf_written (tn_fwd f)) ++ [frame wire]) (ti_more i)
  end.
Definition tcp_late (i : tcp_input) (f : TcpNet) : Prop :=
  ∀ c, ti_conn i = Ret c → arrives serv (tcp_world f []) c (on c (tf_written (tn_fwd f))) (ti_more i).

Lemma conns_le l : length (conns_of l) ≤ length l.
Proof. unfold conns_of. induction l as [|[w [wire|wire c]] l IH]; cbn in *; lia. Qed.
Lemma connecting_cons w wire l : connecting_of ((w, TConnecting wire) :: l) = S (connecting_of l).
Proof. unfold connecting_of. pose proof (conns_le l). unfold conns_of in *. cbn in *. lia. Qed.
Lemma exchange_cons w wire c l : connecting_of ((w, TExchange wire c) :: l) = connecting_of l.
Proof. reflexivity. Qed.

Lemma match_ok_perm s n u u' arr : u ≡ₚ u' →
  match_ok cfg serv (mkMSys (mkTcpSys s n u) arr []) → match_ok cfg serv (mkMSys (mkTcpSys s n u') arr []).
Proof.
  intros Hp [[Hnd Hopen Hpool Hcl Hcount Hlim] Hse Hun He].
  assert (∀ c, c ∈ owned (mkTcpSys s n u') ↔ c ∈ owned (mkTcpSys s n u)) as Ho.
  { intros c. unfold owned. cbn. by rewrite Hp. }
  split; [split; try done|..].
  - unfold owned in *. cbn in *. by rewrite <- Hp.
  - intros c Hc. by apply Hopen, Ho.
  - cbn in *. by rewrite <- (Permutation_length Hp).
  - intros c Hc. apply (Hse c), Ho, Hc.
  - intros c Hc. apply (Hun c). by rewrite <- Ho.
  - done.
Qed.

Lemma match_ok_metrics m s n u arr :
  match_ok cfg serv (mkMSys (mkTcpSys s n u) arr []) →
  match_ok cfg serv (mkMSys (mkTcpSys (with_metrics m s) n u) arr []).
Proof. intros [[] Hse Hun He]. by split; [split|..]. Qed.

Lemma match_ok_forget s arr ended :
  match_ok cfg serv (mkMSys s arr ended) → match_ok cfg serv (mkMSys s arr []).
Proof. intros [Ht Hse Hun He]. split; [done..|]. cbn. set_solver. Qed.

Lemma tcp_local s s' arr :
  local_step cfg s s' → match_ok cfg serv (mkMSys s arr []) → match_ok cfg serv (mkMSys s' arr []).
Proof. intros Hl Hok. by apply (match_step_ok cfg serv serv_fits (mkMSys s arr [])); [apply mstep_local|]. Qed.

Lemma tcp_inv_perm f l l' : l ≡ₚ l' → tcp_inv f l → tcp_inv f l'.
Proof.
  intros Hp [Hw Hm]. split; [by rewrite <- Hp|]. unfold tcp_world, connecting_of in *.
  assert (conns_of l ≡ₚ conns_of l') as Hc by (unfold conns_of; by rewrite Hp).
  rewrite <- (Permutation_length Hp), <- (Permutation_length Hc). by eapply match_ok_perm.
Qed.

Lemma tcp_call_ok i wire rid f l :
  tcp_inv f l → promised tcp_inv tcp_answer wire l (fw_call cfg i wire rid f).
Proof.
  destruct f as [f arr]. intros [Hw Hm]. cbn [fw_call tcp_forwarder tn_fwd tn_arrived]. unfold tcp_call.
  destruct rid as [rid|]; [by split; [split|]|].
  destruct (tcp_query_begin cfg (ti_usable i) (ti_now i) f) as [f' r] eqn:Eb.
  destruct r as [r|e].
  - pose proof (tcp_local _ _ arr (lstep_begin cfg (mkTcpSys f (connecting_of l) (conns_of l)) _ _ _ r Eb) Hm) as Hm'.
    destruct r; unfold promised; cbn [fst snd].
    + by split; [split|].
    + split; [by constructor|]. unfold tcp_world. rewrite connecting_cons. exact Hm'.
    + split; [by constructor|]. exact Hm'.
  - exfalso. revert Eb. unfold tcp_query_begin, mbind, M_bind, get_state. destruct (tf_closed f); [done|].
    destruct (_ && _); [done|]. destruct (0 <? ut_max_inflight cfg)%Z; cbn [when]; unfold modify, mret, M_ret;
      rewrite minc_run;
      match goal with |- context [_acquire_from_pool _ ?u ?n ?s1] =>
        destruct (acquire_run cfg u n s1) as (p & dropped & r' & m & -> & _) end; by destruct r'.
Qed.

Lemma tcp_connect_ok i wire f arr l :
  Forall (λ x, susp_wire x.2 = x.1) l →
  match_ok cfg serv (mkMSys (mkTcpSys f (S (connecting_of l)) (conns_of l)) arr []) →
  (∀ c, ti_conn i = Ret c → (c ∉ owned (mkTcpSys f 0 (conns_of l))) ∧ (c ∉ tf_closed_conns f)) →
  promised tcp_inv tcp_answer wire l (fw_resume cfg i (TConnecting wire) (mkTcpNet f arr)).
Proof.
  intros Hw Hm Hp. cbn [fw_resume tcp_forwarder tn_fwd tn_arrived tcp_resume arrived]. rewrite app_nil_r.
  destruct (ti_conn i) as [c|e].
  - destruct (Hp c eq_refl) as [Hfr Hcl]. cbn. split; [by constructor|].
    by apply (connected_ok cfg serv _ (connecting_of l) c (ti_end i)) in Hm.
  - pose proof (tcp_local _ _ arr (lstep_connect_fails cfg (mkTcpSys f (S (connecting_of l)) (conns_of l)) _ e eq_refl) Hm)
      as Hm'. cbn [ts] in Hm'.
    assert ((tcp_query_connect cfg (Raise e) f).2 = Ret None ∨ (tcp_query_connect cfg (Raise e) f).2 = Raise e) as Hr.
    { unfold tcp_query_connect, mbind, M_bind. destruct e; cbn [is_Exception]; rewrite ?minc_run;
        match goal with |- context [tcp_query_finally cfg ?b ?s2] =>
          destruct (query_finally_run cfg b s2) as [m' ->] end; auto. }
    destruct (tcp_query_connect cfg (Raise e) f) as [f2 r2]. cbn in Hm', Hr.
    destruct Hr as [-> | ->]; unfold promised; cbn; by split; [split|].
Qed.

Lemma tcp_exchange_ok i wire c f arr l :
  let w := mkMSys (mkTcpSys f (connecting_of l) (c :: conns_of l)) arr [] in
  Forall (λ x, susp_wire x.2 = x.1) l → match_ok cfg serv w →
  is_Exception (ti_end i) = true → (∀ e, ti_drain i = Raise e → is_Exception e = true) →
  arrives serv w c (on c (tf_written f) ++ [frame wire]) (ti_more i) →
  promised tcp_inv tcp_answer wire l (fw_resume cfg i (TExchange wire c) (mkTcpNet f arr)).
Proof.
  intros w Hw Hm He Hd Harr.
  pose proof (end_ok cfg serv serv_fits w 0 c (ti_usable i) (ti_now i) wire (ti_drain i) (ti_more i) (ti_end i)
    Hm eq_refl He Hd Harr) as Hok.
  pose proof (end_cases cfg serv serv_fits w 0 c (ti_usable i) (ti_now i) wire (ti_drain i) (ti_more i) (ti_end i)
    Hm eq_refl He Hd Harr) as [_ Hcase].
  apply match_ok_forget in Hok. unfold promised.
  cbn [fw_resume tcp_forwarder tn_fwd tn_arrived tcp_resume arrived finish_query fst snd returned option_list fmap list_fmap app].
  split; [split; [done|exact Hok]|]. intros b Hb. unfold end_run in Hcase. cbn [m_sys w ts] in Hcase.
  destruct Hcase as [(Hr & _)|(Hr & _)]; rewrite Hr in Hb; [done|]. injection Hb as <-. eexists _, _. reflexivity.
Qed.

Lemma tcp_resume_ok m i wire q f l :
  tcp_inv f ((wire, q) :: l) → tcp_permits i q f l →
  promised tcp_inv tcp_answer wire l (fw_resume cfg i q (with_metrics m f)).
Proof.
  destruct f as [f arr]. intros [Hw Hm] Hp. apply Forall_cons in Hw as [Hq Hw]. cbn in Hq.
  apply (match_ok_metrics m) in Hm. destruct q as [wire'|wire' c]; cbn in Hq; subst wire'.
  - unfold tcp_world in Hm. rewrite connecting_cons in Hm. by apply tcp_connect_ok.
  - destruct Hp as (He & Hd & Harr). by apply tcp_exchange_ok.
Qed.

Lemma tcp_outside_ok i f l : tcp_inv f l → tcp_late i f → tcp_inv (fw_outside i f) l.
Proof.
  destruct f as [f arr]. intros [Hw Hm] Hl. split; [done|]. unfold tcp_late in Hl.
  cbn [fw_outside tcp_forwarder]. unfold tcp_outside. destruct (ti_conn i) as [c|e]; [|done].
  by apply (late_ok cfg serv (tcp_world (mkTcpNet f arr) l) c (ti_more i) (ti_end i) (Hl c eq_refl)) in Hm.
Qed.
Lemma tcp_close_ok f l : tcp_inv f l → tcp_inv (fw_close f) l.
Proof.
  destruct f as [f arr]. intros [Hw Hm]. split; [done|].
  exact (tcp_local _ _ arr (lstep_close cfg (mkTcpSys f (connecting_of l) (conns_of l))) Hm).
Qed.
Lemma tcp_metrics_ok m f l : tcp_inv f l → tcp_inv (with_metrics m f) l.
Proof. destruct f as [f arr]. intros [Hw Hm]. split; [done|]. by apply (match_ok_metrics m) in Hm. Qed.

Definition tcp_guarantee : guarantee (F := TcpNet) cfg tcp_answer := {|
  ga_inv := tcp_inv; ga_permits := tcp_permits; ga_late := tcp_late;
  ga_perm := tcp_inv_perm; ga_metrics := tcp_metrics_ok; ga_call_ok := tcp_call_ok;
  ga_resume_ok := tcp_resume_ok; ga_outside_ok := tcp_outside_ok; ga_close_ok := tcp_close_ok |}.

Lemma tcp_inv_new m : tcp_inv (mkTcpNet (tcp_fwd_new m) []) [].
Proof. split; [constructor|]. exact (match_init_ok cfg serv m). Qed.
End tcp.

(** ** UDP: what the socket received *)

Section udp.
Context (cfg : UpstreamUdpConfig) (delivers : bytes → bytes → Prop).

(** The network delivers only such datagrams to the socket that sent
    [wire]. *)
Definition udp_permits (i : udp_input) (q : udp_susp) (f : UdpFwd) (l : list (bytes * udp_susp)) : Prop :=
  match i with
  | UDone sock => ∀ wire b, so_exchange sock wire = Ret b → delivers wire b
  | UCancel _ => True
  end.
Definition udp_susp_wire (q : udp_susp) : bytes := match q with UAwait wire | UThread wire => wire end.
Definition udp_inv (f : UdpFwd) (l : list (bytes * udp_susp)) : Prop := Forall (λ x, udp_susp_wire x.2 = x.1) l.

Lemma udp_outcome_answer sock wire b : udp_outcome sock wire = Ret (Some b) → so_exchange sock wire = Ret b.
Proof.
  unfold udp_outcome. destruct (so_create sock), (so_settimeout sock), (so_exchange sock wire); try done.
  - by intros [= ->].
  - by destruct (is_Exception e).
Qed.

Lemma udp_resume_ok m i wire q f l :
  udp_inv f ((wire, q) :: l) → udp_permits i q f l →
  promised udp_inv delivers wire l (fw_resume cfg i q (with_metrics m f)).
Proof.
  intros Hi Hp. apply Forall_cons in Hi as [Hq Hl]. cbn in Hq.
  cbn [fw_resume udp_forwarder]. set (f1 := with_metrics m f). unfold promised.
  destruct i as [sock|st], q as [wire'|wire']; cbn in Hq; subst wire'; cbn [udp_resume finish_query].
  - unfold try_finally_do. rewrite query_blocking_run.
    assert (∀ s, udp_query_end cfg s = ((udp_query_end cfg s).1, Ret ())) as He.
    { intros s. unfold udp_query_end. by destruct (0 <? _)%Z. }
    rewrite He. cbn [fst snd returned]. split; [done|]. intros b Hb. apply Hp. by apply udp_outcome_answer.
  - rewrite query_blocking_run. cbn [fst snd returned]. split; [done|]. intros b Hb. apply Hp. by apply udp_outcome_answer.
  - cbn [snd]. split; [|done]. by destruct st; cbn; [constructor|].
  - by constructor.
Qed.

Lemma udp_call_ok i wire rid f l : udp_inv f l → promised udp_inv delivers wire l (fw_call cfg i wire rid f).
Proof.
  intros Hl. cbn [fw_call udp_forwarder]. unfold udp_call, promised. destruct rid; [by split|].
  destruct (udp_query_begin cfg f) as [f' [[]|e]]; cbn; [by constructor|by split..].
Qed.

Lemma udp_inv_perm (f : UdpFwd) (l l' : list (bytes * udp_susp)) : l ≡ₚ l' → udp_inv f l → udp_inv f l'.
Proof. unfold udp_inv. by intros ->. Qed.

Definition udp_guarantee : guarantee (F := UdpFwd) cfg delivers.
Proof.
  refine {| ga_inv := udp_inv; ga_permits := udp_permits; ga_late _ _ := True; ga_perm := udp_inv_perm;
            ga_call_ok := udp_call_ok; ga_resume_ok := udp_resume_ok |}; done.
Defined.
End udp.

(** ** Relay: the payload of the relay's response *)

Section relay.
Context (cfg : RelayConfig) (replies : string → bytes → Prop) (dec : decoder).

(** [b] is the payload of item 0 of a response of version 1 with which the
    relay replied to the request of this query. *)
Definition relay_answers (wire b : bytes) : Prop :=
  ∃ rid raw d r item a, replies (relay_body rid wire) raw ∧ dec raw = DecOk (JObj d) ∧ from_dict (JObj d) = Ret r
    ∧ rs_v r = 1%Z ∧ find_item "0" (rs_items r) = Some item ∧ it_ok item = true
    ∧ a_b64 item = Some a ∧ b64decode a = Ret b.

Definition relay_permits (i : relay_input) (q : relay_susp) (f : RelayFwd) (l : list (bytes * relay_susp)) : Prop :=
  ri_dec i = dec ∧ ∀ body raw, ri_post i (dns_url cfg) body (relay_headers cfg) = Ret (200%Z, Ret raw) → replies body raw.
Definition relay_inv (f : RelayFwd) (l : list (bytes * relay_susp)) : Prop :=
  Forall (λ x, ∃ rid, x.2 = RPost (relay_body rid x.1)) l.

(** A body is that of a response with status 200. *)
Lemma relay_fetch_body post body f f' raw :
  relay_fetch cfg post body f = (f', Ret (Some raw)) → post (dns_url cfg) body (relay_headers cfg) = Ret (200%Z, Ret raw).
Proof.
  unfold relay_fetch, try_except, mbind, M_bind, lift_res.
  destruct (post _ _ _) as [[status [r|e]]|e].
  - destruct (status =? 200)%Z eqn:Es; [intros [= <- ->]; zbool; by subst|].
    unfold mret, M_ret. intros Hf. repeat (case_match; simplify_eq; try done).
  - destruct (status =? 200)%Z eqn:Es; unfold mret, M_ret, raise; intros Hf; repeat (case_match; simplify_eq; try done).
  - unfold mret, M_ret, raise. intros Hf. repeat (case_match; simplify_eq; try done).
Qed.

Lemma relay_answer_payload raw f f' b :
  relay_answer cfg dec raw f = (f', Ret (Some b)) →
  ∃ d r item a, dec raw = DecOk (JObj d) ∧ from_dict (JObj d) = Ret r ∧ rs_v r = 1%Z
    ∧ find_item "0" (rs_items r) = Some item ∧ it_ok item = true ∧ a_b64 item = Some a ∧ b64decode a = Ret b.
Proof.
  unfold relay_answer, _parse_json, _parse_response, try_except, mbind, M_bind, lift_res, mret, M_ret, raise.
  intros Ha. repeat (case_match; simplify_eq; try done).
  all: match goal with H : negb _ = false |- _ => apply negb_false_iff, Z.eqb_eq in H end.
  all: naive_solver.
Qed.

Lemma relay_resume_ok m i wire q f l :
  relay_inv f ((wire, q) :: l) → relay_permits i q f l →
  promised relay_inv relay_answers wire l (fw_resume cfg i q (with_metrics m f)).
Proof.
  intros Hi [Hdec Hp]. apply Forall_cons in Hi as [[rid Hq] Hl]. cbn in Hq. subst q.
  unfold promised. cbn. split; [exact Hl|]. intros b. unfold relay_query_end, mbind, M_bind.
  destruct (relay_fetch cfg (ri_post i) (relay_body rid wire) _) as [f1 [[raw|]|e]] eqn:Ef; [|done..].
  rewrite Hdec. destruct (relay_answer cfg dec raw f1) as [f2 r] eqn:Ea. cbn. intros ->.
  apply relay_answer_payload in Ea as (d & r & item & a & Ha). exists rid, raw, d, r, item, a.
  split; [|exact Ha]. eapply Hp, relay_fetch_body, Ef.
Qed.

Lemma relay_call_ok i wire rid f l : relay_inv f l → promised relay_inv relay_answers wire l (fw_call cfg i wire rid f).
Proof.
  intros Hl. cbn [fw_call relay_forwarder]. unfold relay_call, promised. destruct rid as [rid|]; [|by split].
  destruct (relay_query_begin cfg wire rid f) as [f' [[body|]|e]] eqn:Eb; cbn; [|by split..].
  constructor; [|done]. exists rid. cbn. f_equal. revert Eb.
  unfold relay_query_begin, mbind, M_bind, get_state, mret, M_ret. intros Eb.
  repeat (case_match; simplify_eq; try done).
Qed.

Lemma relay_inv_perm (f : RelayFwd) (l l' : list (bytes * relay_susp)) : l ≡ₚ l' → relay_inv f l → relay_inv f l'.
Proof. unfold relay_inv. by intros ->. Qed.

Definition relay_guarantee : guarantee (F := RelayFwd) cfg relay_answers.
Proof.
  refine {| ga_inv := relay_inv; ga_permits := relay_permits; ga_late _ _ := True; ga_perm := relay_inv_perm;
            ga_call_ok := relay_call_ok; ga_resume_ok := relay_resume_ok |}; done.
Defined.
End relay.
