(* ===== verification/StackTheorems.v ===== *)
(** * The whole stack: what clients get from the upstream *)
From S2P Require Import Prelude PyString OrderedDict Metrics Dns Framing Cache CacheProps SingleFlight Handler HandlerProps HandlerTheorems System SystemProps SystemLemmas SystemTheorems Servers ServerProps ServerTheorems Net NetProps NetTheorems Upstream UpstreamProps UpstreamTheorems UpstreamMatch Base64 Relay RelayTheorems Asks Forward Stack StackProps Guarantees.
From stdpp Require Import base list strings gmap sets.
From Stdlib.Strings Require Import Byte.

(** ** A run with the TCP forwarder *)

Module stack_example.
Import handler_example server_example.
(** The server gives the one answer. *)
Definition response : bytes := match up [] None with Ret (Some b) => b | _ => [] end.
Definition serv (c : nat) (qs : list bytes) : bytes := response.
Definition fcfg : UpstreamTcpConfig := upstream_example.cfg.
Definition input (conn : res nat) (more : bytes) : tcp_input :=
  mkTcpInput (λ _, true) 0 conn (Ret ()) more TimeoutError.
Definition idle : tcp_input := input (Raise TimeoutError) [].
(** A datagram is received; the task connects and asks; the answer arrives in
    one piece, the request is answered. *)
Definition evs : list stack_event :=
  [ KNet (NDatagram data a); KNet (NBegin 0 1 2); KTask 0 idle idle 3 4;
    KQuery 0 (input (Ret 7) []) idle 5 6; KQuery 0 (input (Raise TimeoutError) (frame response)) idle 7 8;
    KNet (NResume 0 9) ].
Definition k0 : @Stack _ TcpNet tcp_susp := stack_new (Some metrics_new) (mkTcpNet (tcp_fwd_new None) []).
Definition run (evs : list stack_event) : @Stack _ TcpNet tcp_susp :=
  run_stacks fcfg net_example.big tcfg cc cfg evs k0.
End stack_example.

Lemma stack_example_ends :
  length (replies (Udp server_example.a) (n_srv (k_net (stack_example.run stack_example.evs)))) = 1
  ∧ k_queries (stack_example.run stack_example.evs) = []
  ∧ pool_ids (_pool (tn_fwd (k_fwd (stack_example.run stack_example.evs)))) = [7].
Proof. vm_compute. done. Qed.

(** ** Refinement *)

(** The stack refines the servers and the handler with arbitrary upstream
    answers: whatever forwarder obeys the laws of the interface, and however
    its queries, connections, threads and failures interleave with everything
    else, servers, handler, cache and registry go through states that they
    reach with some upstream answers; so every property of all runs of [Net]
    holds of the stack. *)
Lemma stack_refines_net `{DnslibLaws} {C F Q I : Type} `{ForwarderLaws C F Q I} `{!HasMetricsLaws F}
    (fcfg : C) (ucfg : UdpServerConfig) (tcfg : TcpServerConfig) (cc : CacheConfig) (hcfg : HandlerConfig)
    (evs : list (@stack_event _ I)) (m : option Metrics) (f : F) :
  ∃ nevs, k_net (run_stacks fcfg ucfg tcfg cc hcfg evs (stack_new m f)) = run_nets ucfg tcfg cc hcfg nevs (net_new m).
Proof. apply run_stacks_reaches, reaches_refl. Qed.

(** ** What clients get *)

Section answers.
Context `{DnslibLaws} {C F Q I : Type} `{ForwarderLaws C F Q I} `{!HasMetricsLaws F}.
Context (fcfg : C) (ucfg : UdpServerConfig) (tcfg : TcpServerConfig) (cc : CacheConfig) (hcfg : HandlerConfig).
Context {answer : bytes → bytes → Prop} (g : guarantee (F := F) (Q := Q) (I := I) fcfg answer).

(** The replies to [c] answer distinct requests of [c] from [log]. *)
Definition clients_served (n : NetWorld) : Prop :=
  ∀ c, ∃ reqs, reqs ⊆+ requests_of c (n_recv n)
         ∧ Forall2 (reply_ok ucfg tcfg c (n_log n)) reqs (replies c (n_srv n)).

Lemma stack_answers evs m f :
  cache_config_ok cc → count_opt m "cache_entries" = 0%Z → ga_inv g f [] →
  run_permitted fcfg ucfg tcfg cc hcfg g evs (stack_new m f) →
  let n := k_net (run_stacks fcfg ucfg tcfg cc hcfg evs (stack_new m f)) in
  clients_served n ∧ ∀ key b, (key, b) ∈ n_log n → ∃ wire, asks key wire ∧ answer wire b.
Proof.
  intros Hcc Hm Hf Hp n.
  pose proof (run_stacks_ok fcfg ucfg tcfg cc hcfg Hcc g evs _ Hp (stack_new_ok fcfg ucfg tcfg cc hcfg Hcc g m f Hm Hf))
    as [[Hn _ _ Hl _ _ _] _]. fold n in Hn, Hl. split; [|exact Hl].
  intros c. destruct (no_tally _ _ _ _ _ Hn c) as (reqs & Hs & Hr). exists reqs. split; [|done].
  etrans; [|exact Hs]. by apply submseteq_inserts_r.
Qed.
End answers.

(** C1: End to end over the TCP forwarder: whatever the servers' clients do and
    however queries share the forwarder's pooled connections, with an upstream
    server whose bytes arrive in any pieces, late or not at all, and
    connections that fail at any point: the replies to a client answer distinct
    requests of that client, from upstream answers of which each is the
    server's answer, on some connection, to a query for the very key it is
    cached and delivered under.  [run_permitted] leaves out runs in which a
    query is cancelled while it uses a connection
    ([cancelled_query_poisons_pool] shows why). *)
Theorem tcp_end_to_end `{DnslibLaws} (fcfg : UpstreamTcpConfig) (serv : nat → list bytes → bytes)
    (ucfg : UdpServerConfig) (tcfg : TcpServerConfig) (cc : CacheConfig) (hcfg : HandlerConfig)
    (evs : list stack_event) (m : option Metrics) (Hfit : ∀ c qs, (len (serv c qs) < 65536)%Z) :
  cache_config_ok cc → count_opt m "cache_entries" = 0%Z →
  let k0 := stack_new m (mkTcpNet (tcp_fwd_new None) []) in
  run_permitted fcfg ucfg tcfg cc hcfg (tcp_guarantee fcfg serv Hfit) evs k0 →
  let n := k_net (run_stacks fcfg ucfg tcfg cc hcfg evs k0) in
  clients_served ucfg tcfg n
  ∧ ∀ key b, (key, b) ∈ n_log n → ∃ wire conn qs, asks key wire ∧ b = serv conn (qs ++ [frame wire]).
Proof.
  intros Hcc Hm k0 Hp n.
  destruct (stack_answers fcfg ucfg tcfg cc hcfg (tcp_guarantee fcfg serv Hfit) evs m _ Hcc Hm
    (tcp_inv_new fcfg serv None) Hp) as [Hc Hl].
  split; [exact Hc|]. intros key b Hb. destruct (Hl key b Hb) as (wire & Ha & conn & qs & Hs). eauto.
Qed.

Lemma stack_example_permitted Hfit :
  run_permitted stack_example.fcfg net_example.big server_example.tcfg handler_example.cc handler_example.cfg
    (tcp_guarantee stack_example.fcfg stack_example.serv Hfit) stack_example.evs stack_example.k0.
Proof.
  split; [exact I|]. split; [exact I|]. split; [exact I|]. split.
  { intros q Hq. vm_compute in Hq. injection Hq as <-. intros c Hc. injection Hc as <-.
    split; refine (bool_decide_unpack _ _); vm_compute; exact I. }
  split; [|split; exact I].
  intros q Hq. vm_compute in Hq. injection Hq as <-. split; [reflexivity|]. split; [intros e He; discriminate He|].
  exists []. vm_compute. reflexivity.
Qed.

Lemma tcp_end_to_end_witness :
  length (n_log (k_net (stack_example.run stack_example.evs))) = 1
  ∧ clients_served net_example.big server_example.tcfg (k_net (stack_example.run stack_example.evs)).
Proof.
  split; [vm_compute; reflexivity|].
  assert (∀ c qs, (len (stack_example.serv c qs) < 65536)%Z) as Hfit by (intros c qs; vm_compute; reflexivity).
  exact (proj1 (tcp_end_to_end stack_example.fcfg stack_example.serv net_example.big server_example.tcfg
    handler_example.cc handler_example.cfg stack_example.evs (Some metrics_new) Hfit system_example.cc_ok eq_refl
    (stack_example_permitted Hfit))).
Defined.

(** C8: End to end over the relay: whatever the interleaving, the replies to a
    client answer distinct requests of that client, from upstream answers each
    of which is the payload of item 0 in a response of the relay to a request
    that carried a query for that very key. *)
Theorem relay_end_to_end `{DnslibLaws} (fcfg : RelayConfig) (replied : string → bytes → Prop) (dec : decoder)
    (ucfg : UdpServerConfig) (tcfg : TcpServerConfig) (cc : CacheConfig) (hcfg : HandlerConfig)
    (evs : list stack_event) (m : option Metrics) :
  cache_config_ok cc → count_opt m "cache_entries" = 0%Z →
  let k0 := stack_new m (mkRelayFwd None false) in
  run_permitted fcfg ucfg tcfg cc hcfg (relay_guarantee fcfg replied dec) evs k0 →
  let n := k_net (run_stacks fcfg ucfg tcfg cc hcfg evs k0) in
  clients_served ucfg tcfg n
  ∧ ∀ key b, (key, b) ∈ n_log n → ∃ wire, asks key wire ∧ relay_answers replied dec wire b.
Proof.
  intros Hcc Hm k0 Hp n.
  exact (stack_answers fcfg ucfg tcfg cc hcfg (relay_guarantee fcfg replied dec) evs m _ Hcc Hm (List.Forall_nil _) Hp).
Qed.

(** A datagram is received; the task posts its query; the relay's response
    arrives. *)
Module relay_stack_example.
Import handler_example server_example.
Definition resp : RelayDnsResponse :=
  mkRelayResponse 1 "4660" [mkItemResponse "0" true (Some (b64encode stack_example.response)) None].
Definition raw : bytes := [Byte.x7b; Byte.x7d].
Definition post : http_post := λ _ _ _, Ret (200%Z, Ret raw).
Definition dec : decoder := λ _, DecOk (response_json resp).
Definition replied (body : string) (b : bytes) : Prop := b = raw.
Definition input : relay_input := mkRelayInput post dec.
Definition evs : list stack_event :=
  [ KNet (NDatagram data a); KNet (NBegin 0 1 2); KTask 0 input input 3 4; KQuery 0 input input 5 6;
    KNet (NResume 0 9) ].
Definition fcfg : RelayConfig := mkRelayConfig "https://relay.example" 1 None "off" (mkRelayLimits 32 65536 65536 262144).
Definition k0 : @Stack _ RelayFwd relay_susp := stack_new (Some metrics_new) (mkRelayFwd None false).
Definition k_end : @Stack _ RelayFwd relay_susp := run_stacks fcfg net_example.big tcfg cc cfg evs k0.
End relay_stack_example.

Lemma relay_end_to_end_witness :
  length (n_log (k_net relay_stack_example.k_end)) = 1
  ∧ clients_served net_example.big server_example.tcfg (k_net relay_stack_example.k_end).
Proof.
  split; [vm_compute; reflexivity|].
  refine (proj1 (relay_end_to_end relay_stack_example.fcfg relay_stack_example.replied relay_stack_example.dec
    net_example.big server_example.tcfg handler_example.cc handler_example.cfg relay_stack_example.evs
    (Some metrics_new) system_example.cc_ok eq_refl _)).
  do 3 (split; [exact I|]). split; [|split; exact I].
  intros q _. split; [reflexivity|]. intros body raw E. injection E as <-. reflexivity.
Defined.

(** ** Queries and tasks *)

(** Any forwarder guarantees nothing. *)
Definition no_guarantee {C F Q I} `{Forwarder C F Q I} (fcfg : C) : guarantee (F := F) (Q := Q) (I := I) fcfg (λ _ _, True).
Proof.
  refine {| ga_inv _ _ := True; ga_permits _ _ _ _ := True; ga_late _ _ := True |}; try done; intros;
    unfold promised; by destruct (snd _).
Defined.

Lemma no_guarantee_permits `{DnslibLaws} {C F Q I} `{ForwarderLaws C F Q I} (fcfg : C) ucfg tcfg cc hcfg
    (evs : list (@stack_event _ I)) (k : @Stack _ F Q) :
  run_permitted fcfg ucfg tcfg cc hcfg (no_guarantee fcfg) evs k.
Proof. revert k. induction evs as [|ev evs IH]; intros k; [done|]. split; [by destruct ev|apply IH]. Qed.

(** C9: A task that awaits the upstream has exactly one query suspended in the
    forwarder, a query belongs to such a task and carries the message that the
    task wants to send, and for one name, type and class there are at most two
    queries in the forwarder, over every interleaving and with every
    forwarder. *)
Theorem queries_match_tasks `{DnslibLaws} {C F Q I : Type} `{ForwarderLaws C F Q I} `{!HasMetricsLaws F}
    (fcfg : C) (ucfg : UdpServerConfig) (tcfg : TcpServerConfig) (cc : CacheConfig) (hcfg : HandlerConfig)
    (evs : list (@stack_event _ I)) (m : option Metrics) (f : F) (key : CacheKey) :
  cache_config_ok cc → count_opt m "cache_entries" = 0%Z →
  let k := run_stacks fcfg ucfg tcfg cc hcfg evs (stack_new m f) in
  NoDup (qu_task <$> k_queries k)
  ∧ (∀ t, is_Some (task_query t (stack_h k)) ↔ t ∈ qu_task <$> k_queries k)
  ∧ (∀ q, q ∈ k_queries k → ∃ rid, task_query (qu_task q) (stack_h k) = Some (qu_wire q, rid))
  ∧ length (filter (λ q, qu_task q ∈ running_for key (stack_h k)) (k_queries k)) ≤ 2.
Proof.
  intros Hcc Hm k.
  pose proof (run_stacks_ok fcfg ucfg tcfg cc hcfg Hcc (no_guarantee fcfg) evs _ (no_guarantee_permits _ _ _ _ _ _ _)
    (stack_new_ok fcfg ucfg tcfg cc hcfg Hcc (no_guarantee fcfg) m f Hm Logic.I)) as [[Hn _ _ _ Hnd Hq Haw] _].
  fold k in Hn, Hnd, Hq, Haw. unfold asked in *. rewrite <- list_fmap_compose in Hnd.
  assert (∀ t, is_Some (task_query t (stack_h k)) → t ∈ qu_task <$> k_queries k) as Haw'.
  { intros t Ht. apply Haw in Ht. by rewrite <- list_fmap_compose in Ht. }
  assert (∀ q, q ∈ k_queries k → ∃ rid, task_query (qu_task q) (stack_h k) = Some (qu_wire q, rid)) as Hq'.
  { intros q Hin. apply Hq, list_elem_of_fmap. by exists q. }
  split; [exact Hnd|]. split; [|split; [exact Hq'|]].
  - intros t. split; [apply Haw'|]. intros (q & -> & Hin)%list_elem_of_fmap. destruct (Hq' q Hin) as [rid ->]. done.
  - rewrite <- (length_fmap qu_task), <- (size_list_to_set (C := gset nat)).
    + etrans; [|apply (running_for_size key (stack_h k)), (net_sf_ok ucfg tcfg cc hcfg _ Hn)].
      apply subseteq_size. intros t (q & -> & [Ht _]%list_elem_of_filter)%elem_of_list_to_set%list_elem_of_fmap. done.
    + apply (sublist_NoDup _ (qu_task <$> k_queries k)); [done|].
      apply fmap_sublist. apply sublist_filter.
Qed.

(** The task of the example awaits its connection. *)
Lemma queries_match_tasks_witness :
  let k := stack_example.run (take 3 stack_example.evs) in
  qu_task <$> k_queries k = [0]
  ∧ length (filter (λ q, qu_task q ∈ running_for handler_example.key (stack_h k)) (k_queries k)) ≤ 2.
Proof.
  split; [vm_compute; reflexivity|].
  apply (queries_match_tasks stack_example.fcfg net_example.big server_example.tcfg handler_example.cc
    handler_example.cfg (take 3 stack_example.evs) (Some metrics_new) (mkTcpNet (tcp_fwd_new None) [])
    handler_example.key system_example.cc_ok eq_refl).
Defined.
