(* ===== verification/StackLive.v ===== *)
(** * No request is stuck in the stack

    From every state the stack can reach, a task that a request waits for is
    finished by its own steps alone, whatever happens outside at each of them:
    the task starts, its query passes through the forwarder's suspensions, of
    which there are finitely many, a [TypeError] leads to one second call, and
    the result ends the task.  Then the request's turn ends the request. *)
From S2P Require Import Prelude PyString OrderedDict Metrics Dns Framing Cache CacheProps SingleFlight Handler HandlerProps HandlerTheorems System SystemProps SystemOutcomes SystemTheorems Servers ServerProps ServerTheorems Net NetProps NetTheorems Upstream Relay Asks Forward Stack StackProps StackTheorems.
From stdpp Require Import base list strings gmap sets.

(** Suspensions of a query (rather than of a thread left behind), and how many
    more of them follow at most. *)
Class ForwarderProgress (C F Q I : Type) `{Forwarder C F Q I} := {
  fw_awaited : Q → bool;
  fw_left : Q → nat;
  fw_call_awaited c i wire rid f q : (fw_call c i wire rid f).2 = FSuspended q → fw_awaited q = true;
  fw_resume_left c i q f q' :
    fw_awaited q = true → (fw_resume c i q f).2 = FSuspended q' → fw_awaited q' = true ∧ fw_left q' < fw_left q;
}.

#[global] Program Instance udp_progress : ForwarderProgress UpstreamUdpConfig UdpFwd udp_susp udp_input := {|
  fw_awaited q := match q with UAwait _ => true | UThread _ => false end; fw_left _ := 0 |}.
Next Obligation.
  intros cfg i wire [rid|] f q; [done|]. cbn. destruct (udp_query_begin cfg f) as [f' [[]|e]]; [|done..].
  by intros [= <-].
Qed.
Next Obligation. by intros cfg [sock|st] [wire|wire] f q'. Qed.

#[global] Program Instance tcp_progress : ForwarderProgress UpstreamTcpConfig TcpNet tcp_susp tcp_input := {|
  fw_awaited _ := true; fw_left q := match q with TConnecting _ => 1 | TExchange _ _ => 0 end |}.
Next Obligation. done. Qed.
Next Obligation.
  intros cfg i [wire|wire c] [f arr] q' _; [|done]. cbn.
  destruct (tcp_query_connect cfg (ti_conn i) f) as [f' [[c|]|e]]; [|done..]. intros [= <-]. split; [done|lia].
Qed.

#[global] Program Instance relay_progress : ForwarderProgress RelayConfig RelayFwd relay_susp relay_input := {|
  fw_awaited _ := true; fw_left _ := 0 |}.
Next Obligation. done. Qed.
Next Obligation. by intros cfg i [body] f q'. Qed.

Section live.
Context `{DnslibLaws} {C F Q I : Type} `{ForwarderLaws C F Q I} `{!HasMetricsLaws F} `{!ForwarderProgress C F Q I}.
Context (fcfg : C) (ucfg : UdpServerConfig) (tcfg : TcpServerConfig) (cc : CacheConfig) (hcfg : HandlerConfig).
Context (Hcc : cache_config_ok cc).
#[local] Abbreviation stack := (@Stack _ F Q).
#[local] Abbreviation step := (run_stack fcfg ucfg tcfg cc hcfg).
Implicit Types (k : stack) (t : nat).

(** What happens outside at a step of a task: two inputs and two readings of
    the clock. *)
Definition inputs : Type := I * I * Z * Z.

(** Task [t]'s turn: its query goes on, or it starts. *)
Definition drive t (x : inputs) k : stack :=
  let '(i, i2, now, ne) := x in
  match list_find (λ q, qu_task q = t) (k_queries k) with
  | Some (j, _) => step (KQuery j i i2 now ne) k
  | None => step (KTask t i i2 now ne) k
  end.

Fixpoint drives (n : nat) t (xs : nat → inputs) k : stack :=
  match n with
  | 0 => k
  | S n => drives n t (λ j, xs (S j)) (drive t (xs 0) k)
  end.

Definition finished t k : Prop := is_Some (task_result_of t (stack_h k)).

(** The invariant: that of the stack, and the queries are queries. *)
Definition live k : Prop :=
  stack_ok fcfg ucfg tcfg cc hcfg (no_guarantee fcfg) k ∧ Forall (λ q, fw_awaited (qu_susp q) = true) (k_queries k).

Lemma settle_awaited t kw wire now ne (ko : stack * fq Q) :
  (∀ q, ko.2 = FSuspended q → fw_awaited q = true) → Forall (λ q, fw_awaited (qu_susp q) = true) (k_queries ko.1) →
  Forall (λ q, fw_awaited (qu_susp q) = true) (k_queries (settle ucfg tcfg cc hcfg t kw wire now ne ko)).
Proof. intros Ho Hq. unfold settle. destruct ko.2 as [q|r rest]; [|done]. constructor; [by apply Ho|done]. Qed.

Lemma settle_kw_awaited t kw wire i now ne (ko : stack * fq Q) :
  (∀ q, ko.2 = FSuspended q → fw_awaited q = true) → Forall (λ q, fw_awaited (qu_susp q) = true) (k_queries ko.1) →
  Forall (λ q, fw_awaited (qu_susp q) = true) (k_queries (settle_kw fcfg ucfg tcfg cc hcfg t kw wire i now ne ko)).
Proof.
  intros Ho Hq. unfold settle_kw. destruct ko.2 as [q|[r|[]] rest] eqn:Eo; try (apply settle_awaited; by rewrite ?Eo).
  destruct kw; [|apply settle_awaited; by rewrite ?Eo].
  apply settle_awaited; [|done]. intros q. apply fw_call_awaited.
Qed.

Lemma live_step ev k : live k → live (step ev k).
Proof.
  intros [Hk Hq]. split; [apply run_stack_ok; [done|by destruct ev|done]|].
  destruct ev as [ev|t i i2 now ne|j i i2 now ne|j i|i|]; cbn [run_stack].
  - by destruct (net_only _ _).
  - destruct (task_query t _); [done|]. destruct (task_query t (stack_h _)) as [[wire rid]|]; [|done].
    apply settle_kw_awaited; [|done]. intros q. apply fw_call_awaited.
  - destruct (k_queries k !! j) as [q|] eqn:Ej; [|done].
    apply settle_kw_awaited; [|by apply Forall_delete].
    intros q' Eq. by apply fw_resume_left in Eq as [? _]; [|by apply (proj1 (Forall_lookup _ _) Hq j)].
  - destruct (k_threads k !! j) as [[wire q]|]; [|done]. cbn zeta. by destruct (snd _).
  - done.
  - done.
Qed.

Lemma drive_live t x k : live k → live (drive t x k).
Proof. destruct x as [[[i i2] now] ne]. intros Hk. unfold drive. destruct (list_find _ _) as [[j q]|]; by apply live_step. Qed.

(** ** Outcomes of a turn *)

(** Task [t] has a query in the forwarder with [n] suspensions to come. *)
Definition asking t (kw : bool) (n : nat) k : Prop :=
  ∃ q, q ∈ k_queries k ∧ qu_task q = t ∧ qu_kw q = kw ∧ fw_left (qu_susp q) = n.

Lemma resume_finished t up now ne h x :
  task_query t h = Some x → is_Some (task_result_of t (task_resume cc t up now ne h)).
Proof.
  assert (∀ m, h_sf (m h).1 = h_sf h → is_Some (task_query t h) → is_Some (task_result_of t (finish t m h))) as Hfin.
  { intros m Hsf [y Hy]. unfold finish. destruct (m h) as [h' r]. cbn in Hsf. unfold task_query in Hy.
    unfold finish_task, task_result_of. rewrite Hsf. destruct (loop_tasks (h_sf h) !! t) as [[k' [p|r']]|]; [|done..].
    cbn. rewrite lookup_insert_eq. done. }
  intros Hx. pose proof (mk_is_Some _ _ Hx) as Hs. unfold task_query in Hx. unfold task_resume.
  destruct (loop_tasks (h_sf h) !! t) as [[k' [[]|r']]|]; try discriminate Hx; (apply Hfin; [|exact Hs]).
  - apply query_and_store_sf.
  - unfold try_finally. rewrite <- (query_and_store_sf cc up now ne wire request_id key h).
    by destruct (query_and_store _ _ _ _ _ _ _ h).
Qed.

(** A task that starts without calling the forwarder is done. *)
Lemma begin_finished t p sk h :
  loop_tasks (h_sf h) !! t = Some (mkTask sk (Running p)) → not_started p = true →
  task_query t (task_begin t h) = None → is_Some (task_result_of t (task_begin t h)).
Proof.
  assert (∀ m h', h_sf (m h').1 = h_sf h → (∃ sk p, loop_tasks (h_sf h) !! t = Some (mkTask sk (Running p))) →
    is_Some (task_result_of t (finish t m h'))) as Hfin.
  { intros m h' Hsf (sk' & p' & E). unfold finish. destruct (m h') as [h1 r]. cbn in Hsf.
    unfold finish_task, task_result_of. rewrite Hsf, E. cbn. by rewrite lookup_insert_eq. }
  intros Ht Hns. unfold task_begin. rewrite Ht. destruct p; try discriminate Hns.
  - unfold _resolve_upstream_begin. runM. destruct (dns_pack request) as [wire|].
    + unfold task_query. cbn. by rewrite lookup_alter_eq, Ht.
    + intros _. apply (Hfin (raise OtherException)); eauto.
  - unfold _refresh_once_begin. destruct (dns_question _ _ _) as [req|]; runM; [destruct (dns_pack req) as [wire|]|].
    + unfold task_query. cbn. by rewrite lookup_alter_eq, Ht.
    + intros _. apply (Hfin (try_finally (raise OtherException) (unmark_inflight refresh_key))); eauto.
    + intros _. apply (Hfin (try_finally (lift_res (Ret None)) (unmark_inflight refresh_key))); eauto.
Qed.

#[local] Abbreviation stepped' := (stepped fcfg ucfg tcfg cc hcfg (no_guarantee fcfg)).

Lemma settle_outcome t kw wire now ne (ko : stack * fq Q) :
  stepped' t wire ko →
  finished t (settle ucfg tcfg cc hcfg t kw wire now ne ko)
  ∨ ∃ q, ko.2 = FSuspended q ∧ asking t kw (fw_left q) (settle ucfg tcfg cc hcfg t kw wire now ne ko).
Proof.
  intros [Ht _]. unfold settle. destruct ko.2 as [q|r rest].
  - right. exists q. split; [done|]. exists (mkQuery t kw wire q). split; [by left|done].
  - left. destruct (tk_query _ _ _ _ _ _ Ht t wire ltac:(by left)) as [rid Hrid]. by eapply resume_finished.
Qed.

Lemma settle_kw_outcome t kw wire i now ne (ko : stack * fq Q) :
  stepped' t wire ko →
  let k' := settle_kw fcfg ucfg tcfg cc hcfg t kw wire i now ne ko in
  finished t k' ∨ (∃ q, ko.2 = FSuspended q ∧ asking t kw (fw_left q) k') ∨ (kw = true ∧ ∃ n, asking t false n k').
Proof.
  intros Hs k'. unfold k', settle_kw. pose proof (settle_outcome t kw wire now ne ko Hs) as Ho.
  destruct ko.2 as [q|[r|e] rest] eqn:Eo; [by destruct Ho; auto..|].
  destruct e; try (by destruct Ho; auto). destruct kw; [|by destruct Ho; auto].
  assert (stepped' t wire (run_fwd (fw_call fcfg i wire None) (add_rest wire rest ko.1))) as Hs2.
  { destruct Hs as [Ht _]. by apply call_stepped. }
  destruct (settle_outcome t false wire now ne _ Hs2) as [Hf|(q & _ & Hq)]; [by left|]. right. right. eauto.
Qed.

Lemma find_query t k q :
  live k → q ∈ k_queries k → qu_task q = t →
  ∃ j, list_find (λ q, qu_task q = t) (k_queries k) = Some (j, q) ∧ k_queries k !! j = Some q.
Proof.
  intros [[Ht _] _] Hin Eq. pose proof (tk_nodup _ _ _ _ _ _ Ht) as Hnd. unfold asked in Hnd.
  rewrite <- list_fmap_compose in Hnd.
  destruct (list_find_elem_of (λ q, qu_task q = t) _ q Hin Eq) as [[j q'] Hj]. exists j. rewrite Hj.
  apply list_find_Some in Hj as (Hj & Eq' & _). apply list_elem_of_lookup in Hin as [j2 Hj2].
  assert (j = j2) as <-.
  { apply (NoDup_lookup _ _ _ t Hnd); rewrite list_lookup_fmap; [rewrite Hj|rewrite Hj2]; cbn; congruence. }
  rewrite Hj2 in Hj. by injection Hj as <-.
Qed.

Lemma asking_turn t kw n x k :
  live k → asking t kw n k →
  finished t (drive t x k) ∨ (∃ n', n' < n ∧ asking t kw n' (drive t x k)) ∨ (kw = true ∧ ∃ n', asking t false n' (drive t x k)).
Proof.
  intros Hk (q & Hin & Et & <- & <-). destruct (find_query t k q Hk Hin Et) as (j & Hfind & Hj).
  destruct x as [[[i i2] now] ne]. unfold drive. rewrite Hfind. cbn [run_stack]. rewrite Hj. destruct Hk as [Hk Hq].
  pose proof (query_stepped fcfg ucfg tcfg cc hcfg Hcc (no_guarantee fcfg) j i q k Hj Logic.I Hk) as Hs. rewrite Et in *.
  destruct (settle_kw_outcome t (qu_kw q) (qu_wire q) i2 now ne _ Hs) as [Hf|[(q' & Eq & Ha)|Hf]]; [by left| |by auto].
  right. left. eexists. split; [|exact Ha].
  apply fw_resume_left in Eq as [_ Hlt]; [done|]. by apply (proj1 (Forall_lookup _ _) Hq j).
Qed.

(** A task that has not started. *)
Lemma unstarted_turn t p sk x k :
  live k → loop_tasks (h_sf (stack_h k)) !! t = Some (mkTask sk (Running p)) → not_started p = true →
  finished t (drive t x k) ∨ ∃ kw n, asking t kw n (drive t x k).
Proof.
  intros Hk Hp Hns. assert (task_query t (stack_h k) = None) as Hno by (unfold task_query; rewrite Hp; by destruct p).
  destruct x as [[[i i2] now] ne]. unfold drive. destruct (list_find _ _) as [[j q]|] eqn:Hf.
  { exfalso. apply list_find_Some in Hf as (Hj & Et & _). apply list_elem_of_lookup_2 in Hj.
    destruct Hk as [[Ht _] _]. destruct (tk_query _ _ _ _ _ _ Ht t (qu_wire q)) as [rid E].
    - apply list_elem_of_fmap. exists q. by rewrite Et.
    - unfold stack_h in Hno. unfold net_h in E. congruence. }
  cbn [run_stack]. rewrite Hno. set (k1 := with_net _ k). destruct Hk as [[Ht Hi] Hq].
  destruct (task_query t (stack_h k1)) as [[wire rid]|] eqn:Eyes.
  - assert (stepped' t wire (run_fwd (fw_call fcfg i wire (Some rid)) k1)) as Hs.
    { apply (call_stepped fcfg ucfg tcfg cc hcfg Hcc); [|done]. by eapply tasks_ok_begin. }
    destruct (settle_kw_outcome t true wire i2 now ne _ Hs) as [Hf1|[(q' & _ & Ha)|(_ & n & Ha)]]; eauto.
  - left. unfold finished. by apply (begin_finished t p sk).
Qed.

Definition running t k : Prop :=
  ∃ sk p, loop_tasks (h_sf (stack_h k)) !! t = Some (mkTask sk (Running p)).

Lemma asking_finishes t kw n xs k : live k → asking t kw n k → ∃ m, finished t (drives m t xs k).
Proof.
  revert n xs k. assert (∀ n xs k, live k → asking t false n k → ∃ m, finished t (drives m t xs k)) as Hplain.
  { intros n. induction (lt_wf n) as [n _ IH]. intros xs k Hk Ha.
    destruct (asking_turn t false n (xs 0) k Hk Ha) as [Hf|[(n' & Hlt & Ha')|[? _]]]; [by exists 1| |done].
    destruct (IH n' Hlt (λ j, xs (S j)) (drive t (xs 0) k)) as [m Hm]; [by apply drive_live|done|]. by exists (S m). }
  destruct kw; [|exact Hplain]. intros n. induction (lt_wf n) as [n _ IH]. intros xs k Hk Ha.
  pose proof (drive_live t (xs 0) k Hk) as Hk'.
  destruct (asking_turn t true n (xs 0) k Hk Ha) as [Hf|[(n' & Hlt & Ha')|(_ & n' & Ha')]]; [by exists 1|..].
  - destruct (IH n' Hlt (λ j, xs (S j)) (drive t (xs 0) k)) as [m Hm]; [done..|]. by exists (S m).
  - destruct (Hplain n' (λ j, xs (S j)) (drive t (xs 0) k)) as [m Hm]; [done..|]. by exists (S m).
Qed.

(** Every running task is finished by its own turns. *)
Lemma task_finishes t xs k : live k → running t k → ∃ m, finished t (drives m t xs k).
Proof.
  intros Hk (sk & p & Hp). destruct (not_started p) eqn:Ens.
  - destruct (unstarted_turn t p sk (xs 0) k Hk Hp Ens) as [Hf|(kw & n & Ha)]; [by exists 1|].
    destruct (asking_finishes t kw n (λ j, xs (S j)) (drive t (xs 0) k)) as [m Hm]; [by apply drive_live|done|].
    by exists (S m).
  - destruct Hk as [[Ht Hi] Hq].
    assert (is_Some (task_query t (net_h (k_net k)))) as Hs.
    { unfold task_query. change (net_h (k_net k)) with (stack_h k). rewrite Hp. by destruct p. }
    apply (tk_awaits _ _ _ _ _ _ Ht) in Hs as ([t' w'] & -> & (q & [= -> ->] & Hin)%list_elem_of_fmap)%list_elem_of_fmap.
    apply (asking_finishes _ (qu_kw q) (fw_left (qu_susp q))); [by split|]. by exists q.
Qed.

(** ** The request *)

Lemma run_fwd_waiting (g : F → F * fq Q) k : n_waiting (k_net (run_fwd g k).1) = n_waiting (k_net k).
Proof. done. Qed.
Lemma settle_waiting t kw wire now ne (ko : stack * fq Q) :
  n_waiting (k_net (settle ucfg tcfg cc hcfg t kw wire now ne ko)) = n_waiting (k_net ko.1).
Proof. unfold settle. by destruct ko.2. Qed.
Lemma settle_kw_waiting t kw wire i now ne (ko : stack * fq Q) :
  n_waiting (k_net (settle_kw fcfg ucfg tcfg cc hcfg t kw wire i now ne ko)) = n_waiting (k_net ko.1).
Proof. unfold settle_kw. destruct ko.2 as [q|[r|[]] rest], kw; by rewrite settle_waiting. Qed.

Lemma drive_waiting t x k : n_waiting (k_net (drive t x k)) = n_waiting (k_net k).
Proof.
  destruct x as [[[i i2] now] ne]. unfold drive. destruct (list_find _ _) as [[j q]|]; cbn [run_stack].
  - destruct (k_queries k !! j) as [q'|]; [|done]. by rewrite settle_kw_waiting.
  - destruct (task_query t _); [done|]. destruct (task_query t (stack_h _)) as [[wire rid]|]; [|done].
    by rewrite settle_kw_waiting.
Qed.
Lemma drives_waiting n t xs k : n_waiting (k_net (drives n t xs k)) = n_waiting (k_net k).
Proof. revert xs k. induction n as [|n IH]; intros xs k; [done|]. cbn. by rewrite IH, drive_waiting. Qed.
Lemma drives_live n t xs k : live k → live (drives n t xs k).
Proof. revert xs k. induction n as [|n IH]; intros xs k Hk; [done|]. cbn. by apply IH, drive_live. Qed.

(** Sending a reply raises nothing but [Exception]s. *)
Lemma reply_raises ct o s s' e :
  match ct_client ct with Udp a => udp_reply ucfg o a | Tcp c => tcp_reply tcfg o c end s = (s', Raise e) →
  is_Exception e = true.
Proof.
  destruct (ct_client ct); unfold udp_reply, tcp_reply, pack_obj, mbind, M_bind, lift_opt, lift_res, gets, when, mret, M_ret;
    intros Hr; repeat (case_match; simplify_eq; try done).
  all: unfold to_bytes2 in *; repeat (case_match; simplify_eq; try done).
Qed.

Lemma request_resume_returns log ct w result now s :
  resume_ok true log (wt_request w) result
    (handle_resume hcfg (wt_request w) (wt_key w) (wt_qname w) (wt_qtype_name w) result now (s_h s)) →
  (∀ e, result = Raise e → is_Exception e = true) →
  (request_resume ucfg tcfg hcfg ct w result now s).2 = Ret ().
Proof.
  intros Hr Hexn. pose proof (λ o s s' e, reply_raises ct o s s' e) as Hrep.
  unfold request_resume, _handle_datagram_resume, _handle_request_resume, try_except, in_handler, zoom.
  unfold mbind, M_bind. unfold resume_ok in Hr.
  destruct (ct_client ct) as [a|c]; (destruct (handle_resume _ _ _ _ _ _ _ _) as [h' [o|e]]; cbn in Hr;
    [|destruct Hr as [-> He]; rewrite (Hexn e eq_refl) in He; discriminate He]).
  - match goal with |- context [udp_reply ucfg o a ?s1] => destruct (udp_reply ucfg o a s1) as [s2 [[]|e]] eqn:E end;
      [done|]. by rewrite (Hrep _ _ _ _ E).
  - match goal with |- context [tcp_reply tcfg o c ?s1] => destruct (tcp_reply tcfg o c s1) as [s2 [[]|e]] eqn:E end;
      [done|]. by rewrite (Hrep _ _ _ _ E).
Qed.

Lemma resumed_request k i ct w r now :
  live k → n_waiting (k_net k) !! i = Some (ct, w) → task_result_of (wt_task w) (stack_h k) = Some r →
  let k' := step (KNet (NResume i now)) k in
  ∃ failed, n_waiting (k_net k') = delete i (n_waiting (k_net k))
    ∧ n_ended (k_net k') = n_ended (k_net k) ++ [(ct_id ct, failed)]
    ∧ ((∀ e, r = Raise e → is_Exception e = true) → failed = false).
Proof.
  intros [[Ht _] _] Hi Hr k'. pose proof (tk_net _ _ _ _ _ _ Ht) as Hn.
  assert (w_calls (sys (k_net k)) !! i = Some (call_of w)) as Hci by (cbn; by rewrite !list_lookup_fmap, Hi).
  pose proof (waiting_call_ok true cc hcfg i now (sys (k_net k)) (call_of w) r (no_sys _ _ _ _ _ Hn) Hci Hr) as Hres.
  pose proof (request_resume_returns _ ct w r now (n_srv (k_net k)) Hres) as Hret. unfold k'. cbn [run_stack net_only with_net k_net run_net].
  unfold stack_h in Hr. rewrite Hi, Hr.
  destruct (request_resume ucfg tcfg hcfg ct w r now (n_srv (k_net k))) as [s' x] eqn:E.
  eexists. split; [done|]. split; [done|]. intros Hexn.
  cbn in Hret. by rewrite (Hret Hexn).
Qed.

Lemma waiting_task k i ct w :
  live k → n_waiting (k_net k) !! i = Some (ct, w) →
  ∃ sk st, loop_tasks (h_sf (stack_h k)) !! wt_task w = Some (mkTask sk st).
Proof.
  intros [[Ht _] _] Hi. pose proof (no_sys _ _ _ _ _ (tk_net _ _ _ _ _ _ Ht)) as [_ Hc _].
  assert (w_calls (sys (k_net k)) !! i = Some (call_of w)) as Hci by (cbn; by rewrite !list_lookup_fmap, Hi).
  destruct (proj1 (Forall_lookup _ _) Hc i _ Hci) as [_ [st Hst]]. eauto.
Qed.

Lemma run_stacks_live evs m f :
  count_opt m "cache_entries" = 0%Z → live (run_stacks fcfg ucfg tcfg cc hcfg evs (stack_new m f)).
Proof.
  intros Hm. assert (live (stack_new m f)) as Hk by (split; [by apply stack_new_ok|constructor]).
  revert Hk. generalize (stack_new m f : stack). induction evs as [|ev evs IH]; intros k Hk; [done|].
  by apply IH, live_step.
Qed.
End live.

(** C5: No request is stuck in the stack: from every state it can reach, with
    every forwarder that makes progress, a request that waits for a resolution
    is ended by finitely many turns of the resolution's own task, whatever
    happens outside at each of them, followed by its own turn; unless the
    resolution was cancelled it ends without an exception. *)
Theorem stack_request_served `{DnslibLaws} {C F Q I : Type} `{ForwarderLaws C F Q I} `{!HasMetricsLaws F}
    `{!ForwarderProgress C F Q I}
    (fcfg : C) (ucfg : UdpServerConfig) (tcfg : TcpServerConfig) (cc : CacheConfig) (hcfg : HandlerConfig)
    (evs : list (@stack_event _ I)) (m : option Metrics) (f : F) (i : nat) (ct : client_task) (w : waiting)
    (xs : nat → inputs) (now : Z) :
  cache_config_ok cc → count_opt m "cache_entries" = 0%Z →
  let k := run_stacks fcfg ucfg tcfg cc hcfg evs (stack_new m f) in
  n_waiting (k_net k) !! i = Some (ct, w) →
  ∃ turns r, let k' := drives fcfg ucfg tcfg cc hcfg turns (wt_task w) xs k in
    task_result_of (wt_task w) (stack_h k') = Some r
    ∧ let k'' := run_stack fcfg ucfg tcfg cc hcfg (KNet (NResume i now)) k' in
      n_waiting (k_net k'') = delete i (n_waiting (k_net k))
      ∧ ∃ failed, n_ended (k_net k'') = n_ended (k_net k') ++ [(ct_id ct, failed)]
        ∧ ((∀ e, r = Raise e → is_Exception e = true) → failed = false).
Proof.
  intros Hcc Hm k Hi. assert (live fcfg ucfg tcfg cc hcfg k) as Hk by (by apply run_stacks_live).
  assert (∃ turns, finished (wt_task w) (drives fcfg ucfg tcfg cc hcfg turns (wt_task w) xs k)) as [turns [r Hr]].
  { destruct (waiting_task _ _ _ _ _ k i ct w Hk Hi) as (sk & [p|r] & Ht).
    - apply task_finishes; [done..|]. by exists sk, p.
    - exists 0. unfold finished, task_result_of. cbn. by rewrite Ht. }
  exists turns, r. set (k' := drives _ _ _ _ _ _ _ _ _) in *. intros k1. split; [exact Hr|].
  assert (live fcfg ucfg tcfg cc hcfg k') as Hk' by (by apply drives_live).
  assert (n_waiting (k_net k') !! i = Some (ct, w)) as Hi' by (unfold k'; by rewrite drives_waiting).
  destruct (resumed_request _ _ _ _ _ k' i ct w r now Hk' Hi' Hr) as (failed & Hw & He & Hf).
  split; [|by exists failed]. unfold k1. rewrite Hw. unfold k'. by rewrite drives_waiting.
Qed.

(** The request of the example, as it waits for its task that has not
    started; connecting fails. *)
Lemma stack_request_served_witness :
  let k := stack_example.run (take 2 stack_example.evs) in
  ∃ turns r, task_result_of 0 (stack_h (drives stack_example.fcfg net_example.big server_example.tcfg handler_example.cc
    handler_example.cfg turns 0 (λ _, (stack_example.idle, stack_example.idle, 0%Z, 0%Z)) k)) = Some r.
Proof.
  destruct (stack_request_served stack_example.fcfg net_example.big server_example.tcfg handler_example.cc
    handler_example.cfg (take 2 stack_example.evs) (Some metrics_new) (mkTcpNet (tcp_fwd_new None) []) 0
    (mkClientTask 0 (Udp server_example.a) server_example.data)
    (mkWaiting handler_example.request handler_example.key "a.com" "A" 0)
    (λ _, (stack_example.idle, stack_example.idle, 0%Z, 0%Z)) 9 system_example.cc_ok eq_refl) as (turns & r & Hr & _).
  - vm_compute. reflexivity.
  - exists turns, r. exact Hr.
Defined.
