(* ===== verification/Http.v ===== *)
(** * The HTTP metrics server ([HttpMetricsServer] and [ReadyState] of
      [src/resilientdns/dns/server.py])

    One request per connection: the head is read up to its empty line, the
    path picks the answer, one response is written and the connection closed.
    [Writer] is what was written to the connection; the outcomes of
    [writer.drain()] and [writer.wait_closed()], the installed version and the
    cache's statistics are arguments. *)
From S2P Require Import Prelude PyString Metrics Framing Relay.
From stdpp Require Import base list sorting strings gmap pretty.
From Stdlib Require Import Ascii.
From Stdlib.Strings Require Import Byte.

(** ** Readiness *)

Record ReadyState := mkReady { _event : bool }.
Definition ready_new : ReadyState := mkReady false.
Definition set_ready (r : ReadyState) : ReadyState := mkReady true.
Definition is_ready (r : ReadyState) : bool := _event r.

(** ** Configuration and state *)

Record HttpMetricsConfig := mkHttpMetricsConfig {
  http_host : string;
  http_port : Z;
  http_read_timeout_s : Z;
  max_header_bytes : Z;
}.
Definition HttpMetricsConfig_default : HttpMetricsConfig :=
  mkHttpMetricsConfig "127.0.0.1" 0 (2 * SECOND) 8192.

Record HttpSt := mkHttpSt {
  hs_metrics : Metrics;
  ready_state : ReadyState;
  _build_info_line : string;
}.

(** [version.replace] of each double quote by an underscore. *)
Definition replace_dquote (s : string) : string :=
  unchars ((λ c, if code c =? 34 then ascii_of_nat 95 else c) <$> chars s).

(** [version] is what [metadata.version("resilientdns")] gives. *)
Definition _build_info (version : res string) : string :=
  let version := match version with
                 | Ret v => v
                 | Raise _ => "unknown"
                 end in
  "resilientdns_build_info{version=" +:+ dquote +:+ replace_dquote version +:+ dquote +:+ "} 1".

Definition http_new (m : Metrics) (r : option ReadyState) (version : res string) : HttpSt :=
  mkHttpSt m (default ready_new r) (_build_info version).

Record Writer := mkWriter { w_out : bytes; w_closed : bool }.
Definition writer_new : Writer := mkWriter [] false.

(** ** Text and bytes *)

Definition byte_of_char (c : ascii) : Byte.byte := byte_of_Z (Z.of_nat (code c)).
Definition char_of_byte (b : Byte.byte) : ascii := ascii_of_nat (Z.to_nat (byte_to_Z b)).

(** [s.encode("ascii")] *)
Definition encode_ascii (s : string) : res bytes :=
  if forallb (λ c, code c <? 128) (chars s) then Ret (byte_of_char <$> chars s)
  else Raise UnicodeEncodeError.

(** [b.decode("ascii", errors="ignore")] *)
Definition decode_ascii_ignore (b : bytes) : string :=
  unchars (char_of_byte <$> filter (λ x, byte_to_Z x < 128)%Z b).

Definition CR : Byte.byte := Byte.x0d.
Definition LF : Byte.byte := Byte.x0a.
Definition crlf : string := String (ascii_of_nat 13) (String (ascii_of_nat 10) "").
Definition newline : string := String (ascii_of_nat 10) "".

#[global] Instance byte_eq_decision : EqDecision Byte.byte := Byte.byte_eq_dec.

(** [b.find(sep)] *)
Fixpoint find_bytes (sep b : bytes) : option nat :=
  if bool_decide (take (length sep) b = sep) then Some 0
  else match b with
       | [] => None
       | _ :: b => S <$> find_bytes sep b
       end.

(** ** Reading the request *)

(** The limit of a [StreamReader] that [asyncio.start_server] makes. *)
Definition _DEFAULT_LIMIT : Z := 65536.

(** [await asyncio.wait_for(reader.readuntil(sep), ...)] *)
Definition readuntil (sep : bytes) (st : stream) : res (bytes * stream) :=
  match find_bytes sep (st_data st) with
  | Some isep =>
      if (_DEFAULT_LIMIT <? Z.of_nat isep)%Z then Raise LimitOverrunError
      else let n := isep + length sep in
           Ret (take n (st_data st), mkStream (drop n (st_data st)) (st_end st))
  | None =>
      if (_DEFAULT_LIMIT <? len (st_data st) + 1 - len sep)%Z then Raise LimitOverrunError
      else Raise (st_end st)
  end.

Definition is_head_error (e : exn) : bool :=
  match e with TimeoutError | IncompleteReadError | LimitOverrunError => true | _ => false end.

(** [data.split(b"\r\n", 1)[0].decode("ascii", errors="ignore")] *)
Definition request_line (data : bytes) : string :=
  decode_ascii_ignore
    match find_bytes [CR; LF] data with Some i => take i data | None => data end.

(** ** Bodies *)

(** [sorted(snapshot)]: strings compare by code point. *)
Definition string_le (a b : string) : Prop := String.leb a b = true.
#[global] Instance string_le_dec : RelDecision string_le.
Proof. intros a b. unfold string_le. apply _. Defined.
Definition sorted_keys (snapshot : gmap string Z) : list string :=
  merge_sort string_le (map_to_list snapshot).*1.

Definition metric_line (snapshot : gmap string Z) (k : string) : string :=
  k +:+ " " +:+ pretty (cget snapshot k).

Definition digit_char (n : Z) : ascii := ascii_of_nat (48 + Z.to_nat n).
(** [f"{x:.3f}"] for [x] of [ns] nanoseconds, [ns] not negative: rounded to
    milliseconds, a tie to the even one. *)
Definition format_3f (ns : Z) : string :=
  let q := (ns / 1000000)%Z in
  let r := (ns mod 1000000)%Z in
  let ms := if (r <? 500000)%Z then q
            else if (500000 <? r)%Z then (q + 1)%Z
            else if Z.even q then q else (q + 1)%Z in
  pretty (ms / 1000)%Z +:+ "." +:+
  unchars [digit_char (ms / 100 mod 10); digit_char (ms / 10 mod 10); digit_char (ms mod 10)].

Definition metrics_lines (s : HttpSt) (start now : Z) : list string :=
  let snap := snapshot (hs_metrics s) in
  let uptime := Z.max 0 (now - start) in
  (metric_line snap <$> sorted_keys snap)
  ++ [_build_info_line s; "resilientdns_uptime_seconds " +:+ format_3f uptime].

Definition metrics_body (s : HttpSt) (start now : Z) : res bytes :=
  encode_ascii (Metrics.join newline (metrics_lines s start now) +:+ newline).

(** [json.dumps(payload, separators=(",", ":"), sort_keys=False)] *)
Definition stats_dumps (payload : list (string * Z)) : string :=
  "{" +:+ Metrics.join "," ((λ kv, json_str kv.1 +:+ ":" +:+ pretty kv.2) <$> payload) +:+ "}".

Definition stats_body (provided : res (list (string * Z))) : res bytes :=
  match provided with
  | Raise e => Raise e
  | Ret payload => encode_ascii (stats_dumps payload)
  end.

(** ** Writing the response *)

Section response.
Context (drain wait_closed : res unit).

Definition w_write (b : bytes) : M Writer () := modify (λ w, mkWriter (w_out w ++ b) (w_closed w)).
(** [writer.close(); await writer.wait_closed()] *)
Definition w_close : M Writer () :=
  modify (λ w, mkWriter (w_out w) true);; lift_res wait_closed.

Definition _send_response (status_code : Z) (body : bytes) (content_type : string) : M Writer () :=
  let reason := if (status_code =? 200)%Z then "OK"
                else if (status_code =? 503)%Z then "Service Unavailable"
                else "Not Found" in
  let headers :=
    [ "HTTP/1.1 " +:+ pretty status_code +:+ " " +:+ reason;
      "Content-Type: " +:+ content_type;
      "Content-Length: " +:+ pretty (len body);
      "Connection: close";
      "";
      "" ] in
  head ← lift_res (encode_ascii (Metrics.join crlf headers));
  w_write (head ++ body);;
  lift_res drain;;
  w_close.

Definition text (s : string) : bytes := byte_of_char <$> chars s.

(** [start] is [_PROCESS_START_MONOTONIC], [now] the reading for the uptime;
    [provider] is what the statistics callable gives, [None] without one. *)
Definition _handle_client (cfg : HttpMetricsConfig) (s : HttpSt) (provider : option (res (list (string * Z))))
    (start now : Z) (st : stream) : M Writer () :=
  match readuntil [CR; LF; CR; LF] st with
  | Raise e => if is_head_error e then w_close else raise e
  | Ret (data, _) =>
      if (max_header_bytes cfg <? len data)%Z then w_close
      else
        match str_split (request_line data) with
        | method :: path :: _ =>
            if negb (bool_decide (method = "GET")) then _send_response 404 (text "not found") "text/plain"
            else if bool_decide (path = "/metrics") then
              body ← lift_res (metrics_body s start now);
              _send_response 200 body "text/plain"
            else if bool_decide (path = "/healthz") then _send_response 200 (text "ok") "text/plain"
            else if bool_decide (path = "/readyz") then
              if is_ready (ready_state s) then _send_response 200 (text "ok") "text/plain"
              else _send_response 503 (text "not ready") "text/plain"
            else if bool_decide (path = "/cache/stats") then
              match provider with
              | None => _send_response 404 (text "not found") "text/plain"
              | Some provided =>
                  match stats_body provided with
                  | Raise e =>
                      if is_Exception e then _send_response 500 (text "error") "text/plain" else raise e
                  | Ret body => _send_response 200 (body ++ [LF]) "application/json"
                  end
              end
            else _send_response 404 (text "not found") "text/plain"
        | _ => w_close
        end
  end.
End response.
