(* ===== verification/HttpTheorems.v ===== *)
(** * Properties of the HTTP metrics server

    What an HTTP client reads back for each path, that a connection gets at
    most one response, and when it is closed. *)
From S2P Require Import Prelude PyString Metrics Framing Relay Warmup Decimal Http.
From stdpp Require Import base list sorting strings gmap pretty.
From Stdlib Require Import Ascii.
From Stdlib.Strings Require Import Byte.

(** ** An HTTP client *)

(** The lines of the head, up to the empty one, and what follows. *)
Fixpoint read_head (cur b : bytes) : option (list string * bytes) :=
  match b with
  | Byte.x0d :: Byte.x0a :: rest =>
      match cur with
      | [] => Some ([], rest)
      | _ => p ← read_head [] rest; Some (unchars (char_of_byte <$> reverse cur) :: p.1, p.2)
      end
  | c :: rest => read_head (c :: cur) rest
  | [] => None
  end.

(** The value of a header field. *)
Definition field (name : string) (lines : list string) : option string :=
  head (omap (λ l, match str_split l with [n; v] => if bool_decide (n = name) then Some v else None | _ => None end)
          lines).

Record http_reply := mkReply { hr_status : Z; hr_type : string; hr_body : bytes }.

(** A response whose body has the announced length. *)
Definition client_read (b : bytes) : option http_reply :=
  p ← read_head [] b;
  status ← head p.1 ≫= λ l, str_split l !! 1;
  n ← field "Content-Length:" p.1;
  ty ← field "Content-Type:" p.1;
  if bool_decide (int_of_digits n = len p.2) then Some (mkReply (int_of_digits status) ty p.2) else None.

(** ** Printable text *)

Definition printable (c : ascii) : Prop := 32 ≤ code c < 127.
Definition text_ok (s : string) : Prop := Forall printable (chars s).

Lemma is_digit_printable c : is_digit c = true → printable c.
Proof. unfold is_digit, PyString.between, printable. rewrite andb_true_iff, !Nat.leb_le. lia. Qed.

Lemma text_ok_app a b : text_ok (a +:+ b) ↔ text_ok a ∧ text_ok b.
Proof. unfold text_ok. by rewrite chars_app, Forall_app. Qed.

Lemma text_ok_dec s : forallb (λ c, (32 <=? code c) && (code c <? 127)) (chars s) = true → text_ok s.
Proof.
  rewrite forallb_forall. intros Hs. apply Forall_forall. intros c Hc%list_elem_of_In%Hs.
  rewrite andb_true_iff, Nat.leb_le, Nat.ltb_lt in Hc. unfold printable. lia.
Qed.

Lemma digits_text_ok s : digits (chars s) → text_ok s.
Proof. intros Hs. eapply Forall_impl; [exact Hs|]. apply is_digit_printable. Qed.

Lemma text_ok_pretty (n : Z) : text_ok (pretty n).
Proof.
  destruct (decide (0 ≤ n)%Z) as [Hn|Hn]; [apply digits_text_ok; by apply pretty_Z_digits|].
  destruct n as [|p|p]; [lia..|].
  change (text_ok ("-" +:+ pretty (Z.pos p))). apply text_ok_app. split; [by apply text_ok_dec|].
  apply digits_text_ok. by apply pretty_Z_digits.
Qed.

Lemma char_byte c : char_of_byte (byte_of_char c) = c.
Proof. destruct c as [[] [] [] [] [] [] [] []]; reflexivity. Qed.

Lemma decode_text s : char_of_byte <$> text s = chars s.
Proof.
  unfold text. rewrite <- list_fmap_compose. rewrite <- (list_fmap_id (chars s)) at 2.
  apply list_fmap_ext. intros _ c _. apply char_byte.
Qed.

Lemma encode_ok s : Forall (λ c, code c < 128) (chars s) → encode_ascii s = Ret (text s).
Proof.
  intros Hs. unfold encode_ascii. rewrite (proj2 (forallb_forall _ _)); [done|].
  intros c Hc. rewrite Forall_forall in Hs. rewrite Nat.ltb_lt. by apply Hs, list_elem_of_In.
Qed.

(** ** Reading a response *)

Lemma text_app a b : text (a +:+ b) = text a ++ text b.
Proof. unfold text. by rewrite chars_app, fmap_app. Qed.

Lemma printable_not_CR c : printable c → byte_of_char c ≠ Byte.x0d.
Proof.
  intros Hc E. apply (f_equal char_of_byte) in E. rewrite char_byte in E. subst c. destruct Hc as [Hc _].
  vm_compute in Hc. lia.
Qed.

Lemma read_head_line cur l rest :
  Forall (λ x, x ≠ Byte.x0d) l → reverse cur ++ l ≠ [] →
  read_head cur (l ++ CR :: LF :: rest) =
  (p ← read_head [] rest; Some (unchars (char_of_byte <$> reverse cur ++ l) :: p.1, p.2)).
Proof.
  revert cur. induction l as [|x l IH]; intros cur Hl Hne.
  - rewrite app_nil_r in *. by destruct cur.
  - apply Forall_cons in Hl as [Hx Hl].
    assert (read_head cur ((x :: l) ++ CR :: LF :: rest) = read_head (x :: cur) (l ++ CR :: LF :: rest)) as ->.
    { cbn. by destruct x. }
    rewrite IH; [|done|by rewrite reverse_cons, <- app_assoc].
    by rewrite reverse_cons, <- app_assoc.
Qed.

Lemma read_head_text s rest :
  text_ok s → s ≠ "" →
  read_head [] (text s ++ CR :: LF :: rest) = (p ← read_head [] rest; Some (s :: p.1, p.2)).
Proof.
  intros Hs Hne. rewrite read_head_line.
  - cbn [reverse app]. by rewrite reverse_nil, app_nil_l, decode_text, unchars_chars.
  - apply Forall_fmap. eapply Forall_impl; [exact Hs|]. apply printable_not_CR.
  - rewrite reverse_nil, app_nil_l. intros E%fmap_nil_inv. by destruct s.
Qed.

(** The statuses and types the server sends. *)
Definition status_ok (code : Z) : Prop := code ∈ [200; 404; 500; 503]%Z.
Definition type_ok (ty : string) : Prop := ty ∈ ["text/plain"; "application/json"].

Lemma field_split name value lines :
  no_space name → no_space value → name ≠ "" → value ≠ "" →
  field name ((name +:+ " " +:+ value) :: lines) = Some value.
Proof.
  intros Hn Hv Hne Hve. unfold field. cbn [omap list_omap].
  assert (name +:+ " " +:+ value = two_words name value) as ->.
  { unfold two_words. rewrite <- (unchars_chars (name +:+ _)), chars_app. done. }
  rewrite str_split_two by done. rewrite bool_decide_eq_true_2 by done. done.
Qed.

Definition status_line (code : Z) : string :=
  "HTTP/1.1 " +:+ pretty code +:+ " " +:+
  (if (code =? 200)%Z then "OK" else if (code =? 503)%Z then "Service Unavailable" else "Not Found").

Lemma status_line_ok code :
  status_ok code →
  text_ok (status_line code) ∧ status_line code ≠ "" ∧ str_split (status_line code) !! 1 = Some (pretty code)
  ∧ int_of_digits (pretty code) = code
  ∧ ∀ name lines, name ∈ ["Content-Length:"; "Content-Type:"] →
      field name (status_line code :: lines) = field name lines.
Proof.
  unfold status_ok. rewrite !elem_of_cons, elem_of_nil.
  intros [->|[->|[->|[->|[]]]]]; (split; [by apply text_ok_dec|]); (split; [done|]); (split; [reflexivity|]);
    (split; [reflexivity|]); intros name lines; rewrite !elem_of_cons, elem_of_nil; by intros [->|[->|[]]].
Qed.

Lemma text_join s ls : ls ≠ [] → text (Metrics.join crlf (s :: ls)) = text s ++ CR :: LF :: text (Metrics.join crlf ls).
Proof. intros Hls. destruct ls as [|l ls]; [done|]. cbn [Metrics.join]. by rewrite !text_app. Qed.

(** The head of a response, as its lines. *)
Lemma head_text code ty n :
  status_ok code → type_ok ty → (0 ≤ n)%Z →
  let lines := [status_line code; "Content-Type: " +:+ ty; "Content-Length: " +:+ pretty n; "Connection: close"] in
  Forall (λ l, text_ok l ∧ l ≠ "") lines
  ∧ field "Content-Type:" lines = Some ty ∧ field "Content-Length:" lines = Some (pretty n).
Proof.
  intros Hcode Hty Hn lines. destruct (status_line_ok code Hcode) as (Hs & Hsne & _ & _ & Hf).
  destruct (pretty_Z_digits n Hn) as [Hd _]. unfold lines.
  assert (text_ok ty ∧ no_space ty ∧ ty ≠ "") as (Ht1 & Ht2 & Ht3).
  { revert Hty. unfold type_ok. rewrite !elem_of_cons, elem_of_nil.
    intros [->|[->|[]]]; (split; [by apply text_ok_dec|]); (split; [by apply no_space_dec|done]). }
  split; [|split].
  - rewrite !Forall_cons, !text_ok_app.
    split; [done|]. split; [split; [split; [by apply text_ok_dec|done]|done]|].
    split; [split; [split; [by apply text_ok_dec|apply text_ok_pretty]|done]|].
    split; [split; [by apply text_ok_dec|done]|apply Forall_nil_2].
  - rewrite Hf by set_solver. apply (field_split "Content-Type:"); [by apply no_space_dec|done..].
  - rewrite Hf by set_solver. etransitivity; [|apply (field_split "Content-Length:" (pretty n) ["Connection: close"]);
      [by apply no_space_dec|by apply digits_no_space|done|by apply pretty_ne]].
    unfold field. cbn [omap list_omap]. assert ("Content-Type: " +:+ ty = two_words "Content-Type:" ty) as ->.
    { unfold two_words. rewrite <- (unchars_chars ("Content-Type: " +:+ ty)), chars_app. done. }
    rewrite str_split_two; [done|by apply no_space_dec|done..].
Qed.

Definition ascii_only (s : string) : Prop := Forall (λ c, code c < 128) (chars s).

Lemma text_ok_ascii s : text_ok s → ascii_only s.
Proof. intros Hs. eapply Forall_impl; [exact Hs|]. unfold printable. intros c ?. lia. Qed.

Lemma join_ascii sep ls : ascii_only sep → Forall ascii_only ls → ascii_only (Metrics.join sep ls).
Proof.
  intros Hsep Hls. induction Hls as [|l ls Hl Hls IH]; [by apply Forall_nil_2|].
  destruct ls as [|l' ls]; [done|]. cbn [Metrics.join]. unfold ascii_only. rewrite !chars_app, !Forall_app. done.
Qed.

Lemma read_head_lines lines body :
  Forall (λ l, text_ok l ∧ l ≠ "") lines →
  read_head [] (text (Metrics.join crlf (lines ++ [""; ""])) ++ body) = Some (lines, body).
Proof.
  induction 1 as [|l lines [Hl Hne] _ IH]; [reflexivity|]. rewrite <- app_comm_cons, text_join by (by destruct lines).
  rewrite <- app_assoc, <- !app_comm_cons, read_head_text, IH by done. done.
Qed.

(** The exchange ended with the complete response [r], and the connection was
    closed if the response could be drained; otherwise the error of [drain()]
    leaves the connection open. *)
Definition answered (drain wait_closed : res unit) (m : M Writer ()) (r : http_reply) : Prop :=
  ∃ w, client_read (w_out w) = Some r
       ∧ match drain with
         | Ret _ => m writer_new = (w, wait_closed) ∧ w_closed w = true
         | Raise e => m writer_new = (w, Raise e) ∧ w_closed w = false
         end.

(** The response's bytes, and what a client makes of them. *)
Lemma answered_send drain wait_closed code body ty :
  status_ok code → type_ok ty →
  answered drain wait_closed (_send_response drain wait_closed code body ty) (mkReply code ty body).
Proof.
  intros Hcode Hty. pose proof (head_text code ty (len body) Hcode Hty (len_nonneg body)) as (Hok & Ht & Hl).
  set (lines := [_; _; _; _]) in Hok, Ht, Hl. destruct (status_line_ok code Hcode) as (_ & _ & Hs & Hv & _).
  assert (encode_ascii (Metrics.join crlf (lines ++ [""; ""])) = Ret (text (Metrics.join crlf (lines ++ [""; ""])))) as He.
  { apply encode_ok, join_ascii; [repeat constructor; cbn; lia|]. rewrite Forall_app. split.
    - eapply Forall_impl; [exact Hok|]. intros l [? _]. by apply text_ok_ascii.
    - repeat constructor. }
  exists (mkWriter (text (Metrics.join crlf (lines ++ [""; ""])) ++ body) (bool_decide (drain = Ret ()))). split.
  - cbn [w_out]. unfold client_read. rewrite read_head_lines by done. cbn [mbind option_bind fst snd].
    rewrite Hl, Ht. cbn [mbind option_bind]. unfold lines. cbn [head mbind option_bind]. rewrite Hs. cbn [mbind option_bind].
    destruct (pretty_Z_digits (len body) (len_nonneg body)) as [_ Hlen].
    rewrite bool_decide_eq_true_2 by done. by rewrite Hv.
  - unfold _send_response. fold (status_line code). change [status_line code; _; _; _; ""; ""] with (lines ++ [""; ""]).
    unfold lift_res at 1. unfold mbind, M_bind. rewrite He. by destruct drain as [[]|e]; [destruct wait_closed as [[]|]|].
Qed.

(** ** Requests *)

(** What a client sends. *)
Definition client_request (method path : string) (hdrs : list string) : bytes :=
  text (Metrics.join crlf (((method +:+ " " +:+ path +:+ " HTTP/1.1") :: hdrs) ++ [""; ""])).

Lemma find_skip sep l r :
  Forall (λ x, x ≠ CR) l → find_bytes (CR :: sep) (l ++ r) = (λ n, length l + n) <$> find_bytes (CR :: sep) r.
Proof.
  induction 1 as [|x l Hx _ IH]; [cbn [app]; by destruct (find_bytes (CR :: sep) r)|]. cbn [app].
  transitivity (S <$> find_bytes (CR :: sep) (l ++ r)).
  - cbn. rewrite bool_decide_eq_false_2; [done|]. by intros [= ? _].
  - rewrite IH. by destruct (find_bytes (CR :: sep) r).
Qed.

Lemma text_no_CR s : text_ok s → Forall (λ x, x ≠ CR) (text s).
Proof. intros Hs. apply Forall_fmap. eapply Forall_impl; [exact Hs|]. apply printable_not_CR. Qed.

Lemma find_head lines :
  Forall (λ l, text_ok l ∧ l ≠ "") lines → lines ≠ [] →
  let t := text (Metrics.join crlf (lines ++ [""; ""])) in
  find_bytes [CR; LF; CR; LF] t = Some (length t - 4) ∧ 4 ≤ length t.
Proof.
  induction 1 as [|l lines [Hl Hne] Hls IH]; [done|]. intros _ t. subst t.
  rewrite <- app_comm_cons, text_join by (by destruct lines). rewrite find_skip by (by apply text_no_CR).
  destruct lines as [|l' lines].
  - change (text (Metrics.join crlf ([] ++ [""; ""]))) with [CR; LF].
    assert (find_bytes [CR; LF; CR; LF] [CR; LF; CR; LF] = Some 0) as -> by reflexivity.
    rewrite length_app. cbn [fmap option_fmap option_map length]. split; [f_equal; lia|lia].
  - specialize (IH ltac:(done)). set (t := text (Metrics.join crlf ((l' :: lines) ++ _))) in *.
    assert (∃ c r, t = byte_of_char c :: r ∧ printable c) as (c & r & Et & Hc).
    { apply Forall_cons in Hls as [[Hl' Hne'] _]. unfold t. rewrite <- app_comm_cons, text_join by (by destruct lines).
      destruct l' as [|c l']; [done|]. apply Forall_cons in Hl' as [Hc _]. eexists _, _. split; [reflexivity|done]. }
    destruct IH as [IH Hlen].
    assert (find_bytes [CR; LF; CR; LF] (CR :: LF :: t) = (λ n, 2 + n) <$> find_bytes [CR; LF; CR; LF] t) as ->.
    { transitivity (S <$> find_bytes [CR; LF; CR; LF] ([LF] ++ t)).
      - rewrite Et. cbn. rewrite bool_decide_eq_false_2; [done|]. intros [= E _]. by apply printable_not_CR in E.
      - rewrite find_skip by (by constructor). by destruct (find_bytes [CR; LF; CR; LF] t). }
    rewrite IH, length_app. cbn [fmap option_fmap option_map length]. split; [f_equal; lia|lia].
Qed.

Definition word (s : string) : Prop := text_ok s ∧ no_space s ∧ s ≠ "".

Lemma byte_of_char_ascii c : code c < 128 → (byte_to_Z (byte_of_char c) < 128)%Z.
Proof.
  intros Hc. unfold byte_of_char. rewrite byte_of_to_Z by (unfold code in *; pose proof (nat_ascii_bounded c); lia). lia.
Qed.

Lemma decode_ignore_text s : ascii_only s → decode_ascii_ignore (text s) = s.
Proof.
  intros Hs. unfold decode_ascii_ignore. rewrite filter_all.
  - by rewrite decode_text, unchars_chars.
  - apply Forall_forall, Forall_fmap. eapply Forall_impl; [exact Hs|]. apply byte_of_char_ascii.
Qed.

Lemma str_split_three a b c :
  no_space a → no_space b → no_space c → a ≠ "" → b ≠ "" → c ≠ "" → str_split (a +:+ " " +:+ b +:+ " " +:+ c) = [a; b; c].
Proof.
  intros Ha Hb Hc Hna Hnb Hnc. unfold str_split. rewrite !chars_app. cbn [String.list_ascii_of_string app].
  rewrite split_go_token; [|done|done|by intros ?%chars_nil].
  rewrite split_go_token; [|done|done|by intros ?%chars_nil].
  rewrite split_go_last; [|done|by intros ?%chars_nil]. cbn. by rewrite !unchars_chars.
Qed.

(** The server gets the method and the path out of a request. *)
Lemma request_read method path hdrs e :
  word method → word path → Forall (λ l, text_ok l ∧ l ≠ "") hdrs →
  (len (client_request method path hdrs) ≤ _DEFAULT_LIMIT)%Z →
  readuntil [CR; LF; CR; LF] (mkStream (client_request method path hdrs) e) =
    Ret (client_request method path hdrs, mkStream [] e)
  ∧ str_split (request_line (client_request method path hdrs)) = [method; path; "HTTP/1.1"].
Proof.
  intros (Hm1 & Hm2 & Hm3) (Hp1 & Hp2 & Hp3) Hh Hlen.
  assert (text_ok (method +:+ " " +:+ path +:+ " HTTP/1.1")) as Hl.
  { rewrite !text_ok_app. split; [done|]. split; [by apply text_ok_dec|]. split; [done|by apply text_ok_dec]. }
  assert (method +:+ " " +:+ path +:+ " HTTP/1.1" ≠ "") as Hne by (by destruct method).
  split.
  - destruct (find_head ((method +:+ " " +:+ path +:+ " HTTP/1.1") :: hdrs)) as [Hf H4]; [by constructor|done|].
    fold (client_request method path hdrs) in Hf, H4. unfold readuntil. cbn [st_data st_end]. rewrite Hf.
    unfold len in Hlen. rewrite (proj2 (Z.ltb_ge _ _)) by lia. cbn [length].
    by rewrite Nat.sub_add, firstn_all, skipn_all by done.
  - unfold request_line, client_request. rewrite <- app_comm_cons, text_join by (by destruct hdrs).
    set (rest := text (Metrics.join crlf (hdrs ++ [""; ""]))). rewrite find_skip by (by apply text_no_CR).
    assert (find_bytes [CR; LF] (CR :: LF :: rest) = Some 0) as -> by (by destruct rest).
    cbn [fmap option_fmap option_map]. rewrite Nat.add_0_r, take_app_length, decode_ignore_text by (by apply text_ok_ascii).
    apply (str_split_three method path "HTTP/1.1"); try done. by apply no_space_dec.
Qed.

(** ** Bodies *)

Lemma sorted_keys_spec (snap : gmap string Z) :
  Sorted string_le (sorted_keys snap) ∧ sorted_keys snap ≡ₚ (map_to_list snap).*1.
Proof.
  split; [|apply merge_sort_Permutation].
  apply Sorted_merge_sort. intros a b. apply String.leb_total.
Qed.

Lemma join_newline ls : ls ≠ [] → Metrics.join newline ls +:+ newline = unlines ls.
Proof.
  intros Hls. rewrite <- (unchars_chars (_ +:+ newline)). unfold unlines. f_equal.
  induction ls as [|l ls IH]; [done|]. destruct ls as [|l' ls].
  - rewrite chars_app. cbn. by rewrite app_nil_r.
  - specialize (IH ltac:(done)). rewrite chars_app in IH |- *.
    change (Metrics.join newline (l :: l' :: ls)) with (l +:+ newline +:+ Metrics.join newline (l' :: ls)).
    rewrite !chars_app, <- !app_assoc, IH. cbn. by rewrite <- !app_assoc.
Qed.

Lemma digit_char_printable n : (0 ≤ n < 10)%Z → printable (digit_char n).
Proof. intros Hn. unfold printable, digit_char, code. rewrite nat_ascii_embedding; lia. Qed.

Lemma format_3f_ok ns : text_ok (format_3f ns).
Proof.
  unfold format_3f. rewrite !text_ok_app. split; [apply text_ok_pretty|]. split; [by apply text_ok_dec|].
  unfold text_ok. rewrite chars_unchars. do 3 (apply Forall_cons_2; [apply digit_char_printable, Z.mod_pos_bound; lia|]). apply Forall_nil_2.
Qed.

(** The state's own text: metric names and the version line. *)
Definition state_text_ok (s : HttpSt) : Prop :=
  Forall text_ok (map_to_list (snapshot (hs_metrics s))).*1 ∧ text_ok (_build_info_line s).

Lemma metrics_lines_ok s start now : state_text_ok s → Forall text_ok (metrics_lines s start now).
Proof.
  intros [Hk Hb]. unfold metrics_lines. rewrite Forall_app, !Forall_cons, text_ok_app. split.
  - apply Forall_fmap. rewrite (proj2 (sorted_keys_spec _)). eapply Forall_impl; [exact Hk|].
    intros k Hkey. cbn. unfold metric_line. rewrite !text_ok_app. split; [done|]. split; [by apply text_ok_dec|apply text_ok_pretty].
  - split; [done|]. split; [|by apply Forall_nil_2]. split; [by apply text_ok_dec|apply format_3f_ok].
Qed.

Lemma printable_no_break s : text_ok s → no_break s.
Proof.
  intros Hs. eapply Forall_impl; [exact Hs|]. intros c Hc. unfold printable in Hc. unfold is_linebreak, PyString.between.
  rewrite orb_false_iff, !andb_false_iff, !Nat.leb_gt. lia.
Qed.

Lemma metrics_body_ok s start now :
  state_text_ok s →
  ∃ body, metrics_body s start now = Ret body
          ∧ splitlines (unchars (char_of_byte <$> body)) = metrics_lines s start now.
Proof.
  intros Hs. pose proof (metrics_lines_ok s start now Hs) as Hl. unfold metrics_body.
  assert (metrics_lines s start now ≠ []) as Hne by (unfold metrics_lines; by destruct (_ <$> _)).
  exists (text (unlines (metrics_lines s start now))). split.
  - rewrite join_newline by done. apply encode_ok. rewrite <- join_newline by done. rewrite chars_app, Forall_app.
    split; [|repeat constructor; cbn; lia]. apply (join_ascii newline); [repeat constructor; cbn; lia|].
    eapply Forall_impl; [exact Hl|]. apply text_ok_ascii.
  - rewrite decode_text, unchars_chars. apply splitlines_unlines.
    eapply Forall_impl; [exact Hl|]. apply printable_no_break.
Qed.

(** The exposition has one line per metric, sorted by name, and two more. *)
Lemma metrics_lines_spec s start now :
  let snap := snapshot (hs_metrics s) in
  length (metrics_lines s start now) = size snap + 2
  ∧ (∀ k v, snap !! k = Some v → k +:+ " " +:+ pretty v ∈ metrics_lines s start now)
  ∧ ∃ ks, Sorted string_le ks ∧ NoDup ks ∧ metric_line snap <$> ks = take (size snap) (metrics_lines s start now).
Proof.
  intros snap. destruct (sorted_keys_spec snap) as [Hsort Hperm].
  assert (length (sorted_keys snap) = size snap) as Hlen.
  { rewrite Hperm, length_fmap. apply length_map_to_list. }
  unfold metrics_lines. fold snap. split; [|split].
  - by rewrite length_app, length_fmap, Hlen.
  - intros k v Hk. apply elem_of_app. left. apply list_elem_of_fmap. exists k. split.
    + unfold metric_line, cget. by rewrite Hk.
    + rewrite Hperm. apply list_elem_of_fmap. exists (k, v). split; [done|]. by apply elem_of_map_to_list.
  - exists (sorted_keys snap). split; [done|]. split.
    + rewrite Hperm. apply NoDup_fst_map_to_list.
    + rewrite take_app_le by (rewrite length_fmap; lia). rewrite take_ge; [done|]. rewrite length_fmap. lia.
Qed.

Lemma json_escape_ascii c : ascii_only (json_escape c).
Proof.
  assert (forallb (λ c, code c <? 128) (chars (json_escape c)) = true) as Hb
    by (destruct c as [[] [] [] [] [] [] [] []]; reflexivity).
  rewrite forallb_forall in Hb. apply Forall_forall. intros x Hx. apply Nat.ltb_lt, Hb. by apply list_elem_of_In.
Qed.

Lemma ascii_only_app a b : ascii_only (a +:+ b) ↔ ascii_only a ∧ ascii_only b.
Proof. unfold ascii_only. by rewrite chars_app, Forall_app. Qed.

Lemma concat_ascii ls : Forall ascii_only ls → ascii_only (String.concat "" ls).
Proof.
  induction 1 as [|l ls Hl Hls IH]; [by apply Forall_nil_2|]. destruct ls as [|l' ls]; [done|].
  change (String.concat "" (l :: l' :: ls)) with (l +:+ "" +:+ String.concat "" (l' :: ls)).
  rewrite !ascii_only_app. split; [done|]. split; [by apply Forall_nil_2|done].
Qed.

Lemma stats_body_ok payload : stats_body (Ret payload) = Ret (text (stats_dumps payload)).
Proof.
  apply encode_ok. change (ascii_only (stats_dumps payload)). unfold stats_dumps. rewrite !ascii_only_app.
  split; [repeat constructor; cbn; lia|]. split; [|repeat constructor; cbn; lia].
  apply join_ascii; [repeat constructor; cbn; lia|]. apply Forall_fmap, Forall_true. intros [k v]. cbn.
  rewrite !ascii_only_app. split; [|split; [repeat constructor; cbn; lia|apply text_ok_ascii, text_ok_pretty]].
  unfold json_str. rewrite !ascii_only_app. split; [repeat constructor; cbn; lia|]. split; [|repeat constructor; cbn; lia].
  apply concat_ascii, Forall_fmap, Forall_true. intros c. apply json_escape_ascii.
Qed.

(** ** The server *)

Section server.
Context (drain wait_closed : res unit).
Context (cfg : HttpMetricsConfig) (s : HttpSt) (provider : option (res (list (string * Z)))) (start now : Z).
Context (Hs : state_text_ok s) (Hprovider : ∀ e, provider = Some (Raise e) → is_Exception e = true).

(** What a client that asks for [path] reads. *)
Definition expected (method path : string) (r : http_reply) : Prop :=
  if bool_decide (method = "GET" ∧ path = "/metrics") then
    hr_status r = 200%Z ∧ hr_type r = "text/plain"
    ∧ splitlines (unchars (char_of_byte <$> hr_body r)) = metrics_lines s start now
  else if bool_decide (method = "GET" ∧ path = "/healthz") then r = mkReply 200 "text/plain" (text "ok")
  else if bool_decide (method = "GET" ∧ path = "/readyz") then
    if is_ready (ready_state s) then r = mkReply 200 "text/plain" (text "ok")
    else r = mkReply 503 "text/plain" (text "not ready")
  else if bool_decide (method = "GET" ∧ path = "/cache/stats") then
    match provider with
    | Some (Ret payload) => r = mkReply 200 "application/json" (text (stats_dumps payload) ++ [LF])
    | Some (Raise _) => r = mkReply 500 "text/plain" (text "error")
    | None => r = mkReply 404 "text/plain" (text "not found")
    end
  else r = mkReply 404 "text/plain" (text "not found").

Lemma handle_words st data st' method path ws :
  readuntil [CR; LF; CR; LF] st = Ret (data, st') → (len data ≤ max_header_bytes cfg)%Z →
  str_split (request_line data) = method :: path :: ws →
  ∃ r, answered drain wait_closed (_handle_client drain wait_closed cfg s provider start now st) r ∧ expected method path r.
Proof.
  intros Hr Hlen Hw. unfold _handle_client. rewrite Hr, (proj2 (Z.ltb_ge _ _) Hlen), Hw.
  assert (answered drain wait_closed (_send_response drain wait_closed 404 (text "not found") "text/plain")
            (mkReply 404 "text/plain" (text "not found"))) as A404 by (apply answered_send; set_solver).
  unfold expected.
  destruct (decide (method = "GET")) as [->|Hm]; cycle 1.
  { rewrite (bool_decide_eq_false_2 (method = "GET")) by done. cbn [negb].
    do 4 (rewrite bool_decide_eq_false_2 by (by intros [? ?])). eauto 10. }
  rewrite (bool_decide_eq_true_2 ("GET" = "GET")) by done. cbn [negb].
  assert (∀ p, bool_decide ("GET" = "GET" ∧ path = p) = bool_decide (path = p)) as Hb
    by (intros p; apply bool_decide_ext; tauto).
  rewrite !Hb.
  case_bool_decide.
  { destruct (metrics_body_ok s start now Hs) as (body & Eb & Hsplit).
    destruct (answered_send drain wait_closed 200 body "text/plain") as (w & Aw & Rw); [set_solver..|].
    exists (mkReply 200 "text/plain" body). split; [|done]. exists w. split; [done|].
    unfold mbind, M_bind, lift_res at 1. rewrite Eb. done. }
  case_bool_decide; [eexists; split; [by apply answered_send; set_solver|done]|].
  case_bool_decide; [destruct (is_ready (ready_state s)); eexists; (split; [by apply answered_send; set_solver|done])|].
  case_bool_decide; [|eauto 10].
  destruct provider as [[payload|e]|].
  - rewrite stats_body_ok. eexists; split; [by apply answered_send; set_solver|done].
  - cbn [stats_body]. rewrite Hprovider by done. eexists; split; [by apply answered_send; set_solver|done].
  - eauto 10.
Qed.

(** The three ways a connection can end, whatever arrives on it: the request is
    refused without a response and the connection closed; the reader's own
    error leaves it without a response and open; or it is answered. *)
Lemma handle_ends st :
  let m := _handle_client drain wait_closed cfg s provider start now st in
  m writer_new = (mkWriter [] true, wait_closed)
  ∨ (is_head_error (st_end st) = false ∧ m writer_new = (writer_new, Raise (st_end st)))
  ∨ ∃ r, answered drain wait_closed m r.
Proof.
  intros m. unfold m.
  destruct (readuntil [CR; LF; CR; LF] st) as [[data st']|e] eqn:Er.
  - destruct (max_header_bytes cfg <? len data)%Z eqn:El.
    { left. unfold _handle_client. rewrite Er, El. by destruct wait_closed as [[]|]. }
    destruct (str_split (request_line data)) as [|method [|path ws]] eqn:Ew.
    1, 2: left; unfold _handle_client; rewrite Er, El, Ew; by destruct wait_closed as [[]|].
    zbool. destruct (handle_words st data st' method path ws Er El Ew) as (r & Ha & _). eauto.
  - unfold _handle_client. rewrite Er. destruct (is_head_error e) eqn:Ee; [left; by destruct wait_closed as [[]|]|].
    right; left. assert (e = st_end st) as ->; [|done].
    revert Er. unfold readuntil. destruct (find_bytes _ _); case_match; intros ?; by simplify_eq.
Qed.
End server.

Module http_example.
Definition m : Metrics := inc "queries_total" 3 (inc "cache_miss_total" 1 metrics_new).
Definition s : HttpSt := http_new m None (Ret "0.11.0").
Definition hdrs : list string := ["Host: localhost"].
Definition stats : list (string * Z) := [("entries_total", 2%Z); ("fresh_total", 1%Z)].
End http_example.

(** C35: The HTTP metrics server. Whatever arrives on a connection, and however
    [drain()] and [wait_closed()] end, the server writes nothing or exactly one
    complete response, and closes the connection except in two cases, in which
    the error ends the task: reading the request raised something other than a
    timeout, an early end or an overlong head, and then nothing was written; or
    [drain()] raised after the response was written. A client that sends a
    request for a path is answered: under [/metrics] with one line per metric,
    sorted by name, with its value, and the version and uptime lines; under
    [/healthz], [/readyz] and [/cache/stats] with the liveness, the readiness
    and the statistics; for any other path or method with a 404. *)
Theorem http_client_correct (cfg : HttpMetricsConfig) (s : HttpSt) (provider : option (res (list (string * Z))))
    (start now : Z) (drain wait_closed : res unit) :
  state_text_ok s → (∀ e, provider = Some (Raise e) → is_Exception e = true) →
  let snap := snapshot (hs_metrics s) in
  let serve := _handle_client drain wait_closed cfg s provider start now in
  (∀ st, ∃ w o, serve st writer_new = (w, o) ∧ (w_out w = [] ∨ ∃ r, client_read (w_out w) = Some r)
     ∧ if w_closed w then o = wait_closed
       else if bool_decide (w_out w = []) then
         o = Raise (st_end st) ∧ st_end st ∉ [TimeoutError; IncompleteReadError; LimitOverrunError]
       else ∃ e, drain = Raise e ∧ o = Raise e)
  ∧ (∀ method path hdrs e,
       word method → word path → Forall (λ l, text_ok l ∧ l ≠ "") hdrs →
       (len (client_request method path hdrs) ≤ Z.min _DEFAULT_LIMIT (max_header_bytes cfg))%Z →
       ∃ r, answered drain wait_closed (serve (mkStream (client_request method path hdrs) e)) r
            ∧ expected s provider start now method path r)
  ∧ length (metrics_lines s start now) = size snap + 2
  ∧ (∀ k v, snap !! k = Some v → k +:+ " " +:+ pretty v ∈ metrics_lines s start now)
  ∧ ∃ ks, Sorted string_le ks ∧ NoDup ks ∧ metric_line snap <$> ks = take (size snap) (metrics_lines s start now).
Proof.
  intros Hs Hp snap serve. split; [|split; [|apply metrics_lines_spec]].
  { intros st. unfold serve. destruct (handle_ends drain wait_closed cfg s provider start now Hs Hp st)
      as [->|[[He ->]|(r & w & Hr & Hw)]].
    - eexists _, _. split; [reflexivity|]. by split; [left|].
    - eexists _, _. split; [reflexivity|]. split; [by left|]. split; [done|]. revert He. destruct (st_end st); (done || set_solver).
    - destruct drain as [[]|e]; destruct Hw as [-> Hc]; eexists _, _; (split; [reflexivity|]); rewrite Hc;
        (split; [by eauto|]); [done|].
      rewrite bool_decide_eq_false_2; [by eauto|]. intros E. by rewrite E in Hr. }
  intros method path hdrs e Hm Hpath Hh Hlen.
  destruct (request_read method path hdrs e) as [Hr Hw]; [done..|lia|].
  eapply handle_words; [done|done|exact Hr|lia|exact Hw].
Qed.

Lemma http_client_correct_witness :
  ∃ w, _handle_client (Raise OtherException) (Ret ()) HttpMetricsConfig_default http_example.s
         (Some (Ret http_example.stats)) 0 5
         (mkStream (client_request "GET" "/cache/stats" http_example.hdrs) TimeoutError) writer_new
       = (w, Raise OtherException)
     ∧ w_closed w = false ∧ ∃ r, client_read (w_out w) = Some r ∧ hr_status r = 200%Z.
Proof.
  destruct (http_client_correct HttpMetricsConfig_default http_example.s (Some (Ret http_example.stats)) 0 5
              (Raise OtherException) (Ret ())) as (_ & Hreq & _).
  - split; [|by apply text_ok_dec]. vm_compute map_to_list. repeat (apply Forall_cons_2; [by apply text_ok_dec|]).
    by apply Forall_nil_2.
  - done.
  - destruct (Hreq "GET" "/cache/stats" http_example.hdrs TimeoutError) as (r & (w & Ha & Hw & Hc) & Hr).
    + split; [by apply text_ok_dec|]. split; [by apply no_space_dec|done].
    + split; [by apply text_ok_dec|]. split; [by apply no_space_dec|done].
    + apply Forall_cons_2; [|by apply Forall_nil_2]. split; [by apply text_ok_dec|done].
    + vm_compute. discriminate.
    + exists w. split; [exact Hw|]. split; [exact Hc|]. exists r. split; [exact Ha|].
      unfold expected in Hr. cbn in Hr. by rewrite Hr.
Defined.
