(* ===== verification/Config.v ===== *)
(** * Configuration ([src/resilientdns/config.py])

    The settings, how the parsed arguments become settings, and
    [validate_config] with the URL check of [relay_types.py].  [urlsplit] follows
    the standard library on ASCII text; the
    check of an address in brackets is an argument. *)
From S2P Require Import Prelude PyFloat PyString Relay.
From stdpp Require Import base list strings.
From Stdlib Require Import Ascii.
From Stdlib.Floats Require Import SpecFloat.

(** ** [urllib.parse.urlsplit] *)

Record split_url := mkSplit { u_scheme : string; u_netloc : string; u_query : string; u_fragment : string }.

Definition scheme_char (c : ascii) : bool :=
  PyString.between 97 122 c || PyString.between 65 90 c || is_digit c || (code c =? 43) || (code c =? 45) || (code c =? 46).
Definition is_alpha (c : ascii) : bool := PyString.between 97 122 c || PyString.between 65 90 c.
Definition is_char (n : nat) (c : ascii) : bool := code c =? n.

(** The text before and after the first character that satisfies [p]. *)
Fixpoint span_until (p : ascii → bool) (l : list ascii) : list ascii * list ascii :=
  match l with
  | [] => ([], [])
  | c :: l' => if p c then ([], l) else let '(a, b) := span_until p l' in (c :: a, b)
  end.

(** Tab, newline and carriage return are removed, and leading control
    characters and spaces dropped. *)
Definition clean_url (l : list ascii) : list ascii :=
  drop_while (λ c, code c <=? 32) (filter (λ c, (is_char 9 c || is_char 10 c || is_char 13 c) = false) l).

Definition split_scheme (l : list ascii) : list ascii * list ascii :=
  match span_until (is_char 58) l with
  | (c :: s, _ :: rest) =>
      if is_alpha c && forallb scheme_char (c :: s) then (lower_char <$> c :: s, rest) else ([], l)
  | _ => ([], l)
  end.

Definition urlsplit (bracketed_ok : string → bool) (url : string) : res split_url :=
  let '(scheme, rest) := split_scheme (clean_url (chars url)) in
  let '(netloc, rest) :=
    match rest with
    | a :: b :: r =>
        if is_char 47 a && is_char 47 b
        then span_until (λ c, is_char 47 c || is_char 63 c || is_char 35 c) r else ([], rest)
    | _ => ([], rest)
    end in
  let opens := existsb (is_char 91) netloc in
  let closes := existsb (is_char 93) netloc in
  if xorb opens closes then Raise (ValueError "Invalid IPv6 URL")
  else if opens && negb (bracketed_ok (unchars netloc)) then Raise (ValueError "Invalid IPv6 URL")
  else
    let '(rest, fragment) := span_until (is_char 35) rest in
    let '(_, query) := span_until (is_char 63) rest in
    Ret (mkSplit (unchars scheme) (unchars netloc) (unchars (drop 1 query)) (unchars (drop 1 fragment))).

(** [if b: raise ValueError(msg)], then [k]. *)
Definition raise_if (b : bool) (msg : string) (k : res unit) : res unit :=
  if b then Raise (ValueError msg) else k.
(** One check after another. *)
Definition then_ (a b : res unit) : res unit := match a with Ret _ => b | Raise e => Raise e end.

Definition validate_base_url (bracketed_ok : string → bool) (base_url : string) : res unit :=
  raise_if (negb (truthy (strip base_url))) "relay_base_url must be non-empty" (
  raise_if (negb (bool_decide (strip base_url = base_url)))
    "relay_base_url must not include surrounding whitespace" (
  match urlsplit bracketed_ok base_url with
  | Raise e => Raise e
  | Ret parts =>
      raise_if (negb (bool_decide (u_scheme parts ∈ ["http"; "https"])))
        "relay_base_url must start with http:// or https://" (
      raise_if (negb (truthy (u_netloc parts))) "relay_base_url must include a host" (
      raise_if (truthy (u_query parts) || truthy (u_fragment parts))
        "relay_base_url must not include a querystring or fragment" (Ret ())))
  end)).

(** ** [Config] *)

Module Config.
Record Config := mkConfig {
  listen_host : string; listen_port : Z; max_inflight : Z;
  metrics_host : string; metrics_port : Z;
  upstream_transport : string; upstream_host : string; upstream_port : Z; upstream_timeout_s : float;
  serve_stale_max_s : Z; negative_ttl_s : Z; cache_max_entries : Z;
  tcp_pool_max_conns : Z; tcp_pool_idle_timeout_s : Z; udp_max_workers : Z; verbose : bool;
  relay_base_url : option string; relay_api_version : Z; relay_auth_token : option string;
  relay_startup_check : string; relay_max_items : Z; relay_max_request_bytes : Z;
  relay_per_item_max_wire_bytes : Z; relay_max_response_bytes : Z;
  refresh_enabled : bool; refresh_ahead_seconds : Z; refresh_popularity_threshold : Z;
  refresh_popularity_decay_seconds : Z; refresh_tick_ms : Z; refresh_batch_size : Z;
  refresh_concurrency : Z; refresh_queue_max : Z;
  refresh_warmup_enabled : bool; refresh_warmup_file : option string; refresh_warmup_limit : Z;
}.
Definition Config_default : Config :=
  mkConfig "127.0.0.1" 5353 256 "127.0.0.1" 0 "udp" "1.1.1.1" 53 (float_of_Z 2) 300 60 0 4 (30 * SECOND) 32 false
    None 1 None "require" 32 65536 4096 262144 false 30 5 0 500 50 5 1024 false None 200.

(** The attributes of the parsed command line that [build_config] reads. *)
Record Namespace := mkNamespace {
  a_listen_host : string; a_listen_port : Z; a_max_inflight : Z; a_metrics_host : string; a_metrics_port : Z;
  a_upstream_transport : string; a_upstream_host : string; a_upstream_port : Z; a_upstream_timeout : float;
  a_serve_stale_max : Z; a_negative_ttl : Z; a_verbose : bool;
  a_relay_base_url : option string; a_relay_api_version : Z; a_relay_auth_token : option string;
  a_relay_startup_check : string; a_relay_max_items : Z; a_relay_max_request_bytes : Z;
  a_relay_per_item_max_wire_bytes : Z; a_relay_max_response_bytes : Z;
  a_refresh_enabled : bool; a_refresh_ahead_seconds : Z; a_refresh_popularity_threshold : Z;
  a_refresh_popularity_decay_seconds : Z; a_refresh_tick_ms : Z; a_refresh_batch_size : Z;
  a_refresh_concurrency : Z; a_refresh_queue_max : Z; a_refresh_warmup_enabled : bool;
  a_refresh_warmup_file : option string; a_refresh_warmup_limit : Z;
}.

Definition build_config (a : Namespace) : Config :=
  mkConfig (a_listen_host a) (a_listen_port a) (a_max_inflight a) (a_metrics_host a) (a_metrics_port a)
    (a_upstream_transport a) (a_upstream_host a) (a_upstream_port a) (a_upstream_timeout a)
    (a_serve_stale_max a) (a_negative_ttl a)
    (cache_max_entries Config_default) (tcp_pool_max_conns Config_default)
    (tcp_pool_idle_timeout_s Config_default) (udp_max_workers Config_default) (a_verbose a)
    (a_relay_base_url a) (a_relay_api_version a) (a_relay_auth_token a) (a_relay_startup_check a)
    (a_relay_max_items a) (a_relay_max_request_bytes a) (a_relay_per_item_max_wire_bytes a)
    (a_relay_max_response_bytes a) (a_refresh_enabled a) (a_refresh_ahead_seconds a)
    (a_refresh_popularity_threshold a) (a_refresh_popularity_decay_seconds a) (a_refresh_tick_ms a)
    (a_refresh_batch_size a) (a_refresh_concurrency a) (a_refresh_queue_max a)
    (a_refresh_warmup_enabled a) (a_refresh_warmup_file a) (a_refresh_warmup_limit a).

Definition relay_limits (cfg : Config) : RelayLimits :=
  mkRelayLimits (relay_max_items cfg) (relay_max_request_bytes cfg) (relay_per_item_max_wire_bytes cfg)
    (relay_max_response_bytes cfg).

(** Whether a port is outside 1 to 65535. *)
Definition bad_port (p : Z) : bool := (p <? 1)%Z || (65535 <? p)%Z.

(** The last part: the relay's settings. *)
Definition validate_relay (bracketed_ok : string → bool) (cfg : Config) : res unit :=
  then_
    (match relay_base_url cfg with
     | Some url =>
         if truthy url then
           then_ (validate_base_url bracketed_ok url)
             (then_ (validate_startup_check (relay_startup_check cfg)) (validate_limits (relay_limits cfg)))
         else Ret ()
     | None => Ret ()
     end)
    (if bool_decide (upstream_transport cfg = "relay") then
       raise_if (negb (truthy (relay_base_url cfg)))
         "relay_base_url is required when upstream_transport=relay" (
       raise_if (relay_api_version cfg <? 1)%Z "relay_api_version must be >= 1" (Ret ()))
     else Ret ()).

Definition validate_config (bracketed_ok : string → bool) (cfg : Config) : res unit :=
  raise_if (negb (truthy (strip (listen_host cfg)))) "listen_host must be non-empty" (
  raise_if (negb (truthy (strip (upstream_host cfg)))) "upstream_host must be non-empty" (
  raise_if (negb (truthy (strip (metrics_host cfg)))) "metrics_host must be non-empty" (
  raise_if (bad_port (listen_port cfg)) "listen_port must be between 1 and 65535" (
  raise_if (bad_port (upstream_port cfg)) "upstream_port must be between 1 and 65535" (
  raise_if (negb (metrics_port cfg =? 0)%Z && bad_port (metrics_port cfg))
    "metrics_port must be 0 or between 1 and 65535" (
  raise_if (negb (bool_decide (upstream_transport cfg ∈ ["udp"; "tcp"; "relay"])))
    "upstream_transport must be 'udp', 'tcp', or 'relay'" (
  raise_if (SFleb (upstream_timeout_s cfg) (float_of_Z 0)) "upstream_timeout_s must be > 0" (
  raise_if (serve_stale_max_s cfg <? 0)%Z "serve_stale_max_s must be >= 0" (
  raise_if (negative_ttl_s cfg <? 0)%Z "negative_ttl_s must be >= 0" (
  raise_if (cache_max_entries cfg <? 0)%Z "cache_max_entries must be >= 0" (
  raise_if (refresh_ahead_seconds cfg <? 0)%Z "refresh_ahead_seconds must be >= 0" (
  raise_if (refresh_popularity_threshold cfg <? 0)%Z "refresh_popularity_threshold must be >= 0" (
  raise_if (refresh_popularity_decay_seconds cfg <? 0)%Z "refresh_popularity_decay_seconds must be >= 0" (
  raise_if (refresh_tick_ms cfg <=? 0)%Z "refresh_tick_ms must be > 0" (
  raise_if (refresh_batch_size cfg <=? 0)%Z "refresh_batch_size must be > 0" (
  raise_if (refresh_enabled cfg && (refresh_concurrency cfg <=? 0)%Z)
    "refresh_concurrency must be >= 1 when refresh is enabled" (
  raise_if (refresh_concurrency cfg <? 0)%Z "refresh_concurrency must be >= 0" (
  raise_if (refresh_queue_max cfg <? 0)%Z "refresh_queue_max must be >= 0" (
  raise_if (refresh_warmup_enabled cfg && negb (refresh_enabled cfg))
    "Warmup requires refresh_enabled=true because warmup jobs are executed by refresh workers." (
  raise_if (refresh_warmup_enabled cfg && negb (truthy (refresh_warmup_file cfg)))
    "refresh_warmup_file is required when warmup is enabled" (
  raise_if (refresh_warmup_enabled cfg && (refresh_warmup_limit cfg <=? 0)%Z)
    "refresh_warmup_limit must be > 0 when warmup is enabled" (
  raise_if (max_inflight cfg <? 1)%Z "max_inflight must be >= 1" (
  raise_if (udp_max_workers cfg <? 1)%Z "udp_max_workers must be >= 1" (
  raise_if (tcp_pool_max_conns cfg <? 0)%Z "tcp_pool_max_conns must be >= 0" (
  raise_if (tcp_pool_idle_timeout_s cfg <=? 0)%Z "tcp_pool_idle_timeout_s must be > 0" (
  validate_relay bracketed_ok cfg)))))))))))))))))))))))))).
End Config.
