(* ===== verification/Argparse.v ===== *)
(** * Command lines ([argparse])

    What [argparse.ArgumentParser], as the program and its tool use it, makes of
    the arguments: long options as [--name value], [--name=value] or by a unique
    prefix, single-dash options also with their value attached or combined,
    [-h], and at most one positional argument; anything else, a missing or
    ill-typed value, or a value outside the choices ends the process with status
    2. *)
From S2P Require Import Prelude PyFloat PyString Config.
From stdpp Require Import base list strings gmap sets pretty.
From Stdlib Require Import Ascii.
From Stdlib.Floats Require Import SpecFloat.

(** ** Values *)

Inductive pyval : Type :=
| VNone
| VStr (s : string)
| VInt (z : Z)
| VFloat (x : float)
| VBool (b : bool).

#[global] Instance pyval_eq_dec : EqDecision pyval.
Proof. solve_decision. Defined.

(** [int(s)]: white space around, a sign, digits with single underscores
    between them, at most 4300 of them. *)
Fixpoint digits_go (need : bool) (l : list ascii) : option (list ascii) :=
  match l with
  | [] => if need then None else Some []
  | c :: l =>
      if is_digit c then cons c <$> digits_go false l
      else if (code c =? 95) && negb need then digits_go true l
      else None
  end.
Definition digits_of (l : list ascii) : option (list ascii) := digits_go true l.

Definition split_sign (l : list ascii) : bool * list ascii :=
  match l with
  | c :: l' => if code c =? 45 then (true, l') else if code c =? 43 then (false, l') else (false, l)
  | [] => (false, [])
  end.
Definition signed (neg : bool) (z : Z) : Z := if neg then (- z)%Z else z.

Definition py_int (s : string) : option Z :=
  let '(neg, l) := split_sign (chars (strip s)) in
  ds ← digits_of l;
  if length ds <=? 4300 then Some (signed neg (int_of_digits (unchars ds))) else None.

(** The part before the first character that satisfies [p], and that
    character with the rest. *)
Definition cut_at (p : ascii → bool) (l : list ascii) : list ascii * option (list ascii) :=
  let '(a, b) := span_until p l in
  match b with [] => (a, None) | _ :: b => (a, Some b) end.

(** Digits, or nothing. *)
Definition opt_digits (l : list ascii) : option (list ascii) :=
  match l with [] => Some [] | _ => digits_of l end.

(** The value of the decimal [m * 10 ^ scale]. *)
Definition decimal_float (neg : bool) (m scale : Z) : float :=
  if (0 <=? scale)%Z then round_quotient neg (m * 10 ^ scale) 1 else round_quotient neg m (10 ^ (- scale)).

(** [float(s)]: white space around, a sign, [inf], [infinity], [nan], or digits
    with a point and an exponent, rounded to the nearest double. *)
Definition py_float (s : string) : option float :=
  let '(neg, l) := split_sign (chars (lower (strip s))) in
  if bool_decide (unchars l ∈ ["inf"; "infinity"]) then Some (S754_infinity neg)
  else if bool_decide (unchars l = "nan") then Some S754_nan
  else
    let '(mantissa, ex) := cut_at (λ c, code c =? 101) l in
    let '(ip, fp) := cut_at (λ c, code c =? 46) mantissa in
    ids ← opt_digits ip;
    fds ← opt_digits (default [] fp);
    if bool_decide (ids ++ fds = []) then None
    else
      e ← match ex with
          | None => Some 0%Z
          | Some l =>
              let '(eneg, l) := split_sign l in
              ds ← digits_of l; Some (signed eneg (int_of_digits (unchars ds)))
          end;
      Some (decimal_float neg (int_of_digits (unchars (ids ++ fds))) (e - Z.of_nat (length fds))).

(** ** Options *)

Inductive arg_type : Type := AStr | AInt | AFloat.
Inductive action_kind : Type :=
| Store (t : arg_type) (choices : option (list string))
| StoreTrue
| Help.

Record action := mkAction {
  option_strings : list string;
  kind : action_kind;
  dflt : pyval;
}.

(** [add_argument(name, type=..., choices=..., default=...)] *)
Definition opt (name : string) (t : arg_type) (choices : option (list string)) (d : pyval) : action :=
  mkAction [name] (Store t choices) d.
Definition str_opt (name : string) (d : option string) : action :=
  opt name AStr None (match d with Some s => VStr s | None => VNone end).
Definition int_opt (name : string) (d : Z) : action := opt name AInt None (VInt d).
Definition flag (names : list string) : action := mkAction names StoreTrue (VBool false).

(** [action.dest]: the first long option without its dashes, with underscores. *)
Definition is_dash (c : ascii) : bool := code c =? 45.
Definition dest_name (o : string) : string :=
  unchars ((λ c, if is_dash c then ascii_of_nat 95 else c) <$> drop_while is_dash (chars o)).
Definition long_option (o : string) : bool :=
  match chars o with c1 :: c2 :: _ => is_dash c1 && is_dash c2 | _ => false end.
Definition dest (a : action) : string :=
  dest_name (default "" (match List.find long_option (option_strings a) with
                         | Some o => Some o
                         | None => head (option_strings a)
                         end)).

Abbreviation namespace := (gmap string pyval).

(** ** A parser *)

(** Its options, the first of them [-h], and the attribute of its positional
    argument, a text. *)
Class Parser := mkParser { parser : list action; positional : option string }.

Section parser.
Context `{Parser}.

(** [_option_string_actions] *)
Definition find_option (o : string) : option action :=
  List.find (λ a, bool_decide (o ∈ option_strings a)) parser.
Definition all_options : list (string * action) :=
  mjoin ((λ a, (λ o, (o, a)) <$> option_strings a) <$> parser).

(** ** Arguments *)

(** What [_parse_optional] says of an argument: a value, an option with the
    value after an equals sign, or [--]. *)
Inductive klass : Type :=
| KArg
| KDash
| KOpt (a : option action) (o : string) (explicit : option string).

Definition err {A} : res A := Raise (SystemExit "2").

Definition split_eq (s : string) : string * option string :=
  let '(a, b) := cut_at (λ c, code c =? 61) (chars s) in (unchars a, unchars <$> b).

Definition starts_with (p s : string) : bool := bool_decide (take (length (chars p)) (chars s) = chars p).

(** [_get_option_tuples]: abbreviations, or a single-dash option with more
    characters. *)
Definition option_tuples (s : string) : list (action * string * option string) :=
  if long_option s then
    let '(prefix, explicit) := split_eq s in
    (λ p, (p.2, p.1, explicit)) <$> List.filter (λ p, starts_with prefix p.1) all_options
  else
    let short := unchars (take 2 (chars s)) in
    let rest := unchars (drop 2 (chars s)) in
    omap (λ p, if bool_decide (p.1 = short) then Some (p.2, p.1, Some rest)
               else if starts_with s p.1 then Some (p.2, p.1, None) else None) all_options.

(** [^-\d+$|^-\d*\.\d+$] *)
Definition negative_number (s : string) : bool :=
  match chars s with
  | c :: l =>
      is_dash c &&
      (isdigit (unchars l) ||
       match cut_at (λ c, code c =? 46) l with
       | (a, Some b) => forallb is_digit a && isdigit (unchars b)
       | _ => false
       end)
  | [] => false
  end.

Definition classify (s : string) : res klass :=
  match chars s with
  | [] => Ret KArg
  | c :: l =>
      if negb (is_dash c) then Ret KArg
      else
        match find_option s with
        | Some a => Ret (KOpt (Some a) s None)
        | None =>
            match l with
            | [] => Ret KArg
            | _ =>
                let '(o, explicit) := split_eq s in
                match explicit, find_option o with
                | Some e, Some a => Ret (KOpt (Some a) o (Some e))
                | _, _ =>
                    match option_tuples s with
                    | [(a, o, e)] => Ret (KOpt (Some a) o e)
                    | _ :: _ :: _ => err
                    | [] =>
                        if negative_number s then Ret KArg
                        else if existsb (λ c, code c =? 32) (chars s) then Ret KArg
                        else Ret (KOpt None s None)
                    end
                end
            end
        end
  end.

(** All arguments are looked at before any is used; after [--] every one is a
    value. *)
Fixpoint classify_all (l : list string) : res (list (klass * string)) :=
  match l with
  | [] => Ret []
  | s :: l =>
      if bool_decide (s = "--") then Ret ((KDash, s) :: ((λ s, (KArg, s)) <$> l))
      else
        match classify s with
        | Raise e => Raise e
        | Ret k => match classify_all l with Raise e => Raise e | Ret ks => Ret ((k, s) :: ks) end
        end
  end.

(** ** Using them *)

Definition convert (t : arg_type) (s : string) : option pyval :=
  match t with
  | AStr => Some (VStr s)
  | AInt => VInt <$> py_int s
  | AFloat => VFloat <$> py_float s
  end.

(** [_get_values] and the action's call. *)
Definition take_action (a : action) (value : option string) (ns : namespace) : res namespace :=
  match kind a, value with
  | Help, _ => Raise (SystemExit "0")
  | StoreTrue, _ => Ret (<[dest a := VBool true]> ns)
  | Store t choices, Some s =>
      match convert t s with
      | None => err
      | Some v =>
          match choices with
          | Some cs => if bool_decide (v ∈ VStr <$> cs) then Ret (<[dest a := v]> ns) else err
          | None => Ret (<[dest a := v]> ns)
          end
      end
  | Store _ _, None => err
  end.

Definition takes_value (a : action) : bool := match kind a with Store _ _ => true | _ => false end.

(** The actions of an option with an explicit value [e]: the value is the
    option's, or, for a single-dash flag, more such flags. *)
Fixpoint combine (a : action) (o : string) (e : list ascii) : res (list (action * option string)) :=
  if takes_value a then Ret [(a, Some (unchars e))]
  else
    match e with
    | [] => err
    | c :: e =>
        if long_option o then err
        else
          let o' := unchars [ascii_of_nat 45; c] in
          match find_option o', e with
          | None, _ => err
          | Some a', [] => if takes_value a' then err else Ret [(a, None); (a', None)]
          | Some a', _ =>
              match combine a' o' e with Raise x => Raise x | Ret l => Ret ((a, None) :: l) end
          end
    end.

Fixpoint run_actions (l : list (action * option string)) (ns : namespace) : res namespace :=
  match l with
  | [] => Ret ns
  | (a, v) :: l => match take_action a v ns with Raise e => Raise e | Ret ns => run_actions l ns end
  end.

(** [pos] is the positional argument, while it has no value: the first value
    that is no option's is its value. *)
Fixpoint consume (l : list (klass * string)) (pos : option string) (extras : bool) (ns : namespace) : res namespace :=
  match l with
  | [] => match pos with Some _ => err | None => if extras then err else Ret ns end
  | (KOpt (Some a) o explicit, _) :: l =>
      match explicit with
      | Some e =>
          match combine a o (chars e) with
          | Raise x => Raise x
          | Ret acts => match run_actions acts ns with Raise x => Raise x | Ret ns => consume l pos extras ns end
          end
      | None =>
          if takes_value a then
            match l with
            | (KArg, v) :: (KDash, _) :: l | (KDash, _) :: (KArg, v) :: l | (KArg, v) :: l =>
                match take_action a (Some v) ns with Raise x => Raise x | Ret ns => consume l pos extras ns end
            | _ => err
            end
          else
            match take_action a None ns with
            | Raise x => Raise x
            | Ret ns => match l with (KDash, _) :: l => consume l pos extras ns | _ => consume l pos extras ns end
            end
      end
  | (KArg, v) :: (KDash, _) :: l | (KDash, _) :: (KArg, v) :: l | (KArg, v) :: l =>
      match pos with
      | Some p => consume l None extras (<[p := VStr v]> ns)
      | None => consume l None true ns
      end
  | _ :: l => consume l pos true ns
  end.

Definition defaults : namespace :=
  let m := list_to_map ((λ a, (dest a, dflt a)) <$> List.tail parser) in
  match positional with Some p => <[p := VNone]> m | None => m end.

(** [parser.parse_args()] on [sys.argv[1:]] *)
Definition parse_args (argv : list string) : res namespace :=
  match classify_all argv with
  | Raise e => Raise e
  | Ret ks => consume ks positional false defaults
  end.

End parser.

(** ** Attributes of a namespace

    [None] when an attribute is missing or has another type. *)
Section attributes.
Context (ns : namespace).
Definition str_attr (k : string) : option string :=
  match ns !! k with Some (VStr s) => Some s | _ => None end.
Definition opt_str_attr (k : string) : option (option string) :=
  match ns !! k with Some (VStr s) => Some (Some s) | Some VNone => Some None | _ => None end.
Definition int_attr (k : string) : option Z := match ns !! k with Some (VInt z) => Some z | _ => None end.
Definition float_attr (k : string) : option float := match ns !! k with Some (VFloat x) => Some x | _ => None end.
Definition bool_attr (k : string) : option bool := match ns !! k with Some (VBool b) => Some b | _ => None end.
End attributes.
