(* ===== verification/ArgNumbers.v ===== *)
(** * Numbers on the command line

    What [int] and [float] read back from the text of a number, and what they
    accept. *)
From S2P Require Import Prelude PyFloat PyString Warmup Decimal Config Argparse.
From stdpp Require Import base list strings gmap sets pretty.
From Stdlib Require Import Ascii.
From Stdlib.Floats Require Import SpecFloat.

(** ** Numbers *)

Lemma digits_go_digits l : digits l → ∀ need, (need = true → l ≠ []) → digits_go need l = Some l.
Proof.
  induction 1 as [|c l Hc Hl IH]; intros need Hne; cbn.
  - destruct need; [by destruct Hne|done].
  - rewrite Hc, IH by done. done.
Qed.

Lemma digits_of_digits l : digits l → l ≠ [] → digits_of l = Some l.
Proof. intros Hl Hne. by apply digits_go_digits. Qed.

Lemma digit_not_sign c : is_digit c = true → (code c =? 45) = false ∧ (code c =? 43) = false.
Proof.
  unfold is_digit, PyString.between. rewrite andb_true_iff, !Nat.leb_le, !Nat.eqb_neq. lia.
Qed.

(** An integer [int] can read: at most 4300 digits. *)
Definition int_ok (z : Z) : Prop := (Z.abs z < 10 ^ 4300)%Z.

Lemma foldl_digits l : digits l → ∀ n, (0 ≤ n)%Z →
  (n * 10 ^ Z.of_nat (length l)
   ≤ foldl (λ n c, 10 * n + (Z.of_nat (code c) - 48)) n l
   < (n + 1) * 10 ^ Z.of_nat (length l))%Z.
Proof.
  induction 1 as [|c l Hc Hl IH]; intros n Hn; cbn [foldl length]; [lia|].
  unfold is_digit, PyString.between in Hc. apply andb_true_iff in Hc as [?%Nat.leb_le ?%Nat.leb_le].
  specialize (IH (10 * n + (Z.of_nat (code c) - 48))%Z ltac:(lia)).
  rewrite Nat2Z.inj_succ, Z.pow_succ_r by lia. nia.
Qed.

Lemma int_of_digits_bound l : digits l →
  (0 ≤ int_of_digits (unchars l) < 10 ^ Z.of_nat (length l))%Z.
Proof.
  intros Hl. unfold int_of_digits. rewrite chars_unchars. pose proof (foldl_digits l Hl 0%Z ltac:(lia)). lia.
Qed.

Lemma pretty_N_go_length x s k : (x < 10 ^ N.of_nat k)%N →
  length (chars (pretty_N_go x s)) ≤ k + length (chars s).
Proof.
  revert x s. induction k as [|k IH]; intros x s Hx.
  - assert (x = 0%N) as -> by (cbn in Hx; lia). by rewrite pretty_N_go_0.
  - destruct (decide (x = 0%N)) as [->|Hne]; [rewrite pretty_N_go_0; lia|].
    rewrite pretty_N_go_step by lia. etrans; [apply IH|cbn; lia].
    rewrite Nat2N.inj_succ, N.pow_succ_r in Hx by lia. apply N.Div0.div_lt_upper_bound; lia.
Qed.

Lemma pretty_length z k : (0 ≤ z)%Z → 0 < k → (z < 10 ^ Z.of_nat k)%Z → length (chars (pretty z)) ≤ k.
Proof.
  intros Hz Hk Hlt. destruct z as [|p|p]; [done| |lia].
  change (pretty (Z.pos p)) with (pretty_N_go (N.pos p) "").
  pose proof (pretty_N_go_length (N.pos p) "" k). cbn [String.list_ascii_of_string length] in *.
  rewrite Nat.add_0_r in *. apply H. apply N2Z.inj_lt. rewrite N2Z.inj_pow, nat_N_Z. exact Hlt.
Qed.

(** [str(z)] as a sign and digits. *)
Lemma pretty_sign z :
  ∃ ds, split_sign (chars (pretty z)) = ((z <? 0)%Z, ds) ∧ digits ds ∧ ds ≠ []
        ∧ int_of_digits (unchars ds) = Z.abs z
        ∧ (∀ k, 0 < k → (Z.abs z < 10 ^ Z.of_nat k)%Z → length ds ≤ k).
Proof.
  exists (chars (pretty (Z.abs z))). pose proof (Z.abs_nonneg z) as Ha.
  destruct (pretty_Z_digits _ Ha) as [Hd Hv]. pose proof (pretty_ne _ Ha) as Hne.
  rewrite unchars_chars. split; [|split; [done|split; [by intros E%chars_nil|split; [done|]]]].
  - destruct z as [|p|p]; [done| |done]. change (Z.abs (Z.pos p)) with (Z.pos p) in *.
    destruct (chars (pretty (Z.pos p))) as [|c l] eqn:E; [by apply chars_nil in E|].
    apply Forall_cons in Hd as [Hc _]. unfold split_sign. by destruct (digit_not_sign c Hc) as [-> ->].
  - intros k. by apply pretty_length.
Qed.

Lemma signed_abs z : signed (z <? 0)%Z (Z.abs z) = z.
Proof. unfold signed. destruct (z <? 0)%Z eqn:E; zbool; lia. Qed.

Lemma pretty_no_space (z : Z) : no_space (pretty z) ∧ pretty z ≠ "".
Proof.
  destruct z as [|p|p]; [split; [by repeat constructor|done]| |split; [|done]].
  - destruct (pretty_Z_digits (Z.pos p)) as [Hd _]; [lia|].
    split; [by apply digits_no_space|apply pretty_ne; lia].
  - apply Forall_cons. split; [done|]. destruct (pretty_Z_digits (Z.pos p)) as [Hd _]; [lia|]. by apply digits_no_space.
Qed.

Lemma py_int_pretty z : int_ok z → py_int (pretty z) = Some z.
Proof.
  intros Hz. unfold py_int. destruct (pretty_no_space z) as [Hs Hne]. rewrite strip_token by done.
  destruct (pretty_sign z) as (ds & -> & Hd & Hdn & Hv & Hl). rewrite digits_of_digits by done. cbn [mbind option_bind].
  rewrite (proj2 (Nat.leb_le _ _) (Hl 4300 ltac:(lia) Hz)), Hv. by rewrite signed_abs.
Qed.

Lemma digits_go_sound need l ds : digits_go need l = Some ds → digits ds.
Proof.
  revert need ds. induction l as [|c l IH]; intros need ds; cbn; [by destruct need; intros; simplify_eq; constructor|].
  destruct (is_digit c) eqn:Ec.
  - destruct (digits_go false l) as [ds'|] eqn:E; cbn; [|done]. intros [= <-]. constructor; [done|by eapply IH].
  - destruct (_ && _); [apply IH|done].
Qed.

Lemma signed_abs_le neg z : (0 ≤ z)%Z → Z.abs (signed neg z) = z.
Proof. unfold signed. destruct neg; lia. Qed.

Lemma py_int_ok s z : py_int s = Some z → int_ok z.
Proof.
  unfold py_int, int_ok. destruct (split_sign _) as [neg l]. intros (ds & Hds & Hz)%bind_Some.
  apply digits_go_sound, int_of_digits_bound in Hds as [Hlo Hhi].
  destruct (length ds <=? 4300) eqn:El; [|done]. apply Nat.leb_le in El. injection Hz as <-.
  rewrite signed_abs_le by done. eapply Z.lt_le_trans; [exact Hhi|]. apply Z.pow_le_mono_r; lia.
Qed.

Lemma decimal_float_ok neg m scale : (0 ≤ m)%Z → float_ok (decimal_float neg m scale).
Proof.
  intros Hm. unfold decimal_float. destruct (0 <=? scale)%Z eqn:E; zbool; apply round_quotient_ok; lia.
Qed.

Lemma py_float_ok s x : py_float s = Some x → float_ok x.
Proof.
  unfold py_float. destruct (split_sign _) as [neg l]. case_bool_decide; [by intros [= <-]|].
  case_bool_decide; [by intros [= <-]|].
  destruct (cut_at _ l) as [mantissa ex]. destruct (cut_at _ mantissa) as [ip fp].
  intros (ids & Hids & (fds & Hfds & Hz)%bind_Some)%bind_Some. case_bool_decide; [done|].
  apply bind_Some in Hz as (e & _ & Hz). injection Hz as <-.
  assert (digits (ids ++ fds)) as Hd.
  { apply Forall_app. split.
    - destruct ip; [injection Hids as <-; constructor|by eapply digits_go_sound].
    - destruct (default [] fp); [injection Hfds as <-; constructor|by eapply digits_go_sound]. }
  apply int_of_digits_bound in Hd as [Hd _]. by apply decimal_float_ok.
Qed.

Lemma cut_at_none p l : Forall (λ c, p c = false) l → cut_at p l = (l, None).
Proof.
  intros Hl. unfold cut_at. assert (span_until p l = (l, [])) as ->; [|done].
  induction Hl as [|c l Hc Hl IH]; cbn; [done|]. by rewrite Hc, IH.
Qed.

Lemma cut_at_some p a c b : Forall (λ c, p c = false) a → p c = true → cut_at p (a ++ c :: b) = (a, Some b).
Proof.
  intros Ha Hc. unfold cut_at. assert (span_until p (a ++ c :: b) = (a, c :: b)) as ->; [|done].
  induction Ha as [|c' a Hc' Ha IH]; cbn; [by rewrite Hc|]. by rewrite Hc', IH.
Qed.

Lemma digits_not n l : n < 48 ∨ 57 < n → digits l → Forall (λ c, (code c =? n) = false) l.
Proof.
  intros Hn Hl. eapply Forall_impl; [exact Hl|]. intros c. unfold is_digit, PyString.between.
  rewrite andb_true_iff, !Nat.leb_le, Nat.eqb_neq. lia.
Qed.

Lemma lower_char_small c : code c < 65 → lower_char c = c.
Proof. unfold lower_char, PyString.between. rewrite <- Nat.leb_gt. by intros ->. Qed.

Lemma lower_pretty (z : Z) : lower_char <$> chars (pretty z) = chars (pretty z).
Proof.
  assert (Forall (λ c, code c < 65) (chars (pretty z))) as Hs.
  { assert (∀ l, digits l → Forall (λ c, code c < 65) l) as Hd.
    { intros l Hl. eapply Forall_impl; [exact Hl|]. intros c. unfold is_digit, PyString.between.
      rewrite andb_true_iff, !Nat.leb_le. lia. }
    destruct z as [|p|p]; [by repeat constructor; apply Nat.ltb_lt|apply Hd, pretty_Z_digits; lia|].
    apply Forall_cons. split; [by apply Nat.ltb_lt|]. apply Hd. apply (pretty_Z_digits (Z.pos p)). lia. }
  induction Hs as [|c l Hc Hl IH]; cbn; [done|]. by rewrite lower_char_small, IH.
Qed.

(** The text of a double: its exact value, an integer times [10 ^ -1074]. *)
Definition float_units (x : float) : Z :=
  match x with S754_finite _ m e => (Z.pos m * 2 ^ (e - MIN_EXP))%Z | _ => 0%Z end.
Definition float_sign (x : float) : bool :=
  match x with S754_zero neg | S754_infinity neg | S754_finite neg _ _ => neg | S754_nan => false end.
Definition decimal_text (z : Z) : string := pretty z +:+ "e-1074".
Definition float_text (x : float) : string :=
  (if float_sign x then "-" else "") +:+
  match x with
  | S754_infinity _ => "inf"
  | S754_nan => "nan"
  | _ => decimal_text (float_units x * 5 ^ (- MIN_EXP))
  end.

Lemma decimal_float_exact x : float_ok x →
  match x with S754_infinity _ | S754_nan => True
  | _ => decimal_float (float_sign x) (float_units x * 5 ^ (- MIN_EXP)) MIN_EXP = x end.
Proof.
  intros Hx. unfold decimal_float. change (0 <=? MIN_EXP)%Z with false. cbn match.
  assert (0 < 10 ^ (- MIN_EXP))%Z as H10 by (apply Z.pow_pos_nonneg; [done|unfold MIN_EXP; lia]).
  destruct x as [neg|neg| |neg p e]; [|done|done|]; cbn [float_sign float_units].
  - rewrite Z.mul_0_l. by apply round_quotient_zero.
  - apply round_quotient_exact; [done|done|].
    change 10%Z with (5 * 2)%Z. rewrite Z.pow_mul_l. lia.
Qed.

Lemma decimal_text_chars z : chars (decimal_text z) = chars (pretty z) ++ ascii_of_nat 101 :: chars "-1074".
Proof. apply chars_app. Qed.

Lemma py_float_digits neg z : (0 ≤ z)%Z →
  py_float ((if neg : bool then "-" else "") +:+ decimal_text z) = Some (decimal_float neg z MIN_EXP).
Proof.
  intros Hz. unfold py_float. destruct (pretty_Z_digits z Hz) as [Hd Hv]. pose proof (pretty_ne z Hz) as Hne.
  set (t := (if neg : bool then "-" else "") +:+ decimal_text z).
  assert (chars t = (if neg then [ascii_of_nat 45] else []) ++ chars (pretty z) ++ ascii_of_nat 101 :: chars "-1074") as Hc.
  { unfold t. rewrite chars_app, decimal_text_chars. by destruct neg. }
  rewrite strip_token; [|unfold no_space; rewrite Hc; apply Forall_app; split; [by destruct neg; repeat constructor|];
    apply Forall_app; split; [by apply digits_no_space|by repeat constructor]
    |by intros E; rewrite E in Hc; destruct neg, (chars (pretty z))].
  unfold lower. rewrite chars_unchars, Hc, !fmap_app, lower_pretty. cbn [fmap list_fmap].
  assert (split_sign ((lower_char <$> (if neg then [ascii_of_nat 45] else [])) ++ chars (pretty z) ++
            lower_char (ascii_of_nat 101) :: (lower_char <$> chars "-1074"))
          = (neg, chars (pretty z) ++ ascii_of_nat 101 :: chars "-1074")) as Hs.
  { destruct neg; [done|]. destruct (chars (pretty z)) as [|c l] eqn:E; [by apply chars_nil in E|].
    apply Forall_cons in Hd as [Hcd _]. cbn. by destruct (digit_not_sign c Hcd) as [-> ->]. }
  rewrite Hs. clear Hs Hc t.
  destruct (chars (pretty z)) as [|c l] eqn:Ep; [by apply chars_nil in Ep|]. rewrite <- Ep in *.
  assert (∀ s, s ∈ ["inf"; "infinity"; "nan"] → unchars (chars (pretty z) ++ ascii_of_nat 101 :: chars "-1074") ≠ s) as Hnw.
  { intros s Hin E. rewrite Ep in E, Hd. apply Forall_cons in Hd as [Hcd _].
    rewrite !elem_of_cons, elem_of_nil in Hin. destruct Hin as [-> |[-> |[-> |[]]]]; injection E as -> _; done. }
  rewrite bool_decide_eq_false_2 by (intros Hin; eapply Hnw; [|reflexivity]; set_solver).
  rewrite bool_decide_eq_false_2 by (apply Hnw; set_solver).
  rewrite cut_at_some; [|by apply digits_not; [lia|]|done]. rewrite cut_at_none by (by apply digits_not; [lia|]).
  assert (opt_digits (chars (pretty z)) = Some (chars (pretty z))) as ->.
  { rewrite Ep in *. by apply digits_of_digits. }
  cbn [default opt_digits mbind option_bind]. rewrite app_nil_r, bool_decide_eq_false_2 by (by rewrite Ep).
  change (split_sign (chars "-1074")) with (true, chars "1074"). cbn [mbind option_bind].
  change (digits_of (chars "1074")) with (Some (chars "1074")). cbn [mbind option_bind].
  change (signed true (int_of_digits (unchars (chars "1074"))) - Z.of_nat (length []))%Z with MIN_EXP.
  rewrite unchars_chars. unfold int_of_digits in Hv |- *. by rewrite Hv.
Qed.

Lemma py_float_text x : float_ok x → py_float (float_text x) = Some x.
Proof.
  intros Hx. assert (0 ≤ float_units x)%Z as Hu.
  { destruct x; cbn; try done. apply Z.mul_nonneg_nonneg; [done|]. by apply Z.pow_nonneg. }
  assert (0 ≤ float_units x * 5 ^ (- MIN_EXP))%Z as Hz.
  { apply Z.mul_nonneg_nonneg; [done|]. by apply Z.pow_nonneg. }
  pose proof (decimal_float_exact x Hx) as He.
  destruct x as [neg|neg| |neg p e]; unfold float_text; [|by destruct neg|done|];
    rewrite py_float_digits by done; by rewrite He.
Qed.
