(* ===== verification/ArgparseProps.v ===== *)
(** * Properties of parsers

    What a well-formed parser gives has the declared types, and every namespace
    of those types can be given as arguments. *)
From S2P Require Import Prelude PyFloat PyString Warmup Decimal Config Argparse ArgNumbers.
From stdpp Require Import base list strings gmap sets pretty.
From Stdlib Require Import Ascii.

(** ** Types *)

(** The values an action may leave in its attribute. *)
Definition has_type (a : action) (v : pyval) : Prop :=
  match kind a, v with
  | Store AStr None, VStr _ => True
  | Store AStr (Some cs), VStr s => s ∈ cs
  | Store AStr _, VNone => dflt a = VNone
  | Store AInt None, VInt z => int_ok z
  | Store AFloat None, VFloat x => float_ok x
  | StoreTrue, VBool _ => True
  | _, _ => False
  end.

Definition long (a : action) : string :=
  default "" (List.find long_option (option_strings a)).
Definition dashed (o : string) : bool := match chars o with c :: _ :: _ => is_dash c | _ => false end.
Definition no_eq (o : string) : bool := forallb (λ c, negb (code c =? 61)) (chars o).

#[global] Instance arg_type_eq_dec : EqDecision arg_type.
Proof. solve_decision. Defined.
#[global] Instance action_kind_eq_dec : EqDecision action_kind.
Proof. solve_decision. Defined.
#[global] Instance action_eq_dec : EqDecision action.
Proof. solve_decision. Defined.

(** The shapes of the declared actions. *)
Definition well_declared (a : action) : bool :=
  match kind a, dflt a with
  | Store AStr None, (VNone | VStr _) | Store AInt None, VInt _ | Store AFloat None, VFloat _
  | StoreTrue, VBool false => true
  | Store AStr (Some cs), VStr s => bool_decide (s ∈ cs)
  | _, _ => false
  end.
Lemma small_int_ok z : (Z.abs z < 10 ^ 10)%Z → int_ok z.
Proof. unfold int_ok. intros Hz. eapply Z.lt_le_trans; [exact Hz|]. apply Z.pow_le_mono_r; lia. Qed.

(** Defaults written in the source have their types. *)
Ltac defaults_ok :=
  repeat (apply Forall_cons; split;
    [lazymatch goal with
     | |- context [VFloat (float_of_Z ?z)] => exact (float_of_Z_ok z)
     | |- _ => cbn; first [exact I|apply small_int_ok; reflexivity|set_solver|reflexivity]
     end|]); constructor.

(** ** Parsers that are well formed *)

Section typed.
Context `{Parser}.

Definition attributes : list string := option_list positional ++ (dest <$> List.tail parser).

(** Exactly the declared attributes, each with a value of its type; the
    positional argument has none while it is [pos]. *)
Definition typed_but (pos : option string) (ns : namespace) : Prop :=
  dom ns = (list_to_set attributes : gset string) ∧
  Forall (λ a, ∃ v, ns !! dest a = Some v ∧ has_type a v) (List.tail parser) ∧
  (∀ p, positional = Some p → pos = None → ∃ s, ns !! p = Some (VStr s)).
Definition typed (ns : namespace) : Prop := typed_but None ns.
End typed.

(** The first option is [-h], the attributes are distinct, an option has a long
    name that finds it, and the defaults have the declared types. *)
Class ParserLaws `{Parser} : Prop := {
  pl_help a : a ∈ parser → kind a ≠ Help → a ∈ List.tail parser;
  pl_dests : NoDup (dest <$> parser);
  pl_positional p : positional = Some p → p ∉ dest <$> parser;
  pl_options : Forall (λ a, find_option (long a) = Some a ∧ dashed (long a) = true ∧ long a ≠ "--"
                            ∧ Forall (λ o, no_eq o = true) (option_strings a)) parser;
  pl_declared : forallb well_declared (List.tail parser) = true;
  pl_defaults : Forall (λ a, has_type a (dflt a)) (List.tail parser);
}.

Section laws.
Context `{ParserLaws}.

Lemma dest_inj a b : a ∈ parser → b ∈ parser → dest a = dest b → a = b.
Proof.
  intros [i Ha]%list_elem_of_lookup [j Hb]%list_elem_of_lookup E.
  assert (i = j) as ->; [|congruence].
  eapply NoDup_lookup; [apply pl_dests|by rewrite list_lookup_fmap, Ha|by rewrite list_lookup_fmap, Hb, E].
Qed.

Lemma not_help a : a ∈ parser → kind a ≠ Help → a ∈ List.tail parser.
Proof. apply pl_help. Qed.
Lemma tail_parser a : a ∈ List.tail parser → a ∈ parser.
Proof. destruct parser; [done|]. intros Ha. by apply list_elem_of_further. Qed.
Lemma tail_dests : NoDup (dest <$> List.tail parser).
Proof. pose proof pl_dests as Hn. destruct parser; [constructor|]. by apply NoDup_cons in Hn as [_ Hn]. Qed.
Lemma not_positional a p : a ∈ List.tail parser → positional = Some p → dest a ≠ p.
Proof. intros Ha Hp <-. apply (pl_positional _ Hp). apply list_elem_of_fmap_2. by apply tail_parser. Qed.

Lemma defaults_lookup a : a ∈ List.tail parser → defaults !! dest a = Some (dflt a).
Proof.
  intros Ha. assert ((list_to_map ((λ a, (dest a, dflt a)) <$> List.tail parser) : namespace) !! dest a = Some (dflt a)) as E.
  { apply elem_of_list_to_map_1.
    - rewrite <- list_fmap_compose. apply tail_dests.
    - apply list_elem_of_fmap. by exists a. }
  unfold defaults. destruct positional as [p|] eqn:Ep; [|done].
  rewrite lookup_insert_ne; [done|]. intros ->. by apply (not_positional a (dest a)).
Qed.

Lemma defaults_typed : typed_but positional defaults.
Proof.
  split; [|split].
  - unfold defaults, attributes. destruct positional as [p|]; cbn [option_list app];
      rewrite ?dom_insert_L, dom_list_to_map_L, <- list_fmap_compose; done.
  - apply Forall_forall. intros a Ha. exists (dflt a). split; [by apply defaults_lookup|].
    pose proof pl_defaults as Ht. rewrite Forall_forall in Ht. by apply Ht.
  - intros p ->. done.
Qed.

Lemma insert_typed pos a v ns :
  a ∈ List.tail parser → has_type a v → typed_but pos ns → typed_but pos (<[dest a := v]> ns).
Proof.
  intros Ha Hv (Hd & Ht & Hp). split; [|split].
  - rewrite dom_insert_L, Hd. apply subseteq_union_1_L. apply singleton_subseteq_l, elem_of_list_to_set.
    apply elem_of_app. right. by apply list_elem_of_fmap_2.
  - rewrite Forall_forall in *. intros b Hb. destruct (decide (dest a = dest b)) as [E|Hne].
    + apply dest_inj in E as <-; [|by apply tail_parser..]. exists v. by rewrite lookup_insert_eq.
    + destruct (Ht b Hb) as (w & Hw & Hbw). exists w. by rewrite lookup_insert_ne.
  - intros p Ep En. rewrite lookup_insert_ne by (by apply not_positional). by apply Hp.
Qed.

(** The positional argument gets its value. *)
Lemma positional_typed pos p s ns : positional = Some p → typed_but pos ns → typed (<[p := VStr s]> ns).
Proof.
  intros Ep (Hd & Ht & Hp). split; [|split].
  - rewrite dom_insert_L, Hd. apply subseteq_union_1_L. apply singleton_subseteq_l, elem_of_list_to_set.
    apply elem_of_app. left. rewrite Ep. by apply list_elem_of_singleton.
  - rewrite Forall_forall in *. intros b Hb. destruct (Ht b Hb) as (w & Hw & Hbw). exists w.
    rewrite lookup_insert_ne; [done|]. intros E. by apply (not_positional b p Hb Ep).
  - intros p' Ep' _. rewrite Ep in Ep'. injection Ep' as <-. rewrite lookup_insert_eq. eauto.
Qed.

Lemma convert_typed a t cs s v :
  kind a = Store t cs → well_declared a = true → convert t s = Some v →
  (∀ l, cs = Some l → v ∈ VStr <$> l) → has_type a v.
Proof.
  unfold has_type, well_declared. intros -> Hw Hc Hcs. destruct t; cbn in Hc.
  - injection Hc as <-. destruct cs as [l|]; [|done]. specialize (Hcs l eq_refl).
    apply list_elem_of_fmap in Hcs as (s' & [= <-] & Hs). done.
  - destruct (py_int s) as [z|] eqn:E; [|done]. injection Hc as <-. destruct cs; [by destruct (dflt a)|].
    by eapply py_int_ok.
  - destruct (py_float s) as [z|] eqn:E; [|done]. injection Hc as <-. destruct cs; [by destruct (dflt a)|].
    by eapply py_float_ok.
Qed.

Lemma tail_declared a : a ∈ List.tail parser → well_declared a = true.
Proof.
  intros Ha. pose proof pl_declared as Hp. rewrite forallb_forall in Hp. by apply Hp, list_elem_of_In.
Qed.

Lemma take_action_typed pos a v ns ns' :
  a ∈ parser → typed_but pos ns → take_action a v ns = Ret ns' → typed_but pos ns'.
Proof.
  intros Ha Ht. unfold take_action. destruct (kind a) as [t cs| |] eqn:Ek; [|intros [= <-]|done].
  - assert (a ∈ List.tail parser) as Hat by (apply not_help; [done|by rewrite Ek]).
    destruct v as [s|]; [|done]. destruct (convert t s) as [v|] eqn:Ec; [|done].
    assert ((∀ l, cs = Some l → v ∈ VStr <$> l) → typed_but pos (<[dest a:=v]> ns)) as Hgo.
    { intros Hcs. apply insert_typed; [done|by eapply convert_typed; [|apply tail_declared| |]|done]. }
    destruct cs as [l|]; [case_bool_decide; [|done]|]; intros [= <-]; apply Hgo; by intros ? [= <-].
  - apply insert_typed; [|unfold has_type; by rewrite Ek|done]. apply not_help; [done|by rewrite Ek].
Qed.

(** ** What is parsed is typed *)

(** The process can only end with status 0 (help) or 2 (an error). *)
Definition exits (e : exn) : Prop := e = SystemExit "0" ∨ e = SystemExit "2".
(** [P] of a result, and no other exception. *)
Definition gives {A} (P : A → Prop) (r : res A) : Prop :=
  match r with Ret x => P x | Raise e => exits e end.

Lemma gives_err {A} (P : A → Prop) : gives P err.
Proof. by right. Qed.
#[local] Hint Resolve gives_err : core.

Definition klass_ok (k : klass) : Prop :=
  match k with KOpt (Some a) _ _ => a ∈ parser | _ => True end.

Lemma find_option_parser o a : find_option o = Some a → a ∈ parser.
Proof. intros [Ha _]%find_some. by apply list_elem_of_In. Qed.

Lemma all_options_parser p : p ∈ all_options → p.2 ∈ parser.
Proof.
  unfold all_options. intros (l & Hp & (a & -> & Ha)%list_elem_of_fmap)%list_elem_of_join.
  by apply list_elem_of_fmap in Hp as (o & -> & _).
Qed.

Lemma option_tuples_parser s : Forall (λ t, t.1.1 ∈ parser) (option_tuples s).
Proof.
  apply Forall_forall. intros t. unfold option_tuples. destruct (long_option s).
  - destruct (split_eq s) as [prefix explicit]. intros (p & -> & Hp)%list_elem_of_fmap.
    apply list_elem_of_In, filter_In in Hp as [Hp _]. by apply all_options_parser, list_elem_of_In.
  - intros (p & Hp & Ht)%list_elem_of_omap. apply all_options_parser in Hp.
    repeat case_match; naive_solver.
Qed.

Lemma classify_ok s : gives klass_ok (classify s).
Proof.
  unfold classify. destruct (chars s) as [|c l] eqn:Es; [done|]. destruct (negb (is_dash c)); [done|].
  destruct (find_option s) as [a|] eqn:Ef; [by eapply find_option_parser|]. destruct l as [|c2 l]; [done|].
  assert (gives klass_ok
    match option_tuples s with
    | [(a, o, e)] => Ret (KOpt (Some a) o e)
    | _ :: _ :: _ => err
    | [] => if negative_number s then Ret KArg
            else if existsb (λ c, code c =? 32) (c :: c2 :: l) then Ret KArg else Ret (KOpt None s None)
    end) as Ht.
  { pose proof (option_tuples_parser s) as Hp. destruct (option_tuples s) as [|[[a o] e] [|]]; [by repeat case_match| |done].
    by apply Forall_cons in Hp as [Ha _]. }
  destruct (split_eq s) as [o [e|]]; [|done].
  destruct (find_option o) as [a|] eqn:Eo; [by eapply find_option_parser|done].
Qed.

Lemma classify_all_ok l : gives (Forall (λ p, klass_ok p.1)) (classify_all l).
Proof.
  induction l as [|s l IH]; cbn; [constructor|]. case_bool_decide.
  - constructor; [done|]. apply Forall_fmap, Forall_forall. by intros.
  - pose proof (classify_ok s) as Hs. destruct (classify s) as [k|]; [|done].
    destruct (classify_all l) as [ks|]; [|done]. by constructor.
Qed.

Lemma take_action_ok pos a v ns : a ∈ parser → typed_but pos ns → gives (typed_but pos) (take_action a v ns).
Proof.
  intros Ha Ht. destruct (take_action a v ns) as [ns'|e] eqn:E; [by eapply take_action_typed|].
  unfold take_action, err in E. unfold exits. repeat case_match; simplify_eq; cbn; unfold exits; auto.
Qed.

Lemma combine_ok a o e : a ∈ parser → gives (Forall (λ p, p.1 ∈ parser)) (Argparse.combine a o e).
Proof.
  revert a o. induction e as [|c e IH]; intros a o Ha; cbn [Argparse.combine]; destruct (takes_value a);
    try done; try by (constructor; [done|constructor]).
  destruct (long_option o); [done|]. destruct (find_option _) as [a'|] eqn:Ef; [|done].
  apply find_option_parser in Ef. destruct e as [|c' e'] eqn:Ee.
  - destruct (takes_value a'); [done|]. constructor; [done|]. constructor; [done|constructor].
  - rewrite <- Ee in *. specialize (IH a' (unchars [ascii_of_nat 45; c]) Ef).
    destruct (Argparse.combine a' _ e) as [l|]; [|done]. by constructor.
Qed.

Lemma run_actions_ok pos l ns :
  Forall (λ p, p.1 ∈ parser) l → typed_but pos ns → gives (typed_but pos) (run_actions l ns).
Proof.
  intros Hl. revert ns. induction Hl as [|[a v] l Ha Hl IH]; intros ns Ht; cbn; [done|].
  pose proof (take_action_ok pos a v ns Ha Ht) as Hns. destruct (take_action a v ns) as [ns'|]; [|done]. by apply IH.
Qed.

Lemma consume_ok l pos extras ns :
  pos = None ∨ pos = positional → Forall (λ p, klass_ok p.1) l → typed_but pos ns →
  gives typed (consume l pos extras ns).
Proof.
  revert pos extras ns. induction l as [l IH] using (well_founded_induction (well_founded_ltof _ length)).
  unfold ltof in IH. intros pos extras ns Hpos Hl Ht.
  assert (∀ v l', length l' < length l → Forall (λ p, klass_ok p.1) l' →
    gives typed match pos with
                | Some p => consume l' None extras (<[p := VStr v]> ns)
                | None => consume l' None true ns
                end) as Harg.
  { intros v l' Hlen Hl'. destruct pos as [p|]; (apply IH; [done|by left|done|]); [|done].
    destruct Hpos as [?|Hp]; [done|]. by eapply positional_typed. }
  destruct l as [|[k s] l]; [by destruct pos, extras|].
  apply Forall_cons in Hl as [Hk Hl].
  assert (gives typed (consume l pos true ns)) as Hskip by (apply IH; [cbn; lia|done..]).
  destruct k as [| |[a|] o explicit]; cbn [consume]; try done.
  - destruct l as [|[[] v2] l]; try (apply Harg; [cbn; lia|done]). apply Harg; [cbn; lia|]. by apply Forall_cons in Hl as [_ Hl].
  - destruct l as [|[[] v2] l]; try done. apply Harg; [cbn; lia|]. by apply Forall_cons in Hl as [_ Hl].
  - assert (∀ v l', length l' ≤ length l → Forall (λ p, klass_ok p.1) l' →
      gives typed match take_action a v ns with Raise x => Raise x | Ret ns => consume l' pos extras ns end) as Hgo.
    { intros v l' Hlen Hl'. pose proof (take_action_ok pos a v ns Hk Ht) as Hns.
      destruct (take_action a v ns); [|done]. apply IH; [cbn; lia|done..]. }
    destruct explicit as [e|]; [|destruct (takes_value a)].
    + pose proof (combine_ok a o (chars e) Hk) as Hc. destruct (Argparse.combine a o (chars e)) as [acts|]; [|done].
      pose proof (run_actions_ok pos acts ns Hc Ht) as Hns. destruct (run_actions acts ns); [|done].
      apply IH; [cbn; lia|done..].
    + destruct l as [|[[] v] [|[[] v2] l]]; try done; apply Hgo; cbn in *; try lia;
        by repeat (apply Forall_cons in Hl as [_ Hl]; try done).
    + destruct l as [|[[] v] l]; apply Hgo; cbn in *; try lia; try done. by apply Forall_cons in Hl as [_ Hl].
Qed.

(** ** The attributes *)

Lemma typed_lookup ns a : typed ns → a ∈ List.tail parser → ∃ v, ns !! dest a = Some v ∧ has_type a v.
Proof. intros (_ & Ht & _) Ha. rewrite Forall_forall in Ht. by apply Ht. Qed.

(** The action of an attribute. *)
Definition attr_action (k : string) : option action := List.find (λ a, bool_decide (dest a = k)) (List.tail parser).

Lemma attr_lookup ns k a : typed ns → attr_action k = Some a → ∃ v, ns !! k = Some v ∧ has_type a v.
Proof.
  unfold attr_action. intros Ht [Ha Hk]%find_some. apply bool_decide_eq_true in Hk as <-.
  by apply typed_lookup, list_elem_of_In.
Qed.

Definition attr_kind (k : string) : option action_kind := kind <$> attr_action k.

Lemma attr_typed ns k : typed ns →
  match attr_kind k with
  | Some (Store AStr None) =>
      (∃ o, opt_str_attr ns k = Some o) ∧ ((dflt <$> attr_action k) ≠ Some VNone → ∃ s, str_attr ns k = Some s)
  | Some (Store AStr (Some cs)) => (dflt <$> attr_action k) ≠ Some VNone → ∃ s, str_attr ns k = Some s ∧ s ∈ cs
  | Some (Store AInt None) => ∃ z, int_attr ns k = Some z ∧ int_ok z
  | Some (Store AFloat None) => ∃ x, float_attr ns k = Some x ∧ float_ok x
  | Some StoreTrue => ∃ b, bool_attr ns k = Some b
  | _ => True
  end.
Proof.
  intros Ht. unfold attr_kind. destruct (attr_action k) as [a|] eqn:Ea; [|done]. cbn.
  destruct (attr_lookup ns k a Ht Ea) as (v & Hv & Hty). unfold has_type in Hty.
  unfold opt_str_attr, str_attr, int_attr, float_attr, bool_attr. rewrite Hv.
  destruct (kind a) as [[] [cs|]| |]; destruct v; try done; eauto; try congruence.
  split; [eauto|]. congruence.
Qed.

(** ** Every typed namespace can be given as arguments *)

Definition value_text (v : pyval) : string :=
  match v with
  | VStr s => s
  | VInt z => pretty z
  | VFloat x => float_text x
  | _ => ""
  end.

(** The arguments that set the attribute of [a] as [ns] has it. *)
Definition option_args (ns : namespace) (a : action) : list string :=
  match kind a, ns !! dest a with
  | StoreTrue, Some (VBool true) => [long a]
  | Store _ _, Some v => if bool_decide (v = VNone) then [] else [long a +:+ String (ascii_of_nat 61) (value_text v)]
  | _, _ => []
  end.
(** ... and the positional argument, after [--]. *)
Definition positional_args (ns : namespace) : list string :=
  match positional with Some p => ["--"; value_text (default VNone (ns !! p))] | None => [] end.
Definition command_line (ns : namespace) : list string :=
  mjoin (option_args ns <$> List.tail parser) ++ positional_args ns.

Lemma no_eq_Forall o : no_eq o = true → Forall (λ c, (code c =? 61) = false) (chars o).
Proof.
  unfold no_eq. rewrite forallb_forall. intros Ho. apply Forall_forall. intros c Hc%list_elem_of_In%Ho.
  by apply negb_true_iff.
Qed.

Lemma long_parser a : a ∈ parser →
  find_option (long a) = Some a ∧ dashed (long a) = true ∧ long a ≠ "--" ∧ no_eq (long a) = true.
Proof.
  intros Ha. pose proof pl_options as Hp. rewrite Forall_forall in Hp.
  destruct (Hp a Ha) as (Hf & Hd & Hn & Ho). split; [done|]. split; [done|]. split; [done|].
  unfold long in *. destruct (List.find _ _) as [o|] eqn:E; [|done]. apply find_some in E as [Hin _].
  rewrite Forall_forall in Ho. by apply Ho, list_elem_of_In.
Qed.

Lemma option_has_no_eq o a : find_option o = Some a → no_eq o = true.
Proof.
  intros [Ha Ho]%find_some. apply bool_decide_eq_true in Ho. apply list_elem_of_In in Ha.
  pose proof pl_options as Hp. rewrite Forall_forall in Hp. destruct (Hp a Ha) as (_ & _ & _ & Hno).
  rewrite Forall_forall in Hno. by apply Hno.
Qed.

Lemma classify_flag a : a ∈ parser → classify (long a) = Ret (KOpt (Some a) (long a) None).
Proof.
  intros (Hf & Hd & _)%long_parser. unfold classify, dashed in *.
  destruct (chars (long a)) as [|c [|c2 l]] eqn:E; [done..|]. by rewrite Hd, Hf.
Qed.

Lemma classify_value a v : a ∈ parser →
  let s := long a +:+ String (ascii_of_nat 61) v in
  classify s = Ret (KOpt (Some a) (long a) (Some v)) ∧ s ≠ "--".
Proof.
  intros (Hf & Hd & _ & Hno)%long_parser. cbn zeta.
  assert (chars (long a +:+ String (ascii_of_nat 61) v) = chars (long a) ++ ascii_of_nat 61 :: chars v) as Hc.
  { by rewrite chars_app. }
  split; [|intros E; rewrite E in Hc; apply (f_equal (Forall (λ c, (code c =? 61) = false))) in Hc].
  2:{ assert (Forall (λ c, (code c =? 61) = false) (chars "--")) as Hdd by by repeat constructor.
      rewrite Hc, Forall_app, Forall_cons in Hdd. by destruct Hdd as (_ & ? & _). }
  assert (find_option (long a +:+ String (ascii_of_nat 61) v) = None) as Hnone.
  { destruct (find_option (_ +:+ _)) as [b|] eqn:E; [|done]. apply option_has_no_eq, no_eq_Forall in E.
    rewrite Hc, Forall_app, Forall_cons in E. by destruct E as (_ & ? & _). }
  unfold classify, split_eq. rewrite Hnone, Hc. unfold dashed in Hd.
  rewrite cut_at_some; [|by apply no_eq_Forall|done].
  destruct (chars (long a)) as [|c [|c2 l]] eqn:E; [done..|]. cbn [app]. rewrite Hd. cbn [negb].
  rewrite <- E, !unchars_chars. cbn [fmap option_fmap option_map]. by rewrite unchars_chars, Hf.
Qed.

Lemma take_value a v ns : a ∈ List.tail parser → has_type a v → kind a ≠ StoreTrue → v ≠ VNone →
  takes_value a = true ∧ take_action a (Some (value_text v)) ns = Ret (<[dest a := v]> ns).
Proof.
  intros Ha Hv Hk Hn. unfold has_type, takes_value, take_action in *.
  destruct (kind a) as [t cs| |]; [|done|by destruct v]. split; [done|].
  destruct t, v as [|s|z|x|b]; try done; cbn [value_text convert]; destruct cs as [l|]; try done.
  - rewrite bool_decide_eq_true_2; [done|]. by apply list_elem_of_fmap_2.
  - by rewrite py_int_pretty.
  - by rewrite py_float_text.
Qed.

(** A [--] in front makes no difference. *)
Definition dash_neutral (ks : list (klass * string)) : Prop :=
  match ks with
  | (KDash, _) :: l => ∀ pos m, consume ks pos false m = consume l pos false m
  | _ => True
  end.

(** What the arguments of one option do. *)
Lemma option_args_step ns a rest pos m ks :
  typed ns → a ∈ List.tail parser → classify_all rest = Ret ks → dash_neutral ks →
  ∃ ks' m', classify_all (option_args ns a ++ rest) = Ret ks' ∧ dash_neutral ks'
    ∧ consume ks' pos false m = consume ks pos false m'
    ∧ (m' = <[dest a := default VNone (ns !! dest a)]> m ∨ (m' = m ∧ ns !! dest a = Some (dflt a))).
Proof.
  intros Ht Ha Hks Hnd. destruct (typed_lookup ns a Ht Ha) as (v & Hv & Hty).
  pose proof (tail_declared a Ha) as Hw. pose proof (tail_parser a Ha) as Hp.
  unfold option_args. rewrite Hv. cbn [default].
  destruct (kind a) as [t cs| |] eqn:Ek; [case_bool_decide as Hvn| |].
  - exists ks, m. split; [done|]. split; [done|]. split; [done|]. right. split; [done|]. f_equal. subst v.
    unfold has_type in Hty. rewrite Ek in Hty. by destruct t, cs.
  - destruct (classify_value a (value_text v) Hp) as [Hc Hdd].
    destruct (take_value a v m Ha Hty ltac:(congruence) Hvn) as [Htv Hta].
    eexists _, _. split; [cbn [app classify_all]; rewrite bool_decide_eq_false_2, Hc, Hks by done; reflexivity|].
    split; [done|]. split; [|by left]. cbn [consume].
    destruct (chars (value_text v)) as [|c l] eqn:Ec;
      cbn [Argparse.combine]; rewrite Htv; cbn [run_actions]; rewrite <- Ec, unchars_chars, Hta; reflexivity.
  - unfold has_type in Hty. rewrite Ek in Hty. destruct v as [| | | |[]]; try done.
    + destruct (long_parser a Hp) as (_ & _ & Hdd & _). eexists _, _.
      split; [cbn [app classify_all]; rewrite bool_decide_eq_false_2, (classify_flag a Hp), Hks by done; reflexivity|].
      split; [done|]. split; [|by left]. cbn [consume]. unfold takes_value, take_action. rewrite Ek.
      destruct ks as [|[[] ?] ?]; first [done|symmetry; apply Hnd].
    + exists ks, m. split; [done|]. split; [done|]. split; [done|]. right. split; [done|]. f_equal.
      unfold well_declared in Hw. rewrite Ek in Hw. by destruct (dflt a) as [| | | |[]].
  - unfold has_type in Hty. rewrite Ek in Hty. by destruct v.
Qed.

(** [m'] holds at [k] what [ns] or [m] holds, and what [ns] holds once an
    action of [l] has [k] as its attribute. *)
Lemma command_line_go ns l rest ks pos :
  typed ns → l ⊆ List.tail parser → classify_all rest = Ret ks → dash_neutral ks → ∀ m,
  ∃ ks' m', classify_all (mjoin (option_args ns <$> l) ++ rest) = Ret ks' ∧ dash_neutral ks'
    ∧ consume ks' pos false m = consume ks pos false m'
    ∧ ∀ k, (m' !! k = ns !! k ∧ k ∈ dest <$> l)
           ∨ (m' !! k = m !! k ∧ ∀ a, a ∈ l → dest a = k → ns !! k = Some (dflt a)).
Proof.
  intros Ht Hl Hks Hnd. induction l as [|a l IH]; intros m.
  - exists ks, m. cbn. split; [done|]. split; [done|]. split; [done|]. intros k. right. split; [done|set_solver].
  - assert (a ∈ List.tail parser) as Ha by set_solver.
    destruct (IH ltac:(set_solver) m) as (ks1 & _ & Hks1 & Hnd1 & _ & _).
    destruct (option_args_step ns a _ pos m ks1 Ht Ha Hks1 Hnd1) as (ks' & m1 & Hks' & Hnd' & Hc & Hm1).
    destruct (IH ltac:(set_solver) m1) as (ks2 & m' & Hks2 & _ & Hc2 & Hm'). rewrite Hks1 in Hks2. injection Hks2 as <-.
    exists ks', m'. cbn [fmap list_fmap mjoin list_join]. rewrite <- app_assoc.
    split; [done|]. split; [done|]. split; [by rewrite Hc|]. intros k.
    destruct (Hm' k) as [[Hk Hin]|[Hk Hl2]]; [left; split; [done|by right]|].
    destruct (typed_lookup ns a Ht Ha) as (v & Hv & _). rewrite Hv in Hm1. cbn [default] in Hm1.
    destruct Hm1 as [->|[-> Hd]].
    + destruct (decide (dest a = k)) as [<-|Hne]; [left; split; [by rewrite Hk, lookup_insert_eq, Hv|by left]|].
      right. rewrite lookup_insert_ne in Hk by done. split; [done|]. intros b [->|Hb]%elem_of_cons; [done|by apply Hl2].
    + right. split; [done|]. intros b [->|Hb]%elem_of_cons; [intros <-; congruence|by apply Hl2].
Qed.

(** The positional argument comes last. *)
Lemma positional_args_parse ns m : typed ns →
  ∃ ks, classify_all (positional_args ns) = Ret ks ∧ dash_neutral ks
    ∧ consume ks positional false m =
      Ret match positional with Some p => <[p := default VNone (ns !! p)]> m | None => m end.
Proof.
  intros (_ & _ & Hp). unfold positional_args. destruct positional as [p|]; [|by exists []].
  destruct (Hp p eq_refl eq_refl) as [s Hs]. rewrite Hs.
  exists [(KDash, "--"); (KArg, s)]. split; [done|]. split; [by intros [] ?|done].
Qed.

Lemma command_line_parses ns : typed ns → parse_args (command_line ns) = Ret ns.
Proof.
  intros Ht. unfold parse_args, command_line.
  destruct (positional_args_parse ns ∅ Ht) as (ks & Hks & Hnd & _).
  destruct (command_line_go ns (List.tail parser) _ ks positional Ht ltac:(done) Hks Hnd defaults)
    as (ks' & m & -> & _ & -> & Hm).
  destruct (positional_args_parse ns m Ht) as (ks2 & Hks2 & _ & Hc). rewrite Hks in Hks2. injection Hks2 as <-. rewrite Hc.
  f_equal. apply map_eq. intros k.
  assert (k ∉ option_list positional → m !! k = ns !! k) as Hopt.
  { intros Hnp. destruct (Hm k) as [[-> _]|[-> Hk]]; [done|].
    destruct (decide (k ∈ dest <$> List.tail parser)) as [(a & -> & Ha)%list_elem_of_fmap|Hn].
    - rewrite defaults_lookup by done. symmetry. by apply Hk.
    - assert (∀ pos n, typed_but pos n → n !! k = None) as Hnone.
      { intros pos n [Hd _]. apply not_elem_of_dom. rewrite Hd, elem_of_list_to_set. unfold attributes. set_solver. }
      rewrite (Hnone None ns Ht). by apply (Hnone positional), defaults_typed. }
  destruct positional as [p|] eqn:Ep; [|apply Hopt; cbn; set_solver].
  destruct (decide (k = p)) as [->|Hne].
  - rewrite lookup_insert_eq. destruct Ht as (_ & _ & Hp). by destruct (Hp p Ep eq_refl) as [s ->].
  - rewrite lookup_insert_ne by done. apply Hopt. cbn. set_solver.
Qed.

(** Whatever the arguments. *)
Lemma parse_args_gives argv : gives typed (parse_args argv).
Proof.
  pose proof (classify_all_ok argv) as Hk. unfold parse_args. destruct (classify_all argv) as [ks|]; [|done].
  apply consume_ok; [by right|done|apply defaults_typed].
Qed.

(** ** Options written out *)

(** [p] is an option of the parser, by its name, and a value of its type. *)
Definition option_for (a : action) (p : string * pyval) : Prop :=
  long a = p.1 ∧ dest a = dest_name p.1 ∧ has_type a p.2.
(** The arguments that give the option this value. *)
Definition option_text (p : string * pyval) : list string :=
  match p.2 with
  | VNone | VBool false => []
  | VBool true => [p.1]
  | v => [p.1 +:+ String (ascii_of_nat 61) (value_text v)]
  end.
Definition given_args (opts : list (string * pyval)) : list string := mjoin (option_text <$> opts).
(** The namespace with these values. *)
Definition given (opts : list (string * pyval)) : namespace :=
  foldr (λ p m, <[dest_name p.1 := p.2]> m) defaults opts.

Lemma given_typed acts opts :
  Forall2 option_for acts opts → acts ⊆ List.tail parser → typed_but positional (given opts).
Proof.
  induction 1 as [|a p acts opts (_ & Hd & Hty) _ IH]; intros Hsub; [apply defaults_typed|].
  cbn. rewrite <- Hd. apply insert_typed; [set_solver|done|]. apply IH. set_solver.
Qed.

Lemma given_lookup acts opts :
  Forall2 option_for acts opts → NoDup (dest <$> acts) →
  Forall2 (λ a p, given opts !! dest a = Some p.2) acts opts.
Proof.
  induction 1 as [|a p acts opts (_ & Hd & _) _ IH]; [constructor|]. intros [Hn Hnd]%NoDup_cons.
  constructor; [cbn; by rewrite Hd, lookup_insert_eq|]. specialize (IH Hnd). clear Hnd.
  cbn [given foldr]. fold (given opts). revert IH. generalize (given opts). intros m IH.
  induction IH as [|b q acts opts' Hb Hl IH']; [constructor|]. apply not_elem_of_cons in Hn as [Hne Hn].
  constructor; [by rewrite <- Hd, lookup_insert_ne|by apply IH'].
Qed.

Lemma option_args_text ns a p :
  option_for a p → ns !! dest a = Some p.2 → option_args ns a = option_text p.
Proof.
  intros (Hl & _ & Hty) Hv. destruct p as [o v]. cbn [fst snd] in *. subst o.
  unfold option_args, option_text, has_type in *. rewrite Hv. cbn [fst snd].
  destruct (kind a) as [[] [cs|]| |]; destruct v as [| | | |[]]; try done;
    (rewrite bool_decide_eq_true_2 by done || rewrite bool_decide_eq_false_2 by done); done.
Qed.

Lemma given_args_parse opts :
  Forall2 option_for (List.tail parser) opts → positional = None → parse_args (given_args opts) = Ret (given opts).
Proof.
  intros Hf Hp. rewrite <- command_line_parses.
  2:{ unfold typed. rewrite <- Hp. by eapply given_typed. }
  f_equal. unfold command_line, given_args, positional_args. rewrite Hp, app_nil_r. f_equal. symmetry.
  pose proof (given_lookup _ _ Hf tail_dests) as Hl. generalize dependent (given opts). intros ns Hl.
  induction Hl as [|a p acts opts' Hv Hl IH]; [done|]. apply Forall2_cons in Hf as [Ha Hf].
  cbn [fmap list_fmap]. f_equal; [by apply option_args_text|]. by apply IH.
Qed.
End laws.
