(* ===== verification/Args.v ===== *)
(** * The command line ([main] of [src/resilientdns/main.py])

    The options [main] declares, and the attributes [build_config] reads. *)
From S2P Require Import Prelude PyFloat PyString Config Argparse.
From stdpp Require Import base list strings gmap sets pretty.

Definition main_options : list action :=
  [ mkAction ["-h"; "--help"] Help VNone;
    str_opt "--listen-host" (Some "127.0.0.1");
    int_opt "--listen-port" 5353;
    int_opt "--max-inflight" 256;
    str_opt "--metrics-host" (Some "127.0.0.1");
    int_opt "--metrics-port" 0;
    opt "--upstream-transport" AStr (Some ["udp"; "tcp"; "relay"]) (VStr "udp");
    str_opt "--upstream-host" (Some "1.1.1.1");
    int_opt "--upstream-port" 53;
    opt "--upstream-timeout" AFloat None (VFloat (float_of_Z 2));
    str_opt "--relay-base-url" None;
    int_opt "--relay-api-version" 1;
    str_opt "--relay-auth-token" None;
    opt "--relay-startup-check" AStr (Some ["require"; "warn"; "off"]) (VStr "require");
    int_opt "--relay-max-items" 32;
    int_opt "--relay-max-request-bytes" 65536;
    int_opt "--relay-per-item-max-wire-bytes" 4096;
    int_opt "--relay-max-response-bytes" 262144;
    int_opt "--serve-stale-max" 300;
    int_opt "--negative-ttl" 60;
    flag ["--refresh-enabled"];
    int_opt "--refresh-ahead-seconds" 30;
    int_opt "--refresh-popularity-threshold" 5;
    int_opt "--refresh-popularity-decay-seconds" 0;
    int_opt "--refresh-tick-ms" 500;
    int_opt "--refresh-batch-size" 50;
    int_opt "--refresh-concurrency" 5;
    int_opt "--refresh-queue-max" 1024;
    flag ["--refresh-warmup-enabled"];
    str_opt "--refresh-warmup-file" None;
    int_opt "--refresh-warmup-limit" 200;
    flag ["-v"; "--verbose"] ].

#[export] Instance main_parser : Parser := mkParser main_options None.

(** [None] when an attribute is missing or has another type. *)
Definition namespace_of (ns : namespace) : option Config.Namespace :=
  listen_host ← str_attr ns "listen_host";
  listen_port ← int_attr ns "listen_port";
  max_inflight ← int_attr ns "max_inflight";
  metrics_host ← str_attr ns "metrics_host";
  metrics_port ← int_attr ns "metrics_port";
  upstream_transport ← str_attr ns "upstream_transport";
  upstream_host ← str_attr ns "upstream_host";
  upstream_port ← int_attr ns "upstream_port";
  upstream_timeout ← float_attr ns "upstream_timeout";
  serve_stale_max ← int_attr ns "serve_stale_max";
  negative_ttl ← int_attr ns "negative_ttl";
  verbose ← bool_attr ns "verbose";
  relay_base_url ← opt_str_attr ns "relay_base_url";
  relay_api_version ← int_attr ns "relay_api_version";
  relay_auth_token ← opt_str_attr ns "relay_auth_token";
  relay_startup_check ← str_attr ns "relay_startup_check";
  relay_max_items ← int_attr ns "relay_max_items";
  relay_max_request_bytes ← int_attr ns "relay_max_request_bytes";
  relay_per_item_max_wire_bytes ← int_attr ns "relay_per_item_max_wire_bytes";
  relay_max_response_bytes ← int_attr ns "relay_max_response_bytes";
  refresh_enabled ← bool_attr ns "refresh_enabled";
  refresh_ahead_seconds ← int_attr ns "refresh_ahead_seconds";
  refresh_popularity_threshold ← int_attr ns "refresh_popularity_threshold";
  refresh_popularity_decay_seconds ← int_attr ns "refresh_popularity_decay_seconds";
  refresh_tick_ms ← int_attr ns "refresh_tick_ms";
  refresh_batch_size ← int_attr ns "refresh_batch_size";
  refresh_concurrency ← int_attr ns "refresh_concurrency";
  refresh_queue_max ← int_attr ns "refresh_queue_max";
  refresh_warmup_enabled ← bool_attr ns "refresh_warmup_enabled";
  refresh_warmup_file ← opt_str_attr ns "refresh_warmup_file";
  refresh_warmup_limit ← int_attr ns "refresh_warmup_limit";
  Some (Config.mkNamespace listen_host listen_port max_inflight metrics_host metrics_port
    upstream_transport upstream_host upstream_port upstream_timeout serve_stale_max negative_ttl verbose
    relay_base_url relay_api_version relay_auth_token relay_startup_check relay_max_items
    relay_max_request_bytes relay_per_item_max_wire_bytes relay_max_response_bytes
    refresh_enabled refresh_ahead_seconds refresh_popularity_threshold refresh_popularity_decay_seconds
    refresh_tick_ms refresh_batch_size refresh_concurrency refresh_queue_max refresh_warmup_enabled
    refresh_warmup_file refresh_warmup_limit).
