(* ===== verification/ArgsTheorems.v ===== *)
(** * Properties of the program's command line

    What is parsed has the declared types, and every namespace can be given as
    arguments. *)
From S2P Require Import Prelude PyFloat PyString Warmup Decimal Config Argparse ArgNumbers ArgparseProps Args.
From stdpp Require Import base list strings gmap sets pretty.
From Stdlib Require Import Ascii.

(** The table of [main] is well formed, by evaluation. *)
#[export] Instance main_parser_laws : ParserLaws.
Proof.
  split.
  - intros a [->|Ha]%elem_of_cons Hk; [by destruct Hk|done].
  - refine (bool_decide_unpack _ _). vm_compute. exact I.
  - done.
  - refine (bool_decide_unpack _ _). vm_compute. exact I.
  - vm_compute. reflexivity.
  - cbn [parser main_parser]. unfold main_options. cbn [List.tail]. defaults_ok.
Qed.

(** ** The settings that can be given *)

Definition int_settings (a : Config.Namespace) : list Z :=
  [Config.a_listen_port a; Config.a_max_inflight a; Config.a_metrics_port a; Config.a_upstream_port a;
   Config.a_serve_stale_max a; Config.a_negative_ttl a; Config.a_relay_api_version a; Config.a_relay_max_items a;
   Config.a_relay_max_request_bytes a; Config.a_relay_per_item_max_wire_bytes a; Config.a_relay_max_response_bytes a;
   Config.a_refresh_ahead_seconds a; Config.a_refresh_popularity_threshold a;
   Config.a_refresh_popularity_decay_seconds a; Config.a_refresh_tick_ms a; Config.a_refresh_batch_size a;
   Config.a_refresh_concurrency a; Config.a_refresh_queue_max a; Config.a_refresh_warmup_limit a].

Record settable (a : Config.Namespace) : Prop := {
  st_ints : Forall int_ok (int_settings a);
  st_timeout : float_ok (Config.a_upstream_timeout a);
  st_transport : Config.a_upstream_transport a ∈ ["udp"; "tcp"; "relay"];
  st_startup_check : Config.a_relay_startup_check a ∈ ["require"; "warn"; "off"];
}.

(** Every attribute is there, so the settings can be built. *)
Lemma namespace_of_typed ns : typed ns → ∃ a, namespace_of ns = Some a ∧ settable a.
Proof.
  intros Ht. destruct (attr_typed ns "upstream_timeout" Ht) as (x & Hx & Hxo).
  destruct (attr_typed ns "upstream_transport" Ht ltac:(by vm_compute)) as (tr & Htr & Htri).
  destruct (attr_typed ns "relay_startup_check" Ht ltac:(by vm_compute)) as (sc & Hsc & Hsci).
  unfold namespace_of. rewrite Htr, Hsc, Hx.
  repeat match goal with
  | |- context [int_attr ns ?k] => destruct (attr_typed ns k Ht) as (? & -> & ?)
  | |- context [bool_attr ns ?k] => destruct (attr_typed ns k Ht) as [? ->]
  | |- context [opt_str_attr ns ?k] => destruct (attr_typed ns k Ht) as [[? ->] _]
  | |- context [str_attr ns ?k] => destruct (proj2 (attr_typed ns k Ht) ltac:(by vm_compute)) as [? ->]
  end.
  eexists. split; [reflexivity|]. split; [|done..].
  unfold int_settings. repeat (apply Forall_cons; split; [assumption|]). constructor.
Qed.

Lemma parsed (argv : list string) :
  match parse_args argv with
  | Raise e => exits e
  | Ret ns => typed ns ∧ ∃ a, namespace_of ns = Some a ∧ settable a
  end.
Proof.
  pose proof (parse_args_gives argv) as Ht. destruct (parse_args argv) as [ns|]; [|done].
  split; [done|by apply namespace_of_typed].
Qed.

(** C37: Whatever the arguments, parsing them ends in a namespace that has
    exactly the declared attributes, each of its declared type and within its
    choices, so that the settings can be built from it, or in an exit with
    status 0 or 2. *)
Theorem parse_args_typed (argv : list string) :
  match parse_args argv with
  | Raise e => exits e
  | Ret ns => typed ns ∧ ∃ a, namespace_of ns = Some a ∧ settable a
  end.
Proof. apply parsed. Qed.

(** ** Settings as arguments *)

Definition opt_val (o : option string) : pyval := match o with Some s => VStr s | None => VNone end.

(** Each setting under the option that sets it. *)
Definition setting_options (a : Config.Namespace) : list (string * pyval) :=
  [("--listen-host", VStr (Config.a_listen_host a)); ("--listen-port", VInt (Config.a_listen_port a));
   ("--max-inflight", VInt (Config.a_max_inflight a)); ("--metrics-host", VStr (Config.a_metrics_host a));
   ("--metrics-port", VInt (Config.a_metrics_port a));
   ("--upstream-transport", VStr (Config.a_upstream_transport a));
   ("--upstream-host", VStr (Config.a_upstream_host a)); ("--upstream-port", VInt (Config.a_upstream_port a));
   ("--upstream-timeout", VFloat (Config.a_upstream_timeout a));
   ("--relay-base-url", opt_val (Config.a_relay_base_url a));
   ("--relay-api-version", VInt (Config.a_relay_api_version a));
   ("--relay-auth-token", opt_val (Config.a_relay_auth_token a));
   ("--relay-startup-check", VStr (Config.a_relay_startup_check a));
   ("--relay-max-items", VInt (Config.a_relay_max_items a));
   ("--relay-max-request-bytes", VInt (Config.a_relay_max_request_bytes a));
   ("--relay-per-item-max-wire-bytes", VInt (Config.a_relay_per_item_max_wire_bytes a));
   ("--relay-max-response-bytes", VInt (Config.a_relay_max_response_bytes a));
   ("--serve-stale-max", VInt (Config.a_serve_stale_max a)); ("--negative-ttl", VInt (Config.a_negative_ttl a));
   ("--refresh-enabled", VBool (Config.a_refresh_enabled a));
   ("--refresh-ahead-seconds", VInt (Config.a_refresh_ahead_seconds a));
   ("--refresh-popularity-threshold", VInt (Config.a_refresh_popularity_threshold a));
   ("--refresh-popularity-decay-seconds", VInt (Config.a_refresh_popularity_decay_seconds a));
   ("--refresh-tick-ms", VInt (Config.a_refresh_tick_ms a));
   ("--refresh-batch-size", VInt (Config.a_refresh_batch_size a));
   ("--refresh-concurrency", VInt (Config.a_refresh_concurrency a));
   ("--refresh-queue-max", VInt (Config.a_refresh_queue_max a));
   ("--refresh-warmup-enabled", VBool (Config.a_refresh_warmup_enabled a));
   ("--refresh-warmup-file", opt_val (Config.a_refresh_warmup_file a));
   ("--refresh-warmup-limit", VInt (Config.a_refresh_warmup_limit a)); ("--verbose", VBool (Config.a_verbose a))].

Lemma setting_options_fit a : settable a → Forall2 option_for (List.tail parser) (setting_options a).
Proof.
  intros [Hi Ht Htr Hs]. unfold int_settings in Hi. rewrite !Forall_cons in Hi. destruct_and? Hi.
  cbn [parser main_parser main_options List.tail]. unfold setting_options.
  repeat match goal with |- Forall2 _ (_ :: _) (_ :: _) => apply Forall2_cons; split end; [..|constructor];
    (split; [reflexivity|]; split; [reflexivity|]); cbn [snd]; unfold opt_val;
    first [assumption|exact I|repeat case_match; done].
Qed.

Lemma given_settings a : namespace_of (given (setting_options a)) = Some a.
Proof. destruct a as [????????????[]?[]??????????????[]?]; vm_compute; reflexivity. Qed.

Definition default_settings : Config.Namespace :=
  Config.mkNamespace "127.0.0.1" 5353 256 "127.0.0.1" 0 "udp" "1.1.1.1" 53 (float_of_Z 2) 300 60 false
    None 1 None "require" 32 65536 4096 262144 false 30 5 0 500 50 5 1024 false None 200.

Lemma no_arguments : parse_args [] = Ret defaults ∧ namespace_of defaults = Some default_settings.
Proof. split; [reflexivity|]. vm_compute. reflexivity. Qed.

(** C38: The command line and the settings agree: any settings of the declared
    types (texts, integers, a double, a transport and a startup check among the
    documented ones) are what the program gets from the arguments that give
    each under its documented option, as [--option=value], a flag as [--option]
    and an absent text not at all; no arguments give other settings; and without
    arguments the settings are the documented defaults. *)
Theorem parse_args_roundtrip (a : Config.Namespace) :
  (settable a ↔ ∃ argv ns, parse_args argv = Ret ns ∧ namespace_of ns = Some a)
  ∧ (settable a → ∃ ns, parse_args (given_args (setting_options a)) = Ret ns ∧ namespace_of ns = Some a)
  ∧ ∃ ns, parse_args [] = Ret ns ∧ namespace_of ns = Some default_settings.
Proof.
  assert (settable a → ∃ ns, parse_args (given_args (setting_options a)) = Ret ns ∧ namespace_of ns = Some a) as Hgive.
  { intros Ha. exists (given (setting_options a)). split; [|apply given_settings].
    apply given_args_parse; [by apply setting_options_fit|reflexivity]. }
  split; [split|split; [exact Hgive|exists defaults; apply no_arguments]].
  - intros Ha. eexists. by apply Hgive.
  - intros (argv & ns & Hp & Hn). pose proof (parsed argv) as Ht. rewrite Hp in Ht.
    destruct Ht as (_ & a' & Hn' & Ha). rewrite Hn in Hn'. by injection Hn' as <-.
Qed.

Module args_example.
Definition settings : Config.Namespace :=
  Config.mkNamespace "127.0.0.1" (-53) 256 "127.0.0.1" 0 "tcp" "1.1.1.1" 53
    (round_quotient false 15 10) 300 60 true (Some "https://relay.example/a=b") 1 None "warn" 32 65536 4096 262144
    true 30 5 0 500 50 5 1024 false None 200.
End args_example.

Lemma parse_args_roundtrip_witness :
  "--listen-port=-53" ∈ given_args (setting_options args_example.settings)
  ∧ "--relay-base-url=https://relay.example/a=b" ∈ given_args (setting_options args_example.settings)
  ∧ ∃ ns, parse_args (given_args (setting_options args_example.settings)) = Ret ns
      ∧ namespace_of ns = Some args_example.settings.
Proof.
  split; [refine (bool_decide_unpack _ _); vm_compute; exact I|].
  split; [refine (bool_decide_unpack _ _); vm_compute; exact I|].
  apply (parse_args_roundtrip args_example.settings). split.
  - unfold int_settings. repeat (apply Forall_cons; split; [apply small_int_ok; reflexivity|]). constructor.
  - apply round_quotient_ok; lia.
  - refine (bool_decide_unpack _ _); vm_compute; exact I.
  - refine (bool_decide_unpack _ _); vm_compute; exact I.
Defined.

(** What [float] makes of texts as users write them. *)
Lemma py_float_examples :
  py_float "2.0" = Some (float_of_Z 2) ∧ py_float " 1_000.5e-3 " = Some (round_quotient false 10005 10000)
  ∧ py_float "1e-10" = Some (round_quotient false 1 (10 ^ 10)) ∧ py_float "1e-400" = Some (float_of_Z 0)
  ∧ py_float "-Infinity" = Some (SpecFloat.S754_infinity true) ∧ py_float "nan" = Some SpecFloat.S754_nan
  ∧ py_float "1e400" = Some (SpecFloat.S754_infinity false) ∧ py_float "1e" = None ∧ py_float "1__0" = None.
Proof. vm_compute. done. Qed.
