(* ===== verification/Main.v ===== *)
(** * Start-up ([src/resilientdns/main.py]) and the validity of a configuration

    The configurations [_run] hands to each component, [main] from its
    arguments to [_run], the warmup at start-up, and the theorems that a
    configuration [main] runs with satisfies what the components' theorems
    assume. *)
From S2P Require Import Prelude PyFloat PyString Metrics Dns Cache CacheEvict CacheProps Handler Framing Servers Upstream Relay Http Config Argparse ArgparseProps Args ArgsTheorems Warmup.
From stdpp Require Import base list strings gmap sets.
From Stdlib.Floats Require Import SpecFloat.

(** ** Wiring *)

Definition _build_relay_config (cfg : Config.Config) : RelayConfig :=
  mkRelayConfig (default "" (Config.relay_base_url cfg)) (Config.relay_api_version cfg)
    (Config.relay_auth_token cfg) (Config.relay_startup_check cfg) (Config.relay_limits cfg).

Definition cache_config (cfg : Config.Config) : CacheConfig :=
  mkCacheConfig (Config.serve_stale_max_s cfg) (Config.negative_ttl_s cfg) (Config.cache_max_entries cfg).

Definition handler_config (cfg : Config.Config) : HandlerConfig :=
  mkHandlerConfig (Config.upstream_timeout_s cfg) (5 * SECOND) (Config.refresh_queue_max cfg)
    (Config.refresh_enabled cfg) (Config.refresh_ahead_seconds cfg) (Config.refresh_popularity_threshold cfg)
    (Config.refresh_popularity_decay_seconds cfg) (Config.refresh_tick_ms cfg) (Config.refresh_batch_size cfg)
    (Config.refresh_concurrency cfg).

Definition udp_server_config (cfg : Config.Config) : UdpServerConfig :=
  mkUdpServerConfig (Config.listen_host cfg) (Config.listen_port cfg) (Config.max_inflight cfg)
    (max_udp_payload UdpServerConfig_default).
Definition tcp_server_config (cfg : Config.Config) : TcpServerConfig :=
  mkTcpServerConfig (Config.listen_host cfg) (Config.listen_port cfg) (Config.max_inflight cfg)
    (max_message_size TcpServerConfig_default) (read_timeout_s TcpServerConfig_default)
    (idle_timeout_s TcpServerConfig_default).

Definition metrics_server_config (cfg : Config.Config) : option HttpMetricsConfig :=
  if (0 <? Config.metrics_port cfg)%Z then
    Some (mkHttpMetricsConfig (Config.metrics_host cfg) (Config.metrics_port cfg)
            (http_read_timeout_s HttpMetricsConfig_default) (max_header_bytes HttpMetricsConfig_default))
  else None.

Inductive upstream_choice : Type :=
| UseRelay (c : RelayConfig) (timeout_s : float)
| UseTcp (c : UpstreamTcpConfig)
| UseUdp (c : UpstreamUdpConfig).

Definition choose_upstream (cfg : Config.Config) : upstream_choice :=
  if bool_decide (Config.upstream_transport cfg = "relay") then
    UseRelay (_build_relay_config cfg) (Config.upstream_timeout_s cfg)
  else if bool_decide (Config.upstream_transport cfg = "tcp") then
    UseTcp (mkUpstreamTcpConfig (Config.upstream_host cfg) (Config.upstream_port cfg)
              (Config.upstream_timeout_s cfg) (Config.upstream_timeout_s cfg) 65535
              (Config.tcp_pool_max_conns cfg) (Config.tcp_pool_idle_timeout_s cfg) 0)
  else
    UseUdp (mkUpstreamUdpConfig (Config.upstream_host cfg) (Config.upstream_port cfg)
              (Config.upstream_timeout_s cfg) (Config.udp_max_workers cfg) 0).

(** [main] up to [_run]: the configuration it runs with, or its exit.  [get]
    and [dec] are the relay's [/info] as the startup check sees it. *)
Definition main_checks (bracketed_ok : string → bool) (get : http_get) (dec : decoder)
    (args : Config.Namespace) : res Config.Config :=
  let cfg := Config.build_config args in
  match Config.validate_config bracketed_ok cfg with
  | Raise e => if is_ValueError e then Raise (SystemExit "1") else Raise e
  | Ret _ =>
      if bool_decide (Config.upstream_transport cfg = "relay")
         && negb (bool_decide (Config.relay_startup_check cfg = "off"))
      then
        let relay_cfg := _build_relay_config cfg in
        match run_relay_startup_check relay_cfg get dec (limits relay_cfg) (Config.relay_startup_check cfg) with
        | Raise e => Raise e
        | Ret _ => Ret cfg
        end
      else Ret cfg
  end.

(** [main] on [sys.argv[1:]]; reading an attribute that is missing is an
    [AttributeError]. *)
Definition main (bracketed_ok : string → bool) (get : http_get) (dec : decoder)
    (argv : list string) : res Config.Config :=
  match parse_args argv with
  | Raise e => Raise e
  | Ret ns =>
      match namespace_of ns with
      | None => Raise OtherException
      | Some args => main_checks bracketed_ok get dec args
      end
  end.

(** The warmup list, before the servers are built: [read] is the text of a
    file, or what reading it raises. *)
Definition load_warmup `{Dnslib} (read : string → res string) (exn_str : exn → string) (cfg : Config.Config)
    : M HSt () :=
  if Config.refresh_warmup_enabled cfg then
    try_except
      (text ← lift_res (read (default "" (Config.refresh_warmup_file cfg)));
       enqueue_warmup_file text (enqueue_refresh (handler_config cfg)) (Config.refresh_warmup_limit cfg);;
       mret ())
      is_Exception (λ e, raise (SystemExit ("failed to load warmup file: " +:+ exn_str e)))
  else mret ().

(** ** Validity *)

Definition port_ok (p : Z) : Prop := (1 ≤ p ≤ 65535)%Z.

(** A relay URL: no surrounding whitespace, an http or https scheme, a host,
    and neither query nor fragment. *)
Definition base_url_ok (bracketed_ok : string → bool) (url : string) : Prop :=
  url ≠ "" ∧ strip url = url ∧
  ∃ parts, urlsplit bracketed_ok url = Ret parts
    ∧ (u_scheme parts = "http" ∨ u_scheme parts = "https") ∧ u_netloc parts ≠ ""
    ∧ u_query parts = "" ∧ u_fragment parts = "".

Definition limits_ok (l : RelayLimits) : Prop :=
  (0 < max_items l ∧ 0 < max_request_bytes l ∧ 0 < per_item_max_wire_bytes l ∧ 0 < max_response_bytes l)%Z.

(** What each field must be. *)
Record config_valid (bracketed_ok : string → bool) (cfg : Config.Config) : Prop := {
  cv_hosts : strip (Config.listen_host cfg) ≠ "" ∧ strip (Config.upstream_host cfg) ≠ ""
             ∧ strip (Config.metrics_host cfg) ≠ "";
  cv_ports : port_ok (Config.listen_port cfg) ∧ port_ok (Config.upstream_port cfg)
             ∧ (Config.metrics_port cfg = 0%Z ∨ port_ok (Config.metrics_port cfg));
  cv_transport : Config.upstream_transport cfg ∈ ["udp"; "tcp"; "relay"];
  cv_timeout : SFleb (Config.upstream_timeout_s cfg) (float_of_Z 0) = false;
  cv_times : (0 ≤ Config.serve_stale_max_s cfg
              ∧ 0 ≤ Config.negative_ttl_s cfg ∧ 0 ≤ Config.cache_max_entries cfg)%Z;
  cv_refresh : (0 ≤ Config.refresh_ahead_seconds cfg ∧ 0 ≤ Config.refresh_popularity_threshold cfg
                ∧ 0 ≤ Config.refresh_popularity_decay_seconds cfg ∧ 0 < Config.refresh_tick_ms cfg
                ∧ 0 < Config.refresh_batch_size cfg ∧ 0 ≤ Config.refresh_concurrency cfg
                ∧ 0 ≤ Config.refresh_queue_max cfg)%Z
               ∧ (Config.refresh_enabled cfg = true → (0 < Config.refresh_concurrency cfg)%Z);
  cv_warmup : Config.refresh_warmup_enabled cfg = true →
              Config.refresh_enabled cfg = true ∧ (0 < Config.refresh_warmup_limit cfg)%Z
              ∧ ∃ f, Config.refresh_warmup_file cfg = Some f ∧ f ≠ "";
  cv_limits : (1 ≤ Config.max_inflight cfg ∧ 1 ≤ Config.udp_max_workers cfg
               ∧ 0 ≤ Config.tcp_pool_max_conns cfg ∧ 0 < Config.tcp_pool_idle_timeout_s cfg)%Z;
  cv_relay_url : ∀ url, Config.relay_base_url cfg = Some url → url ≠ "" →
                 base_url_ok bracketed_ok url
                 ∧ Config.relay_startup_check cfg ∈ ["require"; "warn"; "off"]
                 ∧ limits_ok (Config.relay_limits cfg);
  cv_relay : Config.upstream_transport cfg = "relay" →
             (∃ url, Config.relay_base_url cfg = Some url ∧ url ≠ "")
             ∧ (1 ≤ Config.relay_api_version cfg)%Z;
}.

Lemma raise_if_spec b msg k : raise_if b msg k = Ret () ↔ b = false ∧ k = Ret ().
Proof. destruct b; cbn; naive_solver. Qed.
Lemma then_spec a b : then_ a b = Ret () ↔ a = Ret () ∧ b = Ret ().
Proof. destruct a as [[]|]; cbn; naive_solver. Qed.
Lemma truthy_str (s : string) : truthy s = true ↔ s ≠ "".
Proof. by destruct s. Qed.
Lemma truthy_str_false (s : string) : truthy s = false ↔ s = "".
Proof. by destruct s. Qed.

Lemma validate_base_url_spec bracketed_ok url :
  validate_base_url bracketed_ok url = Ret () ↔ base_url_ok bracketed_ok url.
Proof.
  unfold validate_base_url, base_url_ok. rewrite !raise_if_spec, !negb_false_iff, truthy_str, bool_decide_eq_true.
  split.
  - intros (Hne & Hs & Hp). rewrite Hs in Hne. split; [done|]. split; [done|].
    destruct (urlsplit bracketed_ok url) as [parts|]; [|done]. exists parts.
    rewrite !raise_if_spec, !negb_false_iff, truthy_str, bool_decide_eq_true, orb_false_iff, !truthy_str_false in Hp.
    destruct Hp as (Hsch & Hnl & [Hq Hf] & _). split; [done|]. split; [set_solver|done].
  - intros (Hne & Hs & parts & -> & Hsch & Hnl & Hq & Hf). rewrite Hs. split; [done|]. split; [done|].
    rewrite !raise_if_spec, !negb_false_iff, truthy_str, bool_decide_eq_true, orb_false_iff, !truthy_str_false.
    split; [set_solver|done].
Qed.

Lemma validate_limits_spec l : validate_limits l = Ret () ↔ limits_ok l.
Proof.
  unfold validate_limits, as_dict, limits_ok. cbn [check_positive].
  destruct (max_items l <=? 0)%Z eqn:E1; zbool; [split; [done|lia]|].
  destruct (max_request_bytes l <=? 0)%Z eqn:E2; zbool; [split; [done|lia]|].
  destruct (per_item_max_wire_bytes l <=? 0)%Z eqn:E3; zbool; [split; [done|lia]|].
  destruct (max_response_bytes l <=? 0)%Z eqn:E4; zbool; [split; [done|lia]|]. split; [lia|done].
Qed.

Lemma validate_startup_check_spec v : validate_startup_check v = Ret () ↔ v ∈ ["require"; "warn"; "off"].
Proof. unfold validate_startup_check. case_bool_decide; naive_solver. Qed.

Lemma truthy_file (o : option string) : truthy o = true ↔ ∃ f, o = Some f ∧ f ≠ "".
Proof.
  destruct o as [f|]; cbn; [|naive_solver]. change (truthy_string f) with (truthy f).
  rewrite truthy_str. naive_solver.
Qed.

Lemma validate_relay_spec bracketed_ok cfg :
  Config.validate_relay bracketed_ok cfg = Ret () ↔
  (∀ url, Config.relay_base_url cfg = Some url → url ≠ "" →
     base_url_ok bracketed_ok url ∧ Config.relay_startup_check cfg ∈ ["require"; "warn"; "off"]
     ∧ limits_ok (Config.relay_limits cfg))
  ∧ (Config.upstream_transport cfg = "relay" →
     (∃ url, Config.relay_base_url cfg = Some url ∧ url ≠ "") ∧ (1 ≤ Config.relay_api_version cfg)%Z).
Proof.
  unfold Config.validate_relay. rewrite then_spec.
  assert (∀ A B C D : Prop, (A ↔ C) → (B ↔ D) → (A ∧ B ↔ C ∧ D)) as Hand by tauto. apply Hand; clear Hand.
  - destruct (Config.relay_base_url cfg) as [url|]; [|naive_solver].
    destruct (truthy url) eqn:Et.
    + apply truthy_str in Et.
      rewrite !then_spec, validate_base_url_spec, validate_startup_check_spec, validate_limits_spec.
      naive_solver.
    + apply truthy_str_false in Et as ->. naive_solver.
  - case_bool_decide as Hr; [|naive_solver]. rewrite !raise_if_spec, negb_false_iff, Z.ltb_ge.
    rewrite truthy_file. naive_solver.
Qed.

Lemma bad_port_spec p : Config.bad_port p = false ↔ port_ok p.
Proof. unfold Config.bad_port, port_ok. rewrite orb_false_iff, !Z.ltb_ge. lia. Qed.

Lemma validate_config_ok (bracketed_ok : string → bool) (cfg : Config.Config) :
  Config.validate_config bracketed_ok cfg = Ret () ↔ config_valid bracketed_ok cfg.
Proof.
  unfold Config.validate_config.
  rewrite !raise_if_spec, validate_relay_spec, !negb_false_iff, !truthy_str, !bad_port_spec, !Z.ltb_ge, !Z.leb_gt,
    bool_decide_eq_true, !andb_false_iff, negb_false_iff, Z.eqb_eq, bad_port_spec, !Z.leb_gt, !negb_false_iff.
  split.
  - intros H. destruct_and! H. split; try done; try lia.
    + split; [lia|]. intros Hen. destruct_or?; (done || lia || congruence).
    + intros Hw. destruct_or?; try congruence; (split; [done|]); (split; [done|]); by apply truthy_file.
  - intros [Hh Hp Ht Hto Htm [Hr Hen] Hw Hl Hu Hrel].
    assert (Config.refresh_enabled cfg = false ∨ (0 < Config.refresh_concurrency cfg)%Z) as Hconc.
    { destruct (Config.refresh_enabled cfg); [right; by apply Hen|by left]. }
    assert (Config.refresh_warmup_enabled cfg = false ∨
      (Config.refresh_enabled cfg = true ∧ (0 < Config.refresh_warmup_limit cfg)%Z
       ∧ truthy (Config.refresh_warmup_file cfg) = true)) as Hwarm.
    { rewrite truthy_file. destruct (Config.refresh_warmup_enabled cfg); [right; by apply Hw|by left]. }
    clear Hen Hw. destruct_and?.
    repeat match goal with |- _ ∧ _ => split end; try assumption; try reflexivity; tauto.
Qed.

(** Validation accepts exactly the valid configurations: [validate_config]
    raises nothing if and only if every field is in the range the program
    documents, warmup and refresh settings agree, and the relay settings, when
    given or needed, are usable. *)
Theorem validate_config_correct (bracketed_ok : string → bool) (cfg : Config.Config) :
  Config.validate_config bracketed_ok cfg = Ret () ↔ config_valid bracketed_ok cfg.
Proof. apply validate_config_ok. Qed.

(** What the components' theorems assume of their configurations. *)
Definition runnable (bracketed_ok : string → bool) (get : http_get) (dec : decoder) (cfg : Config.Config) : Prop :=
  cache_config_ok (cache_config cfg)
  ∧ (0 < refresh_batch_size (handler_config cfg))%Z
  ∧ (0 < udp_max_inflight (udp_server_config cfg) ∧ 0 < max_udp_payload (udp_server_config cfg))%Z
  ∧ (0 < tcp_max_inflight (tcp_server_config cfg) ∧ 0 < max_message_size (tcp_server_config cfg) < 65536)%Z
  ∧ (∀ hc, metrics_server_config cfg = Some hc → port_ok (http_port hc) ∧ strip (http_host hc) ≠ "")
  ∧ match choose_upstream cfg with
    | UseRelay c _ =>
        limits_ok (limits c) ∧ base_url_ok bracketed_ok (base_url c) ∧ (1 ≤ api_version c)%Z
        ∧ (startup_check c = "require" → check_relay_startup c get dec (limits c) = Ret ())
    | UseTcp c => (0 ≤ pool_max_conns c ∧ 0 < pool_idle_timeout_s c)%Z
    | UseUdp c => (1 ≤ uu_max_workers c)%Z
    end.

Lemma main_checks_ok bracketed_ok get dec args cfg :
  main_checks bracketed_ok get dec args = Ret cfg →
  cfg = Config.build_config args ∧ config_valid bracketed_ok cfg ∧ runnable bracketed_ok get dec cfg.
Proof.
  unfold main_checks. set (cfg0 := Config.build_config args). intros Hm.
  destruct (Config.validate_config bracketed_ok cfg0) as [[]|e] eqn:Ev; [|by destruct (is_ValueError e)].
  assert (config_valid bracketed_ok cfg0) as Hcv by (by apply validate_config_ok).
  assert (cfg = cfg0 ∧ (Config.upstream_transport cfg0 = "relay" → Config.relay_startup_check cfg0 = "require" →
    check_relay_startup (_build_relay_config cfg0) get dec (limits (_build_relay_config cfg0)) = Ret ())) as [-> Hreq].
  { case_bool_decide as Hr; cbn [andb] in Hm; [|by simplify_eq].
    case_bool_decide as Hoff; cbn [negb] in Hm; [simplify_eq; split; [done|congruence]|].
    destruct (run_relay_startup_check _ _ _ _ _) as [[]|] eqn:Es; [|done]. simplify_eq. split; [done|].
    intros _ Hmode. rewrite Hmode in Es. unfold run_relay_startup_check in Es. cbn in Es.
    by destruct (check_relay_startup _ _ _ _) as [[]|[]]. }
  split; [done|]. split; [done|]. unfold runnable. clearbody cfg0. destruct Hcv as [Hh Hp Ht Hto Htm Hr Hw Hl Hu Hrel].
  split; [unfold cache_config_ok; cbn; lia|]. split; [cbn; lia|].
  split; [split; [cbn; lia|done]|]. split; [split; [cbn; lia|done]|].
  split.
  { unfold metrics_server_config. intros hc Hhc. destruct (0 <? Config.metrics_port cfg0)%Z eqn:E; [|done].
    zbool. injection Hhc as <-. cbn. split; [|apply Hh]. destruct Hp as (_ & _ & [?|?]); [lia|done]. }
  unfold choose_upstream. destruct (bool_decide (Config.upstream_transport cfg0 = "relay")) eqn:Hrelay;
    [|destruct (bool_decide (Config.upstream_transport cfg0 = "tcp")); cbn; lia].
  apply bool_decide_eq_true in Hrelay.
  destruct (Hrel Hrelay) as [(url & Hurl & Hne) Hver]. destruct (Hu url Hurl Hne) as (Hbase & _ & Hlim).
  cbn [limits base_url api_version startup_check _build_relay_config]. rewrite Hurl. cbn [default].
  split; [done|]. split; [done|]. split; [done|]. intros Hmode. specialize (Hreq Hrelay Hmode).
  exact Hreq.
Qed.

Module main_example.
Definition args : Config.Namespace :=
  Config.mkNamespace "127.0.0.1" 5353 256 "127.0.0.1" 0 "relay" "1.1.1.1" 53 (float_of_Z 2) 300 60 false
    (Some "https://relay.example/dns") 1 None "off" 32 65536 4096 262144 false 30 5 0 500 50 5 1024 false None 200.
Definition any_host : string → bool := λ _, true.
Definition no_get : http_get := λ _ _, Raise ClientError.
Definition no_dec : decoder := λ _, DecBadJson.
End main_example.

(** [validate_config] raises nothing but [ValueError]. *)
Definition only_ValueError (r : res unit) : Prop := ∀ e, r = Raise e → is_ValueError e = true.
Lemma only_Ret : only_ValueError (Ret ()).
Proof. done. Qed.
Lemma only_raise_if b msg k : only_ValueError k → only_ValueError (raise_if b msg k).
Proof. intros Hk e. destruct b; [by intros [= <-]|apply Hk]. Qed.
Lemma only_then a b : only_ValueError a → only_ValueError b → only_ValueError (then_ a b).
Proof. intros Ha Hb e. destruct a as [[]|e']; cbn; [apply Hb|intros [= <-]; by apply Ha]. Qed.
Lemma only_limits l : only_ValueError (validate_limits l).
Proof. intros e. unfold validate_limits, as_dict. cbn [check_positive]. repeat case_match; by intros [= <-]. Qed.
Lemma only_startup_check v : only_ValueError (validate_startup_check v).
Proof. intros e. unfold validate_startup_check. case_bool_decide; by intros [= <-]. Qed.
#[local] Hint Resolve only_Ret only_raise_if only_then only_limits only_startup_check : core.

Lemma only_base_url bracketed_ok url : only_ValueError (validate_base_url bracketed_ok url).
Proof.
  unfold validate_base_url. do 2 apply only_raise_if. destruct (urlsplit bracketed_ok url) as [parts|e] eqn:E; [auto|].
  intros e' [= <-]. unfold urlsplit in E. repeat case_match; by simplify_eq.
Qed.
#[local] Hint Resolve only_base_url : core.

Lemma only_config bracketed_ok cfg : only_ValueError (Config.validate_config bracketed_ok cfg).
Proof.
  unfold Config.validate_config. repeat apply only_raise_if. unfold Config.validate_relay.
  apply only_then; repeat case_match; auto.
Qed.

(** C36: [main], whatever its arguments: it runs with the settings that its
    arguments parse to, these are valid and satisfy what the components'
    theorems assume (in mode [require] the relay was found compatible); or it
    exits with status 0 or 2 on its arguments, with status 1 on invalid
    settings and only on those, or with what the relay's startup check raises.
    A timeout is valid unless it is zero or negative: an infinity and a NaN
    are. *)
Theorem main_sound (bracketed_ok : string → bool) (get : http_get) (dec : decoder) (argv : list string) :
  match main bracketed_ok get dec argv with
  | Ret cfg =>
      (∃ ns args, parse_args argv = Ret ns ∧ namespace_of ns = Some args ∧ cfg = Config.build_config args)
      ∧ config_valid bracketed_ok cfg ∧ runnable bracketed_ok get dec cfg
  | Raise e =>
      (parse_args argv = Raise e ∧ exits e)
      ∨ ∃ ns args, parse_args argv = Ret ns ∧ namespace_of ns = Some args ∧
          let cfg := Config.build_config args in
          let relay_cfg := _build_relay_config cfg in
          (e = SystemExit "1" ∧ ¬ config_valid bracketed_ok cfg)
          ∨ (config_valid bracketed_ok cfg ∧ Config.upstream_transport cfg = "relay"
             ∧ run_relay_startup_check relay_cfg get dec (limits relay_cfg) (Config.relay_startup_check cfg) = Raise e)
  end.
Proof.
  pose proof (parsed argv) as Hp. unfold main. destruct (parse_args argv) as [ns|e]; [|by left].
  destruct Hp as (_ & args & Hna & _). rewrite Hna.
  destruct (main_checks bracketed_ok get dec args) as [cfg|e] eqn:Em.
  - apply main_checks_ok in Em as (-> & Hcv & Hr). split; [by exists ns, args|done].
  - right. exists ns, args. split; [done|]. split; [done|]. cbn zeta. unfold main_checks in Em.
    pose proof (validate_config_ok bracketed_ok (Config.build_config args)) as Hv.
    pose proof (only_config bracketed_ok (Config.build_config args)) as Hval.
    destruct (Config.validate_config bracketed_ok (Config.build_config args)) as [[]|e'].
    + right. split; [by apply Hv|]. case_bool_decide; [|done]. split; [done|]. cbn [andb] in Em.
      case_bool_decide; [done|]. cbn [negb] in Em. cbn zeta in Em.
      by destruct (run_relay_startup_check _ _ _ _ _) as [[]|]; simplify_eq.
    + left. rewrite (Hval e' eq_refl) in Em. injection Em as <-. split; [done|]. intros Hcv%Hv. done.
Qed.

(** No command-line option sets the cache's size, so it is unlimited. *)
Lemma cache_always_unlimited args : max_entries (cache_config (Config.build_config args)) = 0%Z.
Proof. reflexivity. Qed.

(** Without arguments the program runs with the defaults of [Config]: the
    defaults of the options and of the class agree. *)
Lemma main_no_arguments :
  main main_example.any_host main_example.no_get main_example.no_dec [] = Ret Config.Config_default.
Proof. vm_compute. reflexivity. Qed.

(** A port out of range, an unknown transport, and the relay without its URL. *)
Lemma main_rejects :
  main main_example.any_host main_example.no_get main_example.no_dec ["--listen-port"; "0"]
    = Raise (SystemExit "1")
  ∧ main main_example.any_host main_example.no_get main_example.no_dec ["--upstream-tr=tls"]
    = Raise (SystemExit "2")
  ∧ main main_example.any_host main_example.no_get main_example.no_dec ["--upstream-transport"; "relay"]
    = Raise (SystemExit "1").
Proof. vm_compute. done. Qed.

(** Every timeout that is not zero or negative runs: one far below a
    nanosecond, an infinity, and a NaN, with which the comparison is false. *)
Lemma main_accepts_odd_timeouts :
  let timeout argv :=
    match main main_example.any_host main_example.no_get main_example.no_dec argv with
    | Ret cfg => Some (Config.upstream_timeout_s cfg)
    | Raise _ => None
    end in
  timeout ["--upstream-timeout"; "1e-10"] = Some (round_quotient false 1 (10 ^ 10))
  ∧ timeout ["--upstream-timeout"; "inf"] = Some (SpecFloat.S754_infinity false)
  ∧ timeout ["--upstream-timeout"; "nan"] = Some SpecFloat.S754_nan
  ∧ timeout ["--upstream-timeout=-1"] = None ∧ timeout ["--upstream-timeout"; "0"] = None.
Proof. vm_compute. done. Qed.

(** The warmup at start-up: with a valid configuration, a handler that has
    just been built either is left as it is (warmup off), or gets the keys of
    the first [refresh_warmup_limit] entries of the file as its refresh queue,
    in order, without duplicates and all of them unless the queue is full, or,
    when the file cannot be read, the process exits with the queue untouched. *)
Theorem load_warmup_correct `{Dnslib} (bracketed_ok : string → bool) (read : string → res string)
    (exn_str : exn → string) (cfg : Config.Config) (m : option Metrics) :
  config_valid bracketed_ok cfg → (∀ f e, read f = Raise e → is_Exception e = true) →
  let h := handler_new m in
  match load_warmup read exn_str cfg h with
  | (h', Raise e) => h' = h ∧ Config.refresh_warmup_enabled cfg = true
      ∧ ∃ f e0, Config.refresh_warmup_file cfg = Some f ∧ read f = Raise e0
                ∧ e = SystemExit ("failed to load warmup file: " +:+ exn_str e0)
  | (h', Ret _) =>
      (Config.refresh_warmup_enabled cfg = false ∧ h' = h)
      ∨ ∃ f text keys, Config.refresh_warmup_file cfg = Some f ∧ read f = Ret text
          ∧ let loaded := take (Z.to_nat (Config.refresh_warmup_limit cfg)) (parse_warmup_source text).1 in
          refresh_queue h' = (λ k, (k, "warmup")) <$> keys ∧ queued_keys h' = list_to_set keys
          ∧ NoDup keys ∧ keys `sublist_of` loaded
          ∧ (queue_full (handler_config cfg) (refresh_queue h') = false → ∀ k, k ∈ loaded → k ∈ keys)
  end.
Proof.
  intros Hcv Hread. cbn zeta. unfold load_warmup. destruct (Config.refresh_warmup_enabled cfg) eqn:Ew; [|by left].
  destruct (cv_warmup _ _ Hcv Ew) as (_ & _ & f & Hf & _). rewrite Hf.
  change (default "" (Some f)) with f. unfold try_except, mbind, M_bind, lift_res.
  destruct (read f) as [text|e] eqn:Er.
  2:{ rewrite (Hread f e Er). split; [done|]. split; [done|]. by exists f, e. }
  pose proof (enqueue_warmup_file_spec (handler_config cfg) text (Config.refresh_warmup_limit cfg) (handler_new m)) as Hs.
  destruct (parse_warmup_source text) as [items invalid] eqn:Ep.
  destruct Hs as (keys & h' & -> & Hq & Hk & Hi & Hnd & Hsub & _ & Hall). right. exists f, text, keys.
  split; [done|]. split; [done|]. rewrite Ep. cbn [fst] in *. split; [done|].
  assert (queued_keys h' = list_to_set keys) as Hk' by (rewrite Hk; set_solver).
  split; [done|]. split; [done|]. split; [done|]. intros Hfull k Hin. specialize (Hall Hfull k Hin).
  rewrite Hk', Hi in Hall. set_solver.
Qed.

Module warmup_example.
Import toy.
Definition cfg : Config.Config :=
  Config.build_config (Config.mkNamespace "127.0.0.1" 5353 256 "127.0.0.1" 0 "udp" "1.1.1.1" 53 (float_of_Z 2) 300 60
    false None 1 None "require" 32 65536 4096 262144 true 30 5 0 500 50 5 1024 true (Some "warm.txt") 200).
Definition read (f : string) : res string := Ret "example.com. A".
End warmup_example.

Lemma load_warmup_correct_witness :
  ∃ h, load_warmup (H0 := toy.toy_dnslib) warmup_example.read (λ _, "") warmup_example.cfg (handler_new None) = (h, Ret ())
       ∧ refresh_queue h ≠ [].
Proof.
  pose proof (load_warmup_correct (λ _, true) warmup_example.read (λ _, "") warmup_example.cfg None) as Hw.
  destruct (load_warmup warmup_example.read (λ _, "") warmup_example.cfg (handler_new None)) as [h r] eqn:E.
  assert (∀ f e, warmup_example.read f = Raise e → is_Exception e = true) as Hr by (intros f e He; discriminate He).
  assert (config_valid (λ _, true) warmup_example.cfg) as Hv by (apply validate_config_ok; vm_compute; reflexivity).
  specialize (Hw Hv Hr). vm_compute in E. injection E as <- <-. eexists. split; [reflexivity|].
  destruct Hw as [[Hoff _]|(f & text & keys & _)]; [discriminate Hoff|]. discriminate.
Defined.
