(* ===== verification/Lifecycle.v ===== *)
(** * Running and stopping ([_run] of [src/resilientdns/main.py])

    The life of the process once its components are built: the [run] and
    [stop] methods of the three servers of [dns/server.py], the background
    tasks of [dns/handler.py], the signal handlers, and the coroutine [_run]
    that starts them, waits, and takes them down.  Each is a task of the event
    loop: a program counter says at which [await] it is suspended, and a step
    runs one task up to its next suspension.  [step] are the steps the loop and
    the operating system take by themselves (a task's turn, a socket that was
    opened or has closed), [external] the inputs (signals, requests, connections
    that come and go).

    A cancelled task gets [CancelledError] at the [await] it is suspended on,
    when it runs next; a task cancelled before its first turn runs nothing. *)
From S2P Require Import Prelude PyString Metrics Dns Cache SingleFlight Handler Servers ServerProps Upstream Relay Http Config Main.
From stdpp Require Import base list strings gmap sets.

(** ** The [run] tasks of the servers *)

Inductive server_kind : Type := KUdp | KTcp | KHttp.

Inductive run_pc : Type :=
| RStart                     (** created, not yet run *)
| ROpening                   (** awaits the creation of its socket *)
| RWaiting                   (** awaits [_stop_event.wait()] *)
| RClosing (r : res unit)    (** in [finally], awaits [wait_closed()] *)
| RDone (r : res unit).

#[global] Instance run_pc_eq_dec : EqDecision run_pc.
Proof. solve_decision. Defined.

Record Srv := mkSrv {
  sv_kind : server_kind;
  sv_pc : run_pc;
  sv_open : bool;            (** [self.transport] or [self._server] is set *)
  sv_closed : bool;          (** its [close] was called *)
  sv_ready : bool;           (** [self.ready] *)
  sv_stop : bool;            (** [self._stop_event] *)
  sv_cancel : bool;          (** the task was cancelled and has not run since *)
  sv_conns : nat;            (** connections of its clients that are open *)
}.

Definition srv_new (k : server_kind) : Srv := mkSrv k RStart false false false false false 0.

Definition set_pc (pc : run_pc) (s : Srv) : Srv :=
  mkSrv (sv_kind s) pc (sv_open s) (sv_closed s) (sv_ready s) (sv_stop s) false (sv_conns s).
Definition close_sock (s : Srv) : Srv :=
  mkSrv (sv_kind s) (sv_pc s) (sv_open s) (sv_closed s || sv_open s) (sv_ready s) (sv_stop s) (sv_cancel s)
    (sv_conns s).
Definition set_conns (n : nat) (s : Srv) : Srv :=
  mkSrv (sv_kind s) (sv_pc s) (sv_open s) (sv_closed s) (sv_ready s) (sv_stop s) (sv_cancel s) n.

Definition srv_done (s : Srv) : bool := match sv_pc s with RDone _ => true | _ => false end.

(** [stop()]: set the event, close what is open. *)
Definition stop (s : Srv) : Srv :=
  let s := mkSrv (sv_kind s) (sv_pc s) (sv_open s) (sv_closed s) (sv_ready s) true (sv_cancel s) (sv_conns s) in
  close_sock s.

(** [task.cancel()], which does nothing to a task that is done. *)
Definition cancel_task (s : Srv) : Srv :=
  if srv_done s then s
  else mkSrv (sv_kind s) (sv_pc s) (sv_open s) (sv_closed s) (sv_ready s) (sv_stop s) true (sv_conns s).

Section lifecycle.
Context `{Dnslib}.
(** Whether [Server.wait_closed()] waits for the connections that are open: it
    does from Python 3.12 on, and returns at once after [close()] before. *)
Context (waits : bool).

(** The [finally] of [run], entered with [r]: the UDP server is done then, the
    others await the end of their connections. *)
Definition run_finally (r : res unit) (s : Srv) (net : SrvSt) : Srv * SrvSt :=
  match sv_kind s with
  | KUdp => (set_pc (RDone r) (close_sock s), (udp_cancel_tasks net).1)
  | KTcp => (set_pc (RClosing r) (close_sock s), (tcp_cancel_tasks net).1)
  | KHttp => (set_pc (RClosing r) (close_sock s), net)
  end.

(** What a turn of the task does without news from outside. *)
Definition run_turn (s : Srv) (net : SrvSt) : option (Srv * SrvSt) :=
  if sv_cancel s then
    match sv_pc s with
    | RWaiting => Some (run_finally (Raise CancelledError) s net)
    | RDone _ => None
    | _ => Some (set_pc (RDone (Raise CancelledError)) s, net)
    end
  else
    match sv_pc s with
    | RStart => Some (set_pc ROpening s, net)
    | RWaiting => if sv_stop s then Some (run_finally (Ret ()) s net) else None
    | _ => None
    end.

Definition set_transport (net : SrvSt) : SrvSt :=
  mkSrvSt (s_h net) true (udp_inflight net) (tcp_inflight net) (next_client net) (udp_sent net) (tcp_written net).

(** The creation of the socket ended with [r]. *)
Definition run_opened (r : res unit) (s : Srv) (net : SrvSt) : option (Srv * SrvSt) :=
  match sv_pc s, sv_cancel s with
  | ROpening, false =>
      match r with
      | Raise e => Some (set_pc (RDone (Raise e)) s, net)
      | Ret _ =>
          let s := mkSrv (sv_kind s) RWaiting true (sv_closed s) true (sv_stop s) false (sv_conns s) in
          let net := match sv_kind s with KUdp => set_transport net | _ => net end in
          if sv_stop s then Some (run_finally (Ret ()) s net) else Some (s, net)
      end
  | _, _ => None
  end.

(** [wait_closed()] returned. *)
Definition run_closed (s : Srv) : option Srv :=
  match sv_pc s, sv_cancel s with
  | RClosing r, false => if waits && (0 <? sv_conns s) then None else Some (set_pc (RDone r) s)
  | _, _ => None
  end.

(** ** Background tasks *)

(** The reporter and the refresh tasks loop until they are cancelled. *)
Inductive bg : Type := BRunning | BCancelled | BDone.

Definition bg_cancel (b : bg) : bg := match b with BRunning => BCancelled | b => b end.

(** The handler's list of tasks, and what the call returns. *)
Definition start_refresh_tasks (cfg : HandlerConfig) (tasks : list bg) : list bg * list bg :=
  if negb (refresh_enabled cfg) then (tasks, [])
  else if truthy tasks then (tasks, tasks)
  else
    let tasks := BRunning :: replicate (Z.to_nat (refresh_concurrency cfg)) BRunning in
    (tasks, tasks).

(** ** Signals *)

Inductive signal : Type := SIGINT | SIGTERM | SIGHUP.
Inductive sig_action : Type := StopAll | ClearCache.

(** [supported sig] is false where [loop.add_signal_handler] raises
    [NotImplementedError]; [has_sighup] is [hasattr(signal, "SIGHUP")]. *)
Definition _register_signal_handlers (supported : signal → bool) (has_sighup : bool)
    : list (signal * sig_action) :=
  List.filter (λ h, supported h.1)
    ([(SIGINT, StopAll); (SIGTERM, StopAll)] ++ if has_sighup then [(SIGHUP, ClearCache)] else []).

Definition _handle_sighup (net : SrvSt) : SrvSt := (in_handler (in_cache clear) net).1.

(** ** The upstream forwarder *)

Inductive forwarder : Type := FRelay (s : RelayFwd) | FTcp (s : TcpFwd) | FUdp (s : UdpFwd).

Definition forwarder_new (c : upstream_choice) (m : option Metrics) : forwarder :=
  match c with
  | UseRelay _ _ => FRelay (mkRelayFwd m false)
  | UseTcp _ => FTcp (tcp_fwd_new m)
  | UseUdp _ => FUdp (udp_fwd_new m)
  end.

Definition close_fn (f : forwarder) : forwarder :=
  match f with
  | FRelay s => FRelay (relay_close s).1
  | FTcp s => FTcp (tcp_close s).1
  | FUdp s => FUdp (udp_close s).1
  end.

Definition forwarder_closed (f : forwarder) : bool :=
  match f with FRelay s => rf_closed s | FTcp s => tf_closed s | FUdp s => uf_closed s end.

(** ** [_run] *)

Inductive main_pc : Type :=
| MReady (i : nat)                   (** awaits [asyncio.wait] for server [i] *)
| MReap (i : nat) (r : res unit)     (** awaits the cancelled [ready_task] *)
| MGather                            (** awaits [asyncio.gather] *)
| MReporter (r : res unit)           (** in [finally]: awaits the reporter *)
| MRefresh (k : nat) (r : res unit)  (** awaits refresh task [k] *)
| MServer (i : nat) (r : res unit)   (** awaits server [i] *)
| MUpstream (r : res unit)           (** awaits the forwarder's [close] *)
| MDone (r : res unit).

Record World := mkWorld {
  w_servers : list Srv;
  w_net : SrvSt;
  w_up : forwarder;
  w_ready : ReadyState;
  w_reporter : option bg;
  w_refresh : list bg;               (** [handler._refresh_tasks] *)
  w_started : list bg;               (** the local [refresh_tasks] *)
  w_handlers : list (signal * sig_action);
  w_pc : main_pc;
}.

Definition with_servers (l : list Srv) (net : SrvSt) (w : World) : World :=
  mkWorld l net (w_up w) (w_ready w) (w_reporter w) (w_refresh w) (w_started w) (w_handlers w) (w_pc w).
Definition with_reporter (b : option bg) (w : World) : World :=
  mkWorld (w_servers w) (w_net w) (w_up w) (w_ready w) b (w_refresh w) (w_started w) (w_handlers w) (w_pc w).
Definition with_refresh (l : list bg) (w : World) : World :=
  mkWorld (w_servers w) (w_net w) (w_up w) (w_ready w) (w_reporter w) l (w_started w) (w_handlers w) (w_pc w).
Definition at_pc (pc : main_pc) (w : World) : World :=
  mkWorld (w_servers w) (w_net w) (w_up w) (w_ready w) (w_reporter w) (w_refresh w) (w_started w) (w_handlers w) pc.

(** [close_fn()]: the UDP forwarder's is not a coroutine. *)
Definition close_upstream (r : res unit) (w : World) : World :=
  mkWorld (w_servers w) (w_net w) (close_fn (w_up w)) (w_ready w) (w_reporter w) (w_refresh w) (w_started w)
    (w_handlers w) (match w_up w with FUdp _ => MDone r | _ => MUpstream r end).

(** The loop over the server tasks from [i] on: cancel the first that is not
    done and await it; after the last, close the forwarder. *)
Definition next_server (i : nat) (r : res unit) (w : World) : World :=
  match list_find (λ s, srv_done s = false) (drop i (w_servers w)) with
  | Some (j, _) => at_pc (MServer (i + j) r) (with_servers (alter cancel_task (i + j) (w_servers w)) (w_net w) w)
  | None => close_upstream r w
  end.

(** [for fn in stop_fns: fn()] and the loop. *)
Definition stop_servers (r : res unit) (w : World) : World :=
  next_server 0 r (with_servers (stop <$> w_servers w) (w_net w) w).

(** [if refresh_tasks: await handler.stop_refresh_tasks()] *)
Definition stop_refresh_tasks (r : res unit) (w : World) : World :=
  if truthy (w_started w) && truthy (w_refresh w)
  then at_pc (MRefresh 0 r) (with_refresh (bg_cancel <$> w_refresh w) w)
  else stop_servers r w.

(** The [finally] of [_run], entered with [r]. *)
Definition main_finally (r : res unit) (w : World) : World :=
  match w_reporter w with
  | Some b => at_pc (MReporter r) (with_reporter (Some (bg_cancel b)) w)
  | None => stop_refresh_tasks r w
  end.

(** After all servers were waited for. *)
Definition started (cfg : HandlerConfig) (w : World) : World :=
  let '(tasks, returned) := start_refresh_tasks cfg (w_refresh w) in
  mkWorld (w_servers w) (w_net w) (w_up w) (set_ready (w_ready w)) (Some BRunning) tasks returned
    (w_handlers w) MGather.

(** [wait_ready] of server [i] ended with [r]. *)
Definition after_ready (cfg : HandlerConfig) (i : nat) (r : res unit) (w : World) : World :=
  match r with
  | Raise _ => main_finally r w
  | Ret _ => if S i <? length (w_servers w) then at_pc (MReady (S i)) w else started cfg w
  end.

(** A turn of [_run] that leaves no choice.  In [wait_ready] of server [i] this
    is the turn after [ready_task] is done; when the server's task is done first
    the other task is cancelled and awaited ([step_reap]). *)
Definition main_turn (cfg : HandlerConfig) (w : World) : option World :=
  match w_pc w with
  | MReady i =>
      s ← w_servers w !! i;
      if sv_ready s then Some (after_ready cfg i (match sv_pc s with RDone r => r | _ => Ret () end) w)
      else None
  | MReap i r => Some (after_ready cfg i r w)
  | MReporter r =>
      match w_reporter w with Some BDone => Some (stop_refresh_tasks r w) | _ => None end
  | MRefresh k r =>
      match w_refresh w !! k with
      | Some BDone =>
          Some (if S k <? length (w_refresh w) then at_pc (MRefresh (S k) r) w
                else stop_servers r (with_refresh [] w))
      | _ => None
      end
  | MServer i r =>
      s ← w_servers w !! i;
      match sv_pc s with
      | RDone (Ret _) | RDone (Raise CancelledError) => Some (next_server (S i) r w)
      | RDone (Raise e) => Some (at_pc (MDone (Raise e)) w)
      | _ => None
      end
  | MUpstream r => Some (at_pc (MDone r) w)
  | MGather | MDone _ => None
  end.

Inductive step (cfg : HandlerConfig) (w : World) : World → Prop :=
| step_turn i s s' net :
    w_servers w !! i = Some s → run_turn s (w_net w) = Some (s', net) →
    step cfg w (with_servers (<[i := s']> (w_servers w)) net w)
| step_opened i s r s' net :
    w_servers w !! i = Some s → run_opened r s (w_net w) = Some (s', net) → r ≠ Raise CancelledError →
    step cfg w (with_servers (<[i := s']> (w_servers w)) net w)
| step_closed i s s' :
    w_servers w !! i = Some s → run_closed s = Some s' →
    step cfg w (with_servers (<[i := s']> (w_servers w)) (w_net w) w)
| step_reporter :
    w_reporter w = Some BCancelled → step cfg w (with_reporter (Some BDone) w)
| step_refresh k :
    w_refresh w !! k = Some BCancelled → step cfg w (with_refresh (<[k := BDone]> (w_refresh w)) w)
| step_main w' : main_turn cfg w = Some w' → step cfg w w'
| step_reap i s r :
    w_pc w = MReady i → w_servers w !! i = Some s → sv_pc s = RDone r → step cfg w (at_pc (MReap i r) w)
| step_gather_raise i s e :
    w_pc w = MGather → w_servers w !! i = Some s → sv_pc s = RDone (Raise e) →
    step cfg w (main_finally (Raise e) w)
| step_gather :
    w_pc w = MGather → Forall (λ s, sv_pc s = RDone (Ret ())) (w_servers w) →
    step cfg w (main_finally (Ret ()) w).

(** Requests reach the process while the UDP socket is open, or over TCP;
    clients connect while a server listens, and connections end. *)
Definition udp_listening (w : World) : Prop :=
  ∃ i s, w_servers w !! i = Some s ∧ sv_kind s = KUdp ∧ sv_open s = true ∧ sv_closed s = false.

Inductive external (ucfg : UdpServerConfig) (tcfg : TcpServerConfig) (hcfg : HandlerConfig) (w : World)
    : World → Prop :=
| ext_stop sig :
    (sig, StopAll) ∈ w_handlers w →
    external ucfg tcfg hcfg w (with_servers (stop <$> w_servers w) (w_net w) w)
| ext_sighup sig :
    (sig, ClearCache) ∈ w_handlers w →
    external ucfg tcfg hcfg w (with_servers (w_servers w) (_handle_sighup (w_net w)) w)
| ext_datagram :
    udp_listening w →
    external ucfg tcfg hcfg w (with_servers (w_servers w) (datagram_received ucfg (w_net w)).1 w)
| ext_connect i s :
    w_servers w !! i = Some s → sv_kind s ≠ KUdp → sv_open s = true → sv_closed s = false →
    external ucfg tcfg hcfg w (with_servers (<[i := set_conns (S (sv_conns s)) s]> (w_servers w)) (w_net w) w)
| ext_disconnect i s :
    w_servers w !! i = Some s → 0 < sv_conns s →
    external ucfg tcfg hcfg w (with_servers (<[i := set_conns (pred (sv_conns s)) s]> (w_servers w)) (w_net w) w)
| ext_serve net :
    srv_step ucfg tcfg hcfg (w_net w) net → udp_inflight net ⊆ udp_inflight (w_net w) →
    external ucfg tcfg hcfg w (with_servers (w_servers w) net w).

(** [_run] up to its first [await], the components built. *)
Definition run_servers (cfg : Config.Config) : list Srv :=
  [srv_new KUdp; srv_new KTcp] ++ match metrics_server_config cfg with Some _ => [srv_new KHttp] | None => [] end.

Definition run_begin (cfg : Config.Config) (net : SrvSt) (m : option Metrics)
    (handlers : list (signal * sig_action)) : World :=
  mkWorld (run_servers cfg) net (forwarder_new (choose_upstream cfg) m) ready_new None [] [] handlers (MReady 0).
End lifecycle.
