(* ===== verification/LifecycleProps.v ===== *)
(** * The lifecycle's invariant

    [life_ok] holds in every state the process can reach; [srv_evolves] is what
    any step does to a server, so that the clause for each program counter of
    [_run] is shown stable once. *)
From S2P Require Import Prelude PyString Metrics Dns Cache SingleFlight Handler Servers ServerProps Upstream UpstreamProps Relay Http Config Main Lifecycle.
From stdpp Require Import base list strings gmap sets.

(** ** One server *)

Definition benign (r : res unit) : Prop := r = Ret () ∨ r = Raise CancelledError.

(** What the program counter says of the socket. *)
Record srv_ok (s : Srv) : Prop := {
  so_ready : sv_ready s = sv_open s;
  so_closed : sv_closed s = true → sv_open s = true;
  so_pc : match sv_pc s with
          | RStart | ROpening => sv_open s = false
          | RWaiting => sv_open s = true
          | RClosing r => sv_open s = true ∧ sv_closed s = true ∧ benign r
          | RDone (Ret _) => sv_open s = true ∧ sv_closed s = true
          | RDone (Raise e) => (sv_open s = true → sv_closed s = true) ∧ (e ≠ CancelledError → sv_open s = false)
          end;
  so_udp : sv_kind s = KUdp → ∀ r, sv_pc s ≠ RClosing r;
}.

(** The task was not cancelled. *)
Definition uncancelled (s : Srv) : Prop :=
  sv_cancel s = false ∧ sv_pc s ≠ RClosing (Raise CancelledError) ∧ sv_pc s ≠ RDone (Raise CancelledError).

(** The task cannot end with an error any more. *)
Definition doomed (s : Srv) : Prop :=
  match sv_pc s with
  | RClosing _ => True
  | RDone r => benign r
  | _ => sv_cancel s = true
  end.

Record srv_evolves (s s' : Srv) : Prop := {
  se_kind : sv_kind s' = sv_kind s;
  se_ok : srv_ok s → srv_ok s';
  se_open : sv_open s = true → sv_open s' = true;
  se_stop : sv_stop s = true → sv_stop s' = true;
  se_done : ∀ r, sv_pc s = RDone r → sv_pc s' = RDone r ∧ sv_open s' = sv_open s;
  se_uncancelled : uncancelled s → uncancelled s';
  se_doomed : srv_ok s → doomed s → doomed s';
}.

(** The same but for the cancellation, as [task.cancel()] does too. *)
Record srv_grows (s s' : Srv) : Prop := {
  sg_kind : sv_kind s' = sv_kind s;
  sg_ok : srv_ok s → srv_ok s';
  sg_open : sv_open s = true → sv_open s' = true;
  sg_stop : sv_stop s = true → sv_stop s' = true;
  sg_done : ∀ r, sv_pc s = RDone r → sv_pc s' = RDone r ∧ sv_open s' = sv_open s;
  sg_doomed : srv_ok s → doomed s → doomed s';
}.

Lemma evolves_grows s s' : srv_evolves s s' → srv_grows s s'.
Proof. by intros []. Qed.

#[global] Instance srv_grows_refl : Reflexive srv_grows.
Proof. by split. Qed.
#[global] Instance srv_evolves_refl : Reflexive srv_evolves.
Proof. by split. Qed.

Lemma stop_evolves s : srv_evolves s (stop s).
Proof.
  split; try done.
  - intros [Hr Hc Hp Hu]. split; [done| | |done].
    + cbn. rewrite orb_true_iff. by intros [?|?]; [apply Hc|].
    + cbn. destruct (sv_pc s) as [| | |r|[|e]]; cbn in *; try done; rewrite ?orb_true_iff; naive_solver.
Qed.

Lemma set_conns_evolves n s : srv_evolves s (set_conns n s).
Proof. split; try done. by intros [Hr Hc Hp Hu]. Qed.

Section server.
Context `{Dnslib} (waits : bool).

Lemma run_finally_evolves r s net :
  sv_pc s = RWaiting → benign r → (r = Raise CancelledError → sv_cancel s = true) →
  srv_evolves s (run_finally r s net).1.
Proof.
  intros Hpc Hr Hc.
  assert (∀ pc, pc = RDone r ∨ pc = RClosing r ∧ sv_kind s ≠ KUdp → srv_evolves s (set_pc pc (close_sock s))) as Hev.
  { intros pc Epc. split.
    - done.
    - intros [Hrd Hcl Hp Hu]. rewrite Hpc in Hp. rewrite Hp in Hrd.
      split; cbn; [by rewrite Hp, Hrd|done|rewrite Hp, orb_true_r; destruct Epc as [-> |[-> _]]; destruct Hr as [-> | ->];
        unfold benign; naive_solver|]. intros Hk. by destruct Epc as [-> |[-> ?]].
    - done.
    - done.
    - by rewrite Hpc.
    - intros (Hcan & _ & _). unfold uncancelled. cbn. split; [done|].
      assert (r ≠ Raise CancelledError) by (intros ->; rewrite Hc in Hcan; done). naive_solver.
    - intros _ _. unfold doomed. cbn. by destruct Epc as [-> |[-> _]]. }
  unfold run_finally. destruct (sv_kind s); cbn [fst]; apply Hev; [by left|by right..].
Qed.

(** The task ends before or during the opening, or while it closes. *)
Lemma die_evolves s e :
  (∀ r, sv_pc s ≠ RDone r) → sv_pc s ≠ RWaiting →
  (e = CancelledError ∧ sv_cancel s = true ∨ e ≠ CancelledError ∧ sv_pc s = ROpening ∧ sv_cancel s = false) →
  srv_evolves s (set_pc (RDone (Raise e)) s).
Proof.
  intros Hnd Hnw He. split.
  - done.
  - intros [Hr Hcl Hp Hu]. split; cbn; [done|done| |done].
    destruct He as [[-> _]|(He & Hpc & _)]; [|rewrite Hpc in Hp; by rewrite Hp].
    split; [|done]. destruct (sv_pc s) as [| | |r|r]; [congruence|congruence|done|tauto|by destruct (Hnd r)].
  - done.
  - done.
  - intros r Hr. by apply Hnd in Hr.
  - intros (Hc & _ & _). unfold uncancelled. cbn. split; [done|]. split; [done|]. intros [= ->].
    by destruct He as [[_ ?]|[? _]]; [congruence|].
  - intros _. unfold doomed, benign. cbn. destruct He as [[-> _]|(He & Hpc & Hc)]; [by right|].
    rewrite Hpc, Hc. done.
Qed.

Lemma run_turn_evolves s net s' net' : run_turn s net = Some (s', net') → srv_evolves s s'.
Proof.
  unfold run_turn. intros Hrun.
  assert (∀ r, sv_pc s = RWaiting → benign r → (r = Raise CancelledError → sv_cancel s = true) →
    run_finally r s net = (s', net') → srv_evolves s s') as Hfin.
  { intros r Hpc Hr Hc E. replace s' with (run_finally r s net).1 by (by rewrite E).
    by apply run_finally_evolves. }
  destruct (sv_cancel s) eqn:Ec.
  - destruct (sv_pc s) as [| | |r|r] eqn:Epc; simplify_eq; cycle 2.
    { apply (Hfin (Raise CancelledError)); [done|by right|done|done]. }
    all: apply die_evolves; rewrite ?Epc; [done|done|by left].
  - destruct (sv_pc s) as [| | |r|r] eqn:Epc; simplify_eq.
    + split; [done| |done|done|by rewrite Epc|by intros _|].
      * intros [Hr Hcl Hp Hu]. rewrite Epc in Hp. by split.
      * intros _. unfold doomed. by rewrite Epc, Ec.
    + destruct (sv_stop s); simplify_eq. apply (Hfin (Ret ())); [done|by left|done|done].
Qed.

Lemma run_opened_evolves r s net s' net' :
  run_opened r s net = Some (s', net') → r ≠ Raise CancelledError → srv_evolves s s'.
Proof.
  unfold run_opened. intros Hrun Hr. destruct (sv_pc s) eqn:Epc; try done. destruct (sv_cancel s) eqn:Ec; [done|].
  destruct r as [[]|e]; simplify_eq; [|apply die_evolves; rewrite ?Epc; [done|done|right; split; [congruence|done]]].
  set (s1 := mkSrv (sv_kind s) RWaiting true (sv_closed s) true (sv_stop s) false (sv_conns s)) in *.
  assert (srv_evolves s s1) as H1.
  { split; [done| |done|done|by rewrite Epc|by intros _|].
    - intros [Hrd Hcl Hp Hu]. by split.
    - intros _. unfold doomed. by rewrite Epc, Ec. }
  change (sv_stop s1) with (sv_stop s) in Hrun. destruct (sv_stop s) eqn:Es; [|by injection Hrun as <- <-].
  match type of Hrun with Some (run_finally ?r _ ?n) = _ =>
    assert (srv_evolves s1 (run_finally r s1 n).1) as H2 by (apply run_finally_evolves; [done|by left|done]);
    replace (run_finally r s1 n) with (s', net') in H2 by congruence; cbn [fst] in H2 end.
  destruct H1, H2. split; [congruence|auto..| |auto|auto].
  intros r Hpc. rewrite Epc in Hpc. done.
Qed.

Lemma run_closed_evolves s s' : run_closed waits s = Some s' → srv_evolves s s'.
Proof.
  unfold run_closed. destruct (sv_pc s) as [| | |r|] eqn:Epc; try done. destruct (sv_cancel s) eqn:Ec; [done|].
  destruct (_ && _); [done|]. intros [= <-]. split; [done| |done|done|by rewrite Epc| |].
  - intros [Hr Hcl Hp Hu]. rewrite Epc in Hp. destruct Hp as (Ho & Hc & Hb). split; cbn; [done|done| |done].
    destruct Hb as [-> | ->]; naive_solver.
  - intros (_ & Hp & _). rewrite Epc in Hp. unfold uncancelled. cbn. naive_solver.
  - intros [_ _ Hp _] _. rewrite Epc in Hp. unfold doomed. cbn. naive_solver.
Qed.

Lemma cancel_grows s : srv_grows s (cancel_task s) ∧ (srv_done s = false → doomed (cancel_task s)).
Proof.
  unfold cancel_task. destruct (srv_done s) eqn:Ed; [done|]. split.
  - split; try done.
    + intros [Hr Hc Hp Hu]. by split.
    + unfold srv_done in Ed. intros _. unfold doomed. cbn. by destruct (sv_pc s).
  - intros _. unfold doomed, srv_done in *. cbn. by destruct (sv_pc s).
Qed.

(** ** Requests in flight *)

(** No request is in flight on a UDP server that has no socket or is done. *)
Definition udp_ok (net : SrvSt) (s : Srv) : Prop :=
  sv_kind s = KUdp → sv_open s = false ∨ srv_done s = true → udp_inflight net = ∅.

Lemma udp_ok_shrink net net' s : udp_inflight net' ⊆ udp_inflight net → udp_ok net s → udp_ok net' s.
Proof. intros Hsub Hok Hk Hs. specialize (Hok Hk Hs). set_solver. Qed.

Lemma run_finally_udp r s net :
  udp_inflight (run_finally r s net).2 ⊆ udp_inflight net ∧ udp_ok (run_finally r s net).2 (run_finally r s net).1.
Proof.
  unfold run_finally, udp_ok. destruct (sv_kind s) eqn:Ek; cbn; [set_solver|..]; (split; [done|]); congruence.
Qed.

Lemma run_turn_udp s net s' net' :
  srv_ok s → run_turn s net = Some (s', net') → udp_ok net s →
  udp_inflight net' ⊆ udp_inflight net ∧ udp_ok net' s'.
Proof.
  intros Hok Hrun Hu. unfold run_turn in Hrun. destruct Hok as [_ _ Hp Hcl].
  destruct (sv_cancel s).
  - destruct (sv_pc s) eqn:Epc; simplify_eq.
    1, 2: split; [done|]; intros Hk _; apply Hu; [done|by left].
    + destruct (run_finally_udp (Raise CancelledError) s net) as [H1 H2]. by rewrite Hrun in H1, H2.
    + split; [done|]. intros Hk. by destruct (Hcl Hk r).
  - destruct (sv_pc s) eqn:Epc; simplify_eq.
    + split; [done|]. intros Hk _. apply Hu; [done|by left].
    + destruct (sv_stop s); simplify_eq.
      destruct (run_finally_udp (Ret ()) s net) as [H1 H2]. by rewrite Hrun in H1, H2.
Qed.

Lemma run_opened_udp r s net s' net' :
  srv_ok s → run_opened r s net = Some (s', net') → udp_ok net s →
  udp_inflight net' ⊆ udp_inflight net ∧ udp_ok net' s'.
Proof.
  intros [_ _ Hp _] Hrun Hu. unfold run_opened in Hrun. destruct (sv_pc s) eqn:Epc; try done.
  destruct (sv_cancel s); [done|]. destruct r as [[]|e]; simplify_eq.
  - set (s1 := mkSrv (sv_kind s) RWaiting true (sv_closed s) true (sv_stop s) false (sv_conns s)) in *.
    set (n1 := match sv_kind s1 with KUdp => set_transport net | _ => net end) in *.
    assert (udp_inflight n1 = udp_inflight net) as Hn by (unfold n1; by destruct (sv_kind s)).
    change (sv_stop s1) with (sv_stop s) in Hrun. destruct (sv_stop s).
    + destruct (run_finally_udp (Ret ()) s1 n1) as [H1 H2].
      replace (run_finally (Ret ()) s1 n1) with (s', net') in H1, H2 by congruence. cbn in H1, H2. by rewrite <- Hn.
    + injection Hrun as <- <-. rewrite Hn. split; [done|]. intros _ [|]; done.
  - split; [done|]. intros Hk _. apply Hu; [done|by left].
Qed.

Lemma run_closed_udp s s' net : srv_ok s → run_closed waits s = Some s' → udp_ok net s'.
Proof.
  intros [_ _ _ Hcl]. unfold run_closed. destruct (sv_pc s) as [| | |r|] eqn:Epc; try done.
  destruct (sv_cancel s); [done|]. destruct (_ && _); [done|]. intros [= <-] Hk. by destruct (Hcl Hk r).
Qed.

(** ** The whole process *)

(** How the pending result [r] of [_run] came about. *)
Definition exit_ok (servers : list Srv) (r : res unit) : Prop :=
  match r with
  | Ret _ => Forall (λ s, sv_pc s = RDone (Ret ())) servers
  | Raise e => ∃ s, s ∈ servers ∧ sv_pc s = RDone (Raise e) ∧ sv_open s = false
  end.

Definition opened_before (i : nat) (servers : list Srv) : Prop :=
  ∀ j s, j < i → servers !! j = Some s → sv_open s = true.
Definition done_before (i : nat) (servers : list Srv) : Prop :=
  ∀ j s, j < i → servers !! j = Some s → srv_done s = true.

Definition reporter_off (b : option bg) : Prop := b = None ∨ b = Some BDone.

Definition not_running (b : bg) : Prop := b ≠ BRunning.

Definition pc_ok (w : World) : Prop :=
  let servers := w_servers w in
  match w_pc w with
  | MReady i =>
      i < length servers ∧ opened_before i servers ∧ Forall uncancelled servers
      ∧ w_reporter w = None ∧ w_refresh w = w_started w ∧ w_refresh w = []
  | MReap i r =>
      i < length servers ∧ opened_before i servers ∧ Forall uncancelled servers
      ∧ w_reporter w = None ∧ w_refresh w = w_started w ∧ w_refresh w = []
      ∧ match r with Ret _ => opened_before (S i) servers | Raise _ => exit_ok servers r end
  | MGather =>
      opened_before (length servers) servers ∧ Forall uncancelled servers
      ∧ w_reporter w = Some BRunning ∧ w_refresh w = w_started w ∧ Forall (.= BRunning) (w_refresh w)
  | MReporter r =>
      exit_ok servers r ∧ (∃ b, w_reporter w = Some b ∧ not_running b) ∧ w_refresh w = w_started w
      ∧ Forall (.= BRunning) (w_refresh w)
  | MRefresh k r =>
      exit_ok servers r ∧ reporter_off (w_reporter w) ∧ k < length (w_refresh w)
      ∧ Forall not_running (w_refresh w) ∧ Forall (.= BDone) (take k (w_refresh w))
  | MServer i r =>
      exit_ok servers r ∧ reporter_off (w_reporter w) ∧ w_refresh w = [] ∧ Forall (λ s, sv_stop s = true) servers
      ∧ done_before i servers ∧ ∃ s, servers !! i = Some s ∧ doomed s
  | MUpstream r | MDone r =>
      exit_ok servers r ∧ reporter_off (w_reporter w) ∧ w_refresh w = [] ∧ Forall (λ s, sv_stop s = true) servers
      ∧ done_before (length servers) servers ∧ forwarder_closed (w_up w) = true
  end.

Record life_base (w : World) : Prop := {
  lb_servers : Forall srv_ok (w_servers w);
  lb_kinds : NoDup (sv_kind <$> w_servers w);
  lb_udp : Forall (udp_ok (w_net w)) (w_servers w);
  lb_ready : is_ready (w_ready w) = true → Forall (λ s, sv_open s = true) (w_servers w);
}.

Definition life_ok (w : World) : Prop := life_base w ∧ pc_ok w.

(** ** Steps of the servers *)

Section evolve.
Context (l l' : list Srv) (Hok : Forall srv_ok l) (Hev : Forall2 srv_grows l l').

Lemma evolve_lookup j s' : l' !! j = Some s' → ∃ s, l !! j = Some s ∧ srv_ok s ∧ srv_grows s s'.
Proof.
  intros Hj. destruct (Forall2_lookup_r _ _ _ _ _ Hev Hj) as (s & Hs & Hsev).
  exists s. split; [done|]. split; [by eapply Forall_lookup_1 in Hok|done].
Qed.

Lemma evolve_all (P : Srv → Prop) :
  (∀ s s', srv_ok s → srv_grows s s' → P s → P s') → Forall P l → Forall P l'.
Proof.
  intros HP Hl. apply Forall_lookup. intros j s' Hj. destruct (evolve_lookup j s' Hj) as (s & Hs & Hsok & Hsev).
  eapply HP; [done|done|]. by eapply Forall_lookup_1 in Hl.
Qed.

Lemma evolve_ok : Forall srv_ok l'.
Proof. apply evolve_all; [|done]. intros s s' _ [_ H1 _ _ _ _] Hs. by apply H1. Qed.

Lemma evolve_stop : Forall (λ s, sv_stop s = true) l → Forall (λ s, sv_stop s = true) l'.
Proof. apply evolve_all. intros s s' _ []. auto. Qed.

Lemma evolve_open : Forall (λ s, sv_open s = true) l → Forall (λ s, sv_open s = true) l'.
Proof. apply evolve_all. intros s s' _ []. auto. Qed.

Lemma evolve_opened i : opened_before i l → opened_before i l'.
Proof.
  intros Hb j s' Hj Hs. destruct (evolve_lookup j s' Hs) as (s & Hl & _ & []). eauto.
Qed.

Lemma evolve_done i : done_before i l → done_before i l'.
Proof.
  intros Hb j s' Hj Hs. destruct (evolve_lookup j s' Hs) as (s & Hl & _ & [_ _ _ _ Hd _]).
  specialize (Hb j s Hj Hl). unfold srv_done in *. destruct (sv_pc s) eqn:Epc; try done.
  destruct (Hd _ eq_refl) as [-> _]. done.
Qed.

Lemma evolve_exit r : exit_ok l r → exit_ok l' r.
Proof.
  destruct r as [[]|e]; cbn.
  - apply evolve_all. intros s s' _ [_ _ _ _ Hd _] Hs. by apply Hd.
  - intros (s & Hs & Hpc & Ho). apply list_elem_of_lookup in Hs as [j Hj].
    destruct (Forall2_lookup_l _ _ _ _ _ Hev Hj) as (s' & Hs' & [_ _ _ _ Hd _]).
    exists s'. split; [by eapply list_elem_of_lookup_2|]. destruct (Hd _ Hpc) as [-> Ho']. by rewrite Ho'.
Qed.

Lemma evolve_doomed i : (∃ s, l !! i = Some s ∧ doomed s) → ∃ s, l' !! i = Some s ∧ doomed s.
Proof.
  intros (s & Hs & Hd). destruct (Forall2_lookup_l _ _ _ _ _ Hev Hs) as (s' & Hs' & Hsev).
  exists s'. split; [done|]. destruct Hsev as [_ _ _ _ _ Hdoom]. apply Hdoom; [|done]. by eapply Forall_lookup_1 in Hok.
Qed.

Lemma evolve_kinds : sv_kind <$> l' = sv_kind <$> l.
Proof.
  clear Hok. revert Hev. induction 1 as [|x y lx ly [Hk _ _ _ _ _] _ IH]; [done|]. by rewrite !fmap_cons, Hk, IH.
Qed.

Lemma evolve_length : length l' = length l.
Proof. symmetry. by eapply Forall2_length. Qed.
End evolve.

Lemma evolve_uncancelled l l' : Forall2 srv_evolves l l' → Forall uncancelled l → Forall uncancelled l'.
Proof.
  induction 1 as [|s s' l l' Hs Hl IH]; [done|]. rewrite !Forall_cons. intros [Hs1 Hl1].
  split; [by apply Hs|by apply IH].
Qed.

Lemma evolves_grows_all l l' : Forall2 srv_evolves l l' → Forall2 srv_grows l l'.
Proof. intros Hl. eapply Forall2_impl; [exact Hl|]. apply evolves_grows. Qed.

Lemma pc_ok_evolves w l' net :
  Forall srv_ok (w_servers w) → Forall2 srv_evolves (w_servers w) l' → pc_ok w → pc_ok (with_servers l' net w).
Proof.
  intros Hok Hev. pose proof (evolves_grows_all _ _ Hev) as Hgr. unfold pc_ok. cbn. rewrite (evolve_length _ _ Hgr).
  destruct (w_pc w) as [i|i r| |r|k r|i r|r|r].
  - intros (? & ? & ? & ?). eauto 10 using evolve_opened, evolve_uncancelled.
  - intros (? & ? & ? & ? & ? & ? & Hr). do 6 (split; [eauto 10 using evolve_opened, evolve_uncancelled|]).
    destruct r; [by eapply evolve_opened|by eapply evolve_exit].
  - intros (? & ? & ?). eauto 10 using evolve_opened, evolve_uncancelled.
  - intros (? & ?). eauto 10 using evolve_exit.
  - intros (? & ?). eauto 10 using evolve_exit.
  - intros (? & ? & ? & ? & ? & ?). eauto 12 using evolve_exit, evolve_stop, evolve_done, evolve_doomed.
  - intros (? & ? & ? & ? & ? & ?). eauto 12 using evolve_exit, evolve_stop, evolve_done.
  - intros (? & ? & ? & ? & ? & ?). eauto 12 using evolve_exit, evolve_stop, evolve_done.
Qed.

(** A step of the servers, with [net] shrinking its UDP table. *)
Lemma servers_step_ok w l' net :
  life_ok w → Forall2 srv_evolves (w_servers w) l' → udp_inflight net ⊆ udp_inflight (w_net w) →
  (∀ j s', l' !! j = Some s' → w_servers w !! j = Some s' ∨ udp_ok net s') →
  life_ok (with_servers l' net w).
Proof.
  intros [[Hs Hk Hu Hr] Hpc] Hev Hnet Hudp. pose proof (evolves_grows_all _ _ Hev) as Hgr.
  split; [|by apply pc_ok_evolves]. split; cbn.
  - by eapply evolve_ok.
  - by erewrite evolve_kinds.
  - apply Forall_lookup. intros j s' Hj. destruct (Hudp j s' Hj) as [Hold|?]; [|done].
    eapply udp_ok_shrink; [done|]. by eapply Forall_lookup_1 in Hu.
  - intros Hrd. eapply evolve_open; [done|done|]. by apply Hr.
Qed.

Lemma insert_evolves (l : list Srv) i s s' :
  l !! i = Some s → srv_evolves s s' → Forall2 srv_evolves l (<[i := s']> l).
Proof.
  intros Hi Hs. rewrite <- (list_insert_id l i s Hi) at 1. apply Forall2_insert; [|done].
  reflexivity.
Qed.

(** One server's task runs. *)
Lemma server_step_ok w i s s' net :
  life_ok w → w_servers w !! i = Some s → srv_evolves s s' →
  udp_inflight net ⊆ udp_inflight (w_net w) → udp_ok net s' →
  life_ok (with_servers (<[i := s']> (w_servers w)) net w).
Proof.
  intros Hw Hi Hev Hnet Hu. apply servers_step_ok; [done|by eapply insert_evolves|done|].
  intros j s2 Hj. destruct (decide (i = j)) as [<-|Hne].
  - rewrite list_lookup_insert_eq in Hj by (by eapply lookup_lt_Some). simplify_eq. by right.
  - rewrite list_lookup_insert_ne in Hj by done. by left.
Qed.

(** ** The coroutine [_run] *)

Lemma close_fn_closed f : forwarder_closed (close_fn f) = true.
Proof.
  destruct f as [f|f|f]; [done| |done]. cbn. unfold tcp_close, mbind, M_bind, modify, gets.
  by rewrite close_all_run.
Qed.

(** What holds in the whole [finally] with the result [r] pending. *)
Definition leaving (r : res unit) (w : World) : Prop := life_base w ∧ exit_ok (w_servers w) r.

Lemma close_upstream_ok r w :
  leaving r w → reporter_off (w_reporter w) → w_refresh w = [] → Forall (λ s, sv_stop s = true) (w_servers w) →
  done_before (length (w_servers w)) (w_servers w) → life_ok (close_upstream r w).
Proof.
  intros [[Hs Hk Hu Hr] Hx] Hrep Href Hst Hd. split; [by split|].
  unfold pc_ok, close_upstream. cbn. pose proof (close_fn_closed (w_up w)) as Hc.
  destruct (w_up w); cbn in *; eauto 10.
Qed.

Lemma grow_base w l' :
  life_base w → Forall2 srv_grows (w_servers w) l' → Forall (udp_ok (w_net w)) l' →
  life_base (with_servers l' (w_net w) w).
Proof.
  intros [Hs Hk Hu Hr] Hgr Hu'. split; cbn.
  - by eapply evolve_ok.
  - by erewrite evolve_kinds.
  - done.
  - intros Hrd. eapply evolve_open; [done|done|]. by apply Hr.
Qed.

Lemma alter_cancel_grows k l : Forall2 srv_grows l (alter cancel_task k l).
Proof.
  apply Forall2_same_length_lookup. split; [by rewrite length_alter|]. intros j s s' Hs Hs'.
  destruct (decide (k = j)) as [->|Hne].
  - rewrite list_lookup_alter_eq, Hs in Hs'. simplify_eq/=. apply cancel_grows.
  - rewrite list_lookup_alter_ne in Hs' by done. by simplify_eq.
Qed.

Lemma alter_cancel_udp net k l : Forall (udp_ok net) l → Forall (udp_ok net) (alter cancel_task k l).
Proof.
  intros Hl. apply Forall_alter; [done|]. intros s _ Hs. unfold cancel_task.
  destruct (srv_done s) eqn:Ed; [done|]. exact Hs.
Qed.

Lemma next_server_ok i r w :
  leaving r w → reporter_off (w_reporter w) → w_refresh w = [] → Forall (λ s, sv_stop s = true) (w_servers w) →
  done_before i (w_servers w) → life_ok (next_server i r w).
Proof.
  intros [Hb Hx] Hrep Href Hst Hd. unfold next_server.
  destruct (list_find _ _) as [[j s]|] eqn:Ef.
  - apply list_find_Some in Ef as (Hj & Hnd & Hbefore). rewrite lookup_drop in Hj.
    pose proof (alter_cancel_grows (i + j) (w_servers w)) as Hgr. pose proof (lb_servers _ Hb) as Hs.
    assert (life_base (with_servers (alter cancel_task (i + j) (w_servers w)) (w_net w) w)) as [? ? ? ?].
    { apply grow_base; [done|done|]. apply alter_cancel_udp. apply Hb. }
    split; [by split|]. unfold pc_ok. cbn.
    split; [exact (evolve_exit _ _ Hs Hgr _ Hx)|]. do 2 (split; [done|]).
    split; [exact (evolve_stop _ _ Hs Hgr Hst)|]. split.
    + eapply evolve_done; [exact Hs|exact Hgr|]. intros k s2 Hk Hs2. destruct (decide (k < i)) as [Hlt|Hge]; [by eapply Hd|].
      destruct (srv_done s2) eqn:E; [done|]. exfalso. apply (Hbefore (k - i) s2); [|lia|done].
      rewrite lookup_drop. by replace (i + (k - i)) with k by lia.
    + exists (cancel_task s). split; [by rewrite list_lookup_alter_eq, Hj|]. by apply cancel_grows.
  - apply close_upstream_ok; [done..|]. intros k s Hk Hs. apply list_find_None in Ef.
    destruct (decide (k < i)) as [Hlt|Hge]; [by eapply Hd|].
    pose proof (Forall_lookup_1 _ _ (k - i) s Ef) as Hn. rewrite lookup_drop in Hn.
    replace (i + (k - i)) with k in Hn by lia. specialize (Hn Hs). by destruct (srv_done s).
Qed.

Lemma stop_all_grows l : Forall2 srv_evolves l (stop <$> l).
Proof. induction l as [|s l IH]; [constructor|]. constructor; [apply stop_evolves|done]. Qed.

Lemma stop_servers_ok r w :
  leaving r w → reporter_off (w_reporter w) → w_refresh w = [] → life_ok (stop_servers r w).
Proof.
  intros [Hb Hx] Hrep Href. unfold stop_servers.
  pose proof (evolves_grows_all _ _ (stop_all_grows (w_servers w))) as Hgr. pose proof (lb_servers _ Hb) as Hs.
  apply next_server_ok; [|done|done| |].
  - split; [|exact (evolve_exit _ _ Hs Hgr _ Hx)]. apply grow_base; [done|done|].
    apply Forall_fmap. eapply Forall_impl; [apply (lb_udp _ Hb)|]. done.
  - cbn. by apply Forall_fmap, Forall_true.
  - intros j s Hj. lia.
Qed.

Lemma stop_refresh_tasks_ok r w :
  leaving r w → reporter_off (w_reporter w) → w_refresh w = w_started w → life_ok (stop_refresh_tasks r w).
Proof.
  intros [Hb Hx] Hrep Href. unfold stop_refresh_tasks. rewrite <- Href.
  destruct (w_refresh w) as [|b l] eqn:El; cbn [truthy truthy_list andb].
  - by apply stop_servers_ok.
  - destruct Hb as [? ? ? ?]. split; [by split|]. unfold pc_ok. cbn. split; [done|]. split; [done|].
    split; [lia|]. split; [|constructor].
    change (Forall not_running (bg_cancel <$> b :: l)). apply Forall_fmap, Forall_true. by intros [].
Qed.

Lemma main_finally_ok r w :
  leaving r w → w_refresh w = w_started w → Forall (.= BRunning) (w_refresh w) →
  w_reporter w = None ∨ w_reporter w = Some BRunning → life_ok (main_finally r w).
Proof.
  intros [Hb Hx] Href Hrun Hrep. unfold main_finally. destruct (w_reporter w) as [b|] eqn:Er.
  - destruct Hb as [? ? ? ?]. split; [by split|]. unfold pc_ok. cbn. split; [done|]. split; [|done].
    exists (bg_cancel b). split; [done|]. by destruct b.
  - apply stop_refresh_tasks_ok; [done|by left|done].
Qed.

Lemma opened_before_S i l s : opened_before i l → l !! i = Some s → sv_open s = true → opened_before (S i) l.
Proof.
  intros Hb Hi Ho j s' Hj Hs'. destruct (decide (j = i)) as [->|]; [by simplify_eq|]. eapply Hb; [|done]. lia.
Qed.
Lemma done_before_S i l s : done_before i l → l !! i = Some s → srv_done s = true → done_before (S i) l.
Proof.
  intros Hb Hi Ho j s' Hj Hs'. destruct (decide (j = i)) as [->|]; [by simplify_eq|]. eapply Hb; [|done]. lia.
Qed.

(** A task that failed and was not cancelled never had a socket. *)
Lemma failed_unopened w i s e :
  life_base w → Forall uncancelled (w_servers w) → w_servers w !! i = Some s → sv_pc s = RDone (Raise e) →
  sv_open s = false ∧ exit_ok (w_servers w) (Raise e).
Proof.
  intros [Hs _ _ _] Hu Hi Hpc. pose proof (Forall_lookup_1 _ _ _ _ Hs Hi) as [_ _ Hp _].
  pose proof (Forall_lookup_1 _ _ _ _ Hu Hi) as (_ & _ & Hnc). rewrite Hpc in Hp, Hnc.
  assert (sv_open s = false) as Ho by (apply Hp; congruence). split; [done|].
  exists s. split; [by eapply list_elem_of_lookup_2|done].
Qed.

Lemma started_ok cfg w :
  life_base w → opened_before (length (w_servers w)) (w_servers w) → Forall uncancelled (w_servers w) →
  w_refresh w = [] → life_ok (started cfg w).
Proof.
  intros [Hs Hk Hu Hr] Ho Hunc Href. unfold started. rewrite Href. unfold start_refresh_tasks. cbn [truthy truthy_list].
  assert (Forall (λ s, sv_open s = true) (w_servers w)) as Hopen.
  { apply Forall_lookup. intros j s Hj. eapply Ho; [|done]. by eapply lookup_lt_Some. }
  destruct (refresh_enabled cfg); cbn [negb]; (split; [by split|]); unfold pc_ok; cbn; do 4 (split; [done|]).
  - constructor; [done|]. by apply Forall_replicate.
  - constructor.
Qed.

Lemma after_ready_ok cfg i r w :
  life_base w → i < length (w_servers w) → Forall uncancelled (w_servers w) →
  w_reporter w = None → w_refresh w = w_started w → w_refresh w = [] →
  match r with Ret _ => opened_before (S i) (w_servers w) | Raise _ => exit_ok (w_servers w) r end →
  life_ok (after_ready cfg i r w).
Proof.
  intros Hb Hi Hunc Hrep Href Hnil Hr. destruct r as [[]|e]; cbn [after_ready].
  - destruct (S i <? length (w_servers w)) eqn:E.
    + apply Nat.ltb_lt in E. destruct Hb as [? ? ? ?]. split; [by split|]. unfold pc_ok. cbn. done.
    + apply Nat.ltb_ge in E. apply started_ok; [done| |done|done]. by replace (length (w_servers w)) with (S i) by lia.
  - apply main_finally_ok; [done|done| |by left]. rewrite Hnil. constructor.
Qed.

Lemma main_turn_ok cfg w w' : life_ok w → main_turn cfg w = Some w' → life_ok w'.
Proof.
  intros [Hb Hpc] Hrun. unfold main_turn in Hrun. unfold pc_ok in Hpc.
  destruct (w_pc w) as [i|i r| |r|k r|i r|r|r] eqn:Epc; simplify_eq.
  - destruct Hpc as (Hi & Ho & Hunc & Hrep & Href & Hnil). destruct (w_servers w !! i) as [s|] eqn:Es; [|done].
    cbn in Hrun. destruct (sv_ready s) eqn:Er; simplify_eq.
    pose proof (Forall_lookup_1 _ _ _ _ (lb_servers _ Hb) Es) as [Hrd _ _ _]. rewrite Er in Hrd.
    apply after_ready_ok; [done..|].
    destruct (sv_pc s) as [| | |r|[[]|e]] eqn:Ep; try by eapply opened_before_S.
    destruct (failed_unopened w i s e) as [Hno _]; [done..|congruence].
  - destruct Hpc as (Hi & Ho & Hunc & Hrep & Href & Hnil & Hr). by apply after_ready_ok.
  - destruct Hpc as (Hx & (b & Hrep & Hnr) & Href & Hrun'). rewrite Hrep in Hrun. destruct b; simplify_eq.
    apply stop_refresh_tasks_ok; [done| |done]. rewrite Hrep. by right.
  - destruct Hpc as (Hx & Hoff & Hk & Hnr & Hdone). destruct (w_refresh w !! k) as [[]|] eqn:Ek; simplify_eq.
    destruct (S k <? length (w_refresh w)) eqn:E.
    + apply Nat.ltb_lt in E. destruct Hb as [? ? ? ?]. split; [by split|]. unfold pc_ok. cbn.
      do 4 (split; [done|]). rewrite (take_S_r _ _ _ Ek), Forall_app. by split; [|constructor].
    + apply stop_servers_ok; [|done|done]. destruct Hb as [? ? ? ?]. by split; [split|].
  - destruct Hpc as (Hx & Hoff & Hnil & Hst & Hd & s & Hs & Hdoom). rewrite Hs in Hrun. cbn in Hrun.
    unfold doomed, benign in Hdoom.
    destruct (sv_pc s) as [| | |r'|r'] eqn:Ep; try done.
    assert (life_ok (next_server (S i) r w)) as Hnext.
    { apply next_server_ok; [done|done|done|done|]. eapply done_before_S; [done|done|]. unfold srv_done. by rewrite Ep. }
    destruct Hdoom as [-> | ->]; by simplify_eq.
  - destruct Hb as [? ? ? ?]. split; [by split|]. exact Hpc.
Qed.

Lemma reporter_step_ok w : life_ok w → w_reporter w = Some BCancelled → life_ok (with_reporter (Some BDone) w).
Proof.
  intros [[? ? ? ?] Hpc] Hrep. split; [by split|]. unfold pc_ok, reporter_off in *. cbn.
  destruct (w_pc w); rewrite Hrep in Hpc; destruct_and?; try done; try (destruct_or?; done).
  split; [done|]. split; [by exists BDone|done].
Qed.

Lemma refresh_step_ok w k :
  life_ok w → w_refresh w !! k = Some BCancelled → life_ok (with_refresh (<[k := BDone]> (w_refresh w)) w).
Proof.
  intros [[? ? ? ?] Hpc] Hk. split; [by split|].
  assert (w_refresh w ≠ []) as Hne by (by intros E; rewrite E in Hk).
  assert (¬ Forall (.= BRunning) (w_refresh w)) as Hrun.
  { intros HF. by pose proof (Forall_lookup_1 _ _ _ _ HF Hk). }
  unfold pc_ok in *. cbn. destruct (w_pc w); destruct_and?; try done.
  rewrite length_insert. do 3 (split; [done|]). split; [by apply Forall_insert|].
  apply Forall_lookup. intros j b Hj. apply lookup_take_Some in Hj as [Hj Hlt].
  destruct (decide (k = j)) as [->|Hne'].
  - rewrite list_lookup_insert_eq in Hj by (by eapply lookup_lt_Some). by simplify_eq.
  - rewrite list_lookup_insert_ne in Hj by done.
    eapply (Forall_lookup_1 (.= BDone) (take k0 (w_refresh w))); [done|]. by apply lookup_take_Some.
Qed.

Lemma step_ok cfg w w' : life_ok w → step waits cfg w w' → life_ok w'.
Proof.
  intros Hw Hstep. pose proof Hw as [Hb Hpc].
  destruct Hstep as [i s s' net Hi Hrun|i s r s' net Hi Hrun Hr|i s s' Hi Hrun|Hrep|k Hk|w' Hrun|i s r Epc Hi Hp|
                     i s e Epc Hi Hp|Epc Hall].
  - pose proof (Forall_lookup_1 _ _ _ _ (lb_servers _ Hb) Hi) as Hs.
    destruct (run_turn_udp _ _ _ _ Hs Hrun) as [Hsub Hu]; [by eapply Forall_lookup_1; [apply Hb|]|].
    eapply server_step_ok; [done|done|by eapply run_turn_evolves|done|done].
  - pose proof (Forall_lookup_1 _ _ _ _ (lb_servers _ Hb) Hi) as Hs.
    destruct (run_opened_udp _ _ _ _ _ Hs Hrun) as [Hsub Hu]; [by eapply Forall_lookup_1; [apply Hb|]|].
    eapply server_step_ok; [done|done|by eapply run_opened_evolves|done|done].
  - pose proof (Forall_lookup_1 _ _ _ _ (lb_servers _ Hb) Hi) as Hs.
    eapply server_step_ok; [done|done|by eapply run_closed_evolves|done|by eapply run_closed_udp].
  - by apply reporter_step_ok.
  - by apply refresh_step_ok.
  - by eapply main_turn_ok.
  - unfold pc_ok in Hpc. rewrite Epc in Hpc. destruct Hpc as (Hlt & Ho & Hunc & Hrep & Href & Hnil).
    destruct Hb as [Hs ? ? ?]. split; [by split|]. unfold pc_ok. cbn. do 6 (split; [done|]).
    destruct r as [[]|e]; [|by eapply failed_unopened; [split|..]].
    eapply opened_before_S; [done|done|]. pose proof (Forall_lookup_1 _ _ _ _ Hs Hi) as [_ _ Hpp _].
    rewrite Hp in Hpp. by destruct Hpp.
  - unfold pc_ok in Hpc. rewrite Epc in Hpc. destruct Hpc as (Ho & Hunc & Hrep & Href & Hrun).
    apply main_finally_ok; [|done|done|by right]. split; [done|]. by eapply failed_unopened.
  - unfold pc_ok in Hpc. rewrite Epc in Hpc. destruct Hpc as (Ho & Hunc & Hrep & Href & Hrun).
    apply main_finally_ok; [|done|done|by right]. done.
Qed.

Lemma external_ok ucfg tcfg hcfg w w' : life_ok w → external ucfg tcfg hcfg w w' → life_ok w'.
Proof.
  intros Hw Hext. pose proof Hw as [Hb Hpc]. assert (∀ i s n, w_servers w !! i = Some s →
    life_ok (with_servers (<[i := set_conns n s]> (w_servers w)) (w_net w) w)) as Hconns.
  { intros i s n Hi. eapply server_step_ok; [done|done|apply set_conns_evolves|done|].
    exact (Forall_lookup_1 _ _ _ _ (lb_udp _ Hb) Hi). }
  destruct Hext as [sig Hsig|sig Hsig|(i & s & Hi & Hk & Ho & Hc)|i s Hi _ _ _|i s Hi _|net Hnet Hsub].
  - apply servers_step_ok; [done|apply stop_all_grows|done|]. intros j s' Hj. right.
    rewrite list_lookup_fmap in Hj. destruct (w_servers w !! j) as [s|] eqn:Es; [|done]. simplify_eq/=.
    exact (Forall_lookup_1 _ _ _ _ (lb_udp _ Hb) Es).
  - apply servers_step_ok; [done|reflexivity| |by left]. unfold _handle_sighup. by rewrite in_handler_run.
  - destruct Hb as [Hs Hkinds Hu Hr]. split; [|exact Hpc]. split; cbn; [done|done| |done].
    apply Forall_lookup. intros j s' Hj Hk' Hs'. exfalso.
    assert (i = j) as <-.
    { eapply (NoDup_lookup (sv_kind <$> w_servers w)); [done|by rewrite list_lookup_fmap, Hi|].
      by rewrite list_lookup_fmap, Hj, Hk, <- Hk'. }
    simplify_eq. pose proof (Forall_lookup_1 _ _ _ _ Hs Hi) as [_ _ Hp _]. destruct Hs' as [?|Hd]; [congruence|].
    unfold srv_done in Hd. destruct (sv_pc s) as [| | |r|[|e]]; try done; destruct Hp as [Hp1 Hp2]; [congruence|].
    by rewrite (Hp1 Ho) in Hc.
  - by apply Hconns.
  - by apply Hconns.
  - apply servers_step_ok; [done|reflexivity|done|by left].
Qed.

(** ** Reachable states *)

Definition life_step (ucfg : UdpServerConfig) (tcfg : TcpServerConfig) (hcfg : HandlerConfig) (w w' : World) : Prop :=
  step waits hcfg w w' ∨ external ucfg tcfg hcfg w w'.

Lemma run_begin_ok cfg net m handlers : udp_inflight net = ∅ → life_ok (run_begin cfg net m handlers).
Proof.
  intros Hnet. split.
  - unfold run_begin, run_servers. assert (∀ k, srv_ok (srv_new k)) as Hok by (intros k; by split).
    assert (∀ k, udp_ok net (srv_new k)) as Hu by (intros k _ _; exact Hnet).
    destruct (metrics_server_config cfg); (split; cbn; [by repeat constructor| |by repeat constructor|done]).
    + repeat constructor; set_solver.
    + repeat constructor; set_solver.
  - unfold pc_ok, run_begin, run_servers. cbn [w_pc w_servers w_reporter w_refresh w_started].
    split; [rewrite length_app; cbn; lia|]. split; [intros j s Hj; lia|]. split; [|done].
    assert (∀ k, uncancelled (srv_new k)) as Hu by done. destruct (metrics_server_config cfg); by repeat constructor.
Qed.

Lemma reachable_life_ok ucfg tcfg hcfg cfg net m handlers w :
  udp_inflight net = ∅ → rtc (life_step ucfg tcfg hcfg) (run_begin cfg net m handlers) w → life_ok w.
Proof.
  intros Hnet Hr. pose proof (run_begin_ok cfg net m handlers Hnet) as Hok.
  induction Hr as [|w0 w1 w2 [Hs|Hx] _ IH]; [done|apply IH; by eapply step_ok|apply IH; by eapply external_ok].
Qed.
End server.
