(* ===== verification/LifecycleTheorems.v ===== *)
(** * Properties of start-up and shutdown

    Readiness is only announced when every socket is open; a run ends with
    everything released; and after a stop signal it does end, whatever order
    the event loop chooses. *)
From S2P Require Import Prelude PyFloat PyString Metrics Dns Cache SingleFlight Handler Servers ServerProps Upstream Relay Http Config Main Lifecycle LifecycleProps.
From stdpp Require Import base list strings gmap sets relations.

Section termination.
Context `{Dnslib} (waits : bool) (cfg : HandlerConfig).

(** ** A measure every step decreases *)

Definition pc_size (pc : run_pc) : nat :=
  match pc with RStart => 4 | ROpening => 3 | RWaiting => 2 | RClosing _ => 1 | RDone _ => 0 end.
Definition srv_size (s : Srv) : nat := pc_size (sv_pc s).
Definition bg_size (b : bg) : nat := match b with BRunning => 2 | BCancelled => 1 | BDone => 0 end.
Fixpoint total {A} (f : A → nat) (l : list A) : nat :=
  match l with [] => 0 | x :: l => f x + total f l end.

(** The refresh tasks [start_refresh_tasks] makes. *)
Definition max_refresh : nat := S (Z.to_nat (refresh_concurrency cfg)).

(** [n] servers and [m] refresh tasks. *)
Definition main_size (pc : main_pc) (n m : nat) : nat :=
  match pc with
  | MReady i => 9 + 3 * max_refresh + n + 2 * (n - i)
  | MReap i _ => 8 + 3 * max_refresh + n + 2 * (n - i)
  | MGather => 5 + n + m
  | MReporter _ => 4 + n + m
  | MRefresh k _ => 3 + n + (m - k)
  | MServer i _ => 2 + (n - i)
  | MUpstream _ => 1
  | MDone _ => 0
  end.

Definition rest_size (w : World) : nat :=
  total srv_size (w_servers w) + from_option bg_size 0 (w_reporter w) + total bg_size (w_refresh w).
Definition world_size (w : World) : nat :=
  main_size (w_pc w) (length (w_servers w)) (length (w_refresh w)) + rest_size w.

Lemma total_insert {A} (f : A → nat) l i x y :
  l !! i = Some x → total f (<[i := y]> l) + f x = total f l + f y.
Proof.
  revert i. induction l as [|a l IH]; intros [|i] Hi; try done; simpl in *.
  - simplify_eq. lia.
  - specialize (IH i Hi). lia.
Qed.

Lemma total_same {A} (f : A → nat) l (g : A → A) : (∀ x, f (g x) = f x) → total f (g <$> l) = total f l.
Proof. intros Hg. induction l as [|a l IH]; [done|]. cbn. rewrite Hg. lia. Qed.

Lemma total_le {A} (f : A → nat) l (g : A → A) : (∀ x, f (g x) ≤ f x) → total f (g <$> l) ≤ total f l.
Proof. intros Hg. induction l as [|a l IH]; [done|]. cbn. specialize (Hg a). lia. Qed.

Lemma cancel_size s : srv_size (cancel_task s) = srv_size s.
Proof. unfold cancel_task. by destruct (srv_done s). Qed.

Lemma total_cancel k l : total srv_size (alter cancel_task k l) = total srv_size l.
Proof.
  revert k. induction l as [|s l IH]; intros [|k]; try done; simpl.
  - by rewrite cancel_size.
  - f_equal. apply IH.
Qed.

(** The sizes after each part of the [finally]. *)
Lemma close_upstream_size r w : world_size (close_upstream r w) ≤ 1 + rest_size w.
Proof. unfold world_size, close_upstream, rest_size. cbn. destruct (w_up w); cbn; lia. Qed.

Lemma next_server_size i r w : world_size (next_server i r w) ≤ 2 + (length (w_servers w) - i) + rest_size w.
Proof.
  unfold next_server. destruct (list_find _ _) as [[j s]|]; [|pose proof (close_upstream_size r w); lia].
  unfold world_size, rest_size. cbn. rewrite total_cancel, length_alter. lia.
Qed.

Lemma stop_servers_size r w : world_size (stop_servers r w) ≤ 2 + length (w_servers w) + rest_size w.
Proof.
  unfold stop_servers. pose proof (next_server_size 0 r (with_servers (stop <$> w_servers w) (w_net w) w)) as Hn.
  unfold rest_size in *. cbn in *. rewrite (total_same srv_size _ stop), length_fmap in Hn by done. lia.
Qed.

Lemma stop_refresh_size r w :
  world_size (stop_refresh_tasks r w) ≤ 3 + length (w_servers w) + length (w_refresh w) + rest_size w.
Proof.
  unfold stop_refresh_tasks. destruct (_ && _); [|pose proof (stop_servers_size r w); lia].
  unfold world_size, rest_size. cbn. rewrite length_fmap.
  pose proof (total_le bg_size (w_refresh w) bg_cancel ltac:(intros []; cbn; lia)). lia.
Qed.

Lemma main_finally_size r w :
  world_size (main_finally r w) ≤ 4 + length (w_servers w) + length (w_refresh w) + rest_size w.
Proof.
  unfold main_finally. destruct (w_reporter w) as [b|] eqn:Er; [|pose proof (stop_refresh_size r w); lia].
  unfold world_size, rest_size. cbn. rewrite Er. destruct b; cbn; lia.
Qed.

Lemma after_ready_size i r w :
  i < length (w_servers w) → w_reporter w = None → w_refresh w = [] →
  world_size (after_ready cfg i r w) < main_size (MReap i r) (length (w_servers w)) 0 + rest_size w.
Proof.
  intros Hi Hrep Href. destruct r as [[]|e]; cbn [after_ready].
  - destruct (S i <? length (w_servers w)) eqn:E.
    + apply Nat.ltb_lt in E. unfold world_size, rest_size. cbn. rewrite Hrep, Href. cbn. lia.
    + unfold started, start_refresh_tasks. rewrite Href. cbn [truthy truthy_list].
      unfold world_size, rest_size, max_refresh. rewrite Hrep, Href.
      destruct (refresh_enabled cfg); cbn; [|lia].
      rewrite length_replicate.
      assert (∀ n, total bg_size (replicate n BRunning) = 2 * n) as Hsum.
      { intros n. induction n as [|n IH]; [done|]. cbn. rewrite IH. lia. }
      rewrite Hsum. cbn. lia.
  - pose proof (main_finally_size (Raise e) w) as Hm. rewrite Href in Hm. cbn in *. lia.
Qed.

Lemma server_step_size w i s s' net :
  w_servers w !! i = Some s → srv_size s' < srv_size s →
  world_size (with_servers (<[i := s']> (w_servers w)) net w) < world_size w.
Proof.
  intros Hi Hlt. unfold world_size, rest_size. cbn. rewrite length_insert.
  pose proof (total_insert srv_size _ _ _ s' Hi). lia.
Qed.

Lemma run_finally_size r s net : srv_size (run_finally r s net).1 ≤ 1.
Proof. unfold run_finally. destruct (sv_kind s); cbn; lia. Qed.

Lemma run_turn_size s net s' net' : run_turn s net = Some (s', net') → srv_size s' < srv_size s.
Proof.
  unfold run_turn, srv_size at 2. pose proof (λ r, run_finally_size r s net) as Hf.
  destruct (sv_cancel s), (sv_pc s) eqn:Epc; try destruct (sv_stop s); intros Hrun; try done; injection Hrun as Hrun;
    try (match type of Hrun with run_finally ?r _ _ = _ => specialize (Hf r); rewrite Hrun in Hf; cbn in Hf |- *; lia end);
    subst; cbn; lia.
Qed.

Lemma run_opened_size r s net s' net' : run_opened r s net = Some (s', net') → srv_size s' < srv_size s.
Proof.
  unfold run_opened, srv_size at 2. destruct (sv_pc s) eqn:Epc; try done. destruct (sv_cancel s); [done|].
  destruct r as [[]|e]; [|intros [= <- <-]; cbn; lia].
  set (s1 := mkSrv _ RWaiting true _ true _ false _). set (n1 := match sv_kind s1 with KUdp => _ | _ => _ end).
  pose proof (run_finally_size (Ret ()) s1 n1) as Hf. destruct (sv_stop s1); intros Hrun.
  - replace (run_finally (Ret ()) s1 n1) with (s', net') in Hf by congruence. cbn in Hf |- *. lia.
  - injection Hrun as <- <-. cbn. lia.
Qed.

Lemma run_closed_size s s' : run_closed waits s = Some s' → srv_size s' < srv_size s.
Proof.
  unfold run_closed, srv_size at 2. destruct (sv_pc s); try done. destruct (sv_cancel s); [done|].
  destruct (_ && _); [done|]. intros [= <-]. cbn. lia.
Qed.

Lemma main_turn_size w w' : life_ok w → main_turn cfg w = Some w' → world_size w' < world_size w.
Proof.
  intros [Hb Hpc] Hrun. unfold main_turn in Hrun. unfold pc_ok in Hpc. unfold world_size at 2.
  destruct (w_pc w) as [i|i r| |r|k r|i r|r|r] eqn:Epc; simplify_eq.
  - destruct Hpc as (Hi & _ & _ & Hrep & _ & Hnil). destruct (w_servers w !! i) as [s|]; [|done]. cbn in Hrun.
    destruct (sv_ready s); simplify_eq.
    match goal with |- context [after_ready cfg i ?r w] => pose proof (after_ready_size i r w Hi Hrep Hnil) end.
    cbn in *. lia.
  - destruct Hpc as (Hi & _ & _ & Hrep & _ & Hnil & _). pose proof (after_ready_size i r w Hi Hrep Hnil). cbn in *. lia.
  - destruct (w_reporter w) as [[]|]; simplify_eq. pose proof (stop_refresh_size r w). cbn. lia.
  - destruct Hpc as (_ & _ & Hk & _ & _). destruct (w_refresh w !! k) as [[]|]; simplify_eq.
    destruct (S k <? length (w_refresh w)) eqn:E.
    + apply Nat.ltb_lt in E. unfold world_size. cbn. unfold rest_size. cbn. lia.
    + pose proof (stop_servers_size r (with_refresh [] w)) as Hs. unfold rest_size in *. cbn in *. lia.
  - destruct Hpc as (_ & _ & _ & _ & _ & s & Hs & _). pose proof (lookup_lt_Some _ _ _ Hs) as Hlt.
    rewrite Hs in Hrun. cbn in Hrun. set (bound := main_size _ _ _ + rest_size w).
    assert (world_size (next_server (S i) r w) < bound) as Hn.
    { pose proof (next_server_size (S i) r w). unfold bound. cbn. lia. }
    assert (∀ e, world_size (at_pc (MDone (Raise e)) w) < bound) as Hd.
    { intros e. unfold bound, world_size, rest_size. cbn. lia. }
    clearbody bound. destruct (sv_pc s) as [| | |?|[|[]]]; try done; injection Hrun as <-; first [exact Hn|apply Hd].
  - unfold world_size, rest_size. cbn. lia.
Qed.

Lemma step_size w w' : life_ok w → step waits cfg w w' → world_size w' < world_size w.
Proof.
  intros Hw Hstep. pose proof Hw as [_ Hpc].
  destruct Hstep as [i s s' net Hi Hrun|i s r s' net Hi Hrun Hr|i s s' Hi Hrun|Hrep|k Hk|w' Hrun|i s r Epc Hi Hp|
                     i s e Epc Hi Hp|Epc Hall].
  - eapply server_step_size; [done|]. by eapply run_turn_size.
  - eapply server_step_size; [done|]. by eapply run_opened_size.
  - eapply server_step_size; [done|]. by eapply run_closed_size.
  - unfold world_size, rest_size. cbn. rewrite Hrep. cbn. lia.
  - unfold world_size, rest_size. cbn. rewrite length_insert. pose proof (total_insert bg_size _ _ _ BDone Hk) as Ht.
    cbn in Ht. lia.
  - by apply main_turn_size.
  - unfold world_size, rest_size. cbn. rewrite Epc. cbn. lia.
  - unfold world_size at 2. rewrite Epc. pose proof (main_finally_size (Raise e) w). cbn. lia.
  - unfold world_size at 2. rewrite Epc. pose proof (main_finally_size (Ret ()) w). cbn. lia.
Qed.

Lemma life_sn w : life_ok w → sn (step waits cfg) w.
Proof.
  remember (world_size w) as n eqn:En. revert w En. induction n as [n IH] using lt_wf_ind. intros w -> Hw.
  constructor. intros w' Hstep. eapply IH; [by eapply step_size|done|by eapply step_ok].
Qed.

(** ** Progress *)

Definition stopping (w : World) : Prop := Forall (λ s, sv_stop s = true) (w_servers w).

(** The task awaits the end of its clients' connections. *)
Definition awaits_clients (s : Srv) : Prop :=
  waits = true ∧ sv_cancel s = false ∧ (∃ r, sv_pc s = RClosing r) ∧ 0 < sv_conns s.

Lemma server_progress w i s :
  w_servers w !! i = Some s → sv_stop s = true → srv_done s = false → (∃ w', step waits cfg w w') ∨ awaits_clients s.
Proof.
  intros Hi Hst Hd.
  assert (∀ s' net, run_turn s (w_net w) = Some (s', net) → ∃ w', step waits cfg w w') as Hturn.
  { intros s' net Hr. eexists. by eapply step_turn. }
  unfold run_turn in Hturn. rewrite Hst in Hturn. unfold srv_done in Hd.
  destruct (sv_cancel s) eqn:Ec, (sv_pc s) as [| | |r|r] eqn:Ep; try done; try (left; by eapply Hturn);
    try (left; eapply Hturn; f_equal; apply surjective_pairing).
  - left. destruct (run_opened (Raise OtherException) s (w_net w)) as [[s' net]|] eqn:Er.
    + eexists. by eapply step_opened.
    + unfold run_opened in Er. by rewrite Ep, Ec in Er.
  - destruct (run_closed waits s) as [s'|] eqn:Er.
    + left. eexists. by eapply step_closed.
    + right. unfold run_closed in Er. rewrite Ep, Ec in Er. unfold awaits_clients. rewrite Ep, Ec.
      destruct waits; [|done]. destruct (0 <? sv_conns s) eqn:E; [|done].
      apply Nat.ltb_lt in E. split; [done|]. split; [done|]. by split; [eexists|].
Qed.

(** What steps of the servers, [stop] and [cancel] keep, every step keeps. *)
Lemma servers_step (P : Srv → Prop) w w' :
  (∀ s, P s → P (stop s)) → (∀ s, P s → P (cancel_task s)) →
  (∀ s net s' net', run_turn s net = Some (s', net') → P s → P s') →
  (∀ r s net s' net', run_opened r s net = Some (s', net') → r ≠ Raise CancelledError → P s → P s') →
  (∀ s s', run_closed waits s = Some s' → P s → P s') →
  Forall P (w_servers w) → step waits cfg w w' → Forall P (w_servers w').
Proof.
  intros Hst Hca Htu Hop Hcl Hw Hstep.
  assert (∀ i s s', w_servers w !! i = Some s → (P s → P s') → Forall P (<[i := s']> (w_servers w))) as Hins.
  { intros i s s' Hi HP. apply Forall_insert; [done|]. apply HP. exact (Forall_lookup_1 _ _ _ _ Hw Hi). }
  assert (∀ i r w, Forall P (w_servers w) → Forall P (w_servers (next_server i r w))) as Hnext.
  { intros i r w0 Hw0. unfold next_server. destruct (list_find _ _) as [[j s]|]; cbn; [|done].
    apply Forall_alter; [done|]. intros s1 _ H1. by apply Hca. }
  assert (∀ r w, Forall P (w_servers w) → Forall P (w_servers (stop_servers r w))) as Hstop.
  { intros r w0 Hw0. apply Hnext. cbn. apply Forall_fmap. eapply Forall_impl; [exact Hw0|]. exact Hst. }
  assert (∀ r w, Forall P (w_servers w) → Forall P (w_servers (stop_refresh_tasks r w))) as Href.
  { intros r w0 Hw0. unfold stop_refresh_tasks. destruct (_ && _); [done|by apply Hstop]. }
  assert (∀ r w, Forall P (w_servers w) → Forall P (w_servers (main_finally r w))) as Hfin.
  { intros r w0 Hw0. unfold main_finally. destruct (w_reporter w0); [done|by apply Href]. }
  assert (∀ i r w, Forall P (w_servers w) → Forall P (w_servers (after_ready cfg i r w))) as Hready.
  { intros i [[]|e] w0 Hw0; cbn [after_ready]; [|by apply Hfin]. destruct (_ <? _); [exact Hw0|].
    unfold started. destruct (start_refresh_tasks cfg (w_refresh w0)). exact Hw0. }
  destruct Hstep as [i s s' net Hi Hrun|i s r s' net Hi Hrun Hr|i s s' Hi Hrun|Hrep|k Hk|w' Hrun|i s r Epc Hi Hp|
                     i s e Epc Hi Hp|Epc Hall]; try done; try (by apply Hfin); try (eapply Hins; [done|by eauto]).
  unfold main_turn in Hrun. destruct (w_pc w) as [i|i r| |r|k r|i r|r|r]; simplify_eq; try done.
  - destruct (w_servers w !! i); [|done]. cbn in Hrun. destruct (sv_ready _); simplify_eq. by apply Hready.
  - by apply Hready.
  - destruct (w_reporter w) as [[]|]; simplify_eq. by apply Href.
  - destruct (w_refresh w !! k) as [[]|]; simplify_eq. destruct (_ <? _); [done|]. by apply Hstop.
  - destruct (w_servers w !! i) as [s|]; [|done]. cbn in Hrun.
    destruct (sv_pc s) as [| | |?|[|[]]]; simplify_eq; try done; by apply Hnext.
Qed.

Lemma stopping_step w w' : stopping w → step waits cfg w w' → stopping w'.
Proof.
  apply servers_step; [done| |intros ???? ? ?; by eapply run_turn_evolves|
    intros ????? ? ? ?; by eapply run_opened_evolves|intros ?? ? ?; by eapply run_closed_evolves].
  intros s Hs. unfold cancel_task. by destruct (srv_done s).
Qed.

(** No client is connected. *)
Definition unconnected (w : World) : Prop := Forall (λ s, sv_conns s = 0) (w_servers w).

Lemma run_finally_conns r s net : sv_conns (run_finally r s net).1 = sv_conns s.
Proof. unfold run_finally. by destruct (sv_kind s). Qed.

Lemma unconnected_step w w' : unconnected w → step waits cfg w w' → unconnected w'.
Proof.
  apply servers_step; [done|intros s Hs; unfold cancel_task; by destruct (srv_done s)|..].
  - intros s net s' net' Hrun Hs. rewrite <- Hs. unfold run_turn in Hrun.
    pose proof (λ r, run_finally_conns r s net) as Hf.
    destruct (sv_cancel s), (sv_pc s); try destruct (sv_stop s); simplify_eq; try done;
      match type of Hrun with run_finally ?r _ _ = _ => specialize (Hf r); by rewrite Hrun in Hf end.
  - intros r s net s' net' Hrun _ Hs. rewrite <- Hs. unfold run_opened in Hrun.
    destruct (sv_pc s); try done. destruct (sv_cancel s); [done|]. destruct r as [[]|e]; [|by simplify_eq].
    match type of Hrun with (if ?b then Some (run_finally ?r ?s1 ?n) else _) = _ =>
      pose proof (run_finally_conns r s1 n) as Hf; destruct b; [|by simplify_eq] end.
    apply (f_equal (from_option fst s)) in Hrun. cbn [from_option fst] in Hrun. rewrite <- Hrun. exact Hf.
  - intros s s' Hrun Hs. rewrite <- Hs. unfold run_closed in Hrun. repeat case_match; by simplify_eq.
Qed.

Lemma progress w : life_ok w → stopping w →
  (∃ w', step waits cfg w w') ∨ (∃ r, w_pc w = MDone r) ∨ ∃ s, s ∈ w_servers w ∧ awaits_clients s.
Proof.
  intros [Hb Hpc] Hst.
  assert (∀ i s, w_servers w !! i = Some s → srv_done s = false →
    (∃ w', step waits cfg w w') ∨ ∃ s, s ∈ w_servers w ∧ awaits_clients s) as Hsrv.
  { intros i s Hi Hd. destruct (server_progress w i s Hi (Forall_lookup_1 _ _ _ _ Hst Hi) Hd) as [|Ha]; [by left|].
    right. exists s. split; [by eapply list_elem_of_lookup_2|done]. }
  assert (∀ w', main_turn cfg w = Some w' → ∃ w', step waits cfg w w') as Hmain.
  { intros w' Hw'. eexists. by apply step_main. }
  assert (∀ (A B C : Prop), A ∨ C → A ∨ B ∨ C) as Hor by tauto.
  unfold main_turn in Hmain. unfold pc_ok in Hpc. destruct (w_pc w) as [i|i r| |r|k r|i r|r|r] eqn:Epc.
  - destruct Hpc as (Hi & _). apply lookup_lt_is_Some in Hi as [s Hs].
    destruct (srv_done s) eqn:Ed; [|apply Hor; by eapply Hsrv]. unfold srv_done in Ed. destruct (sv_pc s) eqn:Ep; try done.
    left. eexists. by eapply step_reap.
  - left. by eapply Hmain.
  - destruct (list_find (λ s, srv_done s = false) (w_servers w)) as [[i s]|] eqn:Ef.
    { apply list_find_Some in Ef as (Hi & Hd & _). apply Hor. by eapply Hsrv. }
    left. destruct (list_find (λ s, sv_pc s ≠ RDone (Ret ())) (w_servers w)) as [[i s]|] eqn:Eg.
    + apply list_find_Some in Eg as (Hi & Hne & _). apply list_find_None in Ef.
      pose proof (Forall_lookup_1 _ _ _ _ Ef Hi) as Hd. cbn in Hd. unfold srv_done in Hd.
      destruct (sv_pc s) as [| | |?|[[]|e]] eqn:Ep; try done. eexists. by eapply step_gather_raise.
    + apply list_find_None in Eg. eexists. apply step_gather; [done|]. eapply Forall_impl; [exact Eg|].
      intros s Hs. by apply dec_stable.
  - left. destruct Hpc as (_ & (b & Hrep & Hnr) & _). rewrite Hrep in Hmain.
    destruct b; [done|eexists; by apply step_reporter|by eapply Hmain].
  - left. destruct Hpc as (_ & _ & Hk & Hnr & _). apply lookup_lt_is_Some in Hk as [b Hk]. rewrite Hk in Hmain.
    pose proof (Forall_lookup_1 _ _ _ _ Hnr Hk) as Hb'. destruct b; [done|eexists; by eapply step_refresh|].
    by eapply Hmain.
  - destruct Hpc as (_ & _ & _ & _ & _ & s & Hs & _). rewrite Hs in Hmain. cbn in Hmain.
    destruct (srv_done s) eqn:Ed; [|apply Hor; by eapply Hsrv]. unfold srv_done in Ed. left.
    destruct (sv_pc s) as [| | |?|[|[]]]; try done; by eapply Hmain.
  - left. by eapply Hmain.
  - right. left. by exists r.
Qed.

(** Where no step is left. *)
Lemma stuck w w' : life_ok w → stopping w → rtc (step waits cfg) w w' → nf (step waits cfg) w' →
  (∃ r, w_pc w' = MDone r) ∨ ∃ s, s ∈ w_servers w' ∧ awaits_clients s.
Proof.
  intros Hok Hst Hrun Hnf. induction Hrun as [w|w w1 w2 Hstep _ IH].
  - destruct (progress w Hok Hst) as [Hred|?]; [by destruct Hnf|done].
  - apply IH; [by eapply step_ok|by eapply stopping_step|done].
Qed.
End termination.

(** ** A scheduler

    One of the runs [step] allows, computed: [_run] goes first, then the
    servers in order, then the background tasks; [opens] are the outcomes of
    the creation of the sockets. *)

Section scheduler.
Context `{Dnslib} (waits : bool) (cfg : HandlerConfig) (opens : server_kind → option exn).

Definition open_result (k : server_kind) : res unit :=
  match opens k with
  | Some CancelledError | None => Ret ()
  | Some e => Raise e
  end.

Definition server_turn (w : World) (i : nat) : option World :=
  s ← w_servers w !! i;
  match run_turn s (w_net w), run_opened (open_result (sv_kind s)) s (w_net w), run_closed waits s with
  | Some (s', net), _, _ | None, Some (s', net), _ => Some (with_servers (<[i := s']> (w_servers w)) net w)
  | None, None, Some s' => Some (with_servers (<[i := s']> (w_servers w)) (w_net w) w)
  | None, None, None => None
  end.

Definition reap_turn (w : World) : option World :=
  match w_pc w with
  | MReady i =>
      s ← w_servers w !! i;
      match sv_pc s with RDone r => Some (at_pc (MReap i r) w) | _ => None end
  | MGather =>
      match list_find (λ s, sv_pc s ≠ RDone (Ret ())) (w_servers w) with
      | None => Some (main_finally (Ret ()) w)
      | Some (_, s) => match sv_pc s with RDone (Raise e) => Some (main_finally (Raise e) w) | _ => None end
      end
  | _ => None
  end.

Definition bg_turn (w : World) : option World :=
  match w_reporter w with
  | Some BCancelled => Some (with_reporter (Some BDone) w)
  | _ =>
      p ← list_find (λ b, bg_size b = 1) (w_refresh w);
      Some (with_refresh (<[p.1 := BDone]> (w_refresh w)) w)
  end.

Definition first_some {A} (l : list (option A)) : option A := head (omap id l).

Definition sched_step (w : World) : option World :=
  first_some (main_turn cfg w :: reap_turn w :: (server_turn w <$> seq 0 (length (w_servers w))) ++ [bg_turn w]).

Fixpoint sched (fuel : nat) (w : World) : World :=
  match fuel with
  | 0 => w
  | S fuel => match sched_step w with Some w' => sched fuel w' | None => w end
  end.

Lemma server_turn_step w i w' : server_turn w i = Some w' → step waits cfg w w'.
Proof.
  unfold server_turn. destruct (w_servers w !! i) as [s|] eqn:Es; [|done]. cbn.
  destruct (run_turn s (w_net w)) as [[s' net]|] eqn:Et; [intros [= <-]; by eapply step_turn|].
  destruct (run_opened _ s (w_net w)) as [[s' net]|] eqn:Eo.
  { intros [= <-]. eapply step_opened; [done|done|]. unfold open_result. destruct (opens (sv_kind s)) as [[]|]; done. }
  destruct (run_closed waits s) as [s'|] eqn:Ec; [|done]. intros [= <-]. by eapply step_closed.
Qed.

Lemma reap_turn_step w w' : reap_turn w = Some w' → step waits cfg w w'.
Proof.
  unfold reap_turn. destruct (w_pc w) as [i|i r| |r|k r|i r|r|r] eqn:Epc; try done.
  - destruct (w_servers w !! i) as [s|] eqn:Es; [|done]. cbn. destruct (sv_pc s) eqn:Ep; try done.
    intros [= <-]. by eapply step_reap.
  - destruct (list_find _ _) as [[i s]|] eqn:Ef.
    + apply list_find_Some in Ef as (Hi & _). destruct (sv_pc s) as [| | |?|[|e]] eqn:Ep; try done.
      intros [= <-]. by eapply step_gather_raise.
    + intros [= <-]. apply list_find_None in Ef. apply step_gather; [done|]. eapply Forall_impl; [exact Ef|].
      intros s Hs. by apply dec_stable.
Qed.

Lemma bg_turn_step w w' : bg_turn w = Some w' → step waits cfg w w'.
Proof.
  unfold bg_turn. intros Hb.
  assert ((p ← list_find (λ b, bg_size b = 1) (w_refresh w); Some (with_refresh (<[p.1 := BDone]> (w_refresh w)) w)) = Some w'
          → step waits cfg w w') as Href.
  { destruct (list_find _ _) as [[k b]|] eqn:Ef; [|done]. cbn. intros [= <-].
    apply list_find_Some in Ef as (Hk & Hs & _). destruct b; try done. by apply step_refresh. }
  destruct (w_reporter w) as [[]|] eqn:Er; try (by apply Href). simplify_eq. by apply step_reporter.
Qed.

Lemma sched_step_step w w' : sched_step w = Some w' → step waits cfg w w'.
Proof.
  intros Hs. assert (Some w' ∈ main_turn cfg w :: reap_turn w :: (server_turn w <$> seq 0 (length (w_servers w))) ++ [bg_turn w]) as Hin.
  { unfold sched_step, first_some in Hs. apply head_Some_elem_of, list_elem_of_omap in Hs as (o & Ho & E).
    cbn in E. by rewrite E in Ho. }
  rewrite !elem_of_cons, elem_of_app, list_elem_of_fmap, list_elem_of_singleton in Hin.
  destruct Hin as [E|[E|[(i & E & _)|E]]]; symmetry in E.
  - by apply step_main.
  - by apply reap_turn_step.
  - by eapply server_turn_step.
  - by apply bg_turn_step.
Qed.

Lemma sched_steps n w : rtc (step waits cfg) w (sched n w).
Proof.
  revert w. induction n as [|n IH]; intros w; [done|]. cbn. destruct (sched_step w) as [w'|] eqn:E; [|done].
  eapply rtc_l; [by apply sched_step_step|apply IH].
Qed.
End scheduler.

Section run.
Context `{Dnslib} (waits : bool) (cfg : Config.Config).
Definition run_step : World → World → Prop :=
  life_step waits (udp_server_config cfg) (tcp_server_config cfg) (handler_config cfg).

Lemma steps_run w w' : rtc (step waits (handler_config cfg)) w w' → rtc run_step w w'.
Proof. intros Hr. eapply (rtc_congruence id); [|exact Hr]. intros x y Hxy. by left. Qed.
End run.

Module lifecycle_example.
Definition cfg : Config.Config :=
  Config.build_config (Config.mkNamespace "127.0.0.1" 5353 256 "127.0.0.1" 9100 "tcp" "1.1.1.1" 53 (float_of_Z 2) 300 60 false
    None 1 None "off" 32 65536 4096 262144 true 30 5 0 500 50 2 1024 false None 200).
Definition net : SrvSt :=
  mkSrvSt (handler_new (Some metrics_new)) false ∅ ∅ 0 [] [].
Definition handlers := _register_signal_handlers (λ _, true) true.
Definition w0 : World := run_begin cfg net (Some metrics_new) handlers.
Definition w_up : World := sched true (handler_config cfg) (λ _, None) 30 w0.
Definition w_stop : World := with_servers (stop <$> w_servers w_up) (w_net w_up) w_up.
Definition w_end : World := sched true (handler_config cfg) (λ _, None) 40 w_stop.
(** A client is connected to the TCP server when it stops. *)
Definition w_client : World :=
  with_servers (stop <$> alter (set_conns 1) 1 (w_servers w_up)) (w_net w_up) w_up.
Definition w_fail : World :=
  sched true (handler_config cfg) (λ k, match k with KTcp => Some OtherException | _ => None end) 40 w0.
End lifecycle_example.

Lemma step_ready `{Dnslib} waits cfg w w' :
  run_step waits cfg w w' → is_ready (w_ready w) = true → is_ready (w_ready w') = true.
Proof.
  assert (∀ i r w, w_ready (next_server i r w) = w_ready w) as Hnext.
  { intros i r w0. unfold next_server. by destruct (list_find _ _) as [[]|]. }
  assert (∀ r w, w_ready (stop_servers r w) = w_ready w) as Hstop.
  { intros r w0. unfold stop_servers. by rewrite Hnext. }
  assert (∀ r w, w_ready (stop_refresh_tasks r w) = w_ready w) as Href.
  { intros r w0. unfold stop_refresh_tasks. destruct (_ && _); [done|apply Hstop]. }
  assert (∀ r w, w_ready (main_finally r w) = w_ready w) as Hfin.
  { intros r w0. unfold main_finally. destruct (w_reporter w0); [done|apply Href]. }
  assert (∀ i r w, is_ready (w_ready w) = true → is_ready (w_ready (after_ready (handler_config cfg) i r w)) = true) as Hready.
  { intros i [[]|e] w0 Hw0; cbn [after_ready]; [|by rewrite Hfin]. destruct (_ <? _); [exact Hw0|].
    unfold started. by destruct (start_refresh_tasks _ _). }
  intros [Hstep|Hext] Hr; [|by destruct Hext].
  destruct Hstep as [i s s' net Hi Hrun|i s r s' net Hi Hrun Hc|i s s' Hi Hrun|Hrep|k Hk|w' Hrun|i s r Epc Hi Hp|
                     i s e Epc Hi Hp|Epc Hall]; try done; try (by rewrite Hfin).
  unfold main_turn in Hrun. destruct (w_pc w) as [i|i r| |r|k r|i r|r|r]; simplify_eq; try done.
  - destruct (w_servers w !! i); [|done]. cbn in Hrun. destruct (sv_ready _); simplify_eq. by apply Hready.
  - by apply Hready.
  - destruct (w_reporter w) as [[]|]; simplify_eq. by rewrite Href.
  - destruct (w_refresh w !! k) as [[]|]; simplify_eq. destruct (_ <? _); [done|]. by rewrite Hstop.
  - destruct (w_servers w !! i) as [s|]; [|done]. cbn in Hrun.
    destruct (sv_pc s) as [| | |?|[|[]]]; simplify_eq; try done; by rewrite Hnext.
Qed.

(** C17: Readiness: over every interleaving of start-up, signals and requests,
    the ready state (what [/readyz] reports) is set only when the UDP, the TCP
    and, if configured, the metrics server have all opened their sockets, and
    whatever happens after that, the shutdown included, it stays set. *)
Theorem ready_only_when_listening `{Dnslib} (waits : bool) (cfg : Config.Config) (net : SrvSt) (m : option Metrics)
    (handlers : list (signal * sig_action)) (w : World) :
  udp_inflight net = ∅ → rtc (run_step waits cfg) (run_begin cfg net m handlers) w → is_ready (w_ready w) = true →
  Forall (λ s, sv_open s = true ∧ sv_ready s = true) (w_servers w)
  ∧ ∀ w', rtc (run_step waits cfg) w w' → is_ready (w_ready w') = true.
Proof.
  intros Hnet Hr Hready. destruct (reachable_life_ok _ _ _ _ _ _ _ _ _ Hnet Hr) as [[Hs _ _ Ho] _]. split.
  - specialize (Ho Hready). apply Forall_lookup. intros i s Hi.
    pose proof (Forall_lookup_1 _ _ _ _ Hs Hi) as [Hrd _ _ _]. pose proof (Forall_lookup_1 _ _ _ _ Ho Hi) as Hopen.
    cbn in Hopen. by rewrite Hrd, Hopen.
  - intros w' Hw'. clear Hr Hs Ho. induction Hw' as [|w w1 w2 Hstep _ IH]; [done|]. apply IH. by eapply step_ready.
Qed.

Lemma ready_only_when_listening_witness :
  is_ready (w_ready lifecycle_example.w_up) = true
  ∧ Forall (λ s, sv_open s = true ∧ sv_ready s = true) (w_servers lifecycle_example.w_up).
Proof.
  split; [vm_compute; reflexivity|].
  apply (ready_only_when_listening true lifecycle_example.cfg lifecycle_example.net (Some metrics_new)
    lifecycle_example.handlers).
  - reflexivity.
  - apply steps_run, sched_steps.
  - vm_compute. reflexivity.
Defined.

(** C15: A run leaves nothing behind: whenever [_run] has ended, over every
    interleaving, every server's task is done and every socket that was opened
    is closed, no UDP request is in flight, the reporter and the refresh tasks
    are gone and the upstream forwarder is closed; it ended without error
    exactly when every server had opened its socket and returned, and with an
    exception only if it is the one with which some server failed to open its
    socket. *)
Theorem run_releases_everything `{Dnslib} (waits : bool) (cfg : Config.Config) (net : SrvSt) (m : option Metrics)
    (handlers : list (signal * sig_action)) (w : World) (r : res unit) :
  udp_inflight net = ∅ → rtc (run_step waits cfg) (run_begin cfg net m handlers) w → w_pc w = MDone r →
  Forall (λ s, srv_done s = true ∧ (sv_open s = true → sv_closed s = true)) (w_servers w)
  ∧ ((∃ s, s ∈ w_servers w ∧ sv_kind s = KUdp) → udp_inflight (w_net w) = ∅)
  ∧ reporter_off (w_reporter w) ∧ w_refresh w = [] ∧ forwarder_closed (w_up w) = true
  ∧ match r with
    | Ret _ => Forall (λ s, sv_pc s = RDone (Ret ()) ∧ sv_open s = true) (w_servers w)
    | Raise e => ∃ s, s ∈ w_servers w ∧ sv_pc s = RDone (Raise e) ∧ sv_open s = false
    end.
Proof.
  intros Hnet Hr Hpc. destruct (reachable_life_ok _ _ _ _ _ _ _ _ _ Hnet Hr) as [[Hs _ Hu _] Hok].
  unfold pc_ok in Hok. rewrite Hpc in Hok. destruct Hok as (Hx & Hoff & Hnil & _ & Hd & Hc).
  assert (∀ s, s ∈ w_servers w → srv_done s = true) as Hdone.
  { intros s [i Hi]%list_elem_of_lookup. eapply Hd; [|exact Hi]. by eapply lookup_lt_Some. }
  split.
  { apply Forall_forall. intros s Hin. split; [by apply Hdone|]. rewrite Forall_forall in Hs.
    destruct (Hs s Hin) as [_ _ Hp _]. specialize (Hdone s Hin). unfold srv_done in Hdone.
    destruct (sv_pc s) as [| | |?|[|e]]; try done; tauto. }
  split.
  { intros (s & Hin & Hk). rewrite Forall_forall in Hu. apply (Hu s Hin Hk). right. by apply Hdone. }
  do 3 (split; [done|]). destruct r as [[]|e]; [|done]. cbn in Hx. rewrite !Forall_forall in *.
  intros s Hin. specialize (Hx s Hin). split; [done|]. destruct (Hs s Hin) as [_ _ Hp _]. rewrite Hx in Hp. by destruct Hp.
Qed.

Lemma run_releases_everything_witness :
  w_pc lifecycle_example.w_fail = MDone (Raise OtherException)
  ∧ forwarder_closed (w_up lifecycle_example.w_fail) = true
  ∧ Forall (λ s, srv_done s = true ∧ (sv_open s = true → sv_closed s = true)) (w_servers lifecycle_example.w_fail).
Proof.
  split; [vm_compute; reflexivity|].
  destruct (run_releases_everything true lifecycle_example.cfg lifecycle_example.net (Some metrics_new)
    lifecycle_example.handlers lifecycle_example.w_fail (Raise OtherException)) as (H1 & _ & _ & _ & H2 & _).
  - reflexivity.
  - apply steps_run, sched_steps.
  - vm_compute. reflexivity.
  - exact (conj H2 H1).
Defined.

(** C16: The process stops: from any state it can reach, once the servers were
    told to stop (a signal during start-up, serving or shutdown), every run of
    the event loop is finite, and where no step is left [_run] has ended, or,
    from Python 3.12 on, where [wait_closed()] waits for connections, a server
    that has closed its socket awaits a client that is still connected.  So
    without connected clients, or before Python 3.12, no order of the steps can
    make it hang. *)
Theorem shutdown_terminates `{Dnslib} (waits : bool) (cfg : Config.Config) (net : SrvSt) (m : option Metrics)
    (handlers : list (signal * sig_action)) (w : World) :
  udp_inflight net = ∅ → rtc (run_step waits cfg) (run_begin cfg net m handlers) w → stopping w →
  let loop := step waits (handler_config cfg) in
  sn loop w
  ∧ (∀ w', rtc loop w w' → nf loop w' →
       (∃ r, w_pc w' = MDone r)
       ∨ waits = true ∧ ∃ s r, s ∈ w_servers w' ∧ sv_pc s = RClosing r ∧ sv_closed s = true ∧ 0 < sv_conns s)
  ∧ (waits = false ∨ unconnected w → ∀ w', rtc loop w w' → nf loop w' → ∃ r, w_pc w' = MDone r).
Proof.
  intros Hnet Hr Hst loop. pose proof (reachable_life_ok _ _ _ _ _ _ _ _ _ Hnet Hr) as Hok.
  split; [by apply life_sn|]. split.
  - intros w' Hrun Hnf. destruct (stuck waits _ w w' Hok Hst Hrun Hnf) as [?|(s & Hs & Hw & _ & [r Hp] & Hc)]; [by left|].
    right. split; [done|]. exists s, r. split; [done|]. split; [done|]. split; [|done].
    assert (life_ok w') as [[Hso _ _ _] _].
    { clear -Hok Hrun. induction Hrun as [|w w1 w2 Hstep _ IH]; [done|]. apply IH. by eapply step_ok. }
    rewrite Forall_forall in Hso. destruct (Hso s Hs) as [_ _ Hpp _]. rewrite Hp in Hpp. apply Hpp.
  - intros Hno w' Hrun Hnf. destruct (stuck waits _ w w' Hok Hst Hrun Hnf) as [?|(s & Hs & Hw & _ & _ & Hc)]; [done|].
    destruct Hno as [?|Hno]; [congruence|]. assert (unconnected w') as Hno'.
    { clear -Hno Hrun. induction Hrun as [|w w1 w2 Hstep _ IH]; [done|]. apply IH. by eapply unconnected_step. }
    unfold unconnected in Hno'. rewrite Forall_forall in Hno'. specialize (Hno' s Hs). cbn in Hno'. lia.
Qed.

Lemma shutdown_terminates_witness :
  stopping lifecycle_example.w_stop ∧ unconnected lifecycle_example.w_stop
  ∧ sn (step true (handler_config lifecycle_example.cfg)) lifecycle_example.w_stop
  ∧ w_pc lifecycle_example.w_end = MDone (Ret ()).
Proof.
  assert (stopping lifecycle_example.w_stop) as Hst by (apply Forall_fmap, Forall_true; done).
  split; [done|]. split; [refine (bool_decide_unpack _ _); vm_compute; exact I|]. split; [|vm_compute; reflexivity].
  destruct (shutdown_terminates true lifecycle_example.cfg lifecycle_example.net (Some metrics_new)
    lifecycle_example.handlers lifecycle_example.w_stop) as [Hsn _].
  - reflexivity.
  - apply (rtc_r _ lifecycle_example.w_up); [apply steps_run, sched_steps|]. right.
    assert ((SIGTERM, StopAll) ∈ w_handlers lifecycle_example.w_up) as Hin.
    { assert (w_handlers lifecycle_example.w_up = lifecycle_example.handlers) as -> by (vm_compute; reflexivity).
      right. left. }
    exact (ext_stop _ _ _ lifecycle_example.w_up SIGTERM Hin).
  - done.
  - exact Hsn.
Defined.

(** With a client connected to the TCP server the run ends where
    [wait_closed()] returns at once, and waits for the client otherwise. *)
Lemma shutdown_awaits_client :
  w_pc (sched false (handler_config lifecycle_example.cfg) (λ _, None) 40 lifecycle_example.w_client) = MDone (Ret ())
  ∧ w_pc (sched true (handler_config lifecycle_example.cfg) (λ _, None) 40 lifecycle_example.w_client) = MGather.
Proof. vm_compute. done. Qed.
