(* ===== verification/DnsCheck.v ===== *)
(** * The dns-check tool ([tools/dns-check/dns_check.py])

    The tool's command line, one query over UDP and the report of [repeat] of
    them.  The network is an argument: what [socket], [sendto] and [recvfrom] do
    for the query of each round, and how long the exchange took. *)
From S2P Require Import Prelude PyFloat PyString Dns Http Config Argparse ArgNumbers ArgparseProps.
From stdpp Require Import base list strings gmap sets pretty.

(** ** The command line *)

#[export] Instance tool_parser : Parser := mkParser
  [ mkAction ["-h"; "--help"] Help VNone;
    mkAction ["-t"; "--type"] (Store AStr None) (VStr "A");
    str_opt "--server" (Some "127.0.0.1");
    int_opt "--port" 5353;
    int_opt "--repeat" 1;
    opt "--timeout" AFloat None (VFloat (float_of_Z 2)) ]
  (Some "name").

#[export] Instance tool_parser_laws : ParserLaws.
Proof.
  split.
  - intros a [->|Ha]%elem_of_cons Hk; [by destruct Hk|done].
  - refine (bool_decide_unpack _ _). vm_compute. exact I.
  - intros p Hp. injection Hp as <-. refine (bool_decide_unpack _ _). vm_compute. exact I.
  - refine (bool_decide_unpack _ _). vm_compute. exact I.
  - vm_compute. reflexivity.
  - cbn [parser tool_parser List.tail].
    defaults_ok.
Qed.

(** What the socket does in one round. *)
Record net_round := mkRound {
  x_socket : res ();
  x_sendto : res ();
  x_recvfrom : res bytes;
  x_elapsed : Z;                     (** nanoseconds *)
}.

(** What [main] prints, and the sockets it opened and closed. *)
Record Tool := mkTool { printed : list string; opened : nat; closed : nat }.

Record tool_args := mkToolArgs {
  arg_name : string; arg_type : string; arg_server : string; arg_port : Z; arg_repeat : Z;
  arg_timeout : float;
}.

(** [args]; [None] when an attribute is missing or has another type. *)
Definition tool_args_of (ns : namespace) : option tool_args :=
  name ← str_attr ns "name";
  type ← str_attr ns "type";
  server ← str_attr ns "server";
  port ← int_attr ns "port";
  repeat ← int_attr ns "repeat";
  timeout ← float_attr ns "timeout";
  Some (mkToolArgs name type server port repeat timeout).

(** ** The report *)

Definition print (l : string) : M Tool () := modify (λ s, mkTool (printed s ++ [l]) (opened s) (closed s)).
Definition open_socket : M Tool () := modify (λ s, mkTool (printed s) (S (opened s)) (closed s)).
Definition close_socket : M Tool () := modify (λ s, mkTool (printed s) (opened s) (S (closed s))).

(** [f"{x:7.2f}"] for [x] milliseconds given as [ns] nanoseconds, not
    negative: rounded to hundredths, a tie to the even one, and padded on the
    left. *)
Definition format_7_2f (ns : Z) : string :=
  let q := (ns / 10000)%Z in
  let r := (ns mod 10000)%Z in
  let h := if (r <? 5000)%Z then q
           else if (5000 <? r)%Z then (q + 1)%Z
           else if Z.even q then q else (q + 1)%Z in
  let s := pretty (h / 100)%Z +:+ "." +:+ unchars [digit_char (h / 10 mod 10); digit_char (h mod 10)] in
  unchars (replicate (7 - length (chars s)) (Ascii.ascii_of_nat 32)) +:+ s.

Section tool.
Context `{Dnslib}.
(** The text of an exception other than [ValueError]. *)
Context (exn_str : exn → string).

Definition str_of (e : exn) : string := match e with ValueError msg => msg | _ => exn_str e end.

(** [net] is the network, on the server, the port and the packed query. *)
Definition send_query (net : string → Z → bytes → net_round) (server : string) (port : Z)
    (name qtype : string) (timeout : float) : M Tool (Z * DNSRecord) :=
  query ← lift_opt (dns_question name qtype "IN") (ValueError ("Unknown query type: " +:+ qtype));
  wire ← lift_opt (dns_pack query) OtherException;
  let x := net server port wire in
  lift_res (x_socket x);;
  open_socket;;
  lift_res (settimeout timeout);;
  lift_res (x_sendto x);;
  data ← lift_res (x_recvfrom x);
  close_socket;;
  response ← lift_opt (dns_parse data) OtherException;
  mret (x_elapsed x, response).

Definition report_line (i : nat) (elapsed : Z) (response : DNSRecord) : string :=
  "[" +:+ pretty (Z.of_nat (S i)) +:+ "] " +:+ format_7_2f elapsed +:+ " ms | rcode=" +:+ pretty (hdr_rcode response)
  +:+ " | answers=" +:+ pretty (Z.of_nat (length (rrs response))).
Definition error_line (i : nat) (e : exn) : string :=
  "[" +:+ pretty (Z.of_nat (S i)) +:+ "] ERROR: " +:+ str_of e.

Definition check_round (net : string → Z → bytes → net_round) (a : tool_args) (i : nat) : M Tool () :=
  try_except
    (p ← send_query net (arg_server a) (arg_port a) (arg_name a) (upper (arg_type a)) (arg_timeout a);
     print (report_line i p.1 p.2))
    is_Exception (λ e, print (error_line i e)).

(** Rounds [i] to [i + n - 1]; [nets] is the network in each round. *)
Fixpoint check_rounds (nets : nat → string → Z → bytes → net_round) (a : tool_args) (i n : nat) : M Tool () :=
  match n with
  | O => mret ()
  | S n => check_round (nets i) a i;; check_rounds nets a (S i) n
  end.

Definition header_lines (a : tool_args) : list string :=
  [ "DNS check → " +:+ arg_name a +:+ " (" +:+ upper (arg_type a) +:+ ")";
    "Server: " +:+ arg_server a +:+ ":" +:+ pretty (arg_port a);
    unchars (replicate 50 (Ascii.ascii_of_nat 45)) ].

(** [main] after [parse_args]. *)
Definition run_checks (nets : nat → string → Z → bytes → net_round) (a : tool_args) : M Tool () :=
  mapM print (header_lines a);;
  check_rounds nets a 0 (Z.to_nat (arg_repeat a)).

(** Reading an attribute that is missing is an [AttributeError]. *)
Definition main (nets : nat → string → Z → bytes → net_round) (argv : list string) : M Tool () :=
  match parse_args argv with
  | Raise e => raise e
  | Ret ns =>
      match tool_args_of ns with
      | None => raise OtherException
      | Some a => run_checks nets a
      end
  end.

(** ** What the report says *)

(** The network raises nothing but exceptions the tool catches. *)
Definition ordinary (x : net_round) : Prop :=
  ∀ e, (x_socket x = Raise e ∨ x_sendto x = Raise e ∨ x_recvfrom x = Raise e) → is_Exception e = true.

(** The query was sent and its answer came back whole. *)
Definition answered (net : string → Z → bytes → net_round) (a : tool_args) (elapsed : Z) (r : DNSRecord) : Prop :=
  ∃ q wire data, dns_question (arg_name a) (upper (arg_type a)) "IN" = Some q ∧ dns_pack q = Some wire
    ∧ settimeout (arg_timeout a) = Ret ()
    ∧ let x := net (arg_server a) (arg_port a) wire in
      x_socket x = Ret () ∧ x_sendto x = Ret () ∧ x_recvfrom x = Ret data ∧ dns_parse data = Some r
      ∧ elapsed = x_elapsed x.

(** A round without an answer. *)
Definition unanswered (net : string → Z → bytes → net_round) (a : tool_args) (e : exn) : Prop :=
  (∀ elapsed r, ¬ answered net a elapsed r) ∧ is_Exception e = true
  ∧ (dns_question (arg_name a) (upper (arg_type a)) "IN" = None →
     e = ValueError ("Unknown query type: " +:+ upper (arg_type a))).

(** The line of one round. *)
Definition line_ok (net : string → Z → bytes → net_round) (a : tool_args) (i : nat) (l : string) : Prop :=
  (∃ elapsed r, answered net a elapsed r ∧ l = report_line i elapsed r)
  ∨ (∃ e, unanswered net a e ∧ l = error_line i e).

Lemma send_query_spec net a s : (∀ w, ordinary (net (arg_server a) (arg_port a) w)) →
  ∃ s' r, send_query net (arg_server a) (arg_port a) (arg_name a) (upper (arg_type a)) (arg_timeout a) s = (s', r)
    ∧ printed s' = printed s
    ∧ match r with
      | Ret p => answered net a p.1 p.2 ∧ opened s' = S (opened s) ∧ closed s' = S (closed s)
      | Raise e => unanswered net a e
      end.
Proof.
  intros Ho. unfold send_query, mbind, M_bind, lift_opt, lift_res, open_socket, close_socket, modify, raise, mret, M_ret.
  assert (∀ e, is_Exception e = true → dns_question (arg_name a) (upper (arg_type a)) "IN" ≠ None →
    (∀ elapsed r, ¬ answered net a elapsed r) → unanswered net a e) as Hun.
  { intros e He Hq Hn. split; [done|]. split; [done|]. intros Hnone. by destruct Hq. }
  destruct (dns_question _ _ _) as [q|] eqn:Eq.
  2:{ eexists _, _. split; [reflexivity|]. split; [done|]. split; [|done].
      intros ?? (? & ? & ? & Hq & _). congruence. }
  destruct (dns_pack q) as [wire|] eqn:Ew.
  2:{ eexists _, _. split; [reflexivity|]. split; [done|]. apply Hun; [done..|]. 
      intros ?? (? & ? & ? & ? & ? & _). congruence. }
  specialize (Ho wire). set (x := net (arg_server a) (arg_port a) wire) in *.
  assert (∀ elapsed r, answered net a elapsed r → ∃ data, settimeout (arg_timeout a) = Ret () ∧ x_socket x = Ret ()
    ∧ x_sendto x = Ret () ∧ x_recvfrom x = Ret data ∧ dns_parse data = Some r) as Hans.
  { intros elapsed r (q' & w' & data & Hq & Hw & Ht & Hx). rewrite Eq in Hq. injection Hq as <-.
    rewrite Ew in Hw. injection Hw as <-. exists data. by destruct Hx as (? & ? & ? & ? & _). }
  destruct (x_socket x) as [[]|e] eqn:Es.
  2:{ eexists _, _. split; [reflexivity|]. split; [done|]. apply Hun; [by apply Ho; left|done|].
      intros ?? (? & ? & ? & _)%Hans. done. }
  destruct (settimeout (arg_timeout a)) as [[]|e] eqn:Et.
  2:{ eexists _, _. split; [reflexivity|]. split; [done|]. apply Hun; [by eapply settimeout_raises|done|].
      intros ?? (? & ? & _)%Hans. done. }
  destruct (x_sendto x) as [[]|e] eqn:Ese.
  2:{ eexists _, _. split; [reflexivity|]. split; [done|]. apply Hun; [by apply Ho; right; left|done|].
      intros ?? (? & ? & ? & ? & _)%Hans. done. }
  destruct (x_recvfrom x) as [data|e] eqn:Er.
  2:{ eexists _, _. split; [reflexivity|]. split; [done|]. apply Hun; [by apply Ho; right; right|done|].
      intros ?? (? & ? & ? & ? & ? & _)%Hans. done. }
  destruct (dns_parse data) as [r|] eqn:Ep.
  2:{ eexists _, _. split; [reflexivity|]. split; [done|]. apply Hun; [done..|].
      intros ?? (? & ? & ? & ? & ? & ?)%Hans. simplify_eq. }
  eexists _, _. split; [reflexivity|]. split; [done|]. split; [|done]. by exists q, wire, data.
Qed.

Lemma check_round_spec net a i s : (∀ w, ordinary (net (arg_server a) (arg_port a) w)) →
  ∃ s' l, check_round net a i s = (s', Ret ()) ∧ printed s' = printed s ++ [l] ∧ line_ok net a i l.
Proof.
  intros Ho. destruct (send_query_spec net a s Ho) as (s1 & r & E & Hp & Hr).
  unfold check_round, try_except, mbind, M_bind. rewrite E. destruct r as [[elapsed r]|e].
  - destruct Hr as [Ha _]. eexists _, _. split; [reflexivity|]. cbn. rewrite Hp. split; [done|]. left. by exists elapsed, r.
  - assert (is_Exception e = true) as -> by apply Hr. eexists _, _. split; [reflexivity|]. cbn. rewrite Hp.
    split; [done|]. right. by exists e.
Qed.

Lemma check_rounds_spec nets a n : (∀ j w, ordinary (nets j (arg_server a) (arg_port a) w)) → ∀ i s,
  ∃ s' ls, check_rounds nets a i n s = (s', Ret ()) ∧ printed s' = printed s ++ ls ∧ length ls = n
    ∧ ∀ j l, ls !! j = Some l → line_ok (nets (i + j)) a (i + j) l.
Proof.
  intros Ho. induction n as [|n IH]; intros i s; cbn [check_rounds].
  - exists s, []. rewrite app_nil_r. done.
  - destruct (check_round_spec (nets i) a i s (Ho i)) as (s1 & l & E & Hp & Hl).
    destruct (IH (S i) s1) as (s2 & ls & E2 & Hp2 & Hn & Hls). exists s2, (l :: ls).
    unfold mbind, M_bind. rewrite E, E2. split; [done|]. split; [by rewrite Hp2, Hp, <- app_assoc|].
    split; [cbn; by rewrite Hn|]. intros [|j] l' Hj; [injection Hj as <-; by rewrite Nat.add_0_r|].
    rewrite Nat.add_succ_r. by apply (Hls j).
Qed.
End tool.

Lemma run_checks_spec `{Dnslib} (exn_str : exn → string) (nets : nat → string → Z → bytes → net_round)
    (a : tool_args) :
  (∀ j server port w, ordinary (nets j server port w)) →
  ∃ s ls, run_checks exn_str nets a (mkTool [] 0 0) = (s, Ret ()) ∧ printed s = header_lines a ++ ls
    ∧ length ls = Z.to_nat (arg_repeat a)
    ∧ ∀ j l, ls !! j = Some l → line_ok exn_str (nets j) a j l.
Proof.
  intros Ho. unfold run_checks.
  destruct (check_rounds_spec exn_str nets a (Z.to_nat (arg_repeat a)) (λ j w, Ho j _ _ w) 0 (mkTool (header_lines a) 0 0))
    as (s & ls & E & Hp & Hn & Hls).
  exists s, ls. split; [exact E|]. done.
Qed.

(** ** Arguments of the tool *)

(** Settings as the parser gives them. *)
Definition tool_ns (a : tool_args) : namespace :=
  <["name" := VStr (arg_name a)]> (<["type" := VStr (arg_type a)]> (<["server" := VStr (arg_server a)]>
  (<["port" := VInt (arg_port a)]> (<["repeat" := VInt (arg_repeat a)]>
  (<["timeout" := VFloat (arg_timeout a)]> defaults))))).

(** Numbers that can be given. *)
Definition tool_args_ok (a : tool_args) : Prop :=
  int_ok (arg_port a) ∧ int_ok (arg_repeat a) ∧ float_ok (arg_timeout a).

Lemma tool_ns_typed a : tool_args_ok a → typed (tool_ns a).
Proof.
  intros (Hp & Hr & Ht). unfold tool_ns. apply (positional_typed (Some "name")); [reflexivity|].
  repeat match goal with
  | |- typed_but _ (<["type" := _]> _) => apply (insert_typed _ (mkAction ["-t"; "--type"] (Store AStr None) (VStr "A")))
  | |- typed_but _ (<["server" := _]> _) => apply (insert_typed _ (str_opt "--server" (Some "127.0.0.1")))
  | |- typed_but _ (<["port" := _]> _) => apply (insert_typed _ (int_opt "--port" 5353))
  | |- typed_but _ (<["repeat" := _]> _) => apply (insert_typed _ (int_opt "--repeat" 1))
  | |- typed_but _ (<["timeout" := _]> _) =>
      apply (insert_typed _ (opt "--timeout" AFloat None (VFloat (float_of_Z 2))))
  | |- _ ∈ List.tail parser => refine (bool_decide_unpack _ _); vm_compute; exact I
  | |- has_type _ _ => done
  | |- typed_but _ defaults => exact defaults_typed
  end.
Qed.

Lemma tool_ns_args a : tool_args_of (tool_ns a) = Some a.
Proof.
  destruct a. unfold tool_args_of, str_attr, int_attr, float_attr, tool_ns. cbn [arg_name arg_type arg_server arg_port arg_repeat arg_timeout].
  by repeat (rewrite lookup_insert_eq || rewrite lookup_insert_ne by done).
Qed.

(** The attributes are there. *)
Lemma tool_args_typed ns : typed ns → ∃ a, tool_args_of ns = Some a.
Proof.
  intros Ht. destruct (proj2 (proj2 Ht) "name" eq_refl eq_refl) as [name Hn].
  destruct (attr_typed ns "timeout" Ht) as (t & Hti & _).
  destruct (proj2 (attr_typed ns "type" Ht) ltac:(by vm_compute)) as [type Hty].
  destruct (proj2 (attr_typed ns "server" Ht) ltac:(by vm_compute)) as [server Hs].
  destruct (attr_typed ns "port" Ht) as (port & Hp & _). destruct (attr_typed ns "repeat" Ht) as (rep & Hr & _).
  assert (str_attr ns "name" = Some name) as Hn' by (unfold str_attr; by rewrite Hn).
  unfold tool_args_of. rewrite Hn', Hty, Hs, Hp, Hr, Hti. by eexists.
Qed.

(** C40: The dns-check tool: whatever its arguments, it exits with status 0 or 2
    before it prints or opens anything, or it prints its header and exactly one
    line per round, in order, whatever the network does: a round whose answer
    arrived and parses is reported with its latency, response code and number
    of answers, any other with an error, which names the query type when that is
    unknown; no exception of a round ends the tool.  Every choice of settings
    can be given as arguments. *)
Theorem dns_check_correct `{Dnslib} (exn_str : exn → string) (nets : nat → string → Z → bytes → net_round)
    (argv : list string) :
  (∀ j server port w, ordinary (nets j server port w)) →
  ((∃ e, exits e ∧ main exn_str nets argv (mkTool [] 0 0) = (mkTool [] 0 0, Raise e))
   ∨ ∃ ns a s ls, parse_args argv = Ret ns ∧ tool_args_of ns = Some a
       ∧ main exn_str nets argv (mkTool [] 0 0) = (s, Ret ()) ∧ printed s = header_lines a ++ ls
       ∧ length ls = Z.to_nat (arg_repeat a)
       ∧ ∀ j l, ls !! j = Some l → line_ok exn_str (nets j) a j l)
  ∧ (∀ a, tool_args_ok a → main exn_str nets (command_line (tool_ns a)) = run_checks exn_str nets a).
Proof.
  intros Ho. split.
  - unfold main. pose proof (parse_args_gives argv) as Hp. destruct (parse_args argv) as [ns|e]; cbn in Hp.
    2:{ left. by exists e. }
    destruct (tool_args_typed ns Hp) as [a Ha]. rewrite Ha.
    right. destruct (run_checks_spec exn_str nets a Ho) as (s & ls & Hr). by exists ns, a, s, ls.
  - intros a Ha. unfold main. rewrite command_line_parses by (by apply tool_ns_typed). by rewrite tool_ns_args.
Qed.

Module dns_check_example.
Import toy.
Definition args : tool_args := mkToolArgs "example.com" "aaaa" "127.0.0.1" 5353 2 (float_of_Z 2).
(** The server echoes the first query and does not answer the second. *)
Definition nets (i : nat) (server : string) (port : Z) (wire : bytes) : net_round :=
  mkRound (Ret ()) (Ret ()) (match i with 0 => Ret wire | _ => Raise TimeoutError end) 1234567.
Definition exn_str (e : exn) : string := match e with TimeoutError => "timed out" | _ => "" end.
End dns_check_example.

(** The report, and that the socket of the round without an answer is not
    closed. *)
Lemma dns_check_output :
  let s := (run_checks dns_check_example.exn_str dns_check_example.nets dns_check_example.args (mkTool [] 0 0)).1 in
  drop 3 (printed s) = ["[1]    1.23 ms | rcode=0 | answers=0"; "[2] ERROR: timed out"]
  ∧ (opened s, closed s) = (2, 1).
Proof. vm_compute. done. Qed.

(** Options by prefix and with an attached value, the name anywhere, a missing
    name, and an ambiguous prefix. *)
Lemma dns_check_arguments :
  (∃ ns, parse_args ["--re=2"; "example.com"; "-taaaa"] = Ret ns ∧ tool_args_of ns = Some dns_check_example.args)
  ∧ parse_args ["--repeat"; "2"] = Raise (SystemExit "2")
  ∧ parse_args ["--t"; "AAAA"; "example.com"] = Raise (SystemExit "2")
  ∧ parse_args ["example.com"; "-h"] = Raise (SystemExit "0").
Proof. split; [eexists; split; vm_compute; reflexivity|]. vm_compute. done. Qed.

Lemma dns_check_correct_witness :
  main dns_check_example.exn_str dns_check_example.nets (command_line (tool_ns dns_check_example.args))
  = run_checks dns_check_example.exn_str dns_check_example.nets dns_check_example.args.
Proof.
  apply (proj2 (dns_check_correct dns_check_example.exn_str dns_check_example.nets []
    ltac:(intros j server port w e He; destruct j; destruct He as [He|[He|He]]; try discriminate He; by injection He as <-))).
  split; [apply small_int_ok; vm_compute; reflexivity|]. split; [apply small_int_ok; vm_compute; reflexivity|].
  apply float_of_Z_ok.
Defined.
